(* ===== verification/_CoqProject ===== *)
-Q . S2P
Prelude.v
Protocol.v
TcpSocket.v
RouterCore.v
TcpRouter.v
TcpDelivery.v
TcpThreads.v
Locks.v
EvlRouter.v
EvlBridge.v
EvlShared.v
Resources.v
PlatformFile.v
ServerSocket.v
CommandLine.v
Shutdown.v
EvlNames.v
Diagnostics.v
PlatformThread.v
ThreadLife.v
IpcTypes.v
TimsMailbox.v
TimsHandshake.v
EvlRegistry.v
EvlRing.v
EvlMailbox.v
EvlProcess.v
EvlRemote.v
EvlMachine.v
EvlNetwork.v
EvlObjects.v
MessageId.v
MessageRegistry.v
Logging.v
LogStream.v
LogToRouter.v
PlatformTime.v
Mailbox.v
Ownership.v
EndToEnd.v
Network.v
EvlTyped.v
NetTyped.v
BridgeTyped.v
MachineTyped.v
