(* ===== verification/Prelude.v ===== *)
(** * CoreRaT verification development

    CoreRaT is a C++20 library for messages between real-time processes, with
    two router daemons.  A program puts typed messages into a [Mailbox]
    (include/corerat/ipc/mailbox.hpp), which assigns them ids from a
    [MessageRegistry] and hands their bytes to a backend: [TimsMailbox]
    (src/tims_backend.cpp) sends them over TCP to a router, [EvlMailbox]
    (include/corerat/ipc/evl/evl_backend.hpp) posts them to a ring in the
    process, in shared memory, or in a datagram.  The daemons
    src/router/tcp_router.cpp and src/router/evl_router.cpp keep a table of
    mailboxes, forward frames between clients, peers and upstream routers, and
    (the second) between TCP and the xbuf devices of EVL.  Logging and the
    platform layer (time, threads, files) are used by all of them.

    This file is the prelude: machine integers, little-endian fields, lists,
    and the state monad with its invariant rules.  File and function names below
    are relative to the repository.

    ** The files

    Wire and sockets.
    - Protocol.v: tims/protocol.hpp.  [FrameHeader] and its 16 bytes,
      [make_frame], the body length of a frame.
    - TcpSocket.v: [send_all], [recv_all], [close], [poll_in] of
      tims/tcp_socket.hpp over an arbitrary kernel.

    Routers.
    - RouterCore.v: the code both daemons repeat ([Connection], peers,
      upstream, the registry over a class [RouteEntry] of entries), its
      events, and the invariant of the tables.
    - TcpRouter.v: [Connection::handle_frame] of tcp_router.cpp (Module Tcp),
      and its specification as steps of a directory.  TcpDelivery.v: runs of
      the daemon - relaying, peering, disconnection.  TcpThreads.v: its threads,
      call by call, in any interleaving (Module Threads).
    - EvlRouter.v: the xbuf bridge and [handle_frame] of evl_router.cpp
      (Module Evl).  EvlBridge.v: the traffic through it, and its teardown.
    - EvlShared.v: the code of evl_router.cpp that is that of tcp_router.cpp
      (Module EvlMember), and the two daemons compared.
    - Locks.v: [Mutex] and [SharedMutex] of both platforms behind an interface,
      threads that run critical sections; the registry under its shared_mutex
      (Module Registry) and the sends on a socket under its send mutex, kernel
      call by kernel call (Module Link).
    - ServerSocket.v: the listening socket, the accept loop, and the two threads
      that close it.  Shutdown.v: all threads of a daemon from the signal to the
      end of [main].
    - CommandLine.v: the option loops of both [main].

    TiMS clients.
    - IpcTypes.v: ipc_types.hpp.
    - TimsMailbox.v: every member of [TimsMailbox].
    - TimsHandshake.v: [initialize] against the router.

    EVL clients, all from evl_backend.hpp.
    - EvlRegistry.v: [registry_insert], [registry_find], [registry_remove].
    - EvlRing.v: [post], [evict_lowest], the ring read.
    - EvlMailbox.v: lifecycle, [send], [send_raw], [receive_impl] (Module EvlBox).
      EvlProcess.v: runs of a process with such mailboxes.
    - EvlRemote.v: [Mode::Public]: shared rings, the cache of remote handles,
      [post_to_remote], the xbuf and [receive_impl].  EvlMachine.v: runs of the
      public mailboxes of all processes of a machine, and the mailboxes of their
      own process, which [send_raw] looks for first.
    - EvlNetwork.v: [Mode::Network]: runs of the mailboxes of all hosts over a
      network of datagrams, as a step relation with an executable version.
    - EvlObjects.v: the descriptors, mappings and EVL objects of a mailbox, over
      Resources.v; [InbandScope].  EvlNames.v: the names of these objects and of
      those of threading_impl.hpp.  Diagnostics.v: the messages on stderr.

    Messages.
    - MessageId.v: message_id.hpp, the [WireHeader] of wire_message.hpp.
    - MessageRegistry.v: message_registry.hpp and registry_utils.hpp.
    - Mailbox.v: mailbox.hpp over the class [IpcBackend], whose laws are
      [IpcBackendSpec]; TimsMailbox is an instance.
    - EndToEnd.v: mailbox, backend, router, backend, mailbox.  Network.v: the
      same over two routers that are peers.
    - EvlTyped.v: the local EvlMailbox as a backend, and typed messages on it.
    - NetTyped.v: the network EvlMailbox as a backend, and typed messages between
      hosts.
    - BridgeTyped.v: the public EvlMailbox as a backend, and typed messages
      between it and a TiMS mailbox through corerat-router-evl.
      MachineTyped.v: typed messages between the public mailboxes of two processes.
    - Ownership.v: moves and destructors of TimsMailbox and Mailbox as owners, and
      the theorem about all owners.

    Platform.
    - Resources.v: descriptors and threads of the kernel, the ownership logic
      [keeps], the interface [Owner] with its laws, pools of owners.
    - PlatformFile.v, PlatformThread.v: [File], [TcpSocket], [Thread] of both
      platforms as owners; the system calls of a [File]; the actions of a new thread;
      [ConditionVariable].
      ThreadLife.v: threads beside the one that starts, joins and detaches them.
    - PlatformTime.v: [Duration], [Time] with its clock source, deadlines.
    - Logging.v: include/corerat/logging, the ring of [RtLogger] as a step
      machine, the stream and the sinks.  LogStream.v: its operators, and a log
      statement as a whole.  LogToRouter.v: what the bytes of [TimsSink] do to the
      router that reads them.

    ** Conventions

    A function of the source is a definition of the same name; a member that
    changes its object is a state transformer ([state S A]) or takes and
    returns the object.  Objects that are shared or referred to by pointers live
    in maps from [nat].  A [w]-bit integer is a [Z] with [wrapu w] or [wraps w]
    where the code converts or wraps; overflow that is undefined behaviour,
    and a [memcpy] outside its array, is [None].

    The outside world is never fixed: what a kernel call answers is an argument
    or a list in the state (a plan) and every theorem holds for all of them, so
    for every segmentation of a stream, every failure, every poll result and
    every choice of descriptors.  Third-party code (the sertial serialisation
    library, libevl) is a parameter with its laws as hypotheses ([codec_laws],
    the length of a byte swap, ownership of a proxy), and a witness shows an
    instance for each theorem that has such a hypothesis.

    Atomicity.  RouterCore.v, TcpRouter.v, EvlRouter.v and the theorems that run
    the daemons by [handle_event] handle one frame or one accept per event, in any
    order of connections: these are the runs in which a thread that has read a
    frame is not interrupted until it has served it.  The code promises less.  It
    holds a lock for one call only: of the registry, of [local_mailboxes_], of a
    send.  Locks.v proves that one such call is a single step (from every
    interleaving of the accesses of the threads there is a serial order of the
    calls with the same answers and the same bytes), and no more; TcpThreads.v
    lets the threads of corerat-router-tcp interleave between any two of these
    calls, shows by [dispatch_alone] that a frame served without interruption is
    the event of TcpRouter.v, and by [reachable_routes] which invariant of the
    tables is left with interruption, and a run that leaves a routed mailbox
    unadvertised.  In Shutdown.v a step is a pass of
    a thread from one blocking call to the next, in ThreadLife.v one call or one
    access to the context of a thread.  Ring operations of the EVL backend are
    atomic (ring_mutex_); its registry has no lock, and the theorems about processes are for programs that
    register one mailbox at a time ([insert_race_loses] shows why).  Elsewhere,
    where the code has no lock, a step is one shared access: the logger's ring,
    the teardown of an xbuf entry, the two threads that close the listening
    socket.

    Fuel.  [send_all] and [recv_all] get the length of the buffer, each round
    moves a byte; [receive_raw] gets one more than the bytes in the stream, each
    round that goes on reads a header; hash probes get the capacity of the table.
    Theorems show that these are enough ([transfers_exact], [receive_raw_total],
    [registry_refines_map]).  The loops of [ConditionVariable] depend on other
    threads; [condition_waits] says when they return and when they do not.  The
    digits of a 32-bit id and of a 64-bit number get 32 and 20 rounds
    ([digits_value], [command_line_roundtrip]).

    ** What is shown

    - Delivery: [typed_message_delivered] composes the whole path over TiMS,
      [message_crosses_routers] over two routers, [typed_message_in_process] over
      a ring, [typed_message_across_processes] through shared memory, [typed_message_over_network] in a datagram, [typed_message_to_evl] and
      [typed_message_from_evl] through the xbuf bridge; the parts are
      [send_receive_roundtrip], [data_frame_relayed], [handshake],
      [advertisement_learned], [shortcut_first], [visit_serialize], and the lemmas [tcp_to_xbuf_iteration], [xbuf_to_tcp] and
      [receive_raw_first_frame].
    - Concurrency: [registry_calls_serial] (readers beside readers only, a serial
      order), [frames_whole] (what is on the wire, failed sends included),
      [reachable_routes] (the tables under interleaved threads), [logger_fifo],
      [xbuf_removal_deadlock], [shutdown_completes], [thread_life].
    - Refinement and equivalence: the daemon implements a directory
      ([dispatch_refines]) and the EVL daemon without devices is the other one
      ([evl_router_without_devices]); the EVL registry implements a finite map,
      the ring a bounded priority bag ([post_refines], [ring_read_refines]), the
      handle cache an LRU cache, the log ring a bounded queue.
    - Runs of several processes or hosts: [public_messages] (no access leaves a
      ring, no message appears twice or from nowhere, xbufs in order, delivery to
      receivers of which the sender has no stale handle), [network_messages]
      (messages reach the mailbox of their id, delivery).
    - Invariants over all runs: [reachable_routes], [evl_reachable_bridge],
      [registry_never_dangles], [registry_ids_distinct], [server_lifetime],
      [resources_released_once]; [mailbox_objects_released] accounts for every
      resource of an EVL mailbox, those that are lost included.
    - Termination and errors: [transfers_exact], [receive_raw_total],
      [send_raw_spec], [stop_drain_flushes], [condition_waits].
    - Buffers: [object_names], [diagnostics_bounds].
    - Codecs and conversions: [frame_codec], [command_line_roundtrip],
      [timespec_conversions], [registry_complete], [terminal_line_read].
    - Behaviour that is probably not meant, proved of the code as it is: in
      [typed_message_to_evl], [typed_message_from_evl] and
      [typed_message_over_network] (addresses of messages), [shutdown_completes] (half a frame keeps a daemon alive),
      [mailbox_objects_released] (a failed initialize), [frames_whole] (a broken
      frame stays in the stream), [reachable_routes] (an overtaken deletion),
      [public_messages] (a handle to a former ring), [xbuf_removal_deadlock],
      [log_entry_at_router] (a log entry ends the service of a connection),
      [diagnostics_bounds] (a read past a buffer);
      and the theorems beside them
      [locals_used_after_destruction], [stop_race], [ring_unchecked_inputs],
      [early_message_taken_for_reply], [timeout_and_error_swapped],
      [oversized_frame_strands_routes], [resized_restart], [class_ignored],
      [unformatted_segment], [lowest_priority], [tims_sink_misread], [collision_check], [publish_race_misses_mailbox],
      [restart_hazards], [disconnect_leaves_advertisement],
      [upstream_frame_for_xbuf_lost], [oversized_message_desynchronises],
      [registry_exhausted], [insert_race_loses], [evl_lock_failure],
      [network_addressing], [options_out_of_range].

    ** What is not modelled

    What the kernel does with the bytes of a File; what the function given to a
    thread does; the log lines of the daemons on stdout; the selection of the
    platform and of the log level by the preprocessor; buffer sizes computed by the serialisation library; weak
    memory: atomics are sequentially consistent, relaxed loads included; in the
    logger, a control call between the exchange of [drain_running_] and the
    creation of the thread in [start_drain], or between the loads at the head of
    the drain loop, and the tearing of the copy of a slot; in TcpThreads.v, the
    data race on the plain [is_peer_] beyond the order of its accesses, a
    [close] of a socket by its reader while another thread sends on it, and
    another thread between a poll and the receipt of the header; that a read of an xbuf gives
    what one write put into it, which is a hypothesis of the theorems about the
    bridge, since an xbuf is a device of the EVL core; sends that block for ever
    (a kernel that takes no bytes is an error here); tests, examples, scripts and
    build files. *)

From Stdlib Require Import ZArith Lia.
From stdpp Require Import base list gmap numbers.

#[local] Open Scope Z_scope.

(** ** Machine integers

    A [w]-bit unsigned integer is a [Z] in [0, 2^w); [wrapu w] is the
    conversion to [uintW_t] and [wraps w] the conversion to [intW_t]
    (two's complement, as C++20 defines it). *)

Definition wrapu (w z : Z) : Z := z mod 2 ^ w.

Definition wraps (w z : Z) : Z := (z + 2 ^ (w - 1)) mod 2 ^ w - 2 ^ (w - 1).

Abbreviation u8 := (wrapu 8).
Abbreviation u16 := (wrapu 16).
Abbreviation u32 := (wrapu 32).
Abbreviation u64 := (wrapu 64).
Abbreviation s8 := (wraps 8).
Abbreviation s16 := (wraps 16).
Abbreviation s32 := (wraps 32).
Abbreviation s64 := (wraps 64).

Definition in_u (w z : Z) : Prop := 0 <= z < 2 ^ w.

Definition in_s (w z : Z) : Prop := - 2 ^ (w - 1) <= z < 2 ^ (w - 1).

#[export] Instance in_u_dec w z : Decision (in_u w z).
Proof. unfold in_u. apply _. Defined.

#[export] Instance in_s_dec w z : Decision (in_s w z).
Proof. unfold in_s. apply _. Defined.

Create HintDb machine.
Create Rewrite HintDb machine.

(** The tactic [machine] closes goals about ranges and conversions at the
    widths of the program by evaluating the powers of two. *)
Ltac eval_pow2 :=
  repeat match goal with
  | H : context [2 ^ ?w] |- _ =>
      let v := eval vm_compute in (2 ^ w) in
      match v with
      | Zpos _ => change (2 ^ w) with v in H
      end
  | |- context [2 ^ ?w] =>
      let v := eval vm_compute in (2 ^ w) in
      match v with
      | Zpos _ => change (2 ^ w) with v
      end
  end.

Ltac machine :=
  unfold in_u, in_s, wrapu, wraps in *;
  cbn [Z.sub Z.add Z.opp Z.pos_sub Pos.pred_double] in *;
  eval_pow2;
  try (Z.div_mod_to_equations; lia).

(** Closed decidable goals. *)
Ltac by_compute := apply (bool_decide_unpack _); vm_compute; exact I.

Lemma wrapu_range w z : 0 <= w -> in_u w (wrapu w z).
Proof. intros Hw. unfold in_u, wrapu. apply Z.mod_pos_bound. lia. Qed.

Lemma wrapu_id w z : in_u w z -> wrapu w z = z.
Proof. unfold in_u, wrapu. intros. apply Z.mod_small. lia. Qed.

Lemma wrapu_idemp w z : 0 <= w -> wrapu w (wrapu w z) = wrapu w z.
Proof. intros. apply wrapu_id, wrapu_range. done. Qed.

Lemma wraps_range w z : 0 < w -> in_s w (wraps w z).
Proof.
  intros Hw. unfold in_s, wraps.
  assert (2 ^ w = 2 * 2 ^ (w - 1)) as E.
  { replace w with (1 + (w - 1)) at 1 by lia. rewrite Z.pow_add_r; lia. }
  pose proof (Z.pow_pos_nonneg 2 (w - 1)).
  pose proof (Z.mod_pos_bound (z + 2 ^ (w - 1)) (2 ^ w)). lia.
Qed.

Lemma wraps_id w z : 0 < w -> in_s w z -> wraps w z = z.
Proof.
  intros Hw. unfold in_s, wraps. intros.
  assert (2 ^ w = 2 * 2 ^ (w - 1)) as E.
  { replace w with (1 + (w - 1)) at 1 by lia. rewrite Z.pow_add_r; lia. }
  rewrite Z.mod_small by lia. lia.
Qed.

(** Reinterpreting the bits as signed and back loses nothing, and the other
    way round. *)
Lemma wrapu_wraps w z : 0 < w -> wrapu w (wraps w z) = wrapu w z.
Proof.
  intros Hw. unfold wrapu, wraps.
  rewrite Zminus_mod, Zmod_mod, <- Zminus_mod. f_equal. lia.
Qed.

Lemma wraps_wrapu w z : 0 < w -> wraps w (wrapu w z) = wraps w z.
Proof.
  intros Hw. unfold wrapu, wraps. by rewrite Zplus_mod_idemp_l.
Qed.

#[export] Hint Resolve wrapu_range wraps_range : machine.
#[export] Hint Rewrite wrapu_wraps wraps_wrapu using lia : machine.

(** ** Bytes and little-endian fields

    A byte is a [Z] in [0, 256).  The program runs on little-endian targets,
    where [memcpy] of a [uint32_t] or [uint64_t] is [le_bytes 4] or
    [le_bytes 8]. *)

Abbreviation bytes := (list Z).

Definition is_byte (b : Z) : Prop := 0 <= b < 256.

#[export] Instance is_byte_dec b : Decision (is_byte b).
Proof. unfold is_byte. apply _. Defined.

Fixpoint le_bytes (n : nat) (z : Z) : bytes :=
  match n with
  | O => []
  | S n => z mod 256 :: le_bytes n (z / 256)
  end.

Fixpoint le_val (bs : bytes) : Z :=
  match bs with
  | [] => 0
  | b :: bs => b + 256 * le_val bs
  end.

(** [field off n bs]: the little-endian integer stored at offset [off]. *)
Definition field (off n : nat) (bs : bytes) : Z := le_val (take n (drop off bs)).

Lemma length_le_bytes n z : length (le_bytes n z) = n.
Proof. revert z. induction n; intros z; simpl; auto. Qed.

Lemma le_bytes_bytes n z : Forall is_byte (le_bytes n z).
Proof.
  revert z. induction n as [|n IH]; intros z; simpl; constructor; auto.
  unfold is_byte. apply Z.mod_pos_bound. lia.
Qed.

Lemma pow256_succ n : 256 ^ Z.of_nat (S n) = 256 * 256 ^ Z.of_nat n.
Proof. rewrite Nat2Z.inj_succ, Z.pow_succ_r; lia. Qed.

Lemma le_val_le_bytes n z : le_val (le_bytes n z) = z mod 256 ^ Z.of_nat n.
Proof.
  revert z. induction n as [|n IH]; intros z; simpl.
  - change (256 ^ Z.of_nat 0) with 1. by rewrite Z.mod_1_r.
  - rewrite IH, pow256_succ.
    rewrite Z.rem_mul_r; [done|lia|]. apply Z.pow_pos_nonneg; lia.
Qed.

Lemma le_val_range bs :
  Forall is_byte bs -> 0 <= le_val bs < 256 ^ Z.of_nat (length bs).
Proof.
  unfold is_byte. induction 1 as [|b bs Hb _ IH]; cbn [le_val length]; [lia|].
  rewrite pow256_succ. lia.
Qed.

Lemma le_bytes_le_val bs : Forall is_byte bs -> le_bytes (length bs) (le_val bs) = bs.
Proof.
  unfold is_byte. induction 1 as [|b bs Hb Hbs IH]; simpl; [done|].
  rewrite (Z.mul_comm 256 (le_val bs)), Z.mod_add, Z.div_add, Z.mod_small, Z.div_small by lia.
  by rewrite Z.add_0_l, IH.
Qed.

Lemma le_val_4 z : in_u 32 z -> le_val (le_bytes 4 z) = z.
Proof.
  unfold in_u. intros. rewrite le_val_le_bytes. change (256 ^ Z.of_nat 4) with (2 ^ 32).
  by apply Z.mod_small.
Qed.

Lemma le_val_8 z : in_u 64 z -> le_val (le_bytes 8 z) = z.
Proof.
  unfold in_u. intros. rewrite le_val_le_bytes. change (256 ^ Z.of_nat 8) with (2 ^ 64).
  by apply Z.mod_small.
Qed.

#[export] Hint Resolve le_bytes_bytes : machine.
#[export] Hint Rewrite length_le_bytes : machine.

(** ** Lists *)

Lemma take_length_app {A} (l k : list A) n : n = length l -> take n (l ++ k) = l.
Proof. intros ->. by rewrite take_app_length. Qed.

Lemma drop_length_app {A} (l k : list A) n : n = length l -> drop n (l ++ k) = k.
Proof. intros ->. by rewrite drop_app_length. Qed.

(** The number of elements as a [Z]. *)
Definition zlen {A} (l : list A) : Z := Z.of_nat (length l).

Lemma zlen_nonneg {A} (l : list A) : 0 <= zlen l.
Proof. unfold zlen. lia. Qed.

#[export] Hint Resolve zlen_nonneg : machine.

(** ** State passing

    [state S A]: a computation that threads a program state [S], with stdpp's
    monad notations ([x <- m; k] is written [x ← m; k]). *)

Definition state (S A : Type) : Type := S -> A * S.

#[export] Instance state_ret {S} : MRet (state S) := fun A a s => (a, s).

#[export] Instance state_bind {S} : MBind (state S) :=
  fun A B f m s => let '(a, s') := m s in f a s'.

Definition get_state {S} : state S S := fun s => (s, s).

Definition modify {S} (f : S -> S) : state S unit := fun s => (tt, f s).

(** [for (auto x : l) f(x);] *)
Fixpoint for_each {S A} (l : list A) (f : A -> state S unit) : state S unit :=
  match l with
  | [] => mret tt
  | x :: l => f x ≫= fun _ => for_each l f
  end.

Lemma bind_eq {S A B} (m : state S A) (f : A -> state S B) s :
  (m ≫= f) s = f (m s).1 (m s).2.
Proof. unfold mbind, state_bind. by destruct (m s). Qed.

Lemma bind_step {S A B} (m : state S A) (f : A -> state S B) s a s' :
  m s = (a, s') -> (m ≫= f) s = f a s'.
Proof. intros E. by rewrite bind_eq, E. Qed.

Lemma ret_eq {S A} (a : A) (s : S) : (mret a : state S A) s = (a, s).
Proof. done. Qed.

(** An invariant kept by a computation; compositional, so that an invariant of
    a handler follows from the invariants of the calls it makes. *)
Definition preserves {S A} (I : S -> Prop) (m : state S A) : Prop :=
  forall s, I s -> I (m s).2.

Lemma preserves_ret {S A} (I : S -> Prop) (a : A) : preserves I (mret a).
Proof. intros s Hs. done. Qed.

Lemma preserves_bind {S A B} (I : S -> Prop) (m : state S A) (f : A -> state S B) :
  preserves I m -> (forall a, preserves I (f a)) -> preserves I (m ≫= f).
Proof. intros Hm Hf s Hs. rewrite bind_eq. by apply Hf, Hm. Qed.

Lemma preserves_if {S A} (I : S -> Prop) (b : bool) (m1 m2 : state S A) :
  preserves I m1 -> preserves I m2 -> preserves I (if b then m1 else m2).
Proof. by destruct b. Qed.

Lemma preserves_get {S} (I : S -> Prop) : preserves I get_state.
Proof. intros s Hs. done. Qed.

Lemma preserves_modify {S} (I : S -> Prop) f :
  (forall s, I s -> I (f s)) -> preserves I (modify f).
Proof. intros Hf s Hs. by apply Hf. Qed.

Lemma preserves_for_each {S A} (I : S -> Prop) (l : list A) (f : A -> state S unit) :
  (forall x, x ∈ l -> preserves I (f x)) -> preserves I (for_each l f).
Proof.
  induction l as [|x l IH]; intros Hf; cbn [for_each]; [apply preserves_ret|].
  apply preserves_bind; [apply Hf; left|]. intros _. apply IH. intros. apply Hf. by right.
Qed.

Create HintDb preserves.
#[export] Hint Resolve preserves_ret preserves_bind preserves_if preserves_get
  preserves_for_each : preserves.
