(* ===== verification/Protocol.v ===== *)
(** * TiMS router wire protocol

    Models include/corerat/ipc/tims/protocol.hpp: the message-type constants,
    the packed 16-byte [FrameHeader], the 4-byte [MbxInitPayload] and
    [make_frame].  [encode_frame] and [decode_frame] are what
    [send_all(&hdr, sizeof(hdr))] puts on the wire and what
    [recv_all(&frame, sizeof(frame))] reads back on a little-endian target.
    [frame_body_len] is the computation every reader of frames repeats. *)

From Stdlib Require Import ZArith Lia.
From stdpp Require Import base list gmap numbers.
From S2P Require Import Prelude.

#[local] Open Scope Z_scope.

Definition MSG_OK : Z := 0.
Definition MSG_ERROR : Z := -1.
Definition MSG_ROUTER_MBX_INIT_WITH_REPLY : Z := 13.
Definition MSG_ROUTER_MBX_DELETE : Z := 14.
Definition MSG_ROUTER_GET_STATUS : Z := 17.
Definition MSG_ROUTER_DISABLE_WATCHDOG : Z := 19.
Definition MSG_ROUTER_PEER_HELLO : Z := 20.
Definition MSG_ROUTER_PEER_REGISTER : Z := 21.
Definition MSG_ROUTER_PEER_DELETE : Z := 22.

Definition FRAME_LE_FLAG : Z := 3.

Record FrameHeader := mkFrame {
  f_flags : Z;      (* uint8_t *)
  f_type : Z;       (* int8_t *)
  f_priority : Z;   (* uint8_t *)
  f_seq_nr : Z;     (* uint8_t *)
  f_dest : Z;       (* uint32_t *)
  f_src : Z;        (* uint32_t *)
  f_msglen : Z      (* uint32_t *)
}.

#[export] Instance FrameHeader_eq_dec : EqDecision FrameHeader.
Proof. solve_decision. Defined.

(** [sizeof(FrameHeader)] and [sizeof(MbxInitPayload)]. *)
Definition sizeof_FrameHeader : Z := 16.
Definition sizeof_MbxInitPayload : Z := 4.

Definition wf_frame (h : FrameHeader) : Prop :=
  in_u 8 (f_flags h) /\ in_s 8 (f_type h) /\ in_u 8 (f_priority h) /\
  in_u 8 (f_seq_nr h) /\ in_u 32 (f_dest h) /\ in_u 32 (f_src h) /\
  in_u 32 (f_msglen h).

#[export] Instance wf_frame_dec h : Decision (wf_frame h).
Proof. unfold wf_frame. apply _. Defined.

(** The parameters have the C++ types of the declaration; the conversions to
    those types happen at the call, the addition wraps. *)
Definition make_frame (type dest src priority seq body_len : Z) : FrameHeader :=
  mkFrame FRAME_LE_FLAG type priority seq dest src
          (u32 (sizeof_FrameHeader + body_len)).

Definition encode_frame (h : FrameHeader) : bytes :=
  [u8 (f_flags h); u8 (f_type h); u8 (f_priority h); u8 (f_seq_nr h)]
  ++ le_bytes 4 (f_dest h) ++ le_bytes 4 (f_src h) ++ le_bytes 4 (f_msglen h).

Definition decode_frame (bs : bytes) : FrameHeader :=
  mkFrame (field 0 1 bs) (s8 (field 1 1 bs)) (field 2 1 bs) (field 3 1 bs)
          (field 4 4 bs) (field 8 4 bs) (field 12 4 bs).

(** [MbxInitPayload { uint32_t mbx; }] *)
Definition encode_mbx (mbx : Z) : bytes := le_bytes 4 mbx.
Definition decode_mbx (bs : bytes) : Z := field 0 4 bs.

(** [(frame.msglen > sizeof(FrameHeader)) ? frame.msglen - sizeof(FrameHeader) : 0u] *)
Definition frame_body_len (h : FrameHeader) : Z :=
  if sizeof_FrameHeader <? f_msglen h then f_msglen h - sizeof_FrameHeader else 0.

(** ** Lemmas *)

Lemma length_encode_frame h : length (encode_frame h) = 16%nat.
Proof. unfold encode_frame. by rewrite !length_app, !length_le_bytes. Qed.

Lemma length_encode_mbx m : length (encode_mbx m) = 4%nat.
Proof. apply length_le_bytes. Qed.

Lemma encode_frame_bytes h : Forall is_byte (encode_frame h).
Proof.
  unfold encode_frame. repeat apply Forall_app_2; auto with machine.
  repeat constructor; apply (wrapu_range 8); lia.
Qed.

Lemma decode_encode_frame h : wf_frame h -> decode_frame (encode_frame h) = h.
Proof.
  destruct h as [fl ty pr sq de sr ml]. unfold wf_frame.
  cbn [f_flags f_type f_priority f_seq_nr f_dest f_src f_msglen].
  intros (Hfl & Hty & Hpr & Hsq & Hde & Hsr & Hml).
  unfold decode_frame, encode_frame.
  cbn [f_flags f_type f_priority f_seq_nr f_dest f_src f_msglen].
  f_equal; unfold field; cbn [le_bytes app take drop le_val].
  5: by apply (le_val_4 de). 5: by apply (le_val_4 sr). 5: by apply (le_val_4 ml).
  all: rewrite Z.mul_0_r, Z.add_0_r, ?wraps_wrapu by lia.
  all: first [ by apply wrapu_id | by apply wraps_id ].
Qed.

Lemma encode_decode_frame bs :
  length bs = 16%nat -> Forall is_byte bs -> encode_frame (decode_frame bs) = bs.
Proof.
  intros Hlen Hb.
  do 17 (destruct bs as [|? bs]; try discriminate Hlen).
  rewrite !Forall_cons_iff in Hb. destruct_and! Hb.
  unfold encode_frame, decode_frame, field. cbn [f_flags f_type f_priority f_seq_nr f_dest f_src f_msglen].
  rewrite wrapu_wraps by lia.
  cbn [take drop le_val skipn firstn]. rewrite !Z.mul_0_r, !Z.add_0_r.
  unfold is_byte in *. rewrite !(wrapu_id 8) by (unfold in_u; lia).
  repeat match goal with
  | |- context [le_bytes 4 (?a + 256 * (?b + 256 * (?c + 256 * ?d)))] =>
      let H := fresh in
      pose proof (le_bytes_le_val [a; b; c; d]) as H; cbn [length le_val] in H;
      rewrite !Z.mul_0_r, !Z.add_0_r in H;
      rewrite H by (unfold is_byte; repeat constructor; lia); clear H
  end.
  done.
Qed.

Lemma decode_frame_wf bs :
  length bs = 16%nat -> Forall is_byte bs -> wf_frame (decode_frame bs).
Proof.
  intros Hlen Hb.
  assert (forall off n, Forall is_byte (take n (drop off bs))) as Hsub.
  { intros. by apply Forall_take, Forall_drop. }
  assert (forall off n, (off + n <= 16)%nat -> 0 <= field off n bs < 256 ^ Z.of_nat n) as Hf.
  { intros off n Hn. unfold field.
    pose proof (le_val_range _ (Hsub off n)) as H. rewrite length_take, length_drop in H.
    replace (n `min` (length bs - off))%nat with n in H by lia. done. }
  unfold wf_frame, decode_frame. cbn [f_flags f_type f_priority f_seq_nr f_dest f_src f_msglen].
  repeat split; try apply (wraps_range 8); try lia;
    first [ apply (Hf 0%nat 1%nat) | apply (Hf 2%nat 1%nat) | apply (Hf 3%nat 1%nat)
          | apply (Hf 4%nat 4%nat) | apply (Hf 8%nat 4%nat) | apply (Hf 12%nat 4%nat) ]; lia.
Qed.

Lemma decode_encode_mbx m rest : in_u 32 m -> decode_mbx (encode_mbx m ++ rest) = m.
Proof.
  intros Hm. unfold decode_mbx, encode_mbx, field. rewrite drop_0.
  rewrite take_length_app by by rewrite length_le_bytes. by apply le_val_4.
Qed.

Lemma make_frame_wf type dest src priority seq body_len :
  in_s 8 type -> in_u 32 dest -> in_u 32 src -> in_u 8 priority -> in_u 8 seq ->
  wf_frame (make_frame type dest src priority seq body_len).
Proof.
  intros. unfold wf_frame, make_frame. cbn [f_flags f_type f_priority f_seq_nr f_dest f_src f_msglen].
  repeat split; try (by apply (wrapu_range 32)); try done; unfold in_s, in_u in *; lia.
Qed.

Lemma frame_body_len_make type dest src priority seq n :
  0 <= n < 2 ^ 32 - 16 ->
  frame_body_len (make_frame type dest src priority seq n) = n.
Proof.
  intros Hn. unfold frame_body_len, make_frame. cbn [f_msglen].
  unfold sizeof_FrameHeader. rewrite wrapu_id by (unfold in_u; lia).
  case_match; lia.
Qed.

Lemma frame_body_len_range h : in_u 32 (f_msglen h) -> 0 <= frame_body_len h < 2 ^ 32 - 16.
Proof.
  unfold in_u, frame_body_len, sizeof_FrameHeader. intros. case_match; lia.
Qed.

#[export] Hint Resolve decode_encode_frame encode_frame_bytes make_frame_wf : machine.
#[export] Hint Rewrite length_encode_frame length_encode_mbx : machine.

(** The frame header is exactly 16 bytes and its encoding is a bijection
    between the headers whose fields fit their C++ types and the 16-byte
    strings, so a router that relays a header unchanged relays every field; and
    the body length a reader computes is the one given to [make_frame], for every
    body that leaves room for the header in 32 bits. *)
Theorem frame_codec :
  (forall h, wf_frame h ->
     length (encode_frame h) = 16%nat /\ Forall is_byte (encode_frame h) /\
     decode_frame (encode_frame h) = h) /\
  (forall bs, length bs = 16%nat -> Forall is_byte bs ->
     wf_frame (decode_frame bs) /\ encode_frame (decode_frame bs) = bs) /\
  (forall type dest src priority seq n, 0 <= n ->
     frame_body_len (make_frame type dest src priority seq n) = n <-> n < 2 ^ 32 - 16).
Proof.
  split_and!.
  - intros h Hh. split_and!; [apply length_encode_frame|apply encode_frame_bytes|by apply decode_encode_frame].
  - intros bs Hl Hb. split; [by apply decode_frame_wf|by apply encode_decode_frame].
  - intros type dest src priority seq n Hn. split.
    + intros Hb. assert (in_u 32 (f_msglen (make_frame type dest src priority seq n))) as Hr
        by (apply (wrapu_range 32); lia).
      apply frame_body_len_range in Hr. lia.
    + intros. apply frame_body_len_make. lia.
Qed.
