(* ===== verification/TcpSocket.v ===== *)
(** * TcpSocket: blocking send and receive of exact lengths

    Models include/corerat/ipc/tims/tcp_socket.hpp.  A socket value carries
    what the kernel does with it: [sk_tx] is every byte the kernel has accepted
    for sending, [sk_rx] every byte the remote side will still deliver before
    it closes, and [sk_send_plan] / [sk_recv_plan] are the return values the
    kernel gives to the next [::send] / [::recv] calls (short counts, zero,
    negative errors; an exhausted plan means that calls transfer all they can).
    The plans are arbitrary, so a theorem about a socket holds for every
    segmentation of the stream and every failure point. *)

From Stdlib Require Import ZArith Lia.
From stdpp Require Import base list gmap numbers.
From S2P Require Import Prelude.

#[local] Open Scope Z_scope.

Record TcpSocket := mkSock {
  sk_fd : Z;
  sk_tx : bytes;
  sk_send_plan : list Z;
  sk_rx : bytes;
  sk_recv_plan : list Z
}.

(** [TcpSocket() = default], [TcpSocket(int fd)] around a fresh kernel stream. *)
Definition sock_closed : TcpSocket := mkSock (-1) [] [] [] [].

Definition sock_of_fd (fd : Z) (rx : bytes) (send_plan recv_plan : list Z) : TcpSocket :=
  mkSock fd [] send_plan rx recv_plan.

Definition sock_is_open (s : TcpSocket) : bool := 0 <=? sk_fd s.

Definition sock_close (s : TcpSocket) : TcpSocket :=
  if 0 <=? sk_fd s
  then mkSock (-1) (sk_tx s) (sk_send_plan s) (sk_rx s) (sk_recv_plan s)
  else s.

(** ** The system calls

    [::send] and [::recv] on a bad descriptor fail with -1.  A positive answer
    never exceeds the requested count; [::recv] answers 0 at end of stream. *)

Definition sys_send (s : TcpSocket) (p : bytes) : Z * TcpSocket :=
  if sk_fd s <? 0 then (-1, s)
  else match sk_send_plan s with
  | [] => (zlen p, mkSock (sk_fd s) (sk_tx s ++ p) [] (sk_rx s) (sk_recv_plan s))
  | r :: plan =>
      if r <=? 0
      then (r, mkSock (sk_fd s) (sk_tx s) plan (sk_rx s) (sk_recv_plan s))
      else let n := Z.min r (zlen p) in
           (n, mkSock (sk_fd s) (sk_tx s ++ take (Z.to_nat n) p) plan (sk_rx s) (sk_recv_plan s))
  end.

Definition sys_recv (s : TcpSocket) (len : Z) : Z * bytes * TcpSocket :=
  if sk_fd s <? 0 then (-1, [], s)
  else
    let avail := Z.min len (zlen (sk_rx s)) in
    let deliver n plan :=
      (n, take (Z.to_nat n) (sk_rx s),
       mkSock (sk_fd s) (sk_tx s) (sk_send_plan s) (drop (Z.to_nat n) (sk_rx s)) plan) in
    match sk_recv_plan s with
    | [] => deliver avail []
    | r :: plan =>
        if r <=? 0
        then (r, [], mkSock (sk_fd s) (sk_tx s) (sk_send_plan s) (sk_rx s) plan)
        else deliver (Z.min r avail) plan
    end.

(** ** The loops

    Each iteration that does not return transfers at least one byte, so
    [length] of the remaining data is enough fuel; [None] means that the fuel
    ran out, which [send_all_loop_spec] and [recv_all_loop_spec] exclude. *)

Fixpoint send_all_loop (fuel : nat) (s : TcpSocket) (buf : bytes) (sent : Z)
  : option (bool * TcpSocket) :=
  if sent <? zlen buf then
    match fuel with
    | O => None
    | S fuel =>
        let '(n, s) := sys_send s (drop (Z.to_nat sent) buf) in
        if n <=? 0 then Some (false, s)
        else send_all_loop fuel s buf (sent + n)
    end
  else Some (true, s).

Definition send_all (s : TcpSocket) (buf : bytes) : bool * TcpSocket :=
  default (false, s) (send_all_loop (length buf) s buf 0).

Fixpoint recv_all_loop (fuel : nat) (s : TcpSocket) (len got : Z) (acc : bytes)
  : option (bool * bytes * TcpSocket) :=
  if got <? len then
    match fuel with
    | O => None
    | S fuel =>
        let '(n, bs, s) := sys_recv s (len - got) in
        if n <=? 0 then Some (false, acc, s)
        else recv_all_loop fuel s len (got + n) (acc ++ bs)
    end
  else Some (true, acc, s).

(** [recv_all(buf, len)]: success flag, the bytes written to [buf], socket. *)
Definition recv_all (s : TcpSocket) (len : Z) : bool * bytes * TcpSocket :=
  default (false, [], s) (recv_all_loop (Z.to_nat len) s len 0 []).

(** [poll_in]: the kernel's answer is an argument, except on a closed socket,
    where [::poll] ignores the negative descriptor and times out with 0. *)
Definition poll_in (s : TcpSocket) (answer : Z) : Z :=
  if sk_fd s <? 0 then 0 else answer.

(** A kernel that never reports an error on this socket. *)
Definition no_send_error (s : TcpSocket) : Prop :=
  0 <= sk_fd s /\ Forall (fun r => 0 < r) (sk_send_plan s).

Definition no_recv_error (s : TcpSocket) : Prop :=
  0 <= sk_fd s /\ Forall (fun r => 0 < r) (sk_recv_plan s).

#[export] Instance no_send_error_dec s : Decision (no_send_error s).
Proof. unfold no_send_error. apply _. Defined.

#[export] Instance no_recv_error_dec s : Decision (no_recv_error s).
Proof. unfold no_recv_error. apply _. Defined.

(** ** Frame conditions

    [sent_on s s' out]: between [s] and [s'] exactly [out] was accepted by the
    kernel; [received_on s s' n]: exactly [n] bytes were taken from it. *)

Definition sent_on (s s' : TcpSocket) (out : bytes) : Prop :=
  sk_fd s' = sk_fd s /\ sk_tx s' = sk_tx s ++ out /\
  sk_rx s' = sk_rx s /\ sk_recv_plan s' = sk_recv_plan s.

Definition received_on (s s' : TcpSocket) (n : nat) : Prop :=
  sk_fd s' = sk_fd s /\ sk_rx s' = drop n (sk_rx s) /\ (n <= length (sk_rx s))%nat /\
  sk_tx s' = sk_tx s /\ sk_send_plan s' = sk_send_plan s.

Lemma sent_on_nil s : sent_on s s [].
Proof. unfold sent_on. by rewrite app_nil_r. Qed.

Lemma sent_on_trans s1 s2 s3 o1 o2 :
  sent_on s1 s2 o1 -> sent_on s2 s3 o2 -> sent_on s1 s3 (o1 ++ o2).
Proof.
  unfold sent_on. intros (?&?&?&?) (?&?&?&?).
  split_and!; try congruence. rewrite app_assoc. congruence.
Qed.

Lemma received_on_0 s : received_on s s 0.
Proof. unfold received_on. rewrite drop_0. split_and!; try done. lia. Qed.

Lemma received_on_trans s1 s2 s3 n1 n2 :
  received_on s1 s2 n1 -> received_on s2 s3 n2 -> received_on s1 s3 (n1 + n2).
Proof.
  unfold received_on. intros (?&E&?&?&?) (?&E'&Hn&?&?).
  rewrite E, drop_drop in E'. rewrite E, length_drop in Hn.
  split_and!; try congruence. lia.
Qed.

Lemma nonempty_zlen {A} (l : list A) : l <> [] -> 0 < zlen l.
Proof. destruct l; unfold zlen; cbn; [done|lia]. Qed.

Ltac split_sock := cbn; split_and?; try done; try lia; try (by rewrite app_nil_r).

Lemma sys_send_spec s p :
  exists n s' k, sys_send s p = (n, s') /\ sent_on s s' (take k p) /\
    (k <= length p)%nat /\ (n <= 0 /\ k = 0%nat \/ 0 < n /\ n = Z.of_nat k) /\
    (no_send_error s -> p <> [] -> 0 < n) /\ (no_send_error s -> no_send_error s').
Proof.
  unfold sys_send, no_send_error, sent_on. destruct s as [fd tx sp rx rp].
  cbn [sk_fd sk_tx sk_send_plan sk_rx sk_recv_plan].
  pose proof (nonempty_zlen p) as Hp. pose proof (zlen_nonneg p).
  destruct (Z.ltb_spec fd 0) as [Hfd|Hfd].
  { exists (-1), (mkSock fd tx sp rx rp), 0%nat. split_sock; intros [??]; lia. }
  destruct sp as [|r plan].
  { exists (zlen p), (mkSock fd (tx ++ p) [] rx rp), (length p).
    unfold zlen in *. rewrite firstn_all. split_sock; auto. }
  destruct (Z.leb_spec r 0) as [Hr|Hr].
  { exists r, (mkSock fd tx plan rx rp), 0%nat.
    split_sock; intros [_ Hpl]; inversion Hpl; split_sock. }
  exists (Z.min r (zlen p)),
    (mkSock fd (tx ++ take (Z.to_nat (Z.min r (zlen p))) p) plan rx rp),
    (Z.to_nat (Z.min r (zlen p))).
  split_sock; try (unfold zlen in *; lia).
  - intros _ Hne. specialize (Hp Hne). lia.
  - intros [_ Hpl]; inversion Hpl; split_sock.
Qed.

Lemma sys_recv_spec s len :
  0 < len ->
  exists n bs s' k, sys_recv s len = (n, bs, s') /\ received_on s s' k /\
    bs = take k (sk_rx s) /\ Z.of_nat k <= len /\
    (n <= 0 /\ k = 0%nat \/ 0 < n /\ n = Z.of_nat k) /\
    (no_recv_error s -> sk_rx s <> [] -> 0 < n) /\ (no_recv_error s -> no_recv_error s').
Proof.
  intros Hlen. unfold sys_recv, no_recv_error, received_on. destruct s as [fd tx sp rx rp].
  cbn [sk_fd sk_tx sk_send_plan sk_rx sk_recv_plan].
  pose proof (nonempty_zlen rx) as Hp. pose proof (zlen_nonneg rx) as Hz.
  destruct (Z.ltb_spec fd 0) as [Hfd|Hfd].
  { exists (-1), [], (mkSock fd tx sp rx rp), 0%nat.
    split_sock; intros [??]; lia. }
  destruct rp as [|r plan].
  { eexists _, _, _, (Z.to_nat (Z.min len (zlen rx))). split; [done|].
    split_sock; try (unfold zlen in *; lia).
    intros _ Hne. specialize (Hp Hne). lia. }
  destruct (Z.leb_spec r 0) as [Hr|Hr].
  { exists r, [], (mkSock fd tx sp rx plan), 0%nat.
    split_sock; intros [_ Hpl]; inversion Hpl; split_sock. }
  eexists _, _, _, (Z.to_nat (Z.min r (Z.min len (zlen rx)))). split; [done|].
  split_sock; try (unfold zlen in *; lia).
  - intros _ Hne. specialize (Hp Hne). lia.
  - intros [_ Hpl]; inversion Hpl; split_sock.
Qed.

(** ** The loops terminate within their fuel and do what they promise *)

Lemma take_drop_compose (l : bytes) a j k :
  take j (drop a l) ++ take k (drop (a + j) l) = take (j + k) (drop a l).
Proof. by rewrite <- drop_drop, <- take_take_drop. Qed.

Lemma send_all_loop_spec fuel s buf (sent : nat) :
  zlen buf - Z.of_nat sent <= Z.of_nat fuel ->
  exists ok s' k, send_all_loop fuel s buf (Z.of_nat sent) = Some (ok, s') /\
    sent_on s s' (take k (drop sent buf)) /\ (k <= length buf - sent)%nat /\
    ok = bool_decide (length buf - sent <= k)%nat /\
    (no_send_error s -> ok = true /\ no_send_error s').
Proof.
  revert s sent. induction fuel as [|fuel IH]; intros s sent Hfuel; cbn [send_all_loop].
  all: destruct (Z.ltb_spec (Z.of_nat sent) (zlen buf)) as [Hlt|Hge]; unfold zlen in *; [|
    exists true, s, 0%nat; cbn; split_and!; auto using sent_on_nil; try lia;
    symmetry; apply bool_decide_eq_true; lia].
  { lia. }
  rewrite Nat2Z.id.
  destruct (sys_send_spec s (drop sent buf)) as (n&s1&j&->&Hs1&Hj&Hn&Hpos&Hne).
  rewrite length_drop in Hj.
  assert (drop sent buf <> []) as Hnn.
  { intros E. apply (f_equal length) in E. rewrite length_drop in E. cbn in E. lia. }
  destruct (Z.leb_spec n 0) as [Hn0|Hn0].
  { destruct Hn as [[_ ->]|?]; [|lia].
    exists false, s1, 0%nat. split_and!; auto; try lia; try (symmetry; apply bool_decide_eq_false; lia).
    intros He. specialize (Hpos He Hnn). lia. }
  destruct Hn as [?|[_ ->]]; [lia|].
  rewrite <- Nat2Z.inj_add.
  destruct (IH s1 (sent + j)%nat) as (ok&s2&k&->&Hs2&Hk&->&Hok); [lia|].
  exists (bool_decide (length buf - (sent + j) <= k)%nat), s2, (j + k)%nat. split_and!; [done| |lia| |tauto].
  - rewrite <- take_drop_compose. by eapply sent_on_trans.
  - apply bool_decide_ext. lia.
Qed.

Lemma recv_all_loop_spec fuel s (len got : nat) acc :
  Z.of_nat len - Z.of_nat got <= Z.of_nat fuel ->
  exists ok s' k, recv_all_loop fuel s (Z.of_nat len) (Z.of_nat got) acc
      = Some (ok, acc ++ take k (sk_rx s), s') /\
    received_on s s' k /\ (k <= len - got)%nat /\
    ok = bool_decide (len - got <= k)%nat /\
    (no_recv_error s -> (len - got <= length (sk_rx s))%nat -> ok = true) /\
    (no_recv_error s -> no_recv_error s').
Proof.
  revert s got acc. induction fuel as [|fuel IH]; intros s got acc Hfuel; cbn [recv_all_loop].
  all: destruct (Z.ltb_spec (Z.of_nat got) (Z.of_nat len)) as [Hlt|Hge]; [|
    exists true, s, 0%nat; cbn; split_and!; auto using received_on_0; try lia; try (by rewrite app_nil_r);
    symmetry; apply bool_decide_eq_true; lia].
  { lia. }
  destruct (sys_recv_spec s (Z.of_nat len - Z.of_nat got)) as (n&bs&s1&j&->&Hs1&->&Hj&Hn&Hpos&Hne); [lia|].
  destruct (Z.leb_spec n 0) as [Hn0|Hn0].
  { destruct Hn as [[_ ->]|?]; [|lia].
    exists false, s1, 0%nat. rewrite take_0, app_nil_r.
    split_and!; auto; try lia; try (symmetry; apply bool_decide_eq_false; lia).
    intros He Hle. assert (0 < n); [|lia]. apply Hpos; [done|].
    intros E. rewrite E in Hle. cbn in Hle. lia. }
  destruct Hn as [?|[_ ->]]; [lia|].
  rewrite <- Nat2Z.inj_add.
  destruct Hs1 as (Hfd&Hrx&Hlen&Htx&Hsp).
  destruct (IH s1 (got + j)%nat (acc ++ take j (sk_rx s))) as (ok&s2&k&->&Hs2&Hk&->&Hok&Hok'); [lia|].
  exists (bool_decide (len - (got + j) <= k)%nat), s2, (j + k)%nat. rewrite Hrx in *.
  split_and!; [| |lia| | |tauto].
  - rewrite <- app_assoc. do 3 f_equal. pose proof (take_drop_compose (sk_rx s) 0 j k) as E.
    rewrite drop_0, Nat.add_0_l in E. by rewrite E.
  - eapply received_on_trans; [|done]. unfold received_on. by rewrite Hrx.
  - apply bool_decide_ext. lia.
  - intros He Hle. apply Hok; [by apply Hne|]. rewrite length_drop. lia.
Qed.

Lemma send_all_spec s buf :
  exists k, sent_on s (send_all s buf).2 (take k buf) /\ (k <= length buf)%nat /\
    (send_all s buf).1 = bool_decide (length buf <= k)%nat /\
    (no_send_error s -> (send_all s buf).1 = true /\ no_send_error (send_all s buf).2).
Proof.
  unfold send_all.
  destruct (send_all_loop_spec (length buf) s buf 0) as (ok&s'&k&E&Hs&Hk&->&Hok);
    [unfold zlen; lia|].
  change (Z.of_nat 0) with 0 in E. rewrite E. cbn [default from_option id fst snd].
  rewrite drop_0 in Hs. rewrite Nat.sub_0_r in *. eauto 10.
Qed.

(** With an error-free kernel the whole buffer goes out. *)
Lemma send_all_ok s buf :
  no_send_error s ->
  exists s', send_all s buf = (true, s') /\ sent_on s s' buf /\ no_send_error s'.
Proof.
  intros Hs. destruct (send_all_spec s buf) as (k&Hk&?&Hb&Ht).
  destruct (Ht Hs) as [Ht' ?]. rewrite Hb in Ht'. apply bool_decide_eq_true in Ht'.
  destruct (send_all s buf) as [ok s']. cbn in *. exists s'. subst.
  rewrite bool_decide_true by done. rewrite take_ge in Hk by done. done.
Qed.

Lemma send_all_true s s' buf : send_all s buf = (true, s') -> sent_on s s' buf.
Proof.
  intros E. destruct (send_all_spec s buf) as (k&Hk&?&Hb&_). rewrite E in *. cbn in *.
  symmetry in Hb. apply bool_decide_eq_true in Hb. by rewrite take_ge in Hk.
Qed.

Lemma send_all_fd s buf : sk_fd (send_all s buf).2 = sk_fd s.
Proof. by destruct (send_all_spec s buf) as (k&(?&?)&?). Qed.

Lemma send_all_rx s buf : sk_rx (send_all s buf).2 = sk_rx s.
Proof. by destruct (send_all_spec s buf) as (k&(?&?&?&?)&?). Qed.

Lemma recv_all_spec s (len : nat) :
  exists k, received_on s (recv_all s (Z.of_nat len)).2 k /\ (k <= len)%nat /\
    (recv_all s (Z.of_nat len)).1.2 = take k (sk_rx s) /\
    (recv_all s (Z.of_nat len)).1.1 = bool_decide (len <= k)%nat /\
    (no_recv_error s -> (len <= length (sk_rx s))%nat ->
     (recv_all s (Z.of_nat len)).1.1 = true) /\
    (no_recv_error s -> no_recv_error (recv_all s (Z.of_nat len)).2).
Proof.
  unfold recv_all. rewrite Nat2Z.id.
  destruct (recv_all_loop_spec len s len 0 []) as (ok&s'&k&E&Hs&Hk&->&Hok&?); [lia|].
  change (Z.of_nat 0) with 0 in E. rewrite E. cbn [default from_option id fst snd].
  rewrite Nat.sub_0_r in *. eauto 10.
Qed.

(** Reading what is there succeeds and yields exactly that prefix. *)
Lemma recv_all_ok s (bs rest : bytes) len :
  len = zlen bs -> no_recv_error s -> sk_rx s = bs ++ rest ->
  exists s', recv_all s len = (true, bs, s') /\ sk_rx s' = rest /\ no_recv_error s' /\
    received_on s s' (length bs).
Proof.
  unfold zlen. intros -> Hs Hrx.
  destruct (recv_all_spec s (length bs)) as (k&Hk&?&Hb&Hok&Ht&Hne).
  assert ((length bs <= length (sk_rx s))%nat) as Hle by (rewrite Hrx, length_app; lia).
  rewrite (Ht Hs Hle) in Hok. symmetry in Hok. apply bool_decide_eq_true in Hok.
  assert (k = length bs) as -> by lia.
  specialize (Ht Hs Hle). specialize (Hne Hs).
  destruct (recv_all s (Z.of_nat (length bs))) as [[ok got] s']. cbn in *.
  rewrite Hrx, take_app_length in Hb. subst. exists s'. split_and!; auto.
  destruct Hk as (_&->&_). by rewrite Hrx, drop_app_length.
Qed.

Lemma recv_all_fd s (len : nat) : sk_fd (recv_all s (Z.of_nat len)).2 = sk_fd s.
Proof. by destruct (recv_all_spec s len) as (k&(?&?)&?). Qed.

Lemma recv_all_tx s (len : nat) : sk_tx (recv_all s (Z.of_nat len)).2 = sk_tx s.
Proof. by destruct (recv_all_spec s len) as (k&(?&?&?&?&?)&?). Qed.

(** C32. [send_all] and [recv_all] terminate for every behaviour of the kernel.
    [send_all] reports success exactly when the whole buffer was accepted, in
    order and once, and on failure a proper prefix of it was; an error-free
    kernel always leads to success, however short its counts are.  [recv_all]
    reports success exactly when it took [len] bytes from the stream, and what
    it wrote is then the next [len] bytes whatever the segmentation; with [len]
    bytes to come and an error-free kernel it succeeds. *)
Theorem transfers_exact s buf (len : nat) :
  is_Some (send_all_loop (length buf) s buf 0) /\
  (exists k, sent_on s (send_all s buf).2 (take k buf) /\ (k <= length buf)%nat /\
    ((send_all s buf).1 = true <-> k = length buf) /\
    (no_send_error s -> (send_all s buf).1 = true)) /\
  is_Some (recv_all_loop len s (Z.of_nat len) 0 []) /\
  (exists k, received_on s (recv_all s (Z.of_nat len)).2 k /\ (k <= len)%nat /\
    (recv_all s (Z.of_nat len)).1.2 = take k (sk_rx s) /\
    ((recv_all s (Z.of_nat len)).1.1 = true <-> k = len) /\
    (no_recv_error s -> (len <= length (sk_rx s))%nat ->
     (recv_all s (Z.of_nat len)).1.1 = true)).
Proof.
  split; [|split; [|split]].
  - destruct (send_all_loop_spec (length buf) s buf 0) as (?&?&?&E&_); [unfold zlen; lia|].
    by eexists.
  - destruct (send_all_spec s buf) as (k&?&?&->&?). exists k.
    split_and!; auto; [rewrite bool_decide_eq_true; lia|tauto].
  - destruct (recv_all_loop_spec len s len 0 []) as (?&?&?&E&_); [lia|]. by eexists.
  - destruct (recv_all_spec s len) as (k&?&?&?&->&?&?). exists k.
    split_and!; auto. rewrite bool_decide_eq_true. lia.
Qed.
