(* ===== verification/RouterCore.v ===== *)
(** * What the two router daemons share

    src/router/tcp_router.cpp and src/router/evl_router.cpp repeat the same
    connection, peering and upstream code around two different registries.
    This file models that code once, over a class of registry entries
    [RouteEntry]; TcpRouter.v and EvlRouter.v instantiate it and add the parts
    that differ ([handle_frame], the xbuf bridge).

    A [Connection*] is a [nat] naming an object of the heap [r_cons]; the
    vector [connections_] is [r_connections].  Every connection has a thread,
    whose progress is [con_phase]; the events below handle a frame at a time,
    without other threads in between (TcpThreads.v is about these). *)

From Stdlib Require Import ZArith Lia.
From stdpp Require Import base list gmap sets numbers.
From S2P Require Import Prelude Protocol TcpSocket.

#[local] Open Scope Z_scope.

(** [route_con e]: the connection frames for this entry are forwarded to, if
    the entry is one ([Kind::Tcp] or [Kind::Peer] in the EVL router). *)
Class RouteEntry (E : Type) := route_con : E -> option nat.

Inductive thread_phase := Created | Looping | Finished.

#[export] Instance thread_phase_eq_dec : EqDecision thread_phase.
Proof. solve_decision. Defined.

Record Connection := mkCon {
  con_socket : TcpSocket;
  con_index : Z;
  con_is_peer : bool;
  con_watchdog_enabled : bool;
  con_phase : thread_phase
}.

Record SystemConnection := mkSys {
  sc_system_id : Z;
  sc_socket : TcpSocket;
  sc_reader_done : bool
}.

Record Router (E X : Type) := mkRouter {
  r_max_msg_size : Z;
  r_registry : gmap Z E;
  r_cons : gmap nat Connection;
  r_connections : list nat;
  r_next_index : Z;
  r_upstream_socket : TcpSocket;
  r_upstream_done : bool;
  r_system_connections : list SystemConnection;
  r_local_mailboxes : gset Z;
  r_ext : X
}.
Arguments mkRouter {E X}. Arguments r_max_msg_size {E X}.
Arguments r_registry {E X}. Arguments r_cons {E X}. Arguments r_connections {E X}.
Arguments r_next_index {E X}. Arguments r_upstream_socket {E X}.
Arguments r_upstream_done {E X}. Arguments r_system_connections {E X}.
Arguments r_local_mailboxes {E X}. Arguments r_ext {E X}.

Definition con_set_socket (s : TcpSocket) (c : Connection) : Connection :=
  mkCon s (con_index c) (con_is_peer c) (con_watchdog_enabled c) (con_phase c).
Definition con_set_peer (b : bool) (c : Connection) : Connection :=
  mkCon (con_socket c) (con_index c) b (con_watchdog_enabled c) (con_phase c).
Definition con_set_watchdog (b : bool) (c : Connection) : Connection :=
  mkCon (con_socket c) (con_index c) (con_is_peer c) b (con_phase c).
Definition con_set_phase (p : thread_phase) (c : Connection) : Connection :=
  mkCon (con_socket c) (con_index c) (con_is_peer c) (con_watchdog_enabled c) p.

Section router.
Context {E X : Type} `{RouteEntry E}.
Abbreviation Router := (Router E X).

Definition set_registry (r : gmap Z E) (st : Router) : Router :=
  mkRouter (r_max_msg_size st) r (r_cons st) (r_connections st) (r_next_index st)
    (r_upstream_socket st) (r_upstream_done st) (r_system_connections st)
    (r_local_mailboxes st) (r_ext st).
Definition set_cons (h : gmap nat Connection) (st : Router) : Router :=
  mkRouter (r_max_msg_size st) (r_registry st) h (r_connections st) (r_next_index st)
    (r_upstream_socket st) (r_upstream_done st) (r_system_connections st)
    (r_local_mailboxes st) (r_ext st).
Definition set_connections (l : list nat) (n : Z) (st : Router) : Router :=
  mkRouter (r_max_msg_size st) (r_registry st) (r_cons st) l n
    (r_upstream_socket st) (r_upstream_done st) (r_system_connections st)
    (r_local_mailboxes st) (r_ext st).
Definition set_upstream (s : TcpSocket) (d : bool) (st : Router) : Router :=
  mkRouter (r_max_msg_size st) (r_registry st) (r_cons st) (r_connections st) (r_next_index st)
    s d (r_system_connections st) (r_local_mailboxes st) (r_ext st).
Definition set_system (l : list SystemConnection) (st : Router) : Router :=
  mkRouter (r_max_msg_size st) (r_registry st) (r_cons st) (r_connections st) (r_next_index st)
    (r_upstream_socket st) (r_upstream_done st) l (r_local_mailboxes st) (r_ext st).
Definition set_local (g : gset Z) (st : Router) : Router :=
  mkRouter (r_max_msg_size st) (r_registry st) (r_cons st) (r_connections st) (r_next_index st)
    (r_upstream_socket st) (r_upstream_done st) (r_system_connections st) g (r_ext st).
Definition set_ext (x : X) (st : Router) : Router :=
  mkRouter (r_max_msg_size st) (r_registry st) (r_cons st) (r_connections st) (r_next_index st)
    (r_upstream_socket st) (r_upstream_done st) (r_system_connections st)
    (r_local_mailboxes st) x.

Definition update_con (c : nat) (f : Connection -> Connection) : state Router unit :=
  modify (fun st => set_cons (alter f c (r_cons st)) st).

(** *** MailboxRegistry *)

(** [table_.emplace(mailbox_id, con).second] *)
Definition registry_add (m : Z) (e : E) : state Router bool :=
  fun st =>
    match r_registry st !! m with
    | Some _ => (false, st)
    | None => (true, set_registry (<[m := e]> (r_registry st)) st)
    end.

Definition registry_remove (m : Z) : state Router unit :=
  modify (fun st => set_registry (delete m (r_registry st)) st).

Definition registry_remove_all (c : nat) : state Router unit :=
  modify (fun st =>
    set_registry (filter (fun '(_, e) => route_con e <> Some c) (r_registry st)) st).

Definition registry_find (m : Z) : state Router (option E) :=
  fun st => (r_registry st !! m, st).

(** *** Connection: sending *)

(** [con->socket_.send_all(...)] *)
Definition con_send (c : nat) (bs : bytes) : state Router bool :=
  fun st =>
    match r_cons st !! c with
    | None => (false, st)
    | Some con =>
        let '(ok, s) := send_all (con_socket con) bs in
        (ok, set_cons (<[c := con_set_socket s con]> (r_cons st)) st)
    end.

Definition forward (c : nat) (hdr : FrameHeader) (body : bytes) : state Router bool :=
  ok ← con_send c (encode_frame hdr);
  if (ok : bool) then con_send c body else mret false.

Definition send_peer_register (mbx_id : Z) (c : nat) : state Router unit :=
  _ ← con_send c (encode_frame (make_frame MSG_ROUTER_PEER_REGISTER 0 0 0 0 sizeof_MbxInitPayload));
  _ ← con_send c (encode_mbx mbx_id);
  mret tt.

Definition send_peer_delete (mbx_id : Z) (c : nat) : state Router unit :=
  _ ← con_send c (encode_frame (make_frame MSG_ROUTER_PEER_DELETE 0 0 0 0 sizeof_MbxInitPayload));
  _ ← con_send c (encode_mbx mbx_id);
  mret tt.

(** [{ lock; socket_.send_all(&reply, sizeof(reply)); }] *)
Definition send_reply (c : nat) (hdr : FrameHeader) : state Router unit :=
  _ ← con_send c (encode_frame hdr); mret tt.

(** *** Mailbox broadcast *)

Definition is_peer_con (st : Router) (c : nat) : bool :=
  match r_cons st !! c with Some con => con_is_peer con | None => false end.

(** The connections the broadcast goes to, in the order of [connections_]. *)
Definition peers_of (st : Router) : list nat :=
  List.filter (is_peer_con st) (r_connections st).

Definition broadcast_to_peers (fn : nat -> state Router unit) : state Router unit :=
  st ← get_state;
  for_each (peers_of st) fn.

Definition on_local_registered (mbx_id : Z) : state Router unit :=
  _ ← modify (fun st => set_local ({[mbx_id]} ∪ r_local_mailboxes st) st);
  broadcast_to_peers (send_peer_register mbx_id).

Definition on_local_deleted (mbx_id : Z) : state Router unit :=
  _ ← modify (fun st => set_local (r_local_mailboxes st ∖ {[mbx_id]}) st);
  broadcast_to_peers (send_peer_delete mbx_id).

Definition local_mailboxes_snapshot : state Router (list Z) :=
  fun st => (elements (r_local_mailboxes st), st).

Definition advertise_as_peer (c : nat) : state Router unit :=
  _ ← con_send c (encode_frame (make_frame MSG_ROUTER_PEER_HELLO 0 0 0 0 0));
  mbxs ← local_mailboxes_snapshot;
  for_each mbxs (fun m => send_peer_register m c).

(** *** Upstream *)

(** [static_cast<uint8_t>((hdr.dest >> 24) & 0xFF)] *)
Definition system_id_of (dest : Z) : Z := u8 (Z.land (Z.shiftr dest 24) 255).

(** [send_all(&hdr, sizeof(hdr)) && (body_len == 0 || send_all(body, body_len))] *)
Definition link_send (s : TcpSocket) (hdr : FrameHeader) (body : bytes) : bool * TcpSocket :=
  let '(ok, s) := send_all s (encode_frame hdr) in
  if ok then if zlen body =? 0 then (true, s) else send_all s body
  else (false, s).

(** The loop over [system_connections_]: the first match decides. *)
Fixpoint send_to_system (sys_id : Z) (hdr : FrameHeader) (body : bytes)
    (scs : list SystemConnection) : option (bool * list SystemConnection) :=
  match scs with
  | [] => None
  | sc :: scs =>
      if sc_system_id sc =? sys_id then
        if sock_is_open (sc_socket sc) then
          let '(ok, s) := link_send (sc_socket sc) hdr body in
          Some (ok, mkSys (sc_system_id sc) s (sc_reader_done sc) :: scs)
        else Some (false, sc :: scs)
      else
        match send_to_system sys_id hdr body scs with
        | Some (ok, scs) => Some (ok, sc :: scs)
        | None => None
        end
  end.

Definition forward_to_upstream (hdr : FrameHeader) (body : bytes) : state Router bool :=
  fun st =>
    match send_to_system (system_id_of (f_dest hdr)) hdr body (r_system_connections st) with
    | Some (ok, scs) => (ok, set_system scs st)
    | None =>
        if sock_is_open (r_upstream_socket st) then
          let '(ok, s) := link_send (r_upstream_socket st) hdr body in
          (ok, set_upstream s (r_upstream_done st) st)
        else (false, st)
    end.

(** *** Reader of an upstream or system-route connection

    One iteration of the loop of [run_connection_reader]; the flag says
    whether the loop goes on.  After the loop the socket is closed. *)

Inductive link := LinkUpstream | LinkSystem (i : nat).

(** Socket and "thread has left its loop" flag of a link. *)
Definition get_link (l : link) (st : Router) : option (TcpSocket * bool) :=
  match l with
  | LinkUpstream => Some (r_upstream_socket st, r_upstream_done st)
  | LinkSystem i =>
      (fun sc => (sc_socket sc, sc_reader_done sc)) <$> r_system_connections st !! i
  end.

Definition set_link (l : link) (s : TcpSocket) (done : bool) (st : Router) : Router :=
  match l with
  | LinkUpstream => set_upstream s done st
  | LinkSystem i =>
      set_system (alter (fun sc => mkSys (sc_system_id sc) s done) i
                    (r_system_connections st)) st
  end.

(** The frame read by one iteration: [None] when the loop must be left. *)
Definition read_frame (max_msg_size : Z) (s : TcpSocket)
    : option (FrameHeader * bytes) * TcpSocket :=
  let '(ok, hdr, s) := recv_all s sizeof_FrameHeader in
  if negb ok then (None, s)
  else
    let frame := decode_frame hdr in
    let body_len := frame_body_len frame in
    if max_msg_size <? body_len then (None, sock_close s)
    else if 0 <? body_len then
      let '(ok, body, s) := recv_all s body_len in
      if ok then (Some (frame, body), s) else (None, s)
    else (Some (frame, []), s).

(** One iteration at a link: the frame read goes to the registered owner of
    its destination, or nowhere; leaving the loop closes the socket. *)
Definition run_connection_reader (l : link) (stop : bool) (poll : Z) : state Router unit :=
  fun st =>
    match get_link l st with
    | None | Some (_, true) => (tt, st)
    | Some (s, false) =>
        if stop then (tt, set_link l (sock_close s) true st)
        else if poll_in s poll <=? 0 then (tt, st)
        else
          match read_frame (r_max_msg_size st) s with
          | (None, s) => (tt, set_link l (sock_close s) true st)
          | (Some (frame, body), s) =>
              (entry ← registry_find (f_dest frame);
               match entry ≫= route_con with
               | Some dest => _ ← forward dest frame body; mret tt
               | None => mret tt
               end) (set_link l s false st)
          end
    end.

(** *** The head of Connection::handle_frame

    The body of the frame whose header was read; [None]: the handler returns
    (oversized frame, the socket is closed; or the body did not arrive). *)
Definition read_body (c : nat) (frame : FrameHeader) : state Router (option bytes) :=
  fun st =>
    match r_cons st !! c with
    | None => (None, st)
    | Some con =>
        let body_len := frame_body_len frame in
        if r_max_msg_size st <? body_len then
          (None, set_cons (<[c := con_set_socket (sock_close (con_socket con)) con]> (r_cons st)) st)
        else if 0 <? body_len then
          let '(ok, body, s) := recv_all (con_socket con) body_len in
          (if (ok : bool) then Some body else None,
           set_cons (<[c := con_set_socket s con]> (r_cons st)) st)
        else (Some [], st)
    end.

(** [is_peer_] of this connection. *)
Definition get_is_peer (c : nat) : state Router bool :=
  fun st => (is_peer_con st c, st).

(** *** Construction and the accept loop *)

(** [idx = next_index_++], [make_unique<Connection>], thread created; the
    connection enters [connections_] by a later [publish] (the thread may
    run before the [emplace_back] under [connections_mutex_]). *)
Definition new_connection (sock : TcpSocket) (is_peer : bool) : state Router nat :=
  fun st =>
    let c := fresh (dom (r_cons st)) in
    (c, set_cons (<[c := mkCon sock (r_next_index st) is_peer true Created]> (r_cons st))
          (set_connections (r_connections st) (s32 (r_next_index st + 1)) st)).

(** [connections_.emplace_back(...)] for a connection just created. *)
Definition publish (c : nat) : state Router unit :=
  modify (fun st =>
    if decide (c ∈ r_connections st \/ r_cons st !! c = None) then st
    else set_connections (r_connections st ++ [c]) (r_next_index st) st).

(** One entry of [peer_configs_]; [None]: [connect] failed. *)
Definition connect_to_peer (sock : option TcpSocket) : state Router unit :=
  match sock with
  | None => mret tt
  | Some sock => _ ← new_connection sock true; mret tt
  end.

Definition connect_to_upstream (configured : bool) (sock : option TcpSocket)
    : state Router unit :=
  if negb configured then mret tt
  else match sock with
  | None => modify (set_upstream sock_closed true)
  | Some sock => modify (set_upstream sock false)
  end.

Definition connect_to_system_routes (configs : list (Z * option TcpSocket))
    : state Router unit :=
  for_each configs (fun '(sys_id, sock) =>
    match sock with
    | None => mret tt
    | Some sock =>
        modify (fun st =>
          set_system (r_system_connections st ++ [mkSys sys_id sock false]) st)
    end).

(** An iteration of the accept loop of [run]. *)
Definition accept_iter (poll : Z) (sock : option TcpSocket) : state Router unit :=
  if poll <=? 0 then mret tt
  else match sock with
  | None => mret tt
  | Some sock => _ ← new_connection sock false; mret tt
  end.

(** The router before [run], with nothing connected. *)
Definition initial (max_msg_size : Z) (x : X) : Router :=
  mkRouter max_msg_size ∅ ∅ [] 0 sock_closed true [] ∅ x.

(** *** Connection::run and the events of the daemon *)

Section run.
Context (handle_frame : nat -> FrameHeader -> state Router unit).

(** [if (is_peer_) advertise_as_peer();] at the start of the thread. *)
Definition con_start (c : nat) : state Router unit :=
  fun st =>
    match r_cons st !! c with
    | Some con =>
        if decide (con_phase con = Created) then
          (_ ← update_con c (con_set_phase Looping);
           if con_is_peer con then advertise_as_peer c else mret tt) st
        else (tt, st)
    | None => (tt, st)
    end.

(** After the loop: [registry_.remove_all(this)]. *)
Definition con_finish (c : nat) : state Router unit :=
  _ ← registry_remove_all c;
  update_con c (con_set_phase Finished).

(** One iteration of the loop of [Connection::run]. *)
Definition con_run_iter (c : nat) (stop : bool) (poll : Z) : state Router unit :=
  fun st =>
    match r_cons st !! c with
    | Some con =>
        if decide (con_phase con = Looping) then
          if stop then con_finish c st
          else if poll_in (con_socket con) poll <=? 0 then (tt, st)
          else
            let '(ok, hdr, s) := recv_all (con_socket con) sizeof_FrameHeader in
            let st := set_cons (<[c := con_set_socket s con]> (r_cons st)) st in
            if ok then handle_frame c (decode_frame hdr) st else con_finish c st
        else (tt, st)
    | None => (tt, st)
    end.

Inductive event :=
  | EvConnectPeer (sock : option TcpSocket)
  | EvConnectUpstream (configured : bool) (sock : option TcpSocket)
  | EvConnectSystem (configs : list (Z * option TcpSocket))
  | EvAccept (poll : Z) (sock : option TcpSocket)
  | EvPublish (c : nat)
  | EvStart (c : nat)
  | EvIterate (c : nat) (stop : bool) (poll : Z)
  | EvLink (l : link) (stop : bool) (poll : Z).

Definition handle_event (e : event) : state Router unit :=
  match e with
  | EvConnectPeer sock => connect_to_peer sock
  | EvConnectUpstream cfg sock => connect_to_upstream cfg sock
  | EvConnectSystem cfgs => connect_to_system_routes cfgs
  | EvAccept poll sock => accept_iter poll sock
  | EvPublish c => publish c
  | EvStart c => con_start c
  | EvIterate c stop poll => con_run_iter c stop poll
  | EvLink l stop poll => run_connection_reader l stop poll
  end.

Definition run_events (es : list event) : state Router unit := for_each es handle_event.

Definition reachable (max_msg_size : Z) (x : X) (st : Router) : Prop :=
  exists es, (run_events es (initial max_msg_size x)).2 = st.
End run.
End router.

(** ** What a connection receives

    [con_tx st c] is every byte accepted for connection [c] so far.  [sends m t]
    says what a computation writes to every connection whose kernel socket is
    working ([send_ok]): exactly [t d] to [d]. *)

Section sends.
Context {E X : Type} `{RouteEntry E}.
Abbreviation Router := (Router E X).
Implicit Types (st : Router) (c d : nat).

Definition con_tx st c : bytes :=
  match r_cons st !! c with Some con => sk_tx (con_socket con) | None => [] end.

Definition send_ok st c : Prop :=
  match r_cons st !! c with Some con => no_send_error (con_socket con) | None => False end.

#[export] Instance send_ok_dec st c : Decision (send_ok st c).
Proof. unfold send_ok. destruct (r_cons st !! c); apply _. Defined.

Definition sends {A} (m : state Router A) (t : nat -> bytes) : Prop :=
  forall st d, send_ok st d ->
    send_ok (m st).2 d /\ con_tx (m st).2 d = con_tx st d ++ t d.

(** Bytes for one connection. *)
Definition only_to c (bs : bytes) : nat -> bytes :=
  fun d => if decide (d = c) then bs else [].

Lemma sends_ext {A} (m : state Router A) t t' :
  sends m t -> (forall d, t d = t' d) -> sends m t'.
Proof. intros Hm Ht st d Hd. rewrite <- Ht. by apply Hm. Qed.

Lemma sends_ret {A} (a : A) : sends (mret a) (fun _ => []).
Proof. intros st d Hd. by rewrite app_nil_r. Qed.

Lemma sends_bind {A B} (m : state Router A) (f : A -> state Router B) t1 t2 :
  sends m t1 -> (forall a, sends (f a) t2) -> sends (m ≫= f) (fun d => t1 d ++ t2 d).
Proof.
  intros Hm Hf st d Hd. rewrite bind_eq.
  destruct (Hm st d Hd) as [Hd1 E1].
  destruct (Hf (m st).1 (m st).2 d Hd1) as [Hd2 E2].
  by rewrite E2, E1, app_assoc.
Qed.

Lemma sends_const {A} (m : state Router A) :
  (forall st, r_cons (m st).2 = r_cons st) -> sends m (fun _ => []).
Proof. intros Hm st d Hd. unfold send_ok, con_tx in *. by rewrite Hm, app_nil_r. Qed.

Lemma con_send_lookup c bs st con :
  r_cons st !! c = Some con ->
  con_send c bs st
  = ((send_all (con_socket con) bs).1,
     set_cons (<[c := con_set_socket (send_all (con_socket con) bs).2 con]> (r_cons st)) st).
Proof. intros Hc. unfold con_send. rewrite Hc. by destruct (send_all _ _). Qed.

Lemma con_send_sends c bs : sends (con_send c bs) (only_to c bs).
Proof.
  intros st d Hd. unfold send_ok, con_tx, only_to in *.
  destruct (r_cons st !! c) as [con|] eqn:Hc.
  2:{ unfold con_send. rewrite Hc. cbn. case_decide; [|by rewrite app_nil_r].
      subst. by rewrite Hc in Hd. }
  rewrite (con_send_lookup _ _ _ _ Hc). cbn. case_decide; subst.
  - rewrite lookup_insert_eq, Hc in *. cbn.
    destruct (send_all_ok _ bs Hd) as (s'&Es&(_&Et&_)&?). rewrite Es. cbn. by rewrite Et.
  - by rewrite lookup_insert_ne, app_nil_r.
Qed.

Lemma con_send_true c bs st : send_ok st c -> (con_send c bs st).1 = true.
Proof.
  unfold send_ok. destruct (r_cons st !! c) as [con|] eqn:Hc; [|done]. intros Hs.
  rewrite (con_send_lookup _ _ _ _ Hc). cbn. by destruct (send_all_ok _ bs Hs) as (?&->&_).
Qed.

Lemma forward_sends c hdr body :
  sends (forward c hdr body) (only_to c (encode_frame hdr ++ body)).
Proof.
  intros st d Hd. unfold forward. rewrite bind_eq.
  destruct (con_send_sends c (encode_frame hdr) st d Hd) as [Hd1 E1].
  unfold only_to in *. case_decide; subst.
  - rewrite con_send_true by done.
    destruct (con_send_sends c body _ c Hd1) as [Hd2 E2].
    rewrite E2, E1. unfold only_to. rewrite !decide_True by done. by rewrite <- app_assoc.
  - destruct (con_send c (encode_frame hdr) st).1; [|done].
    destruct (con_send_sends c body _ d Hd1) as [Hd2 E2].
    rewrite E2, E1. unfold only_to. rewrite decide_False by done. by rewrite app_nil_r.
Qed.

Lemma forward_true c hdr body st : send_ok st c -> (forward c hdr body st).1 = true.
Proof.
  intros Hc. unfold forward. rewrite bind_eq, con_send_true by done.
  apply con_send_true. by apply (con_send_sends c (encode_frame hdr) st c).
Qed.

Definition register_bytes (m : Z) : bytes :=
  encode_frame (make_frame MSG_ROUTER_PEER_REGISTER 0 0 0 0 sizeof_MbxInitPayload) ++ encode_mbx m.
Definition delete_bytes (m : Z) : bytes :=
  encode_frame (make_frame MSG_ROUTER_PEER_DELETE 0 0 0 0 sizeof_MbxInitPayload) ++ encode_mbx m.
Definition hello_bytes : bytes :=
  encode_frame (make_frame MSG_ROUTER_PEER_HELLO 0 0 0 0 0).

Lemma send_peer_register_sends m c : sends (send_peer_register m c) (only_to c (register_bytes m)).
Proof.
  eapply sends_ext; [unfold send_peer_register; apply sends_bind; [apply con_send_sends|];
    intros _; apply sends_bind; [apply con_send_sends|]; intros _; apply sends_ret|].
  intros d. unfold only_to, register_bytes. case_decide; by rewrite ?app_nil_r.
Qed.

Lemma send_peer_delete_sends m c : sends (send_peer_delete m c) (only_to c (delete_bytes m)).
Proof.
  eapply sends_ext; [unfold send_peer_delete; apply sends_bind; [apply con_send_sends|];
    intros _; apply sends_bind; [apply con_send_sends|]; intros _; apply sends_ret|].
  intros d. unfold only_to, delete_bytes. case_decide; by rewrite ?app_nil_r.
Qed.

Lemma send_reply_sends c hdr : sends (send_reply c hdr) (only_to c (encode_frame hdr)).
Proof.
  eapply sends_ext; [unfold send_reply; apply sends_bind; [apply con_send_sends|];
    intros _; apply sends_ret|].
  intros d. cbn. by rewrite app_nil_r.
Qed.

Lemma for_each_sends {A} (l : list A) (f : A -> state Router unit) (t : A -> nat -> bytes) :
  (forall x, sends (f x) (t x)) ->
  sends (for_each l f) (fun d => concat (map (fun x => t x d) l)).
Proof.
  intros Hf. induction l as [|x l IH]; cbn [for_each map concat]; [apply sends_ret|].
  apply sends_bind; [apply Hf|]. by intros _.
Qed.

(** Each of a duplicate-free list of connections gets one copy. *)
Lemma concat_only_to_NoDup (l : list nat) bs d :
  NoDup l -> concat (map (fun c => only_to c bs d) l) = if decide (d ∈ l) then bs else [].
Proof.
  induction 1 as [|c l Hc Hl IH]; cbn [map concat]; [by rewrite decide_False by set_solver|].
  rewrite IH. unfold only_to. destruct (decide (d = c)) as [->|Hne].
  - rewrite decide_False, decide_True by set_solver. apply app_nil_r.
  - cbn. apply decide_ext. set_solver.
Qed.

Lemma concat_only_to_one {A} (l : list A) (f : A -> bytes) c d :
  concat (map (fun x => only_to c (f x) d) l) = only_to c (concat (map f l)) d.
Proof.
  unfold only_to. case_decide; [done|]. induction l; cbn; auto.
Qed.

Lemma advertise_sends c st d :
  send_ok st d ->
  send_ok (advertise_as_peer c st).2 d /\
  con_tx (advertise_as_peer c st).2 d = con_tx st d ++
    only_to c (hello_bytes ++ concat (map register_bytes (elements (r_local_mailboxes st)))) d.
Proof.
  intros Hd. unfold advertise_as_peer. rewrite bind_eq.
  destruct (con_send_sends c hello_bytes st d Hd) as [Hd1 E1].
  assert (r_local_mailboxes (con_send c hello_bytes st).2 = r_local_mailboxes st) as El.
  { unfold con_send. destruct (r_cons st !! c); [|done]. by destruct (send_all _ _). }
  fold hello_bytes. rewrite bind_eq. cbn [local_mailboxes_snapshot fst snd]. rewrite El.
  destruct (for_each_sends (elements (r_local_mailboxes st))
    (fun m => send_peer_register m c) (fun m => only_to c (register_bytes m))
    (fun m => send_peer_register_sends m c) _ d Hd1) as [Hd2 E2].
  rewrite E2, E1, concat_only_to_one. split; [done|]. unfold only_to.
  case_decide; by rewrite <- app_assoc, ?app_nil_r.
Qed.
End sends.

(** ** Computations that only move bytes

    [quiet st st']: nothing but sockets differs between the two states; an
    equivalence, and a congruence for everything that reads the tables. *)

Definition con_view (con : Connection) : Z * bool * bool * thread_phase :=
  (con_index con, con_is_peer con, con_watchdog_enabled con, con_phase con).

Section quiet.
Context {E X : Type} `{RouteEntry E}.
Abbreviation Router := (Router E X).
Implicit Types (st : Router) (c d : nat).

Definition view st d : option (Z * bool * bool * thread_phase) := con_view <$> r_cons st !! d.

Record quiet st st' : Prop := mkQuiet {
  quiet_max : r_max_msg_size st' = r_max_msg_size st;
  quiet_registry : r_registry st' = r_registry st;
  quiet_connections : r_connections st' = r_connections st;
  quiet_next : r_next_index st' = r_next_index st;
  quiet_local : r_local_mailboxes st' = r_local_mailboxes st;
  quiet_ext : r_ext st' = r_ext st;
  quiet_view d : view st' d = view st d
}.

#[export] Instance quiet_equivalence : Equivalence quiet.
Proof.
  split.
  - intros st. by constructor.
  - intros st st' [????? ? Hv]. constructor; congruence.
  - intros st1 st2 st3 [????? ? Hv] [????? ? Hv']. constructor; congruence.
Qed.

Lemma is_peer_con_view st c :
  is_peer_con st c = match view st c with Some (_, p, _, _) => p | None => false end.
Proof. unfold is_peer_con, view. by destruct (r_cons st !! c). Qed.

#[export] Instance is_peer_con_proper : Proper (quiet ==> eq ==> eq) is_peer_con.
Proof. intros st st' Hq c ? <-. rewrite !is_peer_con_view. by rewrite (quiet_view _ _ Hq). Qed.

#[export] Instance peers_of_proper : Proper (quiet ==> eq) peers_of.
Proof.
  intros st st' Hq. unfold peers_of. rewrite (quiet_connections _ _ Hq).
  apply filter_ext. intros c. by rewrite Hq.
Qed.

Definition quietly {A} (m : state Router A) : Prop := forall st, quiet st (m st).2.

Lemma quietly_ret {A} (a : A) : quietly (mret a).
Proof. intros st. reflexivity. Qed.

Lemma quietly_bind {A B} (m : state Router A) (f : A -> state Router B) :
  quietly m -> (forall a, quietly (f a)) -> quietly (m ≫= f).
Proof. intros Hm Hf st. rewrite bind_eq. etrans; [apply Hm|apply Hf]. Qed.

Lemma quietly_if {A} (b : bool) (m1 m2 : state Router A) :
  quietly m1 -> quietly m2 -> quietly (if b then m1 else m2).
Proof. by destruct b. Qed.

Lemma quietly_for_each {A} (l : list A) (f : A -> state Router unit) :
  (forall x, quietly (f x)) -> quietly (for_each l f).
Proof.
  intros Hf. induction l as [|x l IH]; cbn [for_each]; [apply quietly_ret|].
  by apply quietly_bind.
Qed.

(** Replacing the socket of a connection is quiet. *)
Lemma quiet_set_socket st c con s :
  r_cons st !! c = Some con -> quiet st (set_cons (<[c := con_set_socket s con]> (r_cons st)) st).
Proof.
  intros Hc. constructor; try done. intros d. unfold view. cbn.
  destruct (decide (d = c)) as [->|Hd].
  - by rewrite lookup_insert_eq, Hc.
  - by rewrite lookup_insert_ne.
Qed.

Lemma con_send_quietly c bs : quietly (con_send c bs).
Proof.
  intros st. unfold con_send. destruct (r_cons st !! c) as [con|] eqn:Hc; [|done].
  destruct (send_all _ _). by apply quiet_set_socket.
Qed.

Lemma read_body_quietly c frame : quietly (read_body c frame).
Proof.
  intros st. unfold read_body. destruct (r_cons st !! c) as [con|] eqn:Hc; [|done].
  repeat case_match; try done; by apply quiet_set_socket.
Qed.

Lemma get_is_peer_quietly c : quietly (get_is_peer c).
Proof. intros st. done. Qed.

Lemma registry_find_quietly m : quietly (registry_find m).
Proof. intros st. done. Qed.

Lemma local_snapshot_quietly : quietly local_mailboxes_snapshot.
Proof. intros st. done. Qed.

Lemma forward_to_upstream_quietly hdr body : quietly (forward_to_upstream hdr body).
Proof. intros st. unfold forward_to_upstream. repeat case_match; done. Qed.

Lemma get_state_quietly : quietly get_state.
Proof. intros st. done. Qed.
End quiet.

Create HintDb quiet.
#[export] Hint Resolve quietly_ret quietly_bind quietly_if quietly_for_each con_send_quietly
  read_body_quietly get_is_peer_quietly registry_find_quietly local_snapshot_quietly
  forward_to_upstream_quietly get_state_quietly : quiet.

Section quiet_derived.
Context {E X : Type} `{RouteEntry E}.
Abbreviation Router := (Router E X).

Lemma forward_quietly c hdr body : quietly (E := E) (X := X) (forward c hdr body).
Proof. unfold forward. auto with quiet. Qed.

Lemma send_peer_register_quietly m c : quietly (E := E) (X := X) (send_peer_register m c).
Proof. unfold send_peer_register. auto with quiet. Qed.

Lemma send_peer_delete_quietly m c : quietly (E := E) (X := X) (send_peer_delete m c).
Proof. unfold send_peer_delete. auto with quiet. Qed.

Lemma send_reply_quietly c hdr : quietly (E := E) (X := X) (send_reply c hdr).
Proof. unfold send_reply. auto with quiet. Qed.

Lemma broadcast_quietly (f : nat -> state Router unit) :
  (forall c, quietly (f c)) -> quietly (broadcast_to_peers f).
Proof. intros Hf. unfold broadcast_to_peers. auto with quiet. Qed.

Lemma advertise_quietly c : quietly (E := E) (X := X) (advertise_as_peer c).
Proof.
  unfold advertise_as_peer. apply quietly_bind; auto with quiet. intros _.
  apply quietly_bind; auto with quiet. intros l.
  apply quietly_for_each. intros. apply send_peer_register_quietly.
Qed.
End quiet_derived.

#[export] Hint Resolve forward_quietly send_peer_register_quietly send_peer_delete_quietly
  send_reply_quietly broadcast_quietly advertise_quietly : quiet.

(** ** The invariant of the daemon

    - every [Connection*] in the registry is a connection whose thread is in
      its loop (no dangling pointer, no route to a finished connection);
    - [connections_] holds each connection once;
    - a mailbox routed to a client connection is in [local_mailboxes_]. *)

Section invariant.
Context {E X : Type} `{RouteEntry E}.
Abbreviation Router := (Router E X).
Implicit Types (st : Router) (c d : nat) (m : Z) (e : E).

Definition looping st c : Prop := exists i p w, view st c = Some (i, p, w, Looping).

Record router_inv st : Prop := mkInv {
  inv_live m e c :
    r_registry st !! m = Some e -> route_con e = Some c -> looping st c;
  inv_nodup : NoDup (r_connections st);
  inv_connections c : c ∈ r_connections st -> is_Some (view st c);
  inv_local m e c i w ph :
    r_registry st !! m = Some e -> route_con e = Some c ->
    view st c = Some (i, false, w, ph) -> m ∈ r_local_mailboxes st
}.

#[export] Instance looping_proper : Proper (@quiet E X ==> eq ==> iff) looping.
Proof. intros st st' Hq c ? <-. unfold looping. by setoid_rewrite (quiet_view _ _ Hq). Qed.

#[export] Instance router_inv_proper : Proper (@quiet E X ==> iff) router_inv.
Proof.
  assert (forall st st', quiet st st' -> router_inv st -> router_inv st') as Hone.
  { intros st st' Hq [Hl Hn Hc Hlo]. split.
    - intros m e c. rewrite (quiet_registry _ _ Hq). setoid_rewrite <- Hq. apply Hl.
    - by rewrite (quiet_connections _ _ Hq).
    - intros c. rewrite (quiet_connections _ _ Hq), (quiet_view _ _ Hq). apply Hc.
    - intros m e c i w ph.
      rewrite (quiet_registry _ _ Hq), (quiet_view _ _ Hq), (quiet_local _ _ Hq). apply Hlo. }
  intros st st' Hq. split; apply Hone; [done|by symmetry].
Qed.

#[export] Instance set_registry_proper : Proper (eq ==> @quiet E X ==> @quiet E X) set_registry.
Proof. intros r ? <- st st' []. by constructor. Qed.

#[export] Instance set_local_proper : Proper (eq ==> @quiet E X ==> @quiet E X) set_local.
Proof. intros g ? <- st st' []. by constructor. Qed.

Lemma looping_not_none st c : looping st c -> is_Some (view st c).
Proof. intros (?&?&?&->). by eexists. Qed.

Lemma view_alter st c f d :
  (forall con, con_view (f con) = con_view con) ->
  view (set_cons (alter f c (r_cons st)) st) d = view st d.
Proof.
  intros Hf. unfold view. cbn. rewrite lookup_alter. case_decide; [subst|done].
  destruct (r_cons st !! d); cbn; [by rewrite Hf|done].
Qed.

(** The steps that change the tables. *)

Lemma inv_register st m e :
  (forall c, route_con e = Some c -> looping st c) ->
  router_inv st ->
  router_inv (set_local ({[m]} ∪ r_local_mailboxes st) (set_registry (<[m := e]> (r_registry st)) st)).
Proof.
  intros He [Hl Hn Hc Hlo]. split; cbn; auto.
  - intros m' e' c. rewrite lookup_insert. case_decide; [|apply Hl].
    intros [= <-]. apply He.
  - intros m' e' c i w ph. rewrite lookup_insert. case_decide; [set_solver|].
    intros H1 H2 H3. apply elem_of_union_r. by eapply Hlo.
Qed.

(** An entry learned from a peer: it is not advertised. *)
Lemma inv_learn st m e c i w ph :
  route_con e = Some c -> view st c = Some (i, true, w, ph) -> looping st c ->
  router_inv st -> router_inv (set_registry (<[m := e]> (r_registry st)) st).
Proof.
  intros He Hv Hlp [Hl Hn Hc Hlo]. split; cbn; auto.
  - intros m' e' c'. rewrite lookup_insert. case_decide; [|apply Hl].
    intros [= <-]. rewrite He. by intros [= <-].
  - intros m' e' c' i' w' ph'. rewrite lookup_insert. case_decide; [|apply Hlo].
    intros [= <-]. rewrite He. intros [= <-]. change (view st c = Some (i', false, w', ph') -> m' ∈ r_local_mailboxes st).
    rewrite Hv. done.
Qed.

Lemma inv_remove st m :
  router_inv st -> router_inv (set_registry (delete m (r_registry st)) st).
Proof.
  intros [Hl Hn Hc Hlo]. split; cbn; auto; intros *; rewrite lookup_delete_Some; intros [? ?].
  - by eapply Hl.
  - by eapply Hlo.
Qed.

Lemma inv_unregister st m :
  router_inv st ->
  router_inv (set_local (r_local_mailboxes st ∖ {[m]}) (set_registry (delete m (r_registry st)) st)).
Proof.
  intros [Hl Hn Hc Hlo]. split; cbn; auto; intros *; rewrite lookup_delete_Some; intros [? ?].
  - by eapply Hl.
  - intros. apply elem_of_difference. split; [by eapply Hlo|set_solver].
Qed.

(** Becoming a peer or losing the watchdog keeps the phase. *)
Lemma inv_update_con st c f :
  (forall con, con_phase (f con) = con_phase con) ->
  (forall con, con_is_peer con = true -> con_is_peer (f con) = true) ->
  router_inv st -> router_inv (set_cons (alter f c (r_cons st)) st).
Proof.
  intros Hph Hpe [Hl Hn Hc Hlo].
  assert (forall d, view (set_cons (alter f c (r_cons st)) st) d
    = if decide (c = d) then con_view ∘ f <$> r_cons st !! d else view st d) as Hv.
  { intros d. unfold view. cbn. rewrite lookup_alter. case_decide; [|done].
    subst. by destruct (r_cons st !! d). }
  split; cbn; auto.
  - intros m e d H1 H2. destruct (Hl m e d H1 H2) as (i&p&w&Hd). unfold looping. rewrite Hv.
    case_decide; [|by eauto]. subst. unfold view in Hd.
    destruct (r_cons st !! d) as [con|]; [|done]. cbn in *. unfold con_view in *.
    injection Hd as <- <- <- Hd. rewrite Hph, Hd. eauto.
  - intros d Hd. rewrite Hv. case_decide; [|by apply Hc]. subst.
    destruct (Hc d Hd) as [v Hd']. unfold view in Hd'.
    destruct (r_cons st !! d); [by eexists|done].
  - intros m e d i w ph H1 H2. rewrite Hv. case_decide; [|by apply (Hlo m e d i w ph)].
    subst. destruct (r_cons st !! d) as [con|] eqn:Hd; [|done]. cbn. unfold con_view.
    intros [= _ Hp _ _]. destruct (con_is_peer con) eqn:Hcp.
    + apply Hpe in Hcp. congruence.
    + apply (Hlo m e d (con_index con) (con_watchdog_enabled con) (con_phase con)); auto.
      unfold view. rewrite Hd. cbn. unfold con_view. by rewrite Hcp.
Qed.

(** Leaving the loop: [remove_all(this)] first. *)
Lemma inv_finish st c : router_inv st -> router_inv (con_finish c st).2.
Proof.
  intros [Hl Hn Hc Hlo].
  set (st1 := set_registry (filter (fun '(_, e) => route_con e <> Some c) (r_registry st)) st).
  change (con_finish c st).2 with (set_cons (alter (con_set_phase Finished) c (r_cons st1)) st1).
  assert (forall m e, r_registry st1 !! m = Some e -> r_registry st !! m = Some e /\ route_con e <> Some c) as Hr.
  { intros m e. unfold st1. cbn. rewrite map_lookup_filter_Some. done. }
  assert (forall d, d <> c ->
    view (set_cons (alter (con_set_phase Finished) c (r_cons st1)) st1) d = view st d) as Hv.
  { intros d Hd. unfold view. cbn. by rewrite lookup_alter_ne. }
  split; cbn; auto.
  - intros m e d [H1 H2]%Hr H3. unfold looping. rewrite Hv by congruence. by eapply Hl.
  - intros d Hd. destruct (decide (d = c)) as [->|Hne]; [|rewrite Hv by done; by apply Hc].
    destruct (Hc c Hd) as [v Hv']. unfold view in *. cbn. rewrite lookup_alter_eq.
    destruct (r_cons st !! c); [by eexists|done].
  - intros m e d i w ph [H1 H2]%Hr H3. rewrite Hv by congruence. by apply (Hlo m e d).
Qed.

Lemma inv_new_connection st sock b : router_inv st -> router_inv (new_connection sock b st).2.
Proof.
  intros [Hl Hn Hc Hlo]. unfold new_connection. cbn.
  set (c := fresh (dom (r_cons st))).
  assert (r_cons st !! c = None) as Hfr by (apply not_elem_of_dom, is_fresh).
  assert (view st c = None) as Hvc by (unfold view; by rewrite Hfr).
  assert (forall d con (st1 : Router), is_Some (view st d) ->
    view (set_cons (<[c := con]> (r_cons st)) st1) d = view st d) as Hv.
  { intros d con st1 [v Hd]. unfold view. cbn. rewrite lookup_insert_ne; [done|].
    intros <-. congruence. }
  split; cbn; auto.
  - intros m e d H1 H2. unfold looping. pose proof (Hl m e d H1 H2) as Hlp.
    rewrite Hv; [done|by apply looping_not_none].
  - intros d Hd. rewrite Hv; by apply Hc.
  - intros m e d i w ph H1 H2. rewrite Hv; [by apply Hlo with e|].
    by eapply looping_not_none, Hl.
Qed.
End invariant.

(** ** The daemon as a whole

    What a router variant promises to the event loop: its [handle_frame] keeps
    the invariant when called for a connection in its loop.  Every reachable
    state of the daemon then satisfies it. *)

Class FrameHandler (E X : Type) `{RouteEntry E} := {
  handle_frame : nat -> FrameHeader -> state (Router E X) unit;
  handle_frame_inv c frame st :
    looping st c -> router_inv st -> router_inv (handle_frame c frame st).2
}.

Section daemon.
Context {E X : Type} `{FrameHandler E X}.
Abbreviation Router := (Router E X).
Implicit Types (st : Router) (c : nat).

Lemma initial_inv max (x : X) : router_inv (initial (E := E) max x).
Proof.
  split; cbn.
  - intros m e c. by rewrite lookup_empty.
  - constructor.
  - by intros c ?%elem_of_nil.
  - intros m e c i w ph. by rewrite lookup_empty.
Qed.

Lemma set_link_quiet l s b st : quiet st (set_link l s b st).
Proof. by destruct l. Qed.

Lemma run_connection_reader_quietly l stop poll :
  quietly (E := E) (X := X) (run_connection_reader l stop poll).
Proof.
  intros st. unfold run_connection_reader.
  destruct (get_link l st) as [[s []]|]; [done| |done].
  destruct stop; [apply set_link_quiet|].
  destruct (poll_in s poll <=? 0); [done|].
  destruct (read_frame _ _) as [[[frame body]|] s']; [|apply set_link_quiet].
  etrans; [apply (set_link_quiet l s' false)|].
  apply quietly_bind; auto with quiet. intros e.
  destruct (e ≫= route_con); auto with quiet.
Qed.

Lemma preserves_quietly {A} (m : state Router A) : quietly m -> preserves router_inv m.
Proof. intros Hm st Hi. by rewrite <- (Hm st). Qed.

Lemma inv_publish st c : router_inv st -> router_inv (publish c st).2.
Proof.
  intros Hi. pose proof Hi as [Hl Hn Hc Hlo]. unfold publish, modify. cbn [snd].
  case_decide as Hd; [done|].
  apply Decidable.not_or in Hd as [Hd1 Hd2].
  split; cbn; auto.
  - apply list.NoDup_app. split_and!; [done| |apply NoDup_singleton]. set_solver.
  - intros d [?|Hd%list_elem_of_singleton]%elem_of_app; [by apply Hc|]. subst d.
    unfold view. cbn. destruct (r_cons st !! c); [by eexists|done].
Qed.

Lemma inv_set_looping st c con :
  r_cons st !! c = Some con -> con_phase con = Created -> router_inv st ->
  router_inv (set_cons (alter (con_set_phase Looping) c (r_cons st)) st).
Proof.
  intros Hcon Hph [Hl Hn Hc Hlo].
  set (st' := set_cons (alter (con_set_phase Looping) c (r_cons st)) st).
  assert (forall d, d <> c -> view st' d = view st d) as Hv.
  { intros d Hd. unfold view, st'. cbn. by rewrite lookup_alter_ne. }
  assert (forall m e d, r_registry st !! m = Some e -> route_con e = Some d -> d <> c) as Hne.
  { intros m e d H1 H2 ->. destruct (Hl m e c H1 H2) as (?&?&?&Hv').
    unfold view in Hv'. rewrite Hcon in Hv'. cbn in Hv'. unfold con_view in Hv'. congruence. }
  split; auto.
  - intros m e d H1 H2. unfold looping. rewrite Hv by (by eapply Hne). by eapply Hl.
  - intros d Hd. destruct (decide (d = c)) as [->|]; [|rewrite Hv by done; by apply Hc].
    unfold view, st'. cbn [r_cons set_cons]. rewrite lookup_alter_eq, Hcon. by eexists.
  - intros m e d i w ph H1 H2. rewrite Hv by (by eapply Hne). by apply (Hlo m e d).
Qed.

Lemma con_start_inv c : preserves router_inv (con_start (E := E) (X := X) c).
Proof.
  intros st Hi. unfold con_start. destruct (r_cons st !! c) as [con|] eqn:Hc; [|done].
  case_decide as Hph; [|done]. rewrite bind_eq. cbn [snd].
  destruct (con_is_peer con).
  - rewrite <- (advertise_quietly c _). by eapply inv_set_looping.
  - by eapply inv_set_looping.
Qed.

Lemma con_run_iter_inv c stop poll : preserves router_inv (con_run_iter handle_frame c stop poll).
Proof.
  intros st Hi. unfold con_run_iter. destruct (r_cons st !! c) as [con|] eqn:Hc; [|done].
  case_decide as Hph; [|done].
  destruct stop; [by apply inv_finish|].
  destruct (poll_in _ _ <=? 0); [done|].
  destruct (recv_all _ _) as [[ok hdr] s].
  pose proof (quiet_set_socket st c con s Hc) as Hq.
  destruct ok; [|apply inv_finish; by rewrite <- Hq].
  apply handle_frame_inv; [|by rewrite <- Hq].
  rewrite <- Hq. unfold looping, view. rewrite Hc. cbn. unfold con_view. rewrite Hph. eauto.
Qed.

Lemma handle_event_inv e : preserves router_inv (handle_event handle_frame e).
Proof.
  destruct e; cbn [handle_event].
  - destruct sock; [|apply preserves_ret]. apply preserves_bind; [|auto with preserves].
    intros st. apply inv_new_connection.
  - apply preserves_quietly. intros st. by destruct configured, sock.
  - apply preserves_quietly, quietly_for_each. by intros [i [s|]] st.
  - unfold accept_iter. apply preserves_if; [auto with preserves|].
    destruct sock; [|auto with preserves]. apply preserves_bind; [|auto with preserves].
    intros st. apply inv_new_connection.
  - intros st. apply inv_publish.
  - apply con_start_inv.
  - apply con_run_iter_inv.
  - apply preserves_quietly, run_connection_reader_quietly.
Qed.

Lemma reachable_inv max (x : X) st : reachable handle_frame max x st -> router_inv st.
Proof.
  intros [es <-]. apply (preserves_for_each router_inv es (handle_event handle_frame)).
  - intros e _. apply handle_event_inv.
  - apply initial_inv.
Qed.
End daemon.

(** ** Broadcasts *)

Section broadcast.
Context {E X : Type} `{RouteEntry E}.
Abbreviation Router := (Router E X).
Implicit Types (st : Router) (c d : nat).

Lemma elem_of_peers_of st d :
  d ∈ peers_of st <-> d ∈ r_connections st /\ is_peer_con st d = true.
Proof. unfold peers_of. by rewrite !list_elem_of_In, filter_In. Qed.

Lemma NoDup_peers_of st : NoDup (r_connections st) -> NoDup (peers_of st).
Proof. rewrite !NoDup_ListNoDup. apply NoDup_filter. Qed.

Lemma broadcast_sends st (f : nat -> state Router unit) bs d :
  (forall c, sends (f c) (only_to c bs)) -> NoDup (r_connections st) -> send_ok st d ->
  send_ok (broadcast_to_peers f st).2 d /\
  con_tx (broadcast_to_peers f st).2 d
    = con_tx st d ++ if decide (d ∈ peers_of st) then bs else [].
Proof.
  intros Hf Hn Hd. unfold broadcast_to_peers. rewrite bind_eq. cbn [get_state fst snd].
  destruct (for_each_sends (peers_of st) f (fun c => only_to c bs) Hf st d Hd) as [Hd' E1].
  rewrite E1, concat_only_to_NoDup by by apply NoDup_peers_of. done.
Qed.

Lemma on_local_registered_quiet m st :
  quiet (set_local ({[m]} ∪ r_local_mailboxes st) st) (on_local_registered m st).2.
Proof.
  unfold on_local_registered. rewrite bind_eq. cbn [modify fst snd].
  apply broadcast_quietly. intros. apply send_peer_register_quietly.
Qed.

Lemma on_local_deleted_quiet m st :
  quiet (set_local (r_local_mailboxes st ∖ {[m]}) st) (on_local_deleted m st).2.
Proof.
  unfold on_local_deleted. rewrite bind_eq. cbn [modify fst snd].
  apply broadcast_quietly. intros. apply send_peer_delete_quietly.
Qed.

Lemma on_local_registered_sends m st d :
  NoDup (r_connections st) -> send_ok st d ->
  send_ok (on_local_registered m st).2 d /\
  con_tx (on_local_registered m st).2 d
    = con_tx st d ++ if decide (d ∈ peers_of st) then register_bytes m else [].
Proof.
  intros Hn Hd. unfold on_local_registered. rewrite bind_eq. cbn [modify fst snd].
  apply (broadcast_sends (set_local ({[m]} ∪ r_local_mailboxes st) st)); auto.
  intros. apply send_peer_register_sends.
Qed.

Lemma on_local_deleted_sends m st d :
  NoDup (r_connections st) -> send_ok st d ->
  send_ok (on_local_deleted m st).2 d /\
  con_tx (on_local_deleted m st).2 d
    = con_tx st d ++ if decide (d ∈ peers_of st) then delete_bytes m else [].
Proof.
  intros Hn Hd. unfold on_local_deleted. rewrite bind_eq. cbn [modify fst snd].
  apply (broadcast_sends (set_local (r_local_mailboxes st ∖ {[m]}) st)); auto.
  intros. apply send_peer_delete_sends.
Qed.

(** Offering a frame upstream writes to no connection. *)
Lemma forward_to_upstream_sends hdr body :
  sends (E := E) (X := X) (forward_to_upstream hdr body) (fun _ => []).
Proof. apply sends_const. intros st. unfold forward_to_upstream. repeat case_match; reflexivity. Qed.

Lemma update_con_lookup st c f d :
  r_cons (update_con c f st).2 !! d
    = (if decide (c = d) then f <$> r_cons st !! d else r_cons st !! d).
Proof. unfold update_con, modify. cbn [snd r_cons set_cons]. rewrite lookup_alter. by case_decide; subst. Qed.

Lemma update_con_sends c f :
  (forall con, con_socket (f con) = con_socket con) ->
  sends (E := E) (X := X) (update_con c f) (fun _ => []).
Proof.
  intros Hf st d Hd. unfold send_ok, con_tx in *. rewrite update_con_lookup, app_nil_r.
  case_decide; [|done]. destruct (r_cons st !! d); cbn in *; [by rewrite !Hf|done].
Qed.
End broadcast.

(** ** Framing

    Reading a frame that was written by [forward] gives the frame back, for
    any segmentation of the stream. *)

Lemma read_frame_ok max s hdr body rest :
  wf_frame hdr -> f_msglen hdr = sizeof_FrameHeader + zlen body -> zlen body <= max ->
  no_recv_error s -> sk_rx s = encode_frame hdr ++ body ++ rest ->
  exists s', read_frame max s = (Some (hdr, body), s') /\ sk_rx s' = rest /\
    no_recv_error s' /\ sk_tx s' = sk_tx s /\ sk_fd s' = sk_fd s.
Proof.
  intros Hwf Hlen Hmax Hs Hrx. unfold read_frame.
  destruct (recv_all_ok s (encode_frame hdr) (body ++ rest) sizeof_FrameHeader)
    as (s1&->&Hrx1&Hs1&(Hfd1&_&_&Htx1&_)); auto.
  cbn [negb]. rewrite decode_encode_frame by done.
  assert (frame_body_len hdr = zlen body) as Hb.
  { unfold frame_body_len. rewrite Hlen. pose proof (zlen_nonneg body).
    unfold sizeof_FrameHeader in *. case_match; lia. }
  rewrite Hb. destruct (Z.ltb_spec max (zlen body)); [lia|].
  destruct (Z.ltb_spec 0 (zlen body)) as [Hpos|Hpos].
  - destruct (recv_all_ok s1 body rest (zlen body)) as (s2&->&Hrx2&Hs2&(Hfd2&_&_&Htx2&_)); auto.
    exists s2. split_and!; auto; congruence.
  - assert (body = []) as ->. { destruct body; [done|]. unfold zlen in Hpos. cbn in Hpos. lia. }
    exists s1. split_and!; auto.
Qed.

(** ** Iterations of the loop of a connection *)

(** The types the router answers itself; every other type is data. *)
Definition is_control (type : Z) : bool :=
  bool_decide (type ∈ [MSG_ROUTER_PEER_HELLO; MSG_ROUTER_PEER_REGISTER; MSG_ROUTER_PEER_DELETE;
    MSG_ROUTER_DISABLE_WATCHDOG; MSG_ROUTER_MBX_INIT_WITH_REPLY; MSG_ROUTER_MBX_DELETE]).

Section iterations.
Context {E X : Type} `{RouteEntry E}.
Implicit Types (st : Router E X) (c d : nat) (con : Connection).

(** A connection in its loop with a working receive side. *)
Definition receiving st c con : Prop :=
  r_cons st !! c = Some con /\ con_phase con = Looping /\ no_recv_error (con_socket con).

(** Both daemons handle a frame by reading its body and dispatching it. *)
Definition reads_then_dispatches (handle_frame : nat -> FrameHeader -> state (Router E X) unit)
    (dispatch : nat -> FrameHeader -> bytes -> state (Router E X) unit) : Prop :=
  forall c frame st, handle_frame c frame st =
    (body ← read_body c frame;
     match body with
     | None => mret tt
     | Some buf => dispatch c frame buf
     end) st.

(** A header at the head of the stream is read by one iteration. *)
Lemma iterate_header handle_frame c st con hdr rest poll :
  receiving st c con -> 0 < poll -> sk_rx (con_socket con) = encode_frame hdr ++ rest -> wf_frame hdr ->
  exists s,
    con_run_iter handle_frame c false poll st
      = handle_frame c hdr (set_cons (<[c := con_set_socket s con]> (r_cons st)) st) /\
    sk_rx s = rest /\ no_recv_error s /\ sk_tx s = sk_tx (con_socket con) /\
    sk_fd s = sk_fd (con_socket con) /\
    sk_send_plan s = sk_send_plan (con_socket con).
Proof.
  intros (Hc&Hph&Hs) Hpoll Hrx Hwf. unfold con_run_iter. rewrite Hc.
  rewrite decide_True by done. unfold poll_in. pose proof Hs as [Hfd _].
  destruct (Z.ltb_spec (sk_fd (con_socket con)) 0); [lia|].
  destruct (Z.leb_spec poll 0); [lia|].
  destruct (recv_all_ok (con_socket con) (encode_frame hdr) rest sizeof_FrameHeader)
    as (s1&->&Hrx1&Hs1&(Hfd1&_&_&Htx1&Hsp1)); auto.
  exists s1. rewrite decode_encode_frame by done. split_and!; auto; congruence.
Qed.

(** A whole frame at the head of the stream is read and dispatched by one
    iteration. *)
Lemma iterate_frame {handle_frame dispatch} (Hhandle : reads_then_dispatches handle_frame dispatch) c st con hdr body rest poll :
  receiving st c con -> 0 < poll -> sk_rx (con_socket con) = encode_frame hdr ++ body ++ rest ->
  wf_frame hdr -> f_msglen hdr = sizeof_FrameHeader + zlen body ->
  zlen body <= r_max_msg_size st ->
  exists s,
    con_run_iter handle_frame c false poll st
      = dispatch c hdr body (set_cons (<[c := con_set_socket s con]> (r_cons st)) st) /\
    sk_rx s = rest /\ no_recv_error s /\ sk_tx s = sk_tx (con_socket con) /\
    sk_fd s = sk_fd (con_socket con) /\
    sk_send_plan s = sk_send_plan (con_socket con).
Proof.
  intros Hc Hpoll Hrx Hwf Hlen Hmax.
  destruct (iterate_header handle_frame c st con hdr (body ++ rest) poll) as (s1&->&Hrx1&Hs1&Htx1&Hfd1&Hsp1); auto.
  rewrite Hhandle, bind_eq.
  unfold read_body at 1 2. cbn [r_cons set_cons r_max_msg_size]. rewrite lookup_insert_eq.
  assert (frame_body_len hdr = zlen body) as ->.
  { unfold frame_body_len. rewrite Hlen. pose proof (zlen_nonneg body).
    unfold sizeof_FrameHeader in *. case_match; lia. }
  destruct (Z.ltb_spec (r_max_msg_size st) (zlen body)); [lia|].
  destruct (Z.ltb_spec 0 (zlen body)) as [Hpos|Hpos]; cbn [con_socket con_set_socket].
  - destruct (recv_all_ok s1 body rest (zlen body)) as (s2&->&Hrx2&Hs2&(Hfd2&_&_&Htx2&Hsp2)); auto.
    exists s2. cbn [fst snd]. rewrite insert_insert_eq. split_and!; auto; congruence.
  - assert (body = []) as ->. { destruct body; [done|]. unfold zlen in Hpos. cbn in Hpos. lia. }
    exists s1. split_and!; auto.
Qed.

Lemma set_socket_tx st c con s d :
  r_cons st !! c = Some con -> sk_tx s = sk_tx (con_socket con) ->
  con_tx (set_cons (<[c := con_set_socket s con]> (r_cons st)) st) d = con_tx st d.
Proof.
  intros Hc Hs. unfold con_tx. cbn [r_cons set_cons]. destruct (decide (d = c)) as [->|].
  - by rewrite lookup_insert_eq, Hc.
  - by rewrite lookup_insert_ne.
Qed.

Lemma set_socket_send_ok st c con s d :
  r_cons st !! c = Some con -> sk_fd s = sk_fd (con_socket con) ->
  sk_send_plan s = sk_send_plan (con_socket con) -> send_ok st d ->
  send_ok (set_cons (<[c := con_set_socket s con]> (r_cons st)) st) d.
Proof.
  intros Hc Hfd Hsp. unfold send_ok. cbn [r_cons set_cons]. destruct (decide (d = c)) as [->|].
  - rewrite lookup_insert_eq, Hc. cbn. unfold no_send_error. by rewrite Hfd, Hsp.
  - by rewrite lookup_insert_ne.
Qed.
End iterations.
