(* ===== verification/TcpRouter.v ===== *)
(** * corerat-router-tcp

    Models the part of src/router/tcp_router.cpp that RouterCore.v leaves open:
    the registry maps a mailbox id to a [Connection*], and
    [Connection::handle_frame] interprets the frames.  [TcpRouter] is the
    state of the daemon; its events are those of RouterCore.v. *)

From Stdlib Require Import ZArith Lia.
From stdpp Require Import base list gmap sets numbers.
From S2P Require Import Prelude Protocol TcpSocket RouterCore.

#[local] Open Scope Z_scope.

Module Tcp.

(** [std::unordered_map<uint32_t, Connection*> table_] *)
#[export] Instance connection_entry : RouteEntry nat := Some.

Abbreviation TcpRouter := (Router nat unit).

(** [MSG_ROUTER_MBX_INIT_WITH_REPLY]: the reply precedes the advertisement. *)
Definition handle_mbx_init (c : nat) (frame : FrameHeader) (mbx : Z) : state TcpRouter unit :=
  ok ← registry_add mbx c;
  _ ← send_reply c (make_frame (if (ok : bool) then MSG_OK else MSG_ERROR)
                      (f_src frame) 0 0 (f_seq_nr frame) 0);
  if (ok : bool) then on_local_registered mbx else mret tt.

Definition handle_mbx_delete (mbx : Z) : state TcpRouter unit :=
  _ ← registry_remove mbx;
  on_local_deleted mbx.

(** The [default] case: data routing. *)
Definition route_data (c : nat) (frame : FrameHeader) (body : bytes) : state TcpRouter unit :=
  dest ← registry_find (f_dest frame);
  match dest with
  | Some dest => _ ← forward dest frame body; mret tt
  | None =>
      is_peer ← get_is_peer c;
      if (is_peer : bool) then mret tt
      else
        forwarded ← forward_to_upstream frame body;
        if (forwarded : bool) then mret tt
        else send_reply c (make_frame MSG_ERROR (f_src frame) 0 0 (f_seq_nr frame) 0)
  end.

(** The [switch] of [handle_frame]; [buf] is the body read into the buffer. *)
Definition dispatch (c : nat) (frame : FrameHeader) (buf : bytes) : state TcpRouter unit :=
  let body_len := frame_body_len frame in
  let type := f_type frame in
  is_peer ← get_is_peer c;
  if type =? MSG_ROUTER_PEER_HELLO then
    if (is_peer : bool) then mret tt
    else _ ← update_con c (con_set_peer true); advertise_as_peer c
  else if type =? MSG_ROUTER_PEER_REGISTER then
    if negb is_peer || (body_len <? sizeof_MbxInitPayload) then mret tt
    else _ ← registry_add (decode_mbx buf) c; mret tt
  else if type =? MSG_ROUTER_PEER_DELETE then
    if negb is_peer || (body_len <? sizeof_MbxInitPayload) then mret tt
    else registry_remove (decode_mbx buf)
  else if type =? MSG_ROUTER_DISABLE_WATCHDOG then
    update_con c (con_set_watchdog false)
  else if type =? MSG_ROUTER_MBX_INIT_WITH_REPLY then
    if body_len <? sizeof_MbxInitPayload then mret tt
    else handle_mbx_init c frame (decode_mbx buf)
  else if type =? MSG_ROUTER_MBX_DELETE then
    if body_len <? sizeof_MbxInitPayload then mret tt
    else handle_mbx_delete (decode_mbx buf)
  else route_data c frame buf.

Definition handle_frame (c : nat) (frame : FrameHeader) : state TcpRouter unit :=
  body ← read_body c frame;
  match body with
  | None => mret tt
  | Some buf => dispatch c frame buf
  end.

(** ** The specification of the router as a directory of mailboxes

    What a node may rely on, without sockets, threads or frame layouts: an
    owner per mailbox, the set of mailboxes this router advertises, the set
    of connections that are peers, and for each request what is answered to
    whom. *)

Record directory := mkDir {
  dir_owner : gmap Z nat;
  dir_local : gset Z;
  dir_peers : gset nat
}.

Inductive request :=
  | ReqHello
  | ReqLearn (m : Z)             (* a peer advertises [m] *)
  | ReqForget (m : Z)            (* a peer withdraws [m] *)
  | ReqRegister (m src seq : Z)
  | ReqDelete (m : Z)
  | ReqIgnored                   (* watchdog, or a payload that is too short *)
  | ReqData (frame : FrameHeader) (body : bytes).

Definition parse_request (frame : FrameHeader) (buf : bytes) : request :=
  let short := frame_body_len frame <? sizeof_MbxInitPayload in
  let m := decode_mbx buf in
  let type := f_type frame in
  if type =? MSG_ROUTER_PEER_HELLO then ReqHello
  else if type =? MSG_ROUTER_PEER_REGISTER then if short then ReqIgnored else ReqLearn m
  else if type =? MSG_ROUTER_PEER_DELETE then if short then ReqIgnored else ReqForget m
  else if type =? MSG_ROUTER_DISABLE_WATCHDOG then ReqIgnored
  else if type =? MSG_ROUTER_MBX_INIT_WITH_REPLY then
    if short then ReqIgnored else ReqRegister m (f_src frame) (f_seq_nr frame)
  else if type =? MSG_ROUTER_MBX_DELETE then if short then ReqIgnored else ReqDelete m
  else ReqData frame buf.

Definition reply_bytes (type src seq : Z) : bytes := encode_frame (make_frame type src 0 0 seq 0).

(** [serves published upstream c a req a' out]: connection [c] sends [req] in
    directory [a]; the router moves to [a'] and sends [out d] to connection
    [d].  [published] are the connections broadcasts reach, [upstream] tells
    whether an upstream router took a frame it was offered. *)
Inductive serves (published : list nat) (upstream : bool) (c : nat) (a : directory)
    : request -> directory -> (nat -> bytes) -> Prop :=
  | serve_hello ms :
      c ∉ dir_peers a -> ms ≡ₚ elements (dir_local a) ->
      serves published upstream c a ReqHello
        (mkDir (dir_owner a) (dir_local a) ({[c]} ∪ dir_peers a))
        (only_to c (hello_bytes ++ concat (map register_bytes ms)))
  | serve_hello_again :
      c ∈ dir_peers a -> serves published upstream c a ReqHello a (fun _ => [])
  | serve_learn m :
      c ∈ dir_peers a -> dir_owner a !! m = None ->
      serves published upstream c a (ReqLearn m)
        (mkDir (<[m := c]> (dir_owner a)) (dir_local a) (dir_peers a)) (fun _ => [])
  | serve_learn_taken m owner :
      dir_owner a !! m = Some owner ->
      serves published upstream c a (ReqLearn m) a (fun _ => [])
  | serve_forget m :
      c ∈ dir_peers a ->
      serves published upstream c a (ReqForget m)
        (mkDir (delete m (dir_owner a)) (dir_local a) (dir_peers a)) (fun _ => [])
  | serve_not_peer req m :
      c ∉ dir_peers a -> req = ReqLearn m \/ req = ReqForget m ->
      serves published upstream c a req a (fun _ => [])
  | serve_register m src seq :
      dir_owner a !! m = None ->
      serves published upstream c a (ReqRegister m src seq)
        (mkDir (<[m := c]> (dir_owner a)) ({[m]} ∪ dir_local a) (dir_peers a))
        (fun d => only_to c (reply_bytes MSG_OK src seq) d ++
           if decide (d ∈ published /\ d ∈ dir_peers a) then register_bytes m else [])
  | serve_register_taken m src seq owner :
      dir_owner a !! m = Some owner ->
      serves published upstream c a (ReqRegister m src seq) a
        (only_to c (reply_bytes MSG_ERROR src seq))
  | serve_delete m :
      serves published upstream c a (ReqDelete m)
        (mkDir (delete m (dir_owner a)) (dir_local a ∖ {[m]}) (dir_peers a))
        (fun d => if decide (d ∈ published /\ d ∈ dir_peers a) then delete_bytes m else [])
  | serve_ignored : serves published upstream c a ReqIgnored a (fun _ => [])
  | serve_data frame body dest :
      dir_owner a !! f_dest frame = Some dest ->
      serves published upstream c a (ReqData frame body) a
        (only_to dest (encode_frame frame ++ body))
  | serve_data_peer frame body :
      dir_owner a !! f_dest frame = None -> c ∈ dir_peers a ->
      serves published upstream c a (ReqData frame body) a (fun _ => [])
  | serve_data_upstream frame body :
      dir_owner a !! f_dest frame = None -> c ∉ dir_peers a -> upstream = true ->
      serves published upstream c a (ReqData frame body) a (fun _ => [])
  | serve_data_error frame body :
      dir_owner a !! f_dest frame = None -> c ∉ dir_peers a -> upstream = false ->
      serves published upstream c a (ReqData frame body) a
        (only_to c (reply_bytes MSG_ERROR (f_src frame) (f_seq_nr frame))).

(** The directory a router state implements. *)
Definition implements (st : TcpRouter) (a : directory) : Prop :=
  r_registry st = dir_owner a /\ r_local_mailboxes st = dir_local a /\
  forall d, is_peer_con st d = bool_decide (d ∈ dir_peers a).

Definition directory_of (st : TcpRouter) : directory :=
  mkDir (r_registry st) (r_local_mailboxes st)
    (list_to_set (List.filter (is_peer_con st) (elements (dom (r_cons st))))).

(** ** Table effects of the handlers *)

(** Case analysis on the type and the length of a frame. *)
Ltac split_frame :=
  repeat match goal with
  | |- context [f_type ?fr =? ?t] =>
      let E := fresh "Htype" in destruct (f_type fr =? t) eqn:E
  end;
  cbn [negb orb];
  repeat match goal with
  | |- context [frame_body_len ?fr <? ?t] =>
      let E := fresh "Hshort" in destruct (frame_body_len fr <? t) eqn:E
  end.

Section handlers.
Implicit Types (st : TcpRouter) (c d : nat) (m : Z) (frame : FrameHeader).

Lemma handle_mbx_init_fresh c frame m st :
  r_registry st !! m = None ->
  quiet (set_local ({[m]} ∪ r_local_mailboxes st)
           (set_registry (<[m := c]> (r_registry st)) st))
    (handle_mbx_init c frame m st).2.
Proof.
  intros Hm. unfold handle_mbx_init, registry_add. rewrite bind_eq, Hm. cbn [fst snd].
  set (st1 := set_registry _ st). rewrite bind_eq.
  pose proof (send_reply_quietly (E := nat) (X := unit) c
    (make_frame MSG_OK (f_src frame) 0 0 (f_seq_nr frame) 0) st1) as Hq.
  etrans; [|apply on_local_registered_quiet].
  rewrite (quiet_local _ _ Hq). by apply set_local_proper.
Qed.

Lemma handle_mbx_init_taken c frame m st owner :
  r_registry st !! m = Some owner ->
  handle_mbx_init c frame m st
  = (tt, (send_reply c (make_frame MSG_ERROR (f_src frame) 0 0 (f_seq_nr frame) 0) st).2).
Proof.
  intros Hm. unfold handle_mbx_init, registry_add. rewrite bind_eq, Hm. cbn [fst snd].
  by rewrite bind_eq.
Qed.

Lemma handle_mbx_delete_quiet m st :
  quiet (set_local (r_local_mailboxes st ∖ {[m]})
           (set_registry (delete m (r_registry st)) st))
    (handle_mbx_delete m st).2.
Proof.
  unfold handle_mbx_delete. rewrite bind_eq. cbn [registry_remove modify fst snd].
  apply (on_local_deleted_quiet m (set_registry (delete m (r_registry st)) st)).
Qed.

Lemma route_data_quietly c frame body : quietly (route_data c frame body).
Proof.
  unfold route_data. apply quietly_bind; [apply registry_find_quietly|].
  intros [dest|]; [apply quietly_bind; [apply forward_quietly|intros; apply quietly_ret]|].
  apply quietly_bind; [apply get_is_peer_quietly|]. intros b.
  apply quietly_if; [apply quietly_ret|].
  apply quietly_bind; [apply forward_to_upstream_quietly|]. intros b'.
  apply quietly_if; [apply quietly_ret|apply send_reply_quietly].
Qed.

Lemma is_peer_con_inv st c :
  is_peer_con st c = true -> exists i w ph, view st c = Some (i, true, w, ph).
Proof.
  rewrite is_peer_con_view. destruct (view st c) as [[[[i p] w] ph]|]; [|done].
  intros ->. eauto.
Qed.

Lemma handle_mbx_init_inv c frame m st :
  looping st c -> router_inv st -> router_inv (handle_mbx_init c frame m st).2.
Proof.
  intros Hc Hi. destruct (r_registry st !! m) as [owner|] eqn:Hm.
  - rewrite (handle_mbx_init_taken _ _ _ _ _ Hm). cbn [snd].
    by rewrite <- (send_reply_quietly c _ st).
  - rewrite <- (handle_mbx_init_fresh c frame _ _ Hm). apply inv_register; [|done].
    by intros ? [= <-].
Qed.

Lemma handle_mbx_delete_inv m st : router_inv st -> router_inv (handle_mbx_delete m st).2.
Proof. intros Hi. rewrite <- (handle_mbx_delete_quiet m st). by apply inv_unregister. Qed.

(** The invariant of the daemon survives every frame. *)
Lemma dispatch_inv c frame buf st :
  looping st c -> router_inv st -> router_inv (dispatch c frame buf st).2.
Proof.
  intros Hc Hi. unfold dispatch. rewrite bind_eq. cbn [get_is_peer fst snd].
  destruct (is_peer_con st c) eqn:Hp.
  all: split_frame; try done.
  all: try by apply inv_remove.
  all: try by apply inv_update_con.
  all: try by apply handle_mbx_delete_inv.
  all: try by apply handle_mbx_init_inv.
  all: try by rewrite <- (route_data_quietly _ _ _ _).
  - rewrite bind_eq. unfold registry_add.
    destruct (r_registry st !! decode_mbx buf) eqn:Hm; [done|]. cbn [fst snd].
    destruct (is_peer_con_inv _ _ Hp) as (i&w&ph&Hv). by eapply inv_learn.
  - rewrite bind_eq, <- (advertise_quietly c _). by apply inv_update_con.
Qed.

Lemma handle_frame_keeps_inv c frame st :
  looping st c -> router_inv st -> router_inv (handle_frame c frame st).2.
Proof.
  intros Hc Hi. unfold handle_frame. rewrite bind_eq.
  pose proof (read_body_quietly c frame st) as Hq.
  destruct (read_body c frame st).1 as [buf|]; [|by rewrite <- Hq].
  apply dispatch_inv; by rewrite <- Hq.
Qed.
End handlers.

#[export] Instance tcp_frame_handler : FrameHandler nat unit :=
  {| RouterCore.handle_frame := handle_frame;
     RouterCore.handle_frame_inv := handle_frame_keeps_inv |}.

(** ** The handlers refine the specification *)

Section refinement.
Implicit Types (st : TcpRouter) (a : directory) (c d : nat) (m : Z) (frame : FrameHeader).

(** [st'] is a correct outcome of serving [req] in [st]. *)
Definition served (upstream : bool) c a req st st' : Prop :=
  exists a' out,
    serves (r_connections st) upstream c a req a' out /\
    implements st' a' /\
    forall d, send_ok st d -> send_ok st' d /\ con_tx st' d = con_tx st d ++ out d.

(** The abstraction function. *)
Lemma implements_directory_of st : implements st (directory_of st).
Proof.
  unfold implements. split_and!; [done..|]. intros d. cbn. symmetry.
  destruct (is_peer_con st d) eqn:Hd; case_bool_decide as Hin; try done.
  - exfalso. apply Hin. apply elem_of_list_to_set, list_elem_of_In, filter_In.
    split; [|done]. apply list_elem_of_In, elem_of_elements, elem_of_dom.
    unfold is_peer_con in Hd. by destruct (r_cons st !! d).
  - apply elem_of_list_to_set, list_elem_of_In, filter_In in Hin. destruct Hin. congruence.
Qed.

Lemma implements_quiet st st' a : quiet st st' -> implements st a -> implements st' a.
Proof.
  intros Hq (Hr&Hl&Hp). unfold implements.
  rewrite (quiet_registry _ _ Hq), (quiet_local _ _ Hq). split_and!; auto.
  intros d. by rewrite <- Hq.
Qed.

Lemma served_nothing upstream c a req st :
  implements st a -> serves (r_connections st) upstream c a req a (fun _ => []) ->
  served upstream c a req st st.
Proof. intros Ha Hs. exists a, (fun _ => []). split_and!; auto. intros d. by rewrite app_nil_r. Qed.

Lemma elem_of_peers_dir st a d :
  implements st a -> d ∈ peers_of st <-> d ∈ r_connections st /\ d ∈ dir_peers a.
Proof.
  intros (_&_&Hp). rewrite elem_of_peers_of, Hp, bool_decide_eq_true. done.
Qed.

Lemma peers_bytes st a d bs :
  implements st a ->
  (if decide (d ∈ peers_of st) then bs else [])
  = if decide (d ∈ r_connections st /\ d ∈ dir_peers a) then bs else ([] : bytes).
Proof. intros Ha. apply decide_ext. by apply elem_of_peers_dir. Qed.

Lemma handle_mbx_init_served upstream c a frame m st :
  NoDup (r_connections st) -> implements st a ->
  served upstream c a (ReqRegister m (f_src frame) (f_seq_nr frame)) st
    (handle_mbx_init c frame m st).2.
Proof.
  intros Hn Ha. pose proof Ha as (Hr&Hl&Hp).
  destruct (r_registry st !! m) as [owner|] eqn:Hm; rewrite Hr in Hm.
  - rewrite (handle_mbx_init_taken c frame m st owner) by by rewrite Hr. cbn [snd].
    set (hdr := make_frame MSG_ERROR (f_src frame) 0 0 (f_seq_nr frame) 0).
    exists a, (only_to c (encode_frame hdr)). split_and!.
    + by eapply serve_register_taken.
    + eapply implements_quiet; [apply send_reply_quietly|done].
    + apply send_reply_sends.
  - eexists _, _. split_and!; [by apply serve_register| |].
    + eapply implements_quiet; [apply handle_mbx_init_fresh; by rewrite Hr|].
      unfold implements. cbn. rewrite Hr, Hl. done.
    + intros d Hd. unfold handle_mbx_init, registry_add. rewrite bind_eq, Hr, Hm. cbn [fst snd].
      set (st1 := set_registry _ st). set (hdr := make_frame MSG_OK _ _ _ _ _).
      rewrite bind_eq.
      destruct (send_reply_sends (E := nat) (X := unit) c hdr st1 d Hd) as [Hd2 E2].
      pose proof (send_reply_quietly (E := nat) (X := unit) c hdr st1) as Hq.
      destruct (on_local_registered_sends m _ d
        ltac:(by rewrite (quiet_connections _ _ Hq)) Hd2) as [Hd3 E3].
      rewrite E3, E2, <- app_assoc. split; [done|]. do 2 f_equal.
      rewrite <- (peers_of_proper _ _ Hq). by apply (peers_bytes st a).
Qed.

Lemma handle_mbx_delete_served upstream c a m st :
  NoDup (r_connections st) -> implements st a ->
  served upstream c a (ReqDelete m) st (handle_mbx_delete m st).2.
Proof.
  intros Hn Ha. pose proof Ha as (Hr&Hl&Hp).
  eexists _, _. split_and!; [by apply serve_delete| |].
  - eapply implements_quiet; [apply handle_mbx_delete_quiet|].
    unfold implements. cbn. by rewrite Hr, Hl.
  - intros d Hd. unfold handle_mbx_delete. rewrite bind_eq. cbn [registry_remove modify fst snd].
    destruct (on_local_deleted_sends m (set_registry (delete m (r_registry st)) st) d Hn Hd)
      as [Hd2 E2].
    rewrite E2. split; [done|]. f_equal. by apply (peers_bytes st a).
Qed.

Lemma route_data_served c a frame body st :
  implements st a ->
  served (forward_to_upstream frame body st).1 c a (ReqData frame body) st
    (route_data c frame body st).2.
Proof.
  intros Ha. pose proof Ha as (Hr&Hl&Hp).
  assert (implements (route_data c frame body st).2 a) as Ha'
    by (eapply implements_quiet; [apply route_data_quietly|done]).
  unfold route_data in *. rewrite bind_eq in *. cbn [registry_find fst snd] in *.
  destruct (r_registry st !! f_dest frame) as [dest|] eqn:Hd; rewrite Hr in Hd.
  { exists a, (only_to dest (encode_frame frame ++ body)). split_and!; [by apply serve_data|done|].
    rewrite bind_eq. apply forward_sends. }
  rewrite bind_eq in *. cbn [get_is_peer fst snd] in *. specialize (Hp c).
  destruct (is_peer_con st c) eqn:Hc; symmetry in Hp.
  { apply bool_decide_eq_true in Hp. apply served_nothing; [done|]. by apply serve_data_peer. }
  apply bool_decide_eq_false in Hp. rewrite bind_eq in *.
  pose proof (forward_to_upstream_sends (E := nat) (X := unit) frame body st) as Hs.
  destruct (forward_to_upstream frame body st) as [up st1]. cbn [fst snd] in *.
  destruct up; cbn [mret state_ret snd] in *.
  - exists a, (fun _ => []). split_and!; auto. by apply serve_data_upstream.
  - exists a, (only_to c (reply_bytes MSG_ERROR (f_src frame) (f_seq_nr frame))).
    split_and!; [by apply serve_data_error|done|].
    intros d Hd'. destruct (Hs d Hd') as [Hd1 E1]. rewrite app_nil_r in E1. rewrite <- E1.
    by apply send_reply_sends.
Qed.

Lemma hello_served upstream c a st :
  looping st c -> implements st a ->
  served upstream c a ReqHello st
    (if is_peer_con st c then (mret tt : state TcpRouter unit) st
     else (_ ← update_con c (con_set_peer true); advertise_as_peer c) st).2.
Proof.
  intros (i&p&w&Hc) Ha. pose proof Ha as (Hr&Hl&Hp). specialize (Hp c) as Hpc.
  destruct (is_peer_con st c); symmetry in Hpc.
  { apply bool_decide_eq_true in Hpc. apply served_nothing; [done|]. by apply serve_hello_again. }
  apply bool_decide_eq_false in Hpc. rewrite bind_eq.
  eexists _, _. split_and!; [by apply serve_hello| |].
  - eapply implements_quiet; [apply advertise_quietly|].
    unfold implements. cbn [update_con modify snd r_registry r_local_mailboxes set_cons dir_owner dir_local dir_peers].
    split_and!; auto. intros d. unfold is_peer_con. cbn [r_cons set_cons].
    destruct (decide (d = c)) as [->|Hne].
    + rewrite lookup_alter_eq. unfold view in Hc. destruct (r_cons st !! c); [|done].
      cbn. rewrite bool_decide_true; [done|]. set_solver.
    + rewrite lookup_alter_ne by done. pose proof (Hp d) as Hpd. unfold is_peer_con in Hpd.
      rewrite Hpd. apply bool_decide_ext. set_solver.
  - intros d Hd.
    destruct (update_con_sends (E := nat) (X := unit) c (con_set_peer true)
      (fun _ => eq_refl) st d Hd) as [Hd1 E1].
    destruct (advertise_sends c _ d Hd1) as [Hd2 E2]. rewrite app_nil_r in E1.
    rewrite E2, E1. split; [done|]. do 2 f_equal.
    cbn [update_con modify snd r_local_mailboxes set_cons]. by rewrite Hl.
Qed.
Lemma learn_served upstream c a m st :
  implements st a -> c ∈ dir_peers a ->
  served upstream c a (ReqLearn m) st
    (((_ ← registry_add m c; mret tt) : state TcpRouter unit) st).2.
Proof.
  intros Ha Hc. pose proof Ha as (Hr&Hl&Hp). rewrite bind_eq. unfold registry_add.
  destruct (r_registry st !! m) eqn:Hm; rewrite Hr in Hm; cbn [snd mret state_ret].
  - apply served_nothing; [done|]. by eapply serve_learn_taken.
  - eexists _, (fun _ => []). split_and!; [by apply serve_learn| |].
    + unfold implements. cbn. by rewrite Hr.
    + intros d. by rewrite app_nil_r.
Qed.

Lemma forget_served upstream c a m st :
  implements st a -> c ∈ dir_peers a ->
  served upstream c a (ReqForget m) st (registry_remove m st).2.
Proof.
  intros Ha Hc. pose proof Ha as (Hr&Hl&Hp).
  eexists _, (fun _ => []). split_and!; [by apply serve_forget| |].
  - unfold implements. cbn. by rewrite Hr.
  - intros d. by rewrite app_nil_r.
Qed.

Lemma watchdog_served upstream c a st :
  implements st a ->
  served upstream c a ReqIgnored st (update_con c (con_set_watchdog false) st).2.
Proof.
  intros Ha. pose proof Ha as (Hr&Hl&Hp).
  eexists a, (fun _ => []). split_and!; [apply serve_ignored| |].
  - unfold implements. split_and!; auto. intros d. rewrite <- Hp. unfold is_peer_con.
    rewrite update_con_lookup. case_decide; [|done]. by destruct (r_cons st !! d).
  - intros d. by apply update_con_sends.
Qed.

Lemma not_peer_served upstream c a req m st :
  implements st a -> c ∉ dir_peers a -> req = ReqLearn m \/ req = ReqForget m ->
  served upstream c a req st st.
Proof. intros. apply served_nothing; [done|]. by eapply serve_not_peer. Qed.
End refinement.

(** C8. The router refines its specification: serving a complete frame from a
    connection in its loop is one of the steps [serves] allows for the request
    the frame stands for.  The tables change as the step says, and every
    connection with a working socket, requester, destination, peer or
    bystander, receives exactly the bytes of the step. *)
Theorem dispatch_refines c a frame buf (st : TcpRouter) :
  looping st c -> router_inv st -> implements st a ->
  served (forward_to_upstream frame buf st).1 c a (parse_request frame buf) st
    (dispatch c frame buf st).2.
Proof.
  intros Hc Hi Ha. pose proof (inv_nodup _ Hi) as Hn. pose proof Ha as (Hr&_&Hp).
  unfold dispatch, parse_request. rewrite bind_eq. cbn [get_is_peer fst snd]. specialize (Hp c) as Hpc.
  destruct (f_type frame =? MSG_ROUTER_PEER_HELLO).
  { pose proof (hello_served (forward_to_upstream frame buf st).1 c a st Hc Ha) as Hs.
    by destruct (is_peer_con st c). }
  destruct (is_peer_con st c) eqn:Hpe; symmetry in Hpc;
    [apply bool_decide_eq_true in Hpc|apply bool_decide_eq_false in Hpc].
  all: split_frame.
  all: try (by apply served_nothing; [|constructor; eauto]).
  all: try by apply handle_mbx_init_served.
  all: try by apply handle_mbx_delete_served.
  all: try by apply route_data_served.
  all: try by apply learn_served.
  all: try by apply forget_served.
  all: try by apply watchdog_served.
  all: try by eapply not_peer_served; eauto.
Qed.

(** Two clients and a peer: client 0 registered mailbox 66. *)
Definition sample_events : list event :=
  [ EvAccept 1 (Some (sock_of_fd 5
      (encode_frame (make_frame MSG_ROUTER_MBX_INIT_WITH_REPLY 0 7 0 1 4) ++ encode_mbx 66) [] []));
    EvPublish 0%nat; EvStart 0%nat; EvIterate 0%nat false 1;
    EvAccept 1 (Some (sock_of_fd 6 hello_bytes [] []));
    EvPublish 1%nat; EvStart 1%nat; EvIterate 1%nat false 1 ].

Definition sample : TcpRouter := (run_events handle_frame sample_events (initial 4096 tt)).2.

Lemma sample_inv : router_inv sample.
Proof. apply (reachable_inv (E := nat) (X := unit) 4096 tt). by exists sample_events. Qed.

Lemma dispatch_refines_witness :
  served false 0%nat (directory_of sample) (ReqRegister 67 7 2) sample
    (dispatch 0%nat (make_frame MSG_ROUTER_MBX_INIT_WITH_REPLY 0 7 0 2 4) (encode_mbx 67) sample).2.
Proof.
  apply (dispatch_refines 0%nat (directory_of sample)
    (make_frame MSG_ROUTER_MBX_INIT_WITH_REPLY 0 7 0 2 4) (encode_mbx 67) sample).
  - exists 0, false, true. by vm_compute.
  - apply sample_inv.
  - apply implements_directory_of.
Defined.

End Tcp.
