(* ===== verification/TcpDelivery.v ===== *)
(** * corerat-router-tcp: delivery, peering and disconnection

    What follows from TcpRouter.v for runs of the daemon, a frame per event: the
    relaying of data frames from socket to socket,
    the synchronisation of two routers by the peer protocol, and what happens
    when a connection ends, properly or after an oversized frame. *)

From Stdlib Require Import ZArith Lia.
From stdpp Require Import base list gmap sets numbers.
From S2P Require Import Prelude Protocol TcpSocket RouterCore TcpRouter.

#[local] Open Scope Z_scope.

Import Tcp.

(** ** Relaying *)

Lemma tcp_handler : reads_then_dispatches handle_frame dispatch.
Proof. done. Qed.

Section relay.
Implicit Types (st : TcpRouter) (c d : nat) (con : Connection).

(** What writing to connections leaves of connection [c]. *)
Definition same_input con con' : Prop :=
  con_view con' = con_view con /\ sk_rx (con_socket con') = sk_rx (con_socket con) /\
  sk_fd (con_socket con') = sk_fd (con_socket con) /\
  sk_recv_plan (con_socket con') = sk_recv_plan (con_socket con).

Lemma con_send_input d bs st c con :
  r_cons st !! c = Some con ->
  exists con', r_cons (con_send d bs st).2 !! c = Some con' /\ same_input con con'.
Proof.
  intros Hc. unfold con_send. destruct (r_cons st !! d) as [dcon|] eqn:Hd.
  2:{ exists con. split; [done|]. by unfold same_input. }
  destruct (send_all_spec (con_socket dcon) bs) as (k&(Hfd&_&Hrx&Hrp)&_).
  destruct (send_all _ _) as [ok s]. cbn [snd] in *. cbn [r_cons set_cons].
  destruct (decide (d = c)) as [->|Hne].
  - rewrite Hc in Hd. injection Hd as <-. exists (con_set_socket s con).
    rewrite lookup_insert_eq. split; [done|]. unfold same_input. by split_and!.
  - exists con. rewrite lookup_insert_ne by done. split; [done|]. by unfold same_input.
Qed.

Lemma same_input_trans con1 con2 con3 :
  same_input con1 con2 -> same_input con2 con3 -> same_input con1 con3.
Proof. unfold same_input. intros (?&?&?&?) (?&?&?&?). split_and!; congruence. Qed.

Lemma forward_input d hdr body st c con :
  r_cons st !! c = Some con ->
  exists con', r_cons (forward d hdr body st).2 !! c = Some con' /\ same_input con con'.
Proof.
  intros Hc. unfold forward. rewrite bind_eq.
  destruct (con_send_input d (encode_frame hdr) st c con Hc) as (con1&Hc1&H1).
  destruct (con_send d (encode_frame hdr) st).1; [|by exists con1].
  destruct (con_send_input d body _ c con1 Hc1) as (con2&Hc2&H2).
  exists con2. split; [done|]. by eapply same_input_trans.
Qed.

Lemma same_input_receiving st st' c con con' :
  receiving st c con -> same_input con con' -> r_cons st' !! c = Some con' ->
  receiving st' c con'.
Proof.
  intros (Hc&Hph&Hfd&Hrp) (Hv&Hrx&Hfd'&Hrp') Hc'. unfold receiving, no_recv_error.
  rewrite Hfd', Hrp'. unfold con_view in Hv. split_and!; auto; congruence.
Qed.

Lemma dispatch_data c hdr body st :
  is_control (f_type hdr) = false -> dispatch c hdr body st = route_data c hdr body st.
Proof.
  unfold is_control. rewrite bool_decide_eq_false, !not_elem_of_cons. intros Ht. destruct_and! Ht.
  unfold dispatch. rewrite bind_eq. cbn [get_is_peer fst snd].
  repeat match goal with
  | |- context [f_type hdr =? ?t] => destruct (Z.eqb_spec (f_type hdr) t); [done|]
  end.
  done.
Qed.

End relay.

(** One iteration on a data frame is its routing, once its bytes are taken from
    the socket. *)
Lemma data_frame_iteration c d (st : TcpRouter) con hdr body rest poll :
  receiving st c con -> 0 < poll ->
  sk_rx (con_socket con) = encode_frame hdr ++ body ++ rest ->
  wf_frame hdr -> f_msglen hdr = sizeof_FrameHeader + zlen body ->
  zlen body <= r_max_msg_size st -> is_control (f_type hdr) = false ->
  r_registry st !! f_dest hdr = Some d ->
  exists s, let st1 := set_cons (<[c := con_set_socket s con]> (r_cons st)) st in
    (con_run_iter handle_frame c false poll st).2 = (forward d hdr body st1).2 /\
    r_cons st1 !! c = Some (con_set_socket s con) /\ no_recv_error s /\ sk_rx s = rest /\
    (forall d', con_tx st1 d' = con_tx st d') /\ (forall d', send_ok st d' -> send_ok st1 d').
Proof.
  intros Hrec Hpoll Hrx Hwf Hlen Hmax Hty Hd. pose proof Hrec as (Hc&Hph&_).
  destruct (iterate_frame tcp_handler c st con hdr body rest poll)
    as (s&E&Hrx'&Hs&Htx&Hfd&Hsp); auto.
  exists s. intros st1. split_and!; [|by apply lookup_insert_eq|done|done| |].
  - rewrite E, dispatch_data by done. unfold route_data. rewrite bind_eq.
    cbn [registry_find fst snd r_registry set_cons]. by rewrite Hd, bind_eq.
  - intros d'. unfold st1. by rewrite (set_socket_tx _ _ con).
  - intros d'. by apply set_socket_send_ok.
Qed.

Lemma data_frame_tx c d (st : TcpRouter) con hdr body rest poll :
  receiving st c con -> 0 < poll ->
  sk_rx (con_socket con) = encode_frame hdr ++ body ++ rest ->
  wf_frame hdr -> f_msglen hdr = sizeof_FrameHeader + zlen body ->
  zlen body <= r_max_msg_size st -> is_control (f_type hdr) = false ->
  r_registry st !! f_dest hdr = Some d ->
  forall d', send_ok st d' ->
    con_tx (con_run_iter handle_frame c false poll st).2 d'
    = con_tx st d' ++ if decide (d' = d) then encode_frame hdr ++ body else [].
Proof.
  intros Hrec Hpoll Hrx Hwf Hlen Hmax Hty Hd d' Hd'.
  destruct (data_frame_iteration c d st con hdr body rest poll) as (s&E&_&_&_&Htx&Hok); auto.
  rewrite E. destruct (forward_sends d hdr body _ d' (Hok d' Hd')) as [_ ->]. by rewrite Htx.
Qed.

(** C10. A data frame that arrives on any connection and whose destination is
    registered is delivered: one iteration of the connection's loop copies header
    and body, byte for byte and once, to the owner of the destination and to no
    other working connection, and leaves the rest of the input stream and the
    routing tables as they were.  Any segmentation of the streams is allowed. *)
Theorem data_frame_relayed c d (st : TcpRouter) con hdr body rest poll :
  receiving st c con -> 0 < poll ->
  sk_rx (con_socket con) = encode_frame hdr ++ body ++ rest ->
  wf_frame hdr -> f_msglen hdr = sizeof_FrameHeader + zlen body ->
  zlen body <= r_max_msg_size st -> is_control (f_type hdr) = false ->
  r_registry st !! f_dest hdr = Some d ->
  let st' := (con_run_iter handle_frame c false poll st).2 in
  (forall d', send_ok st d' ->
     con_tx st' d' = con_tx st d' ++ if decide (d' = d) then encode_frame hdr ++ body else []) /\
  quiet st st' /\
  exists con', receiving st' c con' /\ sk_rx (con_socket con') = rest.
Proof.
  intros Hrec Hpoll Hrx Hwf Hlen Hmax Hty Hd st'. split; [by eapply data_frame_tx|].
  destruct (data_frame_iteration c d st con hdr body rest poll) as (s&E&Hc1&Hs&Hrest&_); auto.
  unfold st'. rewrite E. pose proof Hrec as (Hc&Hph&_). split.
  - etrans; [by apply (quiet_set_socket st c con s)|]. apply forward_quietly.
  - destruct (forward_input d hdr body _ c _ Hc1) as (con'&Hc'&Hin).
    exists con'. split; [|by destruct Hin as (_&->&_)].
    by eapply (same_input_receiving _ _ c (con_set_socket s con)).
Qed.

(** ** The peer protocol between two routers *)

Section peering.
Implicit Types (st : TcpRouter) (c : nat) (con : Connection) (ms : list Z).

(** The registry after a peer advertised [ms] on connection [c]: what was
    known keeps its owner. *)
Definition learned ms c (r : gmap Z nat) (m : Z) : option nat :=
  match r !! m with
  | Some owner => Some owner
  | None => if decide (m ∈ ms) then Some c else None
  end.

(** Iterations of the loop of [c] with the poll answers [polls]. *)
Definition iterations c (polls : list Z) : state TcpRouter unit :=
  run_events handle_frame (map (EvIterate c false) polls).

Lemma iterations_cons c poll polls st :
  iterations c (poll :: polls) st
  = iterations c polls (con_run_iter handle_frame c false poll st).2.
Proof. unfold iterations, run_events. cbn [map for_each]. by rewrite bind_eq. Qed.

Lemma register_frame_wf :
  wf_frame (make_frame MSG_ROUTER_PEER_REGISTER 0 0 0 0 sizeof_MbxInitPayload).
Proof. by apply (bool_decide_unpack _). Qed.

Lemma hello_frame_wf : wf_frame (make_frame MSG_ROUTER_PEER_HELLO 0 0 0 0 0).
Proof. by apply (bool_decide_unpack _). Qed.

Lemma dispatch_register c buf st :
  is_peer_con st c = true ->
  dispatch c (make_frame MSG_ROUTER_PEER_REGISTER 0 0 0 0 sizeof_MbxInitPayload) buf st
  = (tt, (registry_add (decode_mbx buf) c st).2).
Proof.
  intros Hp. unfold dispatch. rewrite bind_eq. cbn [get_is_peer fst snd]. rewrite Hp.
  exact (bind_eq (registry_add (decode_mbx buf) c) (fun _ => mret tt) st).
Qed.

Lemma dispatch_hello_peer c buf st :
  is_peer_con st c = true ->
  dispatch c (make_frame MSG_ROUTER_PEER_HELLO 0 0 0 0 0) buf st = (tt, st).
Proof.
  intros Hp. unfold dispatch. rewrite bind_eq. cbn [get_is_peer fst snd]. by rewrite Hp.
Qed.

(** One iteration on a REGISTER from a peer. *)
Lemma iterate_register c st con m rest poll :
  receiving st c con -> con_is_peer con = true -> 0 < poll -> in_u 32 m ->
  sk_rx (con_socket con) = register_bytes m ++ rest -> sizeof_MbxInitPayload <= r_max_msg_size st ->
  let st' := (con_run_iter handle_frame c false poll st).2 in
  exists con', receiving st' c con' /\ con_is_peer con' = true /\
    sk_rx (con_socket con') = rest /\ r_max_msg_size st' = r_max_msg_size st /\
    r_local_mailboxes st' = r_local_mailboxes st /\
    forall m', r_registry st' !! m' = learned [m] c (r_registry st) m'.
Proof.
  intros Hrec Hp Hpoll Hm Hrx Hmax st'. unfold register_bytes in Hrx. rewrite <- app_assoc in Hrx.
  destruct (iterate_frame tcp_handler c st con _ _ _ poll Hrec Hpoll Hrx register_frame_wf)
    as (s&E&Hrx'&Hs&_); [done|done|].
  unfold st'. rewrite E. clear st' E. destruct Hrec as (Hc&Hph&_).
  rewrite dispatch_register; [|unfold is_peer_con; cbn [r_cons set_cons]; by rewrite lookup_insert_eq].
  rewrite <- (app_nil_r (encode_mbx m)), decode_encode_mbx by done.
  unfold registry_add. cbn [r_registry set_cons].
  exists (con_set_socket s con). unfold receiving, learned.
  destruct (r_registry st !! m) as [owner|] eqn:Hr; cbn; rewrite lookup_insert_eq.
  - split_and!; auto. intros m'. destruct (r_registry st !! m') eqn:Hr'; [done|].
    rewrite decide_False; [done|]. intros ->%list_elem_of_singleton. congruence.
  - split_and!; auto. intros m'. rewrite lookup_insert. case_decide as Hd.
    + subst m'. rewrite Hr. by rewrite decide_True by by apply list_elem_of_singleton.
    + destruct (r_registry st !! m'); [done|]. rewrite decide_False; [done|].
      by intros ->%list_elem_of_singleton.
Qed.

Lemma iterate_registers c ms st con rest polls :
  receiving st c con -> con_is_peer con = true -> Forall (fun p => 0 < p) polls ->
  length polls = length ms -> Forall (in_u 32) ms ->
  sk_rx (con_socket con) = concat (map register_bytes ms) ++ rest ->
  sizeof_MbxInitPayload <= r_max_msg_size st ->
  let st' := (iterations c polls st).2 in
  r_local_mailboxes st' = r_local_mailboxes st /\
  (forall m, r_registry st' !! m = learned ms c (r_registry st) m) /\
  exists con', receiving st' c con' /\ sk_rx (con_socket con') = rest.
Proof.
  intros Hrec Hp Hpo Hlen Hms Hrx Hmax. revert ms st con Hrec Hp Hlen Hms Hrx Hmax.
  induction Hpo as [|poll polls Hpoll _ IH]; intros ms st con Hrec Hp Hlen Hms Hrx Hmax;
    destruct ms as [|m ms]; try discriminate Hlen; cbn zeta.
  - split_and!; [done| |by exists con]. intros m. unfold learned.
    change (iterations c [] st).2 with st. by destruct (r_registry st !! m).
  - cbn [map concat] in Hrx. rewrite <- app_assoc in Hrx. rewrite iterations_cons.
    apply Forall_cons_iff in Hms as [Hm Hms].
    destruct (iterate_register c st con m _ poll Hrec Hp Hpoll Hm Hrx Hmax)
      as (con1&Hrec1&Hp1&Hrx1&Hmax1&Hl1&Hr1).
    destruct (IH ms _ con1 Hrec1 Hp1 ltac:(cbn in Hlen; lia) Hms Hrx1 ltac:(by rewrite Hmax1))
      as (Hl&Hr&Hc).
    split_and!; [congruence| |done]. intros m'. rewrite Hr. unfold learned. rewrite Hr1.
    unfold learned. destruct (r_registry st !! m') as [owner|]; [done|].
    repeat case_decide; try done; exfalso; set_solver.
Qed.
End peering.

(** Peering synchronises routing tables.  When the bytes that a router writes
    in [advertise_as_peer] for the mailboxes [ms] arrive on the connection of a
    router that is already its peer, the loop consumes exactly those bytes and
    ends with every advertised mailbox routed to that connection, except those
    that already had an owner; nothing else changes hands, and the learned
    mailboxes are not advertised further. *)
Theorem advertisement_learned c ms (st : TcpRouter) con rest poll polls :
  receiving st c con -> con_is_peer con = true ->
  0 < poll -> Forall (fun p => 0 < p) polls -> length polls = length ms ->
  Forall (in_u 32) ms -> sizeof_MbxInitPayload <= r_max_msg_size st ->
  sk_rx (con_socket con) = hello_bytes ++ concat (map register_bytes ms) ++ rest ->
  let st' := (iterations c (poll :: polls) st).2 in
  r_local_mailboxes st' = r_local_mailboxes st /\
  (forall m, r_registry st' !! m = learned ms c (r_registry st) m) /\
  exists con', receiving st' c con' /\ sk_rx (con_socket con') = rest.
Proof.
  intros Hrec Hp Hpoll Hpolls Hlen Hms Hmax Hrx. pose proof Hrec as (Hc&Hph&_).
  destruct (iterate_frame tcp_handler c st con (make_frame MSG_ROUTER_PEER_HELLO 0 0 0 0 0) []
    (concat (map register_bytes ms) ++ rest) poll) as (s&E&Hrx'&Hs&_); auto using hello_frame_wf.
  { unfold sizeof_MbxInitPayload in Hmax. cbn. unfold zlen. cbn. lia. }
  rewrite iterations_cons, E, dispatch_hello_peer;
    [|unfold is_peer_con; cbn [r_cons set_cons]; by rewrite lookup_insert_eq].
  cbn [snd].
  set (st1 := set_cons _ st).
  apply (iterate_registers c ms st1 (con_set_socket s con) rest polls); auto.
  unfold receiving, st1. cbn. rewrite lookup_insert_eq. by split_and!.
Qed.

(** ** Disconnection *)

(** A client that disconnects loses its routes and nobody else's, but its
    mailboxes stay in the set advertised to peers and no peer is told. *)
Theorem disconnect_leaves_advertisement c m (st : TcpRouter) :
  router_inv st -> r_registry st !! m = Some c -> is_peer_con st c = false ->
  let st' := (con_finish c st).2 in
  (forall m' d, r_registry st' !! m' = Some d <-> r_registry st !! m' = Some d /\ d <> c) /\
  m ∈ r_local_mailboxes st' /\
  forall d, con_tx st' d = con_tx st d.
Proof.
  intros Hi Hm Hp st'. split_and!.
  - intros m' d. unfold st', con_finish. rewrite bind_eq. cbn. rewrite map_lookup_filter_Some.
    unfold route_con, connection_entry. naive_solver.
  - destruct (inv_live _ Hi m c c Hm eq_refl) as (i&p&w&Hv).
    rewrite is_peer_con_view, Hv in Hp. subst p. by apply (inv_local _ Hi m c c i w Looping).
  - intros d. unfold st', con_finish, con_tx. rewrite bind_eq. cbn. rewrite lookup_alter.
    case_decide; [|done]. subst. by destruct (r_cons st !! d).
Qed.

(** A frame whose body exceeds [max_msg_size] closes the socket without
    ending the connection: however often its loop runs again (until the daemon
    stops) nothing happens, so the routes of the connection are never removed,
    and frames for them are dropped without an error for the sender. *)
Theorem oversized_frame_strands_routes c frame (st : TcpRouter) con polls :
  r_cons st !! c = Some con -> con_phase con = Looping ->
  r_max_msg_size st < frame_body_len frame ->
  let st' := (handle_frame c frame st).2 in
  r_registry st' = r_registry st /\ (iterations c polls st').2 = st' /\
  forall m sender data body, r_registry st !! m = Some c -> f_dest data = m ->
    (route_data sender data body st').2 = st'.
Proof.
  intros Hc Hph Hbig st'.
  assert (st' = set_cons (<[c := con_set_socket (sock_close (con_socket con)) con]> (r_cons st)) st) as Est.
  { unfold st', handle_frame. rewrite bind_eq. unfold read_body at 1 2. rewrite Hc.
    by destruct (Z.ltb_spec (r_max_msg_size st) (frame_body_len frame)); [|lia]. }
  assert (sk_fd (sock_close (con_socket con)) < 0) as Hfd.
  { unfold sock_close. destruct (Z.leb_spec 0 (sk_fd (con_socket con))); cbn; lia. }
  assert (r_cons st' !! c = Some (con_set_socket (sock_close (con_socket con)) con)) as Hc'
    by (rewrite Est; apply lookup_insert_eq).
  split_and!; [by rewrite Est| |].
  - clear Est. induction polls as [|poll polls IH]; [done|]. rewrite iterations_cons.
    unfold con_run_iter at 1. rewrite Hc'. rewrite decide_True by done. unfold poll_in.
    cbn [con_socket con_set_socket]. by destruct (Z.ltb_spec (sk_fd (sock_close (con_socket con))) 0); [|lia].
  - intros m sender data body Hm <-. unfold route_data. rewrite bind_eq. cbn [registry_find fst snd].
    assert (r_registry st' !! f_dest data = Some c) as -> by by rewrite Est.
    rewrite bind_eq. cbn [mret state_ret snd]. unfold forward. rewrite bind_eq.
    assert (con_send c (encode_frame data) st' = (false, st')) as ->; [|done].
    rewrite (con_send_lookup _ _ _ _ Hc').
    cbn [con_socket con_set_socket].
    assert (send_all (sock_close (con_socket con)) (encode_frame data)
      = (false, sock_close (con_socket con))) as ->.
    { unfold send_all. rewrite length_encode_frame. cbn [send_all_loop].
      unfold zlen. rewrite length_encode_frame. cbn [Z.ltb Z.compare Z.of_nat].
      unfold sys_send. by destruct (Z.ltb_spec (sk_fd (sock_close (con_socket con))) 0); [|lia]. }
    cbn [fst snd]. f_equal. rewrite insert_id by done. by destruct st'.
Qed.

(** ** Runs of the daemon *)

(** A client asks for mailbox [m]. *)
Definition client_init_bytes (m : Z) : bytes :=
  encode_frame (make_frame MSG_ROUTER_MBX_INIT_WITH_REPLY 0 7 0 1 sizeof_MbxInitPayload)
  ++ encode_mbx m.

(** Two accepted connections; the second says HELLO before [run] puts it into
    [connections_], and the first registers a mailbox in between. *)
Definition publish_race (m : Z) : list event :=
  [ EvAccept 1 (Some (sock_of_fd 5 (client_init_bytes m) [] []));
    EvPublish 0%nat; EvStart 0%nat;
    EvAccept 1 (Some (sock_of_fd 6 hello_bytes [] []));
    EvStart 1%nat; EvIterate 1%nat false 1;
    EvIterate 0%nat false 1;
    EvPublish 1%nat ].

(** A peer can miss a mailbox for good: between the start of a connection's
    thread and its entry into [connections_] a HELLO makes it a peer and a
    registration by another client passes it by; afterwards it is a listed peer,
    the mailbox is local, and all it was ever sent is the HELLO. *)
Theorem publish_race_misses_mailbox :
  let st := (run_events handle_frame (publish_race 66) (initial 4096 tt)).2 in
  is_peer_con st 1%nat = true /\ 1%nat ∈ r_connections st /\
  (66 : Z) ∈ r_local_mailboxes st /\ con_tx st 1%nat = hello_bytes.
Proof. cbv zeta. split_and!; by_compute. Qed.

(** ** Witnesses *)

(** A data frame for mailbox 66, with a two-byte body. *)
Definition sample_frame : FrameHeader := make_frame 1 66 7 0 1 2.

(** The state [sample] with more input waiting on connection [c]. *)
Definition with_input (c : nat) (rx : bytes) (st : TcpRouter) : TcpRouter :=
  set_cons (alter (fun con => con_set_socket (sock_of_fd (sk_fd (con_socket con)) rx [] []) con)
    c (r_cons st)) st.

Lemma data_frame_relayed_witness :
  let st := with_input 1 (encode_frame sample_frame ++ [10; 11] ++ [99]) sample in
  con_tx (con_run_iter handle_frame 1 false 1 st).2 0%nat
  = con_tx st 0%nat ++ encode_frame sample_frame ++ [10; 11].
Proof.
  set (rx := encode_frame sample_frame ++ [10; 11] ++ [99]). intros st.
  destruct (r_cons st !! 1%nat) as [con|] eqn:Hc; [|exfalso; vm_compute in Hc; discriminate Hc].
  assert (con_socket con = sock_of_fd 6 rx [] []) as Hs.
  { vm_compute in Hc. injection Hc as <-. by vm_compute. }
  destruct (data_frame_relayed 1 0 st con sample_frame [10; 11] [99] 1) as [H _].
  - unfold receiving. rewrite Hs. split_and!; [exact Hc| |by_compute].
    vm_compute in Hc. injection Hc as <-. reflexivity.
  - by_compute.
  - rewrite Hs. reflexivity.
  - by_compute.
  - by_compute.
  - by_compute.
  - by_compute.
  - by_compute.
  - apply (H 0%nat). by_compute.
Defined.

Lemma advertisement_learned_witness :
  let st := with_input 1 (hello_bytes ++ concat (map register_bytes [66; 68]) ++ [9]) sample in
  let st' := (iterations 1 [1; 1; 1] st).2 in
  r_registry st' !! 68 = Some 1%nat /\ r_registry st' !! 66 = Some 0%nat.
Proof.
  set (rx := hello_bytes ++ concat (map register_bytes [66; 68]) ++ [9]). intros st st'.
  destruct (r_cons st !! 1%nat) as [con|] eqn:Hc; [|exfalso; vm_compute in Hc; discriminate Hc].
  assert (con_socket con = sock_of_fd 6 rx [] [] /\ con_phase con = Looping /\ con_is_peer con = true)
    as (Hs&Hph&Hp).
  { vm_compute in Hc. injection Hc as <-. by vm_compute. }
  destruct (advertisement_learned 1 [66; 68] st con [9] 1 [1; 1]) as (_&Hr&_).
  - unfold receiving. rewrite Hs. split_and!; [exact Hc|exact Hph|by_compute].
  - exact Hp.
  - by_compute.
  - by_compute.
  - reflexivity.
  - by_compute.
  - by_compute.
  - rewrite Hs. reflexivity.
  - split; (etrans; [apply Hr|by_compute]).
Defined.

Lemma disconnect_leaves_advertisement_witness :
  (66 : Z) ∈ r_local_mailboxes (con_finish 0%nat sample).2.
Proof.
  destruct (disconnect_leaves_advertisement 0%nat 66 sample) as (_&H&_); [| | |exact H].
  - apply sample_inv.
  - by_compute.
  - by_compute.
Defined.

Lemma oversized_frame_strands_routes_witness :
  let st := (handle_frame 0%nat (make_frame 1 66 7 0 1 5000) sample).2 in
  (iterations 0 [1; 0; 1] st).2 = st.
Proof.
  destruct (r_cons sample !! 0%nat) as [con|] eqn:Hc; [|exfalso; vm_compute in Hc; discriminate Hc].
  destruct (oversized_frame_strands_routes 0%nat (make_frame 1 66 7 0 1 5000) sample con [1; 0; 1])
    as (_&H&_).
  - exact Hc.
  - vm_compute in Hc. injection Hc as <-. reflexivity.
  - by_compute.
  - exact H.
Defined.
