(* ===== verification/TcpThreads.v ===== *)
(** * The threads of corerat-router-tcp, call by call

    TcpRouter.v handles a frame in one event.  Here every connection thread of
    src/router/tcp_router.cpp is interrupted between any two of its calls that
    take a lock or touch a socket: a call of the registry ([mutex_] of
    MailboxRegistry), a frame sent under [send_mutex_], an access to
    [local_mailboxes_] under [local_mutex_], the copy of [connections_] under
    [connections_mutex_] with its looks at [is_peer_], the receipt of a header
    and of a body.  Locks.v shows that one such call behaves as one step.

    [conc] are the computations of a thread as sequences of calls; [Daemon] is
    the state of the router with what every thread has still to do; [act] lets
    one of them take a step.  [dispatch_alone] relates the calls of a frame,
    made without interruption, to the [dispatch] of TcpRouter.v, and
    [reachable_routes] states what survives the interleaving and what does not. *)

From Stdlib Require Import ZArith Lia.
From stdpp Require Import base list gmap sets numbers.
From S2P Require Import Prelude Protocol TcpSocket RouterCore TcpRouter TcpDelivery.

#[local] Open Scope Z_scope.

Module Threads.
Import Tcp.

(** ** Sequences of calls *)

Inductive conc (A : Type) : Type :=
| Ret (a : A)
| Call {B : Type} (f : state TcpRouter B) (k : B -> conc A).
Arguments Ret {A}. Arguments Call {A B}.

#[global] Instance conc_ret : MRet conc := fun _ a => Ret a.

#[global] Instance conc_bind : MBind conc := fun A B g =>
  fix go (m : conc A) : conc B :=
    match m with
    | Ret a => g a
    | Call f k => Call f (fun b => go (k b))
    end.

Definition call {A} (f : state TcpRouter A) : conc A := Call f Ret.

Fixpoint for_calls {A} (l : list A) (f : A -> conc unit) : conc unit :=
  match l with
  | [] => mret tt
  | x :: l => _ ← f x; for_calls l f
  end.

(** The calls one after the other, nobody in between. *)
Fixpoint run_conc {A} (m : conc A) : state TcpRouter A :=
  match m with
  | Ret a => fun st => (a, st)
  | Call f k => fun st => let '(b, st) := f st in run_conc (k b) st
  end.

(** ** The functions of the connection thread *)

(** The snapshot of [broadcast_to_peers]: the list under [connections_mutex_],
    then [is_peer()] of one connection after the other. *)
Fixpoint select_peers (cs : list nat) : conc (list nat) :=
  match cs with
  | [] => mret []
  | c :: cs =>
      is_peer ← call (get_is_peer c);
      peers ← select_peers cs;
      mret (if (is_peer : bool) then c :: peers else peers)
  end.

Definition broadcast_calls (fn : nat -> conc unit) : conc unit :=
  cs ← call (fun st => (r_connections st, st));
  peers ← select_peers cs;
  for_calls peers fn.

Definition local_insert (m : Z) : state TcpRouter unit :=
  modify (fun st => set_local ({[m]} ∪ r_local_mailboxes st) st).

Definition local_erase (m : Z) : state TcpRouter unit :=
  modify (fun st => set_local (r_local_mailboxes st ∖ {[m]}) st).

Definition on_local_registered_calls (m : Z) : conc unit :=
  _ ← call (local_insert m);
  broadcast_calls (fun pc => call (send_peer_register m pc)).

Definition on_local_deleted_calls (m : Z) : conc unit :=
  _ ← call (local_erase m);
  broadcast_calls (fun pc => call (send_peer_delete m pc)).

Definition hello_frame : FrameHeader := make_frame MSG_ROUTER_PEER_HELLO 0 0 0 0 0.

Definition advertise_calls (c : nat) : conc unit :=
  _ ← call (con_send c (encode_frame hello_frame));
  mbxs ← call local_mailboxes_snapshot;
  for_calls mbxs (fun m => call (send_peer_register m c)).

Definition mbx_init_calls (c : nat) (frame : FrameHeader) (mbx : Z) : conc unit :=
  ok ← call (registry_add mbx c);
  _ ← call (send_reply c (make_frame (if (ok : bool) then MSG_OK else MSG_ERROR)
                            (f_src frame) 0 0 (f_seq_nr frame) 0));
  if (ok : bool) then on_local_registered_calls mbx else mret tt.

Definition mbx_delete_calls (mbx : Z) : conc unit :=
  _ ← call (registry_remove mbx);
  on_local_deleted_calls mbx.

Definition route_calls (c : nat) (frame : FrameHeader) (body : bytes) : conc unit :=
  dest ← call (registry_find (f_dest frame));
  match dest with
  | Some dest => _ ← call (forward dest frame body); mret tt
  | None =>
      is_peer ← call (get_is_peer c);
      if (is_peer : bool) then mret tt
      else
        forwarded ← call (forward_to_upstream frame body);
        if (forwarded : bool) then mret tt
        else call (send_reply c (make_frame MSG_ERROR (f_src frame) 0 0 (f_seq_nr frame) 0))
  end.

(** The [switch] of [handle_frame]. *)
Definition dispatch_calls (c : nat) (frame : FrameHeader) (buf : bytes) : conc unit :=
  let short := frame_body_len frame <? sizeof_MbxInitPayload in
  let type := f_type frame in
  if type =? MSG_ROUTER_PEER_HELLO then
    is_peer ← call (get_is_peer c);
    if (is_peer : bool) then mret tt
    else _ ← call (update_con c (con_set_peer true)); advertise_calls c
  else if type =? MSG_ROUTER_PEER_REGISTER then
    is_peer ← call (get_is_peer c);
    if negb is_peer || short then mret tt
    else _ ← call (registry_add (decode_mbx buf) c); mret tt
  else if type =? MSG_ROUTER_PEER_DELETE then
    is_peer ← call (get_is_peer c);
    if negb is_peer || short then mret tt
    else call (registry_remove (decode_mbx buf))
  else if type =? MSG_ROUTER_DISABLE_WATCHDOG then
    call (update_con c (con_set_watchdog false))
  else if type =? MSG_ROUTER_MBX_INIT_WITH_REPLY then
    if short then mret tt else mbx_init_calls c frame (decode_mbx buf)
  else if type =? MSG_ROUTER_MBX_DELETE then
    if short then mret tt else mbx_delete_calls (decode_mbx buf)
  else route_calls c frame buf.

(** After the read of a link: [find], then [forward]. *)
Definition link_calls (frame : FrameHeader) (body : bytes) : conc unit :=
  dest ← call (registry_find (f_dest frame));
  match dest ≫= route_con with
  | Some dest => _ ← call (forward dest frame body); mret tt
  | None => mret tt
  end.

(** ** The daemon

    [inl c]: the thread of connection [c]; [inr None]: the reader of the upstream
    link; [inr (Some i)]: the reader of the system route [i]. *)
Abbreviation tid := (nat + option nat)%type.

Definition link_of (l : option nat) : link :=
  match l with None => LinkUpstream | Some i => LinkSystem i end.

(** A thread that is not at the head of its loop: it has read a header, or has
    calls to make. *)
Inductive pending := Reading (frame : FrameHeader) | Running (task : conc unit).

(** [d_handled]: the frames whose bodies the connection threads have read so
    far. *)
Record Daemon := mkDaemon {
  d_router : TcpRouter;
  d_threads : gmap tid pending;
  d_handled : list (nat * FrameHeader * bytes)
}.

Inductive action :=
| Main (e : event)
| Start (c : nat)
| Iterate (c : nat) (stop : bool) (poll : Z)
| ReadLink (l : option nat) (stop : bool) (poll : Z)
| Continue (t : tid).

(** The steps of [TcpRouter::run]: connections to others, [accept], and the
    [emplace_back] of a connection whose thread may run already. *)
Definition main_event (e : event) : bool :=
  match e with EvStart _ | EvIterate _ _ _ | EvLink _ _ _ => false | _ => true end.

Definition start (c : nat) (d : Daemon) : Daemon :=
  match r_cons (d_router d) !! c with
  | Some con =>
      if decide (con_phase con = Created) then
        mkDaemon (update_con c (con_set_phase Looping) (d_router d)).2
          (<[inl c := Running (if con_is_peer con then advertise_calls c else mret tt)]> (d_threads d))
          (d_handled d)
      else d
  | None => d
  end.

(** The head of the loop of [Connection::run]. *)
Definition iterate (c : nat) (stop : bool) (poll : Z) (d : Daemon) : Daemon :=
  match d_threads d !! inl c, r_cons (d_router d) !! c with
  | None, Some con =>
      if decide (con_phase con = Looping) then
        if stop then
          mkDaemon (d_router d) (<[inl c := Running (call (con_finish c))]> (d_threads d)) (d_handled d)
        else if poll_in (con_socket con) poll <=? 0 then d
        else
          let '(ok, hdr, s) := recv_all (con_socket con) sizeof_FrameHeader in
          mkDaemon (set_cons (<[c := con_set_socket s con]> (r_cons (d_router d))) (d_router d))
            (<[inl c := if (ok : bool) then Reading (decode_frame hdr) else Running (call (con_finish c))]>
               (d_threads d))
            (d_handled d)
      else d
  | _, _ => d
  end.

(** The loop of [run_connection_reader] up to the frame that it has read. *)
Definition read_link (l : option nat) (stop : bool) (poll : Z) (d : Daemon) : Daemon :=
  match d_threads d !! inr l, get_link (link_of l) (d_router d) with
  | None, Some (s, false) =>
      if stop then mkDaemon (set_link (link_of l) (sock_close s) true (d_router d)) (d_threads d) (d_handled d)
      else if poll_in s poll <=? 0 then d
      else
        match read_frame (r_max_msg_size (d_router d)) s with
        | (None, s) => mkDaemon (set_link (link_of l) (sock_close s) true (d_router d)) (d_threads d) (d_handled d)
        | (Some (frame, body), s) =>
            mkDaemon (set_link (link_of l) s false (d_router d))
              (<[inr l := Running (link_calls frame body)]> (d_threads d)) (d_handled d)
        end
  | _, _ => d
  end.

(** The next call of a thread. *)
Definition continue (t : tid) (d : Daemon) : Daemon :=
  match d_threads d !! t, t with
  | Some (Reading frame), inl c =>
      match read_body c frame (d_router d) with
      | (None, st) => mkDaemon st (delete t (d_threads d)) (d_handled d)
      | (Some buf, st) =>
          mkDaemon st (<[t := Running (dispatch_calls c frame buf)]> (d_threads d))
            (d_handled d ++ [(c, frame, buf)])
      end
  | Some (Running (Ret _)), _ => mkDaemon (d_router d) (delete t (d_threads d)) (d_handled d)
  | Some (Running (Call f k)), _ =>
      let '(b, st) := f (d_router d) in
      mkDaemon st (<[t := Running (k b)]> (d_threads d)) (d_handled d)
  | _, _ => d
  end.

Definition act (d : Daemon) (a : action) : Daemon :=
  match a with
  | Main e =>
      if main_event e
      then mkDaemon (handle_event handle_frame e (d_router d)).2 (d_threads d) (d_handled d)
      else d
  | Start c => start c d
  | Iterate c stop poll => iterate c stop poll d
  | ReadLink l stop poll => read_link l stop poll d
  | Continue t => continue t d
  end.

Definition launch (max_msg_size : Z) : Daemon := mkDaemon (initial max_msg_size tt) ∅ [].

Definition reachable (max_msg_size : Z) (d : Daemon) : Prop :=
  exists actions, foldl act (launch max_msg_size) actions = d.

(** ** Without interruption a frame is one event of TcpRouter.v *)

Section alone.
Implicit Types (st : TcpRouter) (c : nat).

Lemma run_conc_bind {A B} (m : conc A) (g : A -> conc B) st :
  run_conc (m ≫= g) st = (run_conc m ≫= fun a => run_conc (g a)) st.
Proof.
  revert st. induction m as [a|C f k IH]; intros st; [done|]. cbn.
  change (run_conc (Call f k)) with (fun st => let '(b, st) := f st in run_conc (k b) st).
  rewrite bind_eq. destruct (f st) as [b st']. cbn.
  specialize (IH b st'). cbn in IH. rewrite bind_eq in IH. exact IH.
Qed.

Lemma run_call {A} (f : state TcpRouter A) st : run_conc (call f) st = f st.
Proof. cbn. by destruct (f st). Qed.

Lemma run_for_calls {A} (l : list A) (f : A -> conc unit) (g : A -> state TcpRouter unit) st :
  (forall x st, run_conc (f x) st = g x st) -> run_conc (for_calls l f) st = for_each l g st.
Proof.
  intros Hf. revert st. induction l as [|x l IH]; intros st; [done|]. cbn [for_calls for_each].
  rewrite run_conc_bind, !bind_eq, Hf. apply IH.
Qed.

Lemma run_select_peers cs st : run_conc (select_peers cs) st = (List.filter (is_peer_con st) cs, st).
Proof.
  induction cs as [|c cs IH]; [done|]. cbn [select_peers List.filter].
  rewrite run_conc_bind, bind_eq, run_call. cbn [get_is_peer fst snd].
  rewrite run_conc_bind, bind_eq, IH. cbn. by destruct (is_peer_con st c).
Qed.

Lemma run_broadcast (f : nat -> conc unit) (g : nat -> state TcpRouter unit) st :
  (forall x st, run_conc (f x) st = g x st) ->
  run_conc (broadcast_calls f) st = broadcast_to_peers g st.
Proof.
  intros Hf. unfold broadcast_calls, broadcast_to_peers.
  rewrite run_conc_bind, bind_eq, run_call. cbn [fst snd].
  rewrite run_conc_bind, bind_eq, run_select_peers. cbn [fst snd]. by apply run_for_calls.
Qed.

Lemma run_registered m st : run_conc (on_local_registered_calls m) st = on_local_registered m st.
Proof.
  unfold on_local_registered_calls, on_local_registered. rewrite run_conc_bind, !bind_eq, run_call.
  apply run_broadcast. intros. apply run_call.
Qed.

Lemma run_deleted m st : run_conc (on_local_deleted_calls m) st = on_local_deleted m st.
Proof.
  unfold on_local_deleted_calls, on_local_deleted. rewrite run_conc_bind, !bind_eq, run_call.
  apply run_broadcast. intros. apply run_call.
Qed.

Lemma run_advertise c st : run_conc (advertise_calls c) st = advertise_as_peer c st.
Proof.
  unfold advertise_calls, advertise_as_peer. rewrite run_conc_bind, !bind_eq, run_call. fold hello_frame.
  rewrite run_conc_bind, !bind_eq, run_call. apply run_for_calls. intros. apply run_call.
Qed.

Lemma run_route c frame body st : run_conc (route_calls c frame body) st = route_data c frame body st.
Proof.
  unfold route_calls, route_data. rewrite run_conc_bind, !bind_eq, run_call.
  destruct (registry_find (f_dest frame) st).1 as [dest|].
  - by rewrite run_conc_bind, !bind_eq, run_call.
  - rewrite run_conc_bind, !bind_eq, run_call. destruct (get_is_peer c _).1; [done|].
    rewrite run_conc_bind, !bind_eq, run_call. destruct (forward_to_upstream _ _ _).1; [done|apply run_call].
Qed.

Lemma run_mbx_init c frame m st : run_conc (mbx_init_calls c frame m) st = handle_mbx_init c frame m st.
Proof.
  unfold mbx_init_calls, handle_mbx_init. rewrite run_conc_bind, !bind_eq, run_call.
  rewrite run_conc_bind, !bind_eq, run_call. destruct (registry_add _ _ _).1; [apply run_registered|done].
Qed.

Lemma run_mbx_delete m st : run_conc (mbx_delete_calls m) st = handle_mbx_delete m st.
Proof.
  unfold mbx_delete_calls, handle_mbx_delete. rewrite run_conc_bind, !bind_eq, run_call. apply run_deleted.
Qed.

Lemma dispatch_alone c frame buf st : run_conc (dispatch_calls c frame buf) st = dispatch c frame buf st.
Proof.
  unfold dispatch_calls, dispatch. rewrite bind_eq. cbn [get_is_peer fst snd].
  split_frame; rewrite ?run_conc_bind, ?bind_eq, ?run_call; cbn [get_is_peer fst snd];
    rewrite ?andb_false_r, ?orb_true_r, ?orb_false_r; try done.
  all: try (destruct (is_peer_con st c); cbn [negb orb]; try done).
  all: try apply run_call.
  all: try apply run_mbx_init.
  all: try apply run_route.
  all: try (rewrite run_conc_bind, !bind_eq, run_call; done || apply run_advertise).
  all: apply run_mbx_delete.
Qed.
End alone.

(** ** What the interleaving leaves true *)

(** The task will put [m] into [local_mailboxes_]. *)
Fixpoint inserts (m : Z) (task : conc unit) : Prop :=
  match task with
  | Ret _ => False
  | Call f k => (forall st, m ∈ r_local_mailboxes (f st).2) \/ forall b, inserts m (k b)
  end.

(** An MBX_DELETE of [m] is among the frames handled so far. *)
Definition deleted (handled : list (nat * FrameHeader * bytes)) (m : Z) : Prop :=
  exists c frame buf, (c, frame, buf) ∈ handled /\ f_type frame = MSG_ROUTER_MBX_DELETE /\
    sizeof_MbxInitPayload <= frame_body_len frame /\ decode_mbx buf = m.

Definition routes_live (st : TcpRouter) : Prop :=
  forall m c, r_registry st !! m = Some c -> looping st c.

(** A call of the thread of [c], after which [task] remains. *)
Record step_ok (D : Z -> Prop) (c : nat) (st st' : TcpRouter) (task : conc unit) : Prop := mkStepOk {
  ok_live : routes_live st';
  ok_own : looping st' c \/ task = Ret tt;
  ok_others d : d <> c -> looping st d -> looping st' d;
  ok_peer d : is_peer_con st d = true -> is_peer_con st' d = true;
  ok_local m : m ∈ r_local_mailboxes st -> m ∈ r_local_mailboxes st' \/ D m;
  ok_routes m d : r_registry st' !! m = Some d -> r_registry st !! m = Some d \/
    d = c /\ (is_peer_con st' c = true \/ m ∈ r_local_mailboxes st' \/ inserts m task)
}.

(** All calls of a task are, whatever the others do in between; [p]: the thread
    knows that its connection is a peer. *)
Fixpoint safe (D : Z -> Prop) (c : nat) (p : bool) (task : conc unit) : Prop :=
  match task with
  | Ret _ => True
  | Call f k => forall st, routes_live st -> looping st c -> (p = true -> is_peer_con st c = true) ->
      step_ok D c st (f st).2 (k (f st).1) /\ safe D c (is_peer_con (f st).2 c) (k (f st).1)
  end.

(** A task that only reads the tables. *)
Fixpoint calm {A} (m : conc A) : Prop :=
  match m with
  | Ret _ => True
  | Call f k => quietly f /\ forall b, calm (k b)
  end.

Section safe.
Implicit Types (st : TcpRouter) (c d : nat) (D : Z -> Prop) (p : bool).

Lemma safe_mono D D' c p p' (task : conc unit) :
  (forall m, D m -> D' m) -> (p = true -> p' = true) -> safe D c p task -> safe D' c p' task.
Proof.
  intros HD. revert p p'. induction task as [|B f k IH]; intros p p' Hp Hs; [done|].
  intros st Hl Hc Hpeer. destruct (Hs st Hl Hc) as [[] Hk]; [auto|]. split.
  - split; auto. intros m Hm. destruct (ok_local0 m Hm); auto.
  - by eapply IH.
Qed.

Lemma step_ok_quiet D c st st' task :
  quiet st st' -> routes_live st -> looping st c -> step_ok D c st st' task.
Proof.
  intros Hq Hl Hc. split.
  - intros m d. rewrite (quiet_registry _ _ Hq), <- Hq. apply Hl.
  - left. by rewrite <- Hq.
  - intros d _. by rewrite <- Hq.
  - intros d. by rewrite <- Hq.
  - rewrite (quiet_local _ _ Hq). auto.
  - intros m d. rewrite (quiet_registry _ _ Hq). auto.
Qed.

Lemma safe_quiet {B} D c p (f : state TcpRouter B) k :
  quietly f -> (forall b, safe D c p (k b)) -> safe D c p (Call f k).
Proof.
  intros Hq Hk st Hl Hc Hp. split; [by apply step_ok_quiet|].
  eapply safe_mono; [done| |apply Hk]. intros E. rewrite <- (Hq st). auto.
Qed.

Lemma safe_calm D c p task : calm task -> safe D c p task.
Proof.
  induction task as [|B f k IH]; [done|]. intros [Hq Hk]. apply safe_quiet; auto.
Qed.

Lemma safe_calm_bind {A} D c p (m : conc A) (g : A -> conc unit) :
  calm m -> (forall a, safe D c p (g a)) -> safe D c p (m ≫= g).
Proof.
  intros Hm Hg. induction m as [a|B f k IH]; [apply Hg|]. destruct Hm as [Hq Hk].
  change (safe D c p (Call f (fun b => k b ≫= g))). apply safe_quiet; auto.
Qed.

(** The answer of [is_peer()] stays true. *)
Lemma safe_is_peer D c p k :
  (forall b, safe D c b (k b)) -> safe D c p (Call (get_is_peer c) k).
Proof. intros Hk st Hl Hc Hp. split; [by apply step_ok_quiet|apply Hk]. Qed.

(** A call that leaves the connections alone. *)
Lemma step_ok_tables D c st st' task :
  r_cons st' = r_cons st -> routes_live st -> looping st c ->
  (forall m, m ∈ r_local_mailboxes st -> m ∈ r_local_mailboxes st' \/ D m) ->
  (forall m d, r_registry st' !! m = Some d -> r_registry st !! m = Some d \/
     d = c /\ (is_peer_con st' c = true \/ m ∈ r_local_mailboxes st' \/ inserts m task)) ->
  step_ok D c st st' task.
Proof.
  intros Hcons Hl Hc Hloc Hr.
  assert (forall d, looping st' d <-> looping st d) as Hlp by (intros d; unfold looping, view; by rewrite Hcons).
  split; auto.
  - intros m d Hm. apply Hlp. destruct (Hr m d Hm) as [Hm'|[-> _]]; [by eapply Hl|done].
  - left. by apply Hlp.
  - intros d _. apply Hlp.
  - intros d. unfold is_peer_con. by rewrite Hcons.
Qed.

Lemma safe_add D c p m (k : bool -> conc unit) :
  (p = true \/ inserts m (k true)) -> (forall b, safe D c p (k b)) -> safe D c p (Call (registry_add m c) k).
Proof.
  intros Hadd Hk st Hl Hc Hp. unfold registry_add. destruct (r_registry st !! m) as [e|] eqn:Em; cbn [fst snd].
  - split; [by apply step_ok_quiet|]. eapply safe_mono; [done| |apply Hk]. auto.
  - split; [|eapply safe_mono; [done| |apply Hk]; auto].
    apply step_ok_tables; [done|done|done|auto|]. intros m' d. cbn. rewrite lookup_insert.
    case_decide as Hm; [|auto]. intros [= <-]. subst m'. right. split; [done|].
    destruct Hadd as [E|E]; [left; by apply Hp|auto].
Qed.

Lemma safe_remove D c p m (k : unit -> conc unit) :
  (forall b, safe D c p (k b)) -> safe D c p (Call (registry_remove m) k).
Proof.
  intros Hk st Hl Hc Hp. split; [|eapply safe_mono; [done| |apply Hk]; auto].
  apply step_ok_tables; [done|done|done|auto|]. intros m' d. cbn. rewrite lookup_delete_Some. naive_solver.
Qed.

Lemma safe_insert D c p m (k : unit -> conc unit) :
  (forall b, safe D c p (k b)) -> safe D c p (Call (local_insert m) k).
Proof.
  intros Hk st Hl Hc Hp. split; [|eapply safe_mono; [done| |apply Hk]; auto].
  apply step_ok_tables; [done|done|done| |auto]. cbn. set_solver.
Qed.

Lemma safe_erase (D : Z -> Prop) c p m (k : unit -> conc unit) :
  D m -> (forall b, safe D c p (k b)) -> safe D c p (Call (local_erase m) k).
Proof.
  intros HD Hk st Hl Hc Hp. split; [|eapply safe_mono; [done| |apply Hk]; auto].
  apply step_ok_tables; [done|done|done| |auto]. intros m' Hm. cbn.
  destruct (decide (m' = m)) as [->|]; [auto|]. left. set_solver.
Qed.

Lemma update_con_view st c f d :
  (forall con, con_phase (f con) = con_phase con) ->
  looping st d -> looping (update_con c f st).2 d.
Proof.
  intros Hph (i&p&w&Hv). unfold looping, view in *. cbn. rewrite lookup_alter.
  case_decide as Hd; [subst d|eauto]. destruct (r_cons st !! c) as [con|]; [|done].
  cbn in *. unfold con_view in *. injection Hv as <- <- <- Hv. rewrite Hph, Hv. eauto.
Qed.

Lemma safe_update D c p f (k : unit -> conc unit) :
  (forall con, con_phase (f con) = con_phase con) ->
  (forall con, con_is_peer con = true -> con_is_peer (f con) = true) ->
  (forall b, safe D c p (k b)) -> safe D c p (Call (update_con c f) k).
Proof.
  intros Hph Hpe Hk st Hl Hc Hp.
  assert (forall d, is_peer_con st d = true -> is_peer_con (update_con c f st).2 d = true) as Hpeer.
  { intros d. unfold is_peer_con. rewrite update_con_lookup. case_decide; [|done].
    destruct (r_cons st !! d); [apply Hpe|done]. }
  split; [|eapply safe_mono; [done| |apply Hk]; auto]. split; auto.
  - intros m d Hm. apply update_con_view; [done|]. by apply (Hl m).
  - left. by apply update_con_view.
  - intros d _. by apply update_con_view.
Qed.

(** [remove_all] is the last call of a thread. *)
Lemma safe_finish D c p : safe D c p (call (con_finish c)).
Proof.
  intros st Hl Hc Hp. split; [|done].
  set (st' := (con_finish c st).2).
  assert (forall m d, r_registry st' !! m = Some d -> r_registry st !! m = Some d /\ d <> c) as Hr.
  { intros m d. unfold st', con_finish. rewrite bind_eq. cbn. rewrite map_lookup_filter_Some.
    unfold route_con, connection_entry. naive_solver. }
  assert (forall d, d <> c -> looping st d -> looping st' d) as Hlp.
  { intros d Hd. unfold looping, view, st', con_finish. rewrite bind_eq. cbn. by rewrite lookup_alter_ne. }
  split; auto.
  - intros m d Hm. destruct (Hr m d Hm) as [Hm' Hd]. apply Hlp; [done|]. by apply (Hl m).
  - intros d. unfold is_peer_con, st', con_finish. rewrite bind_eq. cbn. rewrite lookup_alter.
    case_decide; [|done]. subst. by destruct (r_cons st !! d).
  - intros m d Hm. left. by apply Hr.
Qed.
End safe.

(** *** The tasks of the program *)
Section tasks.
Implicit Types (st : TcpRouter) (c d : nat) (D : Z -> Prop) (p : bool).

Lemma calm_bind {A B} (m : conc A) (g : A -> conc B) : calm m -> (forall a, calm (g a)) -> calm (m ≫= g).
Proof.
  intros Hm Hg. induction m as [a|C f k IH]; [apply Hg|]. destruct Hm as [Hq Hk].
  change (calm (Call f (fun b => k b ≫= g))). split; auto.
Qed.

Lemma calm_call {A} (f : state TcpRouter A) : quietly f -> calm (call f).
Proof. by split. Qed.

Ltac quiet_call :=
  apply calm_call;
  lazymatch goal with
  | |- quietly (get_is_peer _) => apply get_is_peer_quietly
  | |- quietly (registry_find _) => apply registry_find_quietly
  | |- quietly local_mailboxes_snapshot => apply local_snapshot_quietly
  | |- quietly (con_send _ _) => apply con_send_quietly
  | |- quietly (forward _ _ _) => apply forward_quietly
  | |- quietly (send_reply _ _) => apply send_reply_quietly
  | |- quietly (send_peer_register _ _) => apply send_peer_register_quietly
  | |- quietly (send_peer_delete _ _) => apply send_peer_delete_quietly
  | |- quietly (forward_to_upstream _ _) => apply forward_to_upstream_quietly
  end.

Lemma calm_for {A} (l : list A) (f : A -> conc unit) : (forall x, calm (f x)) -> calm (for_calls l f).
Proof. intros Hf. induction l as [|x l IH]; [done|]. cbn [for_calls]. by apply calm_bind. Qed.

Lemma calm_select cs : calm (select_peers cs).
Proof.
  induction cs as [|c cs IH]; [done|]. cbn [select_peers].
  apply calm_bind; [quiet_call|]. intros b. apply calm_bind; [done|]. by intros.
Qed.

Lemma calm_broadcast (f : nat -> conc unit) : (forall x, calm (f x)) -> calm (broadcast_calls f).
Proof.
  intros Hf. unfold broadcast_calls. apply calm_bind; [apply calm_call; by intros st|]. intros cs.
  apply calm_bind; [apply calm_select|]. intros. by apply calm_for.
Qed.

Lemma calm_advertise c : calm (advertise_calls c).
Proof.
  unfold advertise_calls. apply calm_bind; [quiet_call|]. intros _.
  apply calm_bind; [quiet_call|]. intros l.
  apply calm_for. intros m. quiet_call.
Qed.

Lemma calm_link frame body : calm (link_calls frame body).
Proof.
  unfold link_calls. apply calm_bind; [quiet_call|]. intros e.
  destruct (e ≫= route_con); [|done]. apply calm_bind; [quiet_call|done].
Qed.

Lemma calm_route c frame body : calm (route_calls c frame body).
Proof.
  unfold route_calls. apply calm_bind; [quiet_call|]. intros [dest|].
  - apply calm_bind; [quiet_call|done].
  - apply calm_bind; [quiet_call|]. intros [|]; [done|].
    apply calm_bind; [quiet_call|]. intros [|]; [done|].
    quiet_call.
Qed.

Lemma safe_registered D c p m : safe D c p (on_local_registered_calls m).
Proof.
  apply (safe_insert D c p m). intros _. apply safe_calm, calm_broadcast.
  intros. quiet_call.
Qed.

Lemma safe_mbx_init D c p frame m : safe D c p (mbx_init_calls c frame m).
Proof.
  apply (safe_add D c p m).
  - right. cbn. right. intros _. left. intros st. cbn. set_solver.
  - intros ok. apply (safe_calm_bind D c p (call _)); [quiet_call|]. intros _.
    destruct ok; [apply safe_registered|done].
Qed.

Lemma safe_mbx_delete D c p m : D m -> safe D c p (mbx_delete_calls m).
Proof.
  intros HD. apply (safe_remove D c p m). intros _. apply (safe_erase D c p m); [done|]. intros _.
  apply safe_calm, calm_broadcast. intros. quiet_call.
Qed.

Lemma safe_dispatch D c p frame buf :
  (f_type frame = MSG_ROUTER_MBX_DELETE -> sizeof_MbxInitPayload <= frame_body_len frame -> D (decode_mbx buf)) ->
  safe D c p (dispatch_calls c frame buf).
Proof.
  intros HD. unfold dispatch_calls. split_frame; try done.
  all: try (apply safe_is_peer; intros []; try done; cbn [negb orb]).
  all: try by apply safe_calm, calm_route.
  all: try by apply safe_mbx_init.
  all: try (by apply safe_update).
  - change (safe D c false (_ ← call (update_con c (con_set_peer true)); advertise_calls c)).
    apply (safe_update D c false); [done|done|]. intros _. apply safe_calm, calm_advertise.
  - by apply safe_add; [left|].
  - by apply safe_remove.
  - apply safe_mbx_delete, HD; [by apply Z.eqb_eq|]. by apply Z.ltb_ge.
Qed.
End tasks.

(** ** The invariant of the interleaved daemon *)

(** What a thread may have to do. *)
Definition pending_ok (D : Z -> Prop) (st : TcpRouter) (t : tid) (x : option pending) : Prop :=
  match t, x with
  | inl c, Some (Reading _) => looping st c
  | inl c, Some (Running task) => task = Ret tt \/ looping st c /\ safe D c (is_peer_con st c) task
  | inr _, Some (Running task) => calm task
  | _, _ => True
  end.

(** Thread [t] will advertise [m]. *)
Definition registering (x : option pending) (m : Z) : Prop :=
  exists task, x = Some (Running task) /\ inserts m task.

Record daemon_inv (d : Daemon) : Prop := mkDInv {
  di_routes : routes_live (d_router d);
  di_pending t : pending_ok (deleted (d_handled d)) (d_router d) t (d_threads d !! t);
  di_local m c : r_registry (d_router d) !! m = Some c -> is_peer_con (d_router d) c = false ->
    deleted (d_handled d) m \/ m ∈ r_local_mailboxes (d_router d) \/ registering (d_threads d !! inl c) m
}.

Section invariant.
Implicit Types (st : TcpRouter) (c : nat) (D : Z -> Prop) (d : Daemon).

Lemma pending_ok_mono D D' st st' t x :
  (forall m, D m -> D' m) ->
  (forall c, t = inl c -> looping st c -> looping st' c) ->
  (forall c, is_peer_con st c = true -> is_peer_con st' c = true) ->
  pending_ok D st t x -> pending_ok D' st' t x.
Proof.
  intros HD Hl Hp. destruct t as [c|l], x as [[frame|task]|]; cbn -[safe calm]; try done; [by apply Hl|].
  intros [->|[Hc Hs]]; [by left|]. right. split; [by apply Hl|]. by eapply safe_mono; [..|exact Hs]; auto.
Qed.

(** A step of thread [t]. *)
Lemma daemon_step d st' threads' handled' t :
  let D := deleted (d_handled d) in let D' := deleted handled' in
  daemon_inv d -> (forall m, D m -> D' m) -> routes_live st' ->
  (forall c, t <> inl c -> looping (d_router d) c -> looping st' c) ->
  (forall c, is_peer_con (d_router d) c = true -> is_peer_con st' c = true) ->
  (forall m, m ∈ r_local_mailboxes (d_router d) -> m ∈ r_local_mailboxes st' \/ D' m) ->
  (forall m c, r_registry st' !! m = Some c -> r_registry (d_router d) !! m = Some c \/
     t = inl c /\ (is_peer_con st' c = true \/ m ∈ r_local_mailboxes st' \/ registering (threads' !! t) m)) ->
  (forall t', t' <> t -> threads' !! t' = d_threads d !! t') ->
  pending_ok D' st' t (threads' !! t) ->
  (forall m c, t = inl c -> r_registry (d_router d) !! m = Some c -> registering (d_threads d !! t) m ->
     D' m \/ m ∈ r_local_mailboxes st' \/ registering (threads' !! t) m) ->
  daemon_inv (mkDaemon st' threads' handled').
Proof.
  intros D D' [Hr Hp Ha] HD Hl Hlp Hpeer Hloc Hreg Hth Hok Hins. split; cbn; [done| |].
  - intros t'. destruct (decide (t' = t)) as [->|Hne]; [done|]. rewrite Hth by done.
    eapply pending_ok_mono; [exact HD| |exact Hpeer|apply Hp]. intros c ->. apply Hlp. congruence.
  - intros m c Hm Hc. destruct (Hreg m c Hm) as [Hm'|(->&[?|?])]; [|congruence|by right].
    assert (is_peer_con (d_router d) c = false) as Hc'.
    { destruct (is_peer_con (d_router d) c) eqn:E; [|done]. apply Hpeer in E. congruence. }
    destruct (Ha m c Hm' Hc') as [?|[Hin|Hin]]; [left; by apply HD| |].
    + destruct (Hloc m Hin); auto.
    + destruct (decide (t = inl c)) as [->|Hne]; [by eapply Hins|].
      rewrite <- Hth in Hin by congruence. auto.
Qed.

(** A step that moves bytes. *)
Lemma daemon_quiet d st' threads' t :
  daemon_inv d -> quiet (d_router d) st' ->
  (forall t', t' <> t -> threads' !! t' = d_threads d !! t') ->
  pending_ok (deleted (d_handled d)) st' t (threads' !! t) ->
  (forall m c, t = inl c -> r_registry (d_router d) !! m = Some c ->
     registering (d_threads d !! t) m -> registering (threads' !! t) m) ->
  daemon_inv (mkDaemon st' threads' (d_handled d)).
Proof.
  intros Hi Hq Hth Hok Hins. apply (daemon_step d _ _ _ t Hi); auto.
  - intros m c. rewrite (quiet_registry _ _ Hq), <- Hq. apply (di_routes _ Hi).
  - intros c _. by rewrite <- Hq.
  - intros c. by rewrite <- Hq.
  - rewrite (quiet_local _ _ Hq). auto.
  - rewrite (quiet_registry _ _ Hq). auto.
  - intros m c E Hm Hin. right. right. by apply (Hins m c).
Qed.

Lemma new_connection_grows sock b st :
  let st' := (new_connection sock b st).2 in
  r_registry st' = r_registry st /\ r_local_mailboxes st' = r_local_mailboxes st /\
  forall c, is_Some (r_cons st !! c) -> r_cons st' !! c = r_cons st !! c.
Proof.
  unfold new_connection. cbn. split; [done|]. split; [done|]. intros c [con Hc].
  rewrite lookup_insert_ne; [done|]. intros <-.
  assert (r_cons st !! fresh (dom (r_cons st)) = None) by (apply not_elem_of_dom, is_fresh). congruence.
Qed.

Lemma main_event_grows e st :
  main_event e = true ->
  let st' := (handle_event handle_frame e st).2 in
  r_registry st' = r_registry st /\ r_local_mailboxes st' = r_local_mailboxes st /\
  forall c, is_Some (r_cons st !! c) -> r_cons st' !! c = r_cons st !! c.
Proof.
  destruct e as [[sock|]|cfg sock|cfgs|poll sock|c|c|c stop poll|l stop poll]; try done; intros _; cbv zeta;
    cbn [handle_event].
  - unfold connect_to_peer. rewrite bind_eq. apply new_connection_grows.
  - by destruct cfg, sock.
  - unfold connect_to_system_routes. revert st. induction cfgs as [|[i [s|]] cfgs IH]; intros st; [done| |];
      cbn [for_each]; rewrite bind_eq; [|apply IH].
    destruct (IH (modify (fun st => set_system (r_system_connections st ++ [mkSys i s false]) st) st).2) as (->&->&Hc).
    done.
  - unfold accept_iter. destruct (poll <=? 0); [done|]. destruct sock; [|done].
    rewrite bind_eq. apply new_connection_grows.
  - unfold publish, modify. cbn. by case_decide.
Qed.

Lemma main_inv e d :
  main_event e = true -> daemon_inv d ->
  daemon_inv (mkDaemon (handle_event handle_frame e (d_router d)).2 (d_threads d) (d_handled d)).
Proof.
  intros He Hi. destruct (main_event_grows e (d_router d) He) as (Hr&Hl&Hc).
  set (st' := (handle_event handle_frame e (d_router d)).2) in *.
  assert (forall c, looping (d_router d) c -> looping st' c) as Hlp.
  { intros c (i&p&w&Hv). exists i, p, w. unfold view in *. destruct (r_cons (d_router d) !! c) eqn:E; [|done].
    by rewrite Hc, E by eauto. }
  assert (forall c, is_peer_con (d_router d) c = true -> is_peer_con st' c = true) as Hpeer.
  { intros c. unfold is_peer_con. destruct (r_cons (d_router d) !! c) eqn:E; [|done]. by rewrite Hc, E by eauto. }
  apply (daemon_step d _ _ _ (inr None) Hi); auto; try done.
  - intros m c. rewrite Hr. intros Hm. by apply Hlp, (di_routes _ Hi m).
  - rewrite Hl. auto.
  - rewrite Hr. auto.
  - apply (pending_ok_mono (deleted (d_handled d)) _ (d_router d) st'); auto. apply (di_pending _ Hi).
Qed.

Lemma start_inv c d : daemon_inv d -> daemon_inv (start c d).
Proof.
  intros Hi. unfold start. destruct (r_cons (d_router d) !! c) as [con|] eqn:Hc; [|done].
  case_decide as Hph; [|done]. set (st' := (update_con c (con_set_phase Looping) (d_router d)).2).
  assert (forall e, looping (d_router d) e -> e <> c) as Hne.
  { intros e (i&p&w&Hv) ->. unfold view in Hv. rewrite Hc in Hv. cbn in Hv. unfold con_view in Hv. congruence. }
  assert (forall e, looping (d_router d) e -> looping st' e) as Hlp.
  { intros e He. pose proof (Hne e He). unfold looping, view, st' in *. cbn. by rewrite lookup_alter_ne. }
  assert (forall e, is_peer_con st' e = is_peer_con (d_router d) e) as Hpeer.
  { intros e. unfold is_peer_con, st'. cbn. rewrite lookup_alter. case_decide; [subst|done].
    by destruct (r_cons (d_router d) !! e). }
  apply (daemon_step d _ _ _ (inl c) Hi); auto.
  - intros m e Hm. apply Hlp. by apply (di_routes _ Hi m).
  - intros e. by rewrite Hpeer.
  - intros t' Ht. by rewrite lookup_insert_ne.
  - rewrite lookup_insert_eq. cbn. right. split.
    + unfold looping, view, st'. cbn. rewrite lookup_alter_eq, Hc. cbn. unfold con_view. cbn. eauto.
    + destruct (con_is_peer con); [apply safe_calm, calm_advertise|done].
  - intros m e [= <-] Hm. by destruct (Hne c (di_routes _ Hi m c Hm)).
Qed.

Lemma iterate_inv c stop poll d : daemon_inv d -> daemon_inv (iterate c stop poll d).
Proof.
  intros Hi. unfold iterate. destruct (d_threads d !! inl c) eqn:Ht; [done|].
  destruct (r_cons (d_router d) !! c) as [con|] eqn:Hc; [|done]. case_decide as Hph; [|done].
  assert (looping (d_router d) c) as Hlp.
  { unfold looping, view. rewrite Hc. cbn. unfold con_view. rewrite Hph. eauto. }
  assert (forall m, ~ registering (d_threads d !! inl c) m) as Hno.
  { intros m (task&E&_). congruence. }
  destruct stop; [|destruct (poll_in _ _ <=? 0); [done|]; destruct (recv_all _ _) as [[ok hdr] s]].
  - apply (daemon_quiet d _ _ (inl c) Hi); [done|by intros; rewrite lookup_insert_ne| |].
    + rewrite lookup_insert_eq. cbn -[safe]. right. split; [done|apply safe_finish].
    + intros m e _ _ Hr. by destruct (Hno m).
  - pose proof (quiet_set_socket (d_router d) c con s Hc) as Hq.
    apply (daemon_quiet d _ _ (inl c) Hi); [done|by intros; rewrite lookup_insert_ne| |].
    + rewrite lookup_insert_eq. destruct ok; cbn -[safe]; [by rewrite <- Hq|].
      right. split; [by rewrite <- Hq|apply safe_finish].
    + intros m e _ _ Hr. by destruct (Hno m).
Qed.

Lemma read_link_inv l stop poll d : daemon_inv d -> daemon_inv (read_link l stop poll d).
Proof.
  intros Hi. unfold read_link. destruct (d_threads d !! inr l) eqn:Ht; [done|].
  destruct (get_link (link_of l) (d_router d)) as [[s []]|]; [done| |done].
  assert (forall s b threads', (forall t', t' <> inr l -> threads' !! t' = d_threads d !! t') ->
    pending_ok (deleted (d_handled d)) (set_link (link_of l) s b (d_router d)) (inr l) (threads' !! inr l) ->
    daemon_inv (mkDaemon (set_link (link_of l) s b (d_router d)) threads' (d_handled d))) as Hq.
  { intros s' b threads' Hth Hok. apply (daemon_quiet d _ _ (inr l) Hi); auto; [apply set_link_quiet|done]. }
  destruct stop; [apply Hq; [done|by rewrite Ht]|]. destruct (_ <=? 0); [done|].
  destruct (read_frame _ _) as [[[frame body]|] s']; [|apply Hq; [done|by rewrite Ht]].
  apply Hq; [by intros; rewrite lookup_insert_ne|]. rewrite lookup_insert_eq. apply calm_link.
Qed.

Lemma deleted_snoc h x m : deleted h m -> deleted (h ++ [x]) m.
Proof. intros (c&frame&buf&Hin&?). exists c, frame, buf. split; [|done]. apply elem_of_app. by left. Qed.

(** A call of the thread of a connection. *)
Lemma call_inv {B} c (f : state TcpRouter B) k d :
  daemon_inv d -> d_threads d !! inl c = Some (Running (Call f k)) ->
  daemon_inv (mkDaemon (f (d_router d)).2
    (<[inl c := Running (k (f (d_router d)).1)]> (d_threads d)) (d_handled d)).
Proof.
  intros Hi Ht. pose proof (di_pending _ Hi (inl c)) as Hp. rewrite Ht in Hp.
  destruct Hp as [|[Hc Hs]]; [done|]. destruct (Hs (d_router d) (di_routes _ Hi) Hc) as [[] Hk]; [auto|].
  apply (daemon_step d _ _ _ (inl c) Hi); [auto|done|intros e He; apply ok_others0; congruence|done..| | | |].
  - rewrite lookup_insert_eq. intros m e Hm. destruct (ok_routes0 m e Hm) as [?|[-> Hr]]; [auto|].
    right. split; [done|]. unfold registering. naive_solver.
  - intros t' Hne. by rewrite lookup_insert_ne.
  - rewrite lookup_insert_eq. cbn. destruct ok_own0 as [?|E]; auto.
  - intros m e _ Hm (task&E&Hin). rewrite Ht in E. injection E as <-. rewrite lookup_insert_eq. right.
    destruct Hin as [Hin|Hin]; [left; apply Hin|right]. eexists. split; [done|apply Hin].
Qed.

Lemma continue_inv t d : daemon_inv d -> daemon_inv (continue t d).
Proof.
  intros Hi. unfold continue. destruct (d_threads d !! t) as [[frame|[u|B f k]]|] eqn:Ht; [| | |done].
  - destruct t as [c|l]; [|done]. pose proof (di_pending _ Hi (inl c)) as Hp. rewrite Ht in Hp. cbn in Hp.
    pose proof (read_body_quietly c frame (d_router d)) as Hq.
    destruct (read_body c frame (d_router d)) as [[buf|] st]; cbn [snd] in Hq.
    + apply (daemon_step d _ _ _ (inl c) Hi).
      * intros m. apply deleted_snoc.
      * intros m e. rewrite (quiet_registry _ _ Hq), <- Hq. apply (di_routes _ Hi).
      * intros e _. by rewrite <- Hq.
      * intros e. by rewrite <- Hq.
      * rewrite (quiet_local _ _ Hq). auto.
      * rewrite (quiet_registry _ _ Hq). auto.
      * intros t' Hne. by rewrite lookup_insert_ne.
      * rewrite lookup_insert_eq. cbn -[dispatch_calls]. right. split; [by rewrite <- Hq|].
        apply safe_dispatch. intros Hty Hlen. exists c, frame, buf. split; [|done].
        apply elem_of_app. right. by left.
      * intros m e _ _ (task&E&_). congruence.
    + apply (daemon_quiet d _ _ (inl c) Hi); [done|by intros; rewrite lookup_delete_ne| |].
      * by rewrite lookup_delete_eq.
      * intros m e _ _ (task&E&_). congruence.
  - assert (forall x m, ~ registering (Some (Running (Ret x))) m) as Hno by (intros x m (?&[= <-]&[])).
    replace (match t with inl _ | inr _ => mkDaemon (d_router d) (delete t (d_threads d)) (d_handled d) end)
      with (mkDaemon (d_router d) (delete t (d_threads d)) (d_handled d)) by by destruct t.
    apply (daemon_quiet d _ _ t Hi); [done|by intros; rewrite lookup_delete_ne| |].
    + rewrite lookup_delete_eq. by destruct t.
    + intros m e _ _ Hr. rewrite Ht in Hr. by destruct (Hno u m).
  - destruct t as [c|l].
    + pose proof (call_inv c f k d Hi Ht) as H. by destruct (f (d_router d)).
    + pose proof (di_pending _ Hi (inr l)) as Hp. rewrite Ht in Hp. cbn in Hp. destruct Hp as [Hq Hk].
      specialize (Hq (d_router d)). destruct (f (d_router d)) as [b st]. cbn in Hq.
      apply (daemon_quiet d _ _ (inr l) Hi); [done|by intros; rewrite lookup_insert_ne| |done].
      rewrite lookup_insert_eq. apply Hk.
Qed.

Lemma act_inv a d : daemon_inv d -> daemon_inv (act d a).
Proof.
  intros Hi. destruct a as [e|c|c stop poll|l stop poll|t]; cbn [act].
  - destruct (main_event e) eqn:He; [by apply main_inv|done].
  - by apply start_inv.
  - by apply iterate_inv.
  - by apply read_link_inv.
  - by apply continue_inv.
Qed.

Lemma launch_inv max : daemon_inv (launch max).
Proof.
  split; cbn.
  - intros m c. cbn. by rewrite lookup_empty.
  - intros [c|l]; by rewrite lookup_empty.
  - intros m c. by rewrite lookup_empty.
Qed.

Lemma daemon_reachable_inv max d : reachable max d -> daemon_inv d.
Proof.
  intros [actions <-]. generalize (launch_inv max). generalize (launch max) as d0.
  induction actions as [|a actions IH]; intros d0 Hd; [done|]. cbn. by apply IH, act_inv.
Qed.
End invariant.

(** ** An MBX_DELETE overtaken by a registration

    Connection 1 owns mailbox 66 and deletes it; between its [registry_.remove]
    and its [on_local_deleted] connection 0 registers the mailbox.  Later a peer
    says HELLO on connection 2. *)
Definition delete_bytes_of (m : Z) : bytes :=
  encode_frame (make_frame MSG_ROUTER_MBX_DELETE 0 7 0 1 sizeof_MbxInitPayload) ++ encode_mbx m.

Definition connect_client (c : nat) (rx : bytes) : list action :=
  [Main (EvAccept 1 (Some (sock_of_fd (5 + Z.of_nat c) rx [] []))); Main (EvPublish c); Start c; Continue (inl c)].

Definition overtaken_delete : list action :=
  connect_client 0 (client_init_bytes 66) ++
  connect_client 1 (client_init_bytes 66 ++ delete_bytes_of 66) ++
  [Iterate 1 false 1] ++ repeat (Continue (inl 1%nat)) 8 ++
  [Iterate 1 false 1] ++ repeat (Continue (inl 1%nat)) 2 ++
  [Iterate 0 false 1] ++ repeat (Continue (inl 0%nat)) 8 ++
  repeat (Continue (inl 1%nat)) 5 ++
  connect_client 2 hello_bytes ++
  [Iterate 2 false 1] ++ repeat (Continue (inl 2%nat)) 6.

(** C17. Whatever the interleaving of the calls of the connection threads, the
    accept loop and the link readers of corerat-router-tcp: in every state that
    the daemon reaches, each entry of the registry points to a connection that
    exists and whose thread has not yet left its loop, and a mailbox routed to a
    client is among the mailboxes the router advertises, or the client's thread is
    about to put it there, or a frame that deletes this mailbox has been handled.
    The last exception is real: a deletion on one connection and a registration on
    another can interleave so that, with every thread back at the head of its
    loop, the mailbox is routed to a live client and not advertised, and a peer
    that connects afterwards is not told of it. *)
Theorem reachable_routes :
  (forall max (d : Daemon) m c,
     reachable max d -> r_registry (d_router d) !! m = Some c ->
     exists con, r_cons (d_router d) !! c = Some con /\ con_phase con = Looping /\
       (con_is_peer con = false ->
          m ∈ r_local_mailboxes (d_router d) \/ registering (d_threads d !! inl c) m \/
          deleted (d_handled d) m)) /\
  exists (d : Daemon) m c con, reachable 4096 d /\ d_threads d = ∅ /\
    r_registry (d_router d) !! m = Some c /\ r_cons (d_router d) !! c = Some con /\
    con_phase con = Looping /\ con_is_peer con = false /\ m ∉ r_local_mailboxes (d_router d) /\
    is_peer_con (d_router d) 2%nat = true /\ con_tx (d_router d) 2%nat = hello_bytes.
Proof.
  split.
  - intros max d m c Hd Hm. pose proof (daemon_reachable_inv max d Hd) as Hi.
    destruct (di_routes _ Hi m c Hm) as (i&p&w&Hv). unfold view in Hv.
    destruct (r_cons (d_router d) !! c) as [con|] eqn:Hc; [|done]. cbn in Hv. unfold con_view in Hv.
    exists con. split; [done|]. split; [congruence|]. intros Hp.
    destruct (di_local _ Hi m c Hm) as [?|[?|?]]; auto. unfold is_peer_con. by rewrite Hc.
  - set (d := foldl act (launch 4096) overtaken_delete).
    destruct (r_cons (d_router d) !! 0%nat) as [con|] eqn:Hc; [|exfalso; vm_compute in Hc; discriminate Hc].
    exists d, 66, 0%nat, con. split; [by exists overtaken_delete|].
    assert (con_phase con = Looping /\ con_is_peer con = false) as [Hph Hp]
      by (vm_compute in Hc; by injection Hc as <-).
    split_and!; [vm_compute; reflexivity|vm_compute; reflexivity|done|done|done|by_compute|
      vm_compute; reflexivity|vm_compute; reflexivity].
Qed.

(** In the middle of that run: connection 0 owns the mailbox and connection 1 has
    its deletion still to complete. *)
Lemma reachable_routes_witness :
  let d := foldl act (launch 4096) (take 25 overtaken_delete) in
  exists con, r_cons (d_router d) !! 0%nat = Some con /\ con_phase con = Looping /\
    (con_is_peer con = false ->
       66 ∈ r_local_mailboxes (d_router d) \/ registering (d_threads d !! inl 0%nat) 66 \/
       deleted (d_handled d) 66).
Proof.
  intros d. apply (proj1 reachable_routes 4096 d 66 0%nat); [by exists (take 25 overtaken_delete)|].
  vm_compute. reflexivity.
Defined.
End Threads.
