(* ===== verification/Locks.v ===== *)
(** * Mutex and SharedMutex, and what they make of concurrent calls

    The wrappers of platform/std/threading_impl.hpp and
    platform/evl/threading_impl.hpp, the interface [Lockable] they share, and
    threads that run critical sections under such a lock.  A section is a list
    of accesses, so that the sections of different threads interleave wherever
    the lock lets them; [run_serial] shows that they behave as if they
    ran one after the other, in the order in which they took the lock.

    The two places of the daemons that rely on it follow: the registry of
    tcp_router.cpp (Module Registry), whose methods lock a shared_mutex, and
    the sockets (Module Link), whose frames go out under [send_mutex_].  Each
    method is given as the section its code has: the lock it takes, the look at
    the table and the change of it, the calls of the kernel that send a frame. *)

From Stdlib Require Import ZArith Lia.
From stdpp Require Import base list gmap sets numbers.
From S2P Require Import Prelude Protocol TcpSocket RouterCore TcpRouter.

#[local] Open Scope Z_scope.

(** ** The interface

    [lock md t l]: what thread [t] gets in mode [md], [None] while it blocks.
    A lock may refuse readers in favour of waiting writers, or let any waiting
    thread go first: the laws do not say who gets it, only that a lock nobody
    holds can be had. *)

Inductive lock_mode := Exclusive | Shared.

#[export] Instance lock_mode_eq_dec : EqDecision lock_mode.
Proof. solve_decision. Defined.

#[export] Instance lock_mode_countable : Countable lock_mode.
Proof.
  refine (inj_countable' (fun m => match m with Exclusive => true | Shared => false end)
    (fun b : bool => if b then Exclusive else Shared) _). by intros [].
Defined.

Class Lockable (L : Type) := {
  unlocked : L;
  lock : lock_mode -> nat -> L -> option L;
  unlock : lock_mode -> nat -> L -> L;
  holds : L -> gset (nat * lock_mode)
}.

Class LockSpec (L : Type) `{Lockable L} := {
  unlocked_held : holds unlocked = ∅;
  lock_takes md t l l' : lock md t l = Some l' -> holds l' = {[(t, md)]} ∪ holds l;
  lock_excludes md t l l' t' md' :
    lock md t l = Some l' -> (t', md') ∈ holds l -> md = Shared /\ md' = Shared;
  unlock_drops md t l : (t, md) ∈ holds l -> holds (unlock md t l) = holds l ∖ {[(t, md)]};
  lock_free md t l : holds l = ∅ -> is_Some (lock md t l)
}.

(** ** std/threading_impl.hpp

    [std::mutex] and [std::shared_mutex] as the C++ standard defines them;
    [spurious]: [try_lock] may fail although the lock is free. *)
Module StdLock.

Record Mutex := mkMutex { mutex_owner : option (nat * lock_mode) }.

Definition mutex_lock (md : lock_mode) (t : nat) (m : Mutex) : option Mutex :=
  match mutex_owner m with
  | None => Some (mkMutex (Some (t, md)))
  | Some _ => None
  end.

Definition mutex_try_lock (spurious : bool) (t : nat) (m : Mutex) : bool * Mutex :=
  if spurious then (false, m)
  else match mutex_lock Exclusive t m with Some m => (true, m) | None => (false, m) end.

Definition mutex_unlock (md : lock_mode) (t : nat) (m : Mutex) : Mutex := mkMutex None.

#[global] Instance mutex_lockable : Lockable Mutex := {
  unlocked := mkMutex None;
  lock := mutex_lock;
  unlock := mutex_unlock;
  holds m := match mutex_owner m with Some p => {[p]} | None => ∅ end
}.

#[global] Instance mutex_spec : LockSpec Mutex.
Proof.
  split; cbn; unfold mutex_lock.
  - done.
  - intros md t [[?|]] l' E; simplify_eq/=. by rewrite union_empty_r_L.
  - intros md t [[?|]] l' t' md' E; simplify_eq/=. by rewrite elem_of_empty.
  - intros md t [[p|]]; cbn; set_solver.
  - intros md t [[p|]]; cbn; [|eauto]. intros E. set_solver.
Qed.

Inductive SharedMutex := Written (t : nat) | Read (readers : gset nat).

Definition unique_lock (t : nat) (m : SharedMutex) : option SharedMutex :=
  match m with
  | Written _ => None
  | Read readers => if decide (readers = ∅) then Some (Written t) else None
  end.

Definition shared_lock (t : nat) (m : SharedMutex) : option SharedMutex :=
  match m with
  | Written _ => None
  | Read readers => Some (Read ({[t]} ∪ readers))
  end.

Definition try_lock (spurious : bool) (t : nat) (m : SharedMutex) : bool * SharedMutex :=
  if spurious then (false, m)
  else match unique_lock t m with Some m => (true, m) | None => (false, m) end.

Definition try_lock_shared (spurious : bool) (t : nat) (m : SharedMutex) : bool * SharedMutex :=
  if spurious then (false, m)
  else match shared_lock t m with Some m => (true, m) | None => (false, m) end.

Definition unique_unlock (t : nat) (m : SharedMutex) : SharedMutex := Read ∅.

Definition unlock_shared (t : nat) (m : SharedMutex) : SharedMutex :=
  match m with
  | Written _ => m
  | Read readers => Read (readers ∖ {[t]})
  end.

#[global] Instance shared_mutex_lockable : Lockable SharedMutex := {
  unlocked := Read ∅;
  lock md := match md with Exclusive => unique_lock | Shared => shared_lock end;
  unlock md := match md with Exclusive => unique_unlock | Shared => unlock_shared end;
  holds m :=
    match m with
    | Written t => {[(t, Exclusive)]}
    | Read readers => set_map (fun t => (t, Shared)) readers
    end
}.

#[global] Instance shared_mutex_spec : LockSpec SharedMutex.
Proof.
  split; cbn.
  - done.
  - intros [] t [w|rs] l' E; cbn in E; [done| |done|].
    + destruct (decide _) as [->|]; simplify_eq. set_solver.
    + simplify_eq. set_solver.
  - intros [] t [w|rs] l' t' md' E; cbn in E; [done| |done|].
    + destruct (decide _) as [->|]; simplify_eq. set_solver.
    + set_solver.
  - intros [] t [w|rs] Hin; cbn.
    + set_solver.
    + apply elem_of_map in Hin as (?&[=]&_).
    + apply elem_of_singleton in Hin as [=].
    + apply set_eq. intros [t' md']. rewrite elem_of_difference, !elem_of_map.
      setoid_rewrite elem_of_difference. set_solver.
  - intros [] t [w|rs] E; cbn in *; [set_solver| |set_solver|eauto].
    rewrite decide_True; [eauto|]. by apply set_map_empty_iff_L in E || set_solver.
Qed.
End StdLock.

(** ** evl/threading_impl.hpp

    The same members over libevl, whose calls are parameters: [evl_lock] and
    [evl_trylock] answer zero or a negative error.  The wrappers look at the
    answer of [evl_trylock_*] only. *)
Class Libevl (L : Type) := {
  evl_new : L;
  evl_lock : lock_mode -> nat -> L -> option (Z * L);
  evl_trylock : lock_mode -> nat -> L -> Z * L;
  evl_unlock : lock_mode -> nat -> L -> L;
  evl_holds : L -> gset (nat * lock_mode)
}.

Module EvlLock.
Section evl_lock.
Context {L : Type} `{Libevl L}.

Definition lock (md : lock_mode) (t : nat) (m : L) : option L := snd <$> evl_lock md t m.

Definition try_lock (md : lock_mode) (t : nat) (m : L) : bool * L :=
  let '(r, m) := evl_trylock md t m in (r =? 0, m).

Definition unlock (md : lock_mode) (t : nat) (m : L) : L := evl_unlock md t m.
End evl_lock.
End EvlLock.

(** What the documentation of libevl says of the calls: a lock is granted with
    the answer zero, as [LockSpec] says; an error leaves it alone. *)
Class LibevlSpec (L : Type) `{Libevl L} := {
  evl_new_held : evl_holds evl_new = ∅;
  evl_lock_takes md t l l' : evl_lock md t l = Some (0, l') -> evl_holds l' = {[(t, md)]} ∪ evl_holds l;
  evl_lock_excludes md t l l' t' md' :
    evl_lock md t l = Some (0, l') -> (t', md') ∈ evl_holds l -> md = Shared /\ md' = Shared;
  evl_lock_error md t l r l' : evl_lock md t l = Some (r, l') -> r <> 0 -> l' = l;
  evl_trylock_lock md t l l' : evl_trylock md t l = (0, l') -> evl_lock md t l = Some (0, l');
  evl_trylock_error md t l r l' : evl_trylock md t l = (r, l') -> r <> 0 -> l' = l;
  evl_unlock_drops md t l :
    (t, md) ∈ evl_holds l -> evl_holds (evl_unlock md t l) = evl_holds l ∖ {[(t, md)]};
  evl_lock_free md t l : evl_holds l = ∅ -> is_Some (evl_lock md t l)
}.

Section evl_lockable.
Context {L : Type} `{LibevlSpec L}.

(** The wrapper is a lock for as long as no call fails ... *)
Definition evl_lockable : Lockable L := {|
  unlocked := evl_new; lock := EvlLock.lock; unlock := EvlLock.unlock; holds := evl_holds
|}.

Lemma evl_lockable_spec :
  (forall md t l r l', evl_lock md t l = Some (r, l') -> r = 0) -> @LockSpec L evl_lockable.
Proof.
  intros Hok.
  assert (forall md t l l', EvlLock.lock md t l = Some l' -> evl_lock md t l = Some (0, l')) as Hl.
  { unfold EvlLock.lock. intros md t l l' E. destruct (evl_lock md t l) as [[r m]|] eqn:E'; simplify_eq/=.
    by rewrite (Hok _ _ _ _ _ E'). }
  split; cbn.
  - apply evl_new_held.
  - intros md t l l' E. by apply evl_lock_takes, Hl.
  - intros md t l l' t' md' E. by apply evl_lock_excludes with (l' := l') (t := t), Hl.
  - apply evl_unlock_drops.
  - intros md t l E. unfold EvlLock.lock. destruct (evl_lock_free md t l E) as [p ->]. cbn. eauto.
Qed.

(** ... but a call that fails lets its thread go on without the lock: the
    caller cannot tell, and nobody is kept out. *)
Lemma evl_lock_failure md t l r :
  evl_lock md t l = Some (r, l) -> r <> 0 ->
  EvlLock.lock md t l = Some l.
Proof. unfold EvlLock.lock. by intros ->. Qed.

(** [try_lock] does tell. *)
Lemma evl_try_lock_spec md t l :
  let '(ok, l') := EvlLock.try_lock md t l in
  if ok then evl_holds l' = {[(t, md)]} ∪ evl_holds l else l' = l.
Proof.
  unfold EvlLock.try_lock. destruct (evl_trylock md t l) as [r l'] eqn:E.
  destruct (Z.eqb_spec r 0) as [->|Hr]; [by apply evl_lock_takes, evl_trylock_lock|].
  by apply evl_trylock_error in E.
Qed.
End evl_lockable.

(** ** Threads and critical sections

    A section takes the lock in its mode, makes its accesses one by one and
    releases; an access reads and writes the shared state and what the thread
    has of its own. *)
Record critical (S R : Type) := mkCrit { cs_mode : lock_mode; cs_body : list (S -> R -> S * R) }.
Arguments mkCrit {S R}. Arguments cs_mode {S R}. Arguments cs_body {S R}.

Record thread (S R : Type) := mkTh {
  th_local : R;
  th_inside : option (critical S R);
  th_todo : list (critical S R)
}.
Arguments mkTh {S R}. Arguments th_local {S R}. Arguments th_inside {S R}. Arguments th_todo {S R}.

Record config (L S R : Type) := mkCfg { c_lock : L; c_store : S; c_threads : list (thread S R) }.
Arguments mkCfg {L S R}. Arguments c_lock {L S R}. Arguments c_store {L S R}. Arguments c_threads {L S R}.

Section machine.
Context {L S R : Type} `{LockSpec L}.
Abbreviation critical := (critical S R).
Abbreviation thread := (thread S R).
Abbreviation config := (config L S R).

(** A step is labelled with the section that it begins. *)
Inductive step : config -> list (nat * critical) -> config -> Prop :=
| step_lock t r c cs l l' s ths :
    ths !! t = Some (mkTh r None (c :: cs)) ->
    lock (cs_mode c) t l = Some l' ->
    step (mkCfg l s ths) [(t, c)] (mkCfg l' s (<[t := mkTh r (Some c) cs]> ths))
| step_access t r md f body cs l s s' r' ths :
    ths !! t = Some (mkTh r (Some (mkCrit md (f :: body))) cs) ->
    f s r = (s', r') ->
    step (mkCfg l s ths) [] (mkCfg l s' (<[t := mkTh r' (Some (mkCrit md body)) cs]> ths))
| step_unlock t r md cs l s ths :
    ths !! t = Some (mkTh r (Some (mkCrit md [])) cs) ->
    step (mkCfg l s ths) [] (mkCfg (unlock md t l) s (<[t := mkTh r None cs]> ths)).

(** [n] steps, and the sections in the order in which they began. *)
Inductive run : nat -> config -> list (nat * critical) -> config -> Prop :=
| run_none x : run 0 x [] x
| run_step n x log y ev z : run n x log y -> step y ev z -> run (1 + n) x (log ++ ev) z.

(** The same sections, each without interruption. *)
Fixpoint run_body (body : list (S -> R -> S * R)) (s : S) (r : R) : S * R :=
  match body with
  | [] => (s, r)
  | f :: body => let '(s, r) := f s r in run_body body s r
  end.

Definition serial_step (x : S * list R) (e : nat * critical) : S * list R :=
  match x.2 !! e.1 with
  | Some r => let '(s, r) := run_body (cs_body e.2) x.1 r in (s, <[e.1 := r]> x.2)
  | None => x
  end.

Definition serial (log : list (nat * critical)) (s : S) (rs : list R) : S * list R :=
  foldl serial_step (s, rs) log.

Definition initial (s : S) (rs : list R) (progs : list (list critical)) : config :=
  mkCfg unlocked s (zip_with (fun r cs => mkTh r None cs) rs progs).

Definition finished (x : config) : Prop :=
  Forall (fun th => th_inside th = None /\ th_todo th = []) (c_threads x).

(** The sections of one thread. *)
Definition of_thread {A} (t : nat) (log : list (nat * A)) : list A :=
  (List.filter (fun e => e.1 =? t)%nat log).*2.

(** A section under a shared lock only reads. *)
Definition reads_only (c : critical) : Prop :=
  cs_mode c = Shared -> Forall (fun f => forall s r, (f s r).1 = s) (cs_body c).

Definition th_body (th : thread) : list (S -> R -> S * R) :=
  match th_inside th with Some c => cs_body c | None => [] end.

Definition th_wf (th : thread) : Prop :=
  (forall c, th_inside th = Some c -> reads_only c) /\ Forall reads_only (th_todo th).

(** The configuration [x] is on its way to the serial outcome [y]: each thread
    will end its section with what it has there, and each section that is open
    leaves the shared state that is there. *)
Record on_the_way (y : S * list R) (x : config) : Prop := {
  way_held t md : (t, md) ∈ holds (c_lock x) <->
    exists th c, c_threads x !! t = Some th /\ th_inside th = Some c /\ cs_mode c = md;
  way_exclusive t md t' md' :
    (t, md) ∈ holds (c_lock x) -> (t', md') ∈ holds (c_lock x) -> t <> t' -> md = Shared /\ md' = Shared;
  way_length : length y.2 = length (c_threads x);
  way_local t th : c_threads x !! t = Some th ->
    y.2 !! t = Some (run_body (th_body th) (c_store x) (th_local th)).2;
  way_store t th c : c_threads x !! t = Some th -> th_inside th = Some c ->
    (run_body (cs_body c) (c_store x) (th_local th)).1 = y.1;
  way_idle : holds (c_lock x) = ∅ -> c_store x = y.1;
  way_wf : Forall th_wf (c_threads x)
}.

Lemma run_body_reads (body : list (S -> R -> S * R)) s r :
  Forall (fun f => forall s r, (f s r).1 = s) body -> (run_body body s r).1 = s.
Proof.
  intros Hb. revert s r. induction Hb as [|f body Hf _ IH]; intros s r; [done|]. cbn.
  specialize (Hf s r). destruct (f s r) as [s' r']. cbn in Hf. subst. apply IH.
Qed.

(** Nobody changes the shared state while no writer is inside. *)
Lemma way_readers y x :
  on_the_way y x -> (forall t md, (t, md) ∈ holds (c_lock x) -> md = Shared) -> c_store x = y.1.
Proof.
  intros Hw Hs. destruct (set_choose_or_empty (holds (c_lock x))) as [[[t md] Hin]|He].
  - pose proof (Hs t md Hin) as ->. apply (way_held _ _ Hw) in Hin as (th&c&Ht&Hc&Hm).
    rewrite <- (way_store _ _ Hw t th c Ht Hc). symmetry. apply run_body_reads.
    pose proof (way_wf _ _ Hw) as Hwf. rewrite Forall_lookup in Hwf.
    by apply (Hwf t th Ht).
  - apply (way_idle _ _ Hw). by apply leibniz_equiv.
Qed.

Lemma outside_not_held y x t th md :
  on_the_way y x -> c_threads x !! t = Some th -> th_inside th = None -> (t, md) ∉ holds (c_lock x).
Proof. intros Hw Ht Hn Hin. apply (way_held _ _ Hw) in Hin as (?&?&?&?&?). naive_solver. Qed.

Ltac at_thread t t' :=
  destruct (decide (t = t')) as [<-|];
  [rewrite list_lookup_insert_eq by (eapply lookup_lt_Some; eassumption)
  |rewrite list_lookup_insert_ne by done].

Lemma lock_on_the_way y t r c cs l l' s ths :
  on_the_way y (mkCfg l s ths) -> ths !! t = Some (mkTh r None (c :: cs)) ->
  lock (cs_mode c) t l = Some l' ->
  on_the_way (serial_step y (t, c)) (mkCfg l' s (<[t := mkTh r (Some c) cs]> ths)).
Proof.
  intros Hw Ht Hl.
  pose proof (lock_takes _ _ _ _ Hl) as Hh.
  assert (forall t' md', (t', md') ∈ holds l -> cs_mode c = Shared /\ md' = Shared) as Hx
    by (intros t' md'; by apply (lock_excludes _ _ _ _ _ _ Hl)).
  assert (s = y.1) as Hs.
  { apply (way_readers y _ Hw). intros t' md'. apply Hx. }
  pose proof (fun md => outside_not_held y _ t _ md Hw Ht eq_refl) as Hout. cbn in Hout.
  pose proof (way_local _ _ Hw t _ Ht) as Hr. cbn in Hr.
  destruct y as [ys yr]. cbn in Hs, Hr. subst ys. unfold serial_step. cbn [fst snd]. rewrite Hr.
  destruct (run_body (cs_body c) s r) as [s' r'] eqn:Eb.
  assert (reads_only c) as Hc.
  { pose proof (way_wf _ _ Hw) as Hwf. rewrite Forall_lookup in Hwf.
    destruct (Hwf t _ Ht) as [_ Hf]. by inversion Hf. }
  assert (cs_mode c = Shared -> s' = s) as Hss.
  { intros Hm. specialize (run_body_reads _ s r (Hc Hm)). by rewrite Eb. }
  split; cbn [c_lock c_store c_threads fst snd] in *.
  - intros t' md. rewrite Hh, elem_of_union, elem_of_singleton, (way_held _ _ Hw). cbn.
    at_thread t t'; naive_solver.
  - intros t1 m1 t2 m2. rewrite Hh, !elem_of_union, !elem_of_singleton.
    pose proof (way_exclusive _ _ Hw t1 m1 t2 m2) as Hex. cbn in Hex. naive_solver.
  - rewrite !length_insert. apply (way_length _ _ Hw).
  - intros t' th. at_thread t t'.
    + intros [= <-]. cbn. rewrite Eb. apply list_lookup_insert_eq. by eapply lookup_lt_Some.
    + rewrite list_lookup_insert_ne by done. apply (way_local _ _ Hw).
  - intros t' th c'. at_thread t t'.
    + intros [= <-] [= <-]. cbn. by rewrite Eb.
    + intros Ht' Hc'. pose proof (way_store _ _ Hw t' th c' Ht' Hc') as E. cbn in E. rewrite E.
      symmetry. apply Hss.
      apply (Hx t' (cs_mode c')). apply (way_held _ _ Hw). naive_solver.
  - rewrite Hh. set_solver.
  - apply Forall_insert; [apply Hw|]. split; cbn; [by intros ? [= <-]|].
    pose proof (way_wf _ _ Hw) as Hwf. rewrite Forall_lookup in Hwf.
    destruct (Hwf t _ Ht) as [_ Hf]. by inversion Hf.
Qed.

Lemma access_on_the_way y t r md f body cs l s s' r' ths :
  on_the_way y (mkCfg l s ths) -> ths !! t = Some (mkTh r (Some (mkCrit md (f :: body))) cs) ->
  f s r = (s', r') ->
  on_the_way y (mkCfg l s' (<[t := mkTh r' (Some (mkCrit md body)) cs]> ths)).
Proof.
  intros Hw Ht Hf.
  pose proof (way_wf _ _ Hw) as Hwf. rewrite Forall_lookup in Hwf.
  destruct (Hwf t _ Ht) as [Hc Hcs]. specialize (Hc _ eq_refl). unfold reads_only in Hc. cbn in Hc, Hcs.
  assert ((t, md) ∈ holds l) as Hin by (apply (way_held _ _ Hw); cbn; eauto).
  assert (forall t' th c, t <> t' -> ths !! t' = Some th -> th_inside th = Some c -> s' = s) as Hother.
  { intros t' th c Hne Ht' Hc'.
    assert ((t', cs_mode c) ∈ holds l) as Hin' by (apply (way_held _ _ Hw); cbn; eauto).
    destruct (way_exclusive _ _ Hw t md t' (cs_mode c) Hin Hin' Hne) as [-> _].
    specialize (Hc eq_refl). inversion Hc as [|?? Hff]. specialize (Hff s r). by rewrite Hf in Hff. }
  split; cbn [c_lock c_store c_threads fst snd] in *.
  - intros t' m. rewrite (way_held _ _ Hw). cbn. at_thread t t'; [|done]. rewrite Ht. naive_solver.
  - apply (way_exclusive _ _ Hw).
  - rewrite length_insert. apply (way_length _ _ Hw).
  - intros t' th. at_thread t t'.
    + intros [= <-]. rewrite (way_local _ _ Hw t _ Ht). cbn. by rewrite Hf.
    + intros Ht'. rewrite (way_local _ _ Hw t' th Ht'). unfold th_body. cbn.
      destruct (th_inside th) eqn:E; [|done]. by rewrite (Hother t' th _ ltac:(done) Ht' E).
  - intros t' th c'. at_thread t t'.
    + intros [= <-] [= <-]. rewrite <- (way_store _ _ Hw t _ _ Ht eq_refl). cbn. by rewrite Hf.
    + intros Ht' Hc'. rewrite (Hother t' th c' ltac:(done) Ht' Hc'). apply (way_store _ _ Hw t' th c' Ht' Hc').
  - set_solver.
  - apply Forall_insert; [apply Hw|]. split; cbn; [|done]. intros ? [= <-] Hm.
    specialize (Hc Hm). by inversion Hc.
Qed.

Lemma unlock_on_the_way y t r md cs l s ths :
  on_the_way y (mkCfg l s ths) -> ths !! t = Some (mkTh r (Some (mkCrit md [])) cs) ->
  on_the_way y (mkCfg (unlock md t l) s (<[t := mkTh r None cs]> ths)).
Proof.
  intros Hw Ht.
  assert ((t, md) ∈ holds l) as Hin by (apply (way_held _ _ Hw); cbn; eauto).
  pose proof (unlock_drops _ _ _ Hin) as Hh.
  split; cbn [c_lock c_store c_threads fst snd] in *.
  - intros t' m. rewrite Hh, elem_of_difference, elem_of_singleton, (way_held _ _ Hw). cbn.
    at_thread t t'; [rewrite Ht|]; naive_solver.
  - intros t1 m1 t2 m2. rewrite Hh. intros ??. apply (way_exclusive _ _ Hw); set_solver.
  - rewrite length_insert. apply (way_length _ _ Hw).
  - intros t' th. at_thread t t'; [|apply (way_local _ _ Hw)].
    intros [= <-]. by rewrite (way_local _ _ Hw t _ Ht).
  - intros t' th c'. at_thread t t'; [by intros [= <-]|apply (way_store _ _ Hw)].
  - intros _. apply (way_store _ _ Hw t _ _ Ht eq_refl).
  - pose proof (way_wf _ _ Hw) as Hwf. rewrite Forall_lookup in Hwf.
    apply Forall_insert; [apply Hw|]. split; cbn; [done|]. by apply (Hwf t _ Ht).
Qed.

Lemma run_on_the_way n x log z s rs :
  run n x log z -> on_the_way (s, rs) x -> on_the_way (serial log s rs) z.
Proof.
  intros Hr Hx. induction Hr as [x|n x log y ev z Hr IH Hs]; [done|].
  specialize (IH Hx). unfold serial. rewrite foldl_app. fold (serial log s rs).
  destruct Hs; cbn [foldl].
  - by eapply lock_on_the_way.
  - by eapply access_on_the_way.
  - by eapply unlock_on_the_way.
Qed.

Lemma initial_on_the_way s rs progs :
  length rs = length progs -> Forall (Forall reads_only) progs ->
  on_the_way (s, rs) (initial s rs progs).
Proof.
  intros Hlen Hp.
  assert (forall t th, zip_with (fun r cs => mkTh r None cs) rs progs !! t = Some th ->
    exists r cs, th = mkTh r None cs /\ rs !! t = Some r /\ progs !! t = Some cs) as Hth.
  { intros t th Ht. apply lookup_zip_with_Some in Ht as (r&cs&->&?&?). eauto. }
  split; unfold initial; cbn [c_lock c_store c_threads fst snd].
  - intros t md. rewrite unlocked_held. split; [set_solver|].
    intros (th&c&Ht&Hc&_). apply Hth in Ht as (?&?&->&_). done.
  - intros t md t' md'. rewrite unlocked_held. set_solver.
  - rewrite length_zip_with. lia.
  - intros t th Ht. by apply Hth in Ht as (?&?&->&?&_).
  - intros t th c Ht Hc. by apply Hth in Ht as (?&?&->&?&_).
  - done.
  - apply Forall_lookup. intros t th Ht. apply Hth in Ht as (r&cs&->&_&Hcs).
    split; cbn; [done|]. rewrite Forall_lookup in Hp. by apply (Hp t).
Qed.

(** The sections a thread has begun, and those it has yet to begin, are its
    program. *)
Lemma of_thread_app {A} t (l k : list (nat * A)) : of_thread t (l ++ k) = of_thread t l ++ of_thread t k.
Proof. unfold of_thread. by rewrite List.filter_app, fmap_app. Qed.

Lemma of_thread_one {A} t t' (c : A) : of_thread t [(t', c)] = if decide (t' = t) then [c] else [].
Proof.
  unfold of_thread. cbn. destruct (Nat.eqb_spec t' t) as [->|];
  [by rewrite decide_True|by rewrite decide_False].
Qed.

Lemma step_program x ev z t :
  step x ev z ->
  th_todo <$> c_threads x !! t = (fun th => of_thread t ev ++ th_todo th) <$> c_threads z !! t.
Proof.
  destruct 1 as [t' r c cs l l' s ths E _|t' r md f body cs l s s' r' ths E _|t' r md cs l s ths E]; cbn [c_threads]; try rewrite of_thread_one;
  (destruct (decide (t' = t)) as [->|];
  [rewrite list_lookup_insert_eq by (by eapply lookup_lt_Some); by rewrite E
  |by rewrite list_lookup_insert_ne by done]).
Qed.

Lemma run_program n x log z t :
  run n x log z ->
  th_todo <$> c_threads x !! t = (fun th => of_thread t log ++ th_todo th) <$> c_threads z !! t.
Proof.
  induction 1 as [x|n x log y ev z _ IH Hs]; [done|]. rewrite IH.
  pose proof (step_program _ _ _ t Hs) as E.
  destruct (c_threads y !! t) as [th|], (c_threads z !! t) as [th'|]; cbn in *; simplify_eq; [|done].
  rewrite of_thread_app, <- app_assoc. congruence.
Qed.

Lemma run_threads n x log z : run n x log z -> length (c_threads z) = length (c_threads x).
Proof.
  induction 1 as [|n x log y ev z _ IH Hs]; [done|]. rewrite <- IH. destruct Hs; cbn; by rewrite length_insert.
Qed.

(** Each step is one of the work there is to do. *)
Definition th_work (th : thread) : nat :=
  (match th_inside th with Some c => 1 + length (cs_body c) | None => 0 end +
   sum_list_with (fun c => 2 + length (cs_body c)) (th_todo th))%nat.

Definition work (x : config) : nat := sum_list_with th_work (c_threads x).

Lemma sum_list_insert {A} (f : A -> nat) l i x y :
  l !! i = Some x -> f x = (1 + f y)%nat ->
  sum_list_with f l = (1 + sum_list_with f (<[i := y]> l))%nat.
Proof.
  revert i. induction l as [|a l IH]; intros [|i] Hi Hf; simplify_eq/=; [lia|].
  rewrite (IH i Hi Hf). lia.
Qed.

Lemma step_work x ev z : step x ev z -> work x = (1 + work z)%nat.
Proof.
  destruct 1 as [t r c cs l l' s ths Ht _|t r md f body cs l s s' r' ths Ht _|t r md cs l s ths Ht];
  unfold work; cbn [c_threads]; (eapply sum_list_insert; [done|]); unfold th_work; cbn; lia.
Qed.

Lemma run_work n x log z : run n x log z -> (n + work z = work x)%nat.
Proof.
  induction 1 as [x|n x log y ev z _ IH Hs]; [done|]. apply step_work in Hs. lia.
Qed.

(** Whoever is inside can go on; if nobody is, whoever waits can enter. *)
Lemma way_progress y x : on_the_way y x -> finished x \/ exists ev z, step x ev z.
Proof.
  intros Hw. destruct x as [l s ths].
  destruct (set_choose_or_empty (holds l)) as [[[t md] Hin]|He].
  { right. apply (way_held _ _ Hw) in Hin as (th&c&Ht&Hc&Hm). cbn in Ht.
    destruct th as [r i cs]. cbn in Hc. subst i. destruct c as [md' [|f body]].
    - eexists _, _. by apply (step_unlock t r md' cs l s ths).
    - destruct (f s r) as [s' r'] eqn:E. eexists _, _. by eapply (step_access t r md' f body cs l s). }
  apply leibniz_equiv in He.
  assert (forall t th, ths !! t = Some th -> th_inside th = None) as Hout.
  { intros t th Ht. destruct (th_inside th) as [c|] eqn:E; [|done].
    assert ((t, cs_mode c) ∈ holds l) by (apply (way_held _ _ Hw); eauto). set_solver. }
  destruct (decide (Forall (fun th => th_todo th = []) ths)) as [Hd|Hd].
  - left. apply Forall_lookup. intros t th Ht. rewrite Forall_lookup in Hd. eauto.
  - right. apply not_Forall_Exists in Hd; [|apply _]. apply Exists_exists in Hd as (th&Hth&Hne).
    apply list_elem_of_In, list_elem_of_lookup in Hth as [t Ht]. pose proof (Hout t th Ht) as Hi.
    destruct th as [r i [|c cs]]; [by destruct Hne|]. cbn in Hi. subst i.
    destruct (lock_free (cs_mode c) t l He) as [l' El].
    eexists _, _. by eapply (step_lock t r c cs l l' s ths).
Qed.

(** The step of thread [t], and the steps a schedule lets the threads make. *)
Definition thread_step (t : nat) (x : config) : option (list (nat * critical) * config) :=
  match c_threads x !! t with
  | Some (mkTh r None (c :: cs)) =>
      match lock (cs_mode c) t (c_lock x) with
      | Some l => Some ([(t, c)], mkCfg l (c_store x) (<[t := mkTh r (Some c) cs]> (c_threads x)))
      | None => None
      end
  | Some (mkTh r (Some (mkCrit md (f :: body))) cs) =>
      let '(s, r) := f (c_store x) r in
      Some ([], mkCfg (c_lock x) s (<[t := mkTh r (Some (mkCrit md body)) cs]> (c_threads x)))
  | Some (mkTh r (Some (mkCrit md [])) cs) =>
      Some ([], mkCfg (unlock md t (c_lock x)) (c_store x) (<[t := mkTh r None cs]> (c_threads x)))
  | _ => None
  end.

Fixpoint run_schedule (ts : list nat) (log : list (nat * critical)) (x : config)
    : option (list (nat * critical) * config) :=
  match ts with
  | [] => Some (log, x)
  | t :: ts =>
      match thread_step t x with
      | Some (ev, y) => run_schedule ts (log ++ ev) y
      | None => None
      end
  end.

Lemma thread_step_step t x ev y : thread_step t x = Some (ev, y) -> step x ev y.
Proof.
  destruct x as [l s ths]. unfold thread_step. cbn.
  destruct (ths !! t) as [[r [[md [|f body]]|] cs]|] eqn:Ht; [| | |done].
  - intros [= <- <-]. by apply step_unlock.
  - destruct (f s r) as [s' r'] eqn:E. intros [= <- <-]. by eapply step_access.
  - destruct cs as [|c cs]; [done|]. destruct (lock _ _ _) as [l'|] eqn:El; [|done].
    intros [= <- <-]. by eapply step_lock.
Qed.

Lemma run_schedule_run n x log y ts log' z :
  run n x log y -> run_schedule ts log y = Some (log', z) -> run (n + length ts) x log' z.
Proof.
  revert n log y. induction ts as [|t ts IH]; intros n log y Hr; cbn.
  - intros [= <- <-]. by rewrite Nat.add_0_r.
  - destruct (thread_step t y) as [[ev y']|] eqn:Es; [|done]. intros Ez.
    rewrite Nat.add_succ_r. apply (IH (Datatypes.S n) (log ++ ev) y'); [|done].
    apply thread_step_step in Es. by apply (run_step n x log y ev y').
Qed.

Lemma schedule_runs ts x :
  bool_decide (is_Some (run_schedule ts [] x)) = true ->
  run (length ts) x (from_option fst [] (run_schedule ts [] x)) (from_option snd x (run_schedule ts [] x)).
Proof.
  intros Hs. apply bool_decide_eq_true in Hs as [[log z] E]. rewrite E. cbn.
  apply (run_schedule_run 0 x [] x ts log z); [constructor|done].
Qed.

Lemma run_serial n s rs progs log z :
  length rs = length progs -> Forall (Forall reads_only) progs ->
  run n (initial s rs progs) log z ->
  (finished z \/ exists ev z', step z ev z') /\
  (n + work z = work (initial s rs progs))%nat /\
  (finished z ->
     serial log s rs = (c_store z, th_local <$> c_threads z) /\
     forall t cs, progs !! t = Some cs -> of_thread t log = cs).
Proof.
  intros Hlen Hp Hr.
  pose proof (run_on_the_way _ _ _ _ _ _ Hr (initial_on_the_way s rs progs Hlen Hp)) as Hw.
  split; [by eapply way_progress|]. split; [by eapply run_work|]. intros Hf.
  unfold finished in Hf. rewrite Forall_lookup in Hf. split.
  - assert (forall t th, c_threads z !! t = Some th -> th_inside th = None) as Hout by (intros; by eapply Hf).
    rewrite (surjective_pairing (serial log s rs)). f_equal.
    + symmetry. apply (way_idle _ _ Hw). apply set_eq. intros [t md]. rewrite (way_held _ _ Hw).
      split; [|by rewrite elem_of_empty]. intros (th&c&Ht&Hc&_). by rewrite (Hout t th Ht) in Hc.
    + apply (list_eq_same_length _ _ (length (c_threads z))); [by rewrite length_fmap|apply (way_length _ _ Hw)|].
      intros t r r' _. rewrite list_lookup_fmap. intros Hr1 Hr2.
      destruct (c_threads z !! t) as [th|] eqn:Ht; [|done].
      pose proof (way_local _ _ Hw t th Ht) as E. unfold th_body in E. rewrite (Hout t th Ht) in E. cbn in *. congruence.
  - intros t cs Ht. pose proof (run_program _ _ _ _ t Hr) as E. unfold initial in E. cbn [c_threads] in E.
    destruct (lookup_lt_is_Some_2 rs t) as [r Hrt]; [rewrite Hlen; by eapply lookup_lt_Some|].
    rewrite lookup_zip_with, Hrt in E. cbn in E. rewrite Ht in E. cbn in E.
    destruct (c_threads z !! t) as [th|] eqn:Hth; simplify_eq/=.
    destruct (Hf t th Hth) as [_ ->]. by rewrite app_nil_r.
Qed.
End machine.

(** ** Calls under a lock

    The calls [K] of an object with the state [S] answer in [A]; a section
    implements a call if it has that effect when it is alone, however it splits
    the accesses.  The thread's own data are its answers so far and whatever
    else it uses. *)
Class LockedCalls (K S A : Type) := {
  call_mode : K -> lock_mode;
  call_run : K -> state S A
}.

Section calls.
Context {L K S A W : Type} `{LockSpec L} `{LockedCalls K S A}.
Abbreviation section := (critical S (list A * W)).

Definition implements (c : section) (k : K) : Prop :=
  cs_mode c = call_mode k /\ reads_only c /\
  forall s answers w, exists w',
    run_body (cs_body c) s (answers, w) =
    ((call_run k s).2, (answers ++ [(call_run k s).1], w')).

(** The calls one after the other. *)
Fixpoint replay (order : list (nat * K)) (s : S) : list (nat * A) * S :=
  match order with
  | [] => ([], s)
  | (t, k) :: order =>
      let '(a, s) := call_run k s in
      let '(answers, s) := replay order s in ((t, a) :: answers, s)
  end.

Definition same_call (e : nat * section) (o : nat * K) : Prop :=
  e.1 = o.1 /\ implements e.2 o.2.

Lemma serial_replay log order s rs :
  Forall2 same_call log order -> Forall (fun e => (e.1 < length rs)%nat) log ->
  (serial log s rs).1 = (replay order s).2 /\
  forall t answers w, rs !! t = Some (answers, w) -> exists w',
    (serial log s rs).2 !! t = Some (answers ++ of_thread t (replay order s).1, w').
Proof.
  intros Ho. revert s rs. induction Ho as [|[t c] [t' k] log order [Et Hk] Ho IH]; intros s rs Hb.
  { split; [done|]. intros t answers w Ht. exists w. cbn. by rewrite app_nil_r. }
  cbn in Et, Hk. subst t'. inversion Hb as [|?? Ht Hb']; subst. cbn in Ht.
  destruct (lookup_lt_is_Some_2 rs t Ht) as [[answers w] Hr].
  destruct Hk as (_&_&Hrun). destruct (Hrun s answers w) as [w' E].
  unfold serial. cbn [foldl]. unfold serial_step at 2 4. cbn [fst snd]. rewrite Hr, E. cbn [replay].
  destruct (call_run k s) as [a s']. cbn [fst snd].
  fold (serial log s' (<[t := (answers ++ [a], w')]> rs)).
  destruct (IH s' (<[t := (answers ++ [a], w')]> rs)) as [E1 E2].
  { by rewrite length_insert. }
  destruct (replay order s') as [as' s2] eqn:Er. cbn [fst snd] in *. split; [done|].
  intros u answers' w2 Hu. destruct (decide (t = u)) as [<-|Hne].
  - rewrite Hr in Hu. injection Hu as <- <-.
    destruct (E2 t (answers ++ [a]) w') as [w3 E3]; [by apply list_lookup_insert_eq|].
    exists w3. change ((t, a) :: as') with ([(t, a)] ++ as').
    by rewrite of_thread_app, of_thread_one, decide_True, app_assoc by done.
  - destruct (E2 u answers' w2) as [w3 E3]; [by rewrite list_lookup_insert_ne|].
    exists w3. change ((t, a) :: as') with ([(t, a)] ++ as').
    by rewrite of_thread_app, of_thread_one, decide_False.
Qed.

Lemma run_calls n x log z (calls : list (list K)) :
  run n x log z -> Forall2 (fun th ks => Forall2 implements (th_todo th) ks) (c_threads x) calls ->
  Forall (fun e => (e.1 < length calls)%nat) log /\
  exists order rest, Forall2 same_call log order /\
    Forall2 (fun th ks => Forall2 implements (th_todo th) ks) (c_threads z) rest /\
    forall t ks, calls !! t = Some ks -> exists ks', rest !! t = Some ks' /\ ks = of_thread t order ++ ks'.
Proof.
  intros Hr Hx. induction Hr as [x|n x log y ev z Hr IH Hs].
  { split; [constructor|]. exists [], calls. split; [constructor|]. split; [done|]. intros t ks. eauto. }
  destruct (IH Hx) as (Hb&order&rest&Ho&Hy&Hprog).
  assert (length calls = length rest) as Hlen.
  { apply Forall2_length in Hy. rewrite <- Hy. apply Forall2_length in Hx. rewrite <- Hx.
    symmetry. by eapply run_threads. }
  destruct Hs as [t r c cs l l' s ths Ht _|t r md f body cs l s s' r' ths Ht _|t r md cs l s ths Ht];
  cbn [c_threads] in *.
  - destruct (Forall2_lookup_l _ _ _ _ _ Hy Ht) as (ks&Hks&Hk). cbn in Hk.
    inversion Hk as [|? k ? ks' Hck Hcs]; subst.
    assert (t < length calls)%nat by (rewrite Hlen; by eapply lookup_lt_Some).
    split; [apply Forall_app; split; [done|]; by constructor|].
    exists (order ++ [(t, k)]), (<[t := ks']> rest).
    split; [apply Forall2_app; [done|]; by constructor|].
    split; [by apply Forall2_insert|].
    intros u kk Hu. destruct (Hprog u kk Hu) as (ku&Hku&->).
    rewrite of_thread_app, of_thread_one. destruct (decide (t = u)) as [<-|].
    + rewrite Hks in Hku. injection Hku as <-. exists ks'.
      rewrite list_lookup_insert_eq by (by rewrite <- Hlen). by rewrite <- app_assoc.
    + exists ku. by rewrite list_lookup_insert_ne, app_nil_r.
  - rewrite app_nil_r. split; [done|]. exists order, rest. split; [done|]. split; [|done].
    destruct (Forall2_lookup_l _ _ _ _ _ Hy Ht) as (ks&Hks&Hk).
    rewrite <- (list_insert_id rest t ks) by done. by apply Forall2_insert.
  - rewrite app_nil_r. split; [done|]. exists order, rest. split; [done|]. split; [|done].
    destruct (Forall2_lookup_l _ _ _ _ _ Hy Ht) as (ks&Hks&Hk).
    rewrite <- (list_insert_id rest t ks) by done. by apply Forall2_insert.
Qed.

Lemma length_serial (log : list (nat * section)) (s : S) rs : length (serial log s rs).2 = length rs.
Proof.
  unfold serial. revert s rs. induction log as [|[t c] log IH]; intros s rs; [done|]. cbn [foldl].
  unfold serial_step at 2. cbn [fst snd]. destruct (rs !! t) as [r|]; [|apply IH].
  destruct (run_body _ _ _) as [s' r']. by rewrite IH, length_insert.
Qed.

(** Every run of calls under one lock can go on until it is finished, within a
    bounded number of steps; then the calls took effect one after the other,
    each thread's in its order, and each got the answer it gets there. *)
Lemma calls_serial n s ws progs calls log z :
  length ws = length progs -> Forall2 (Forall2 implements) progs calls ->
  let x := initial s (map (fun w => ([], w)) ws) progs in
  run n x log z ->
  (finished z \/ exists ev z', step z ev z') /\ (n + work z = work x)%nat /\
  (finished z -> exists order,
     (forall t ks, calls !! t = Some ks -> of_thread t order = ks) /\
     Forall (fun o => (o.1 < length calls)%nat) order /\
     c_store z = (replay order s).2 /\
     forall t th, c_threads z !! t = Some th -> (th_local th).1 = of_thread t (replay order s).1).
Proof.
  intros Hlen Hp x Hr.
  assert (Forall (Forall reads_only) progs) as Hro.
  { eapply Forall2_Forall_l; [done|]. apply Forall_forall. intros ks _ cs Hcs.
    eapply Forall2_Forall_l; [done|]. apply Forall_forall. intros k _ c Hc. apply Hc. }
  destruct (run_serial n s (map (fun w => ([], w)) ws) progs log z) as (Hprog&Hw&Hf);
    [by rewrite length_map|done..|].
  split; [done|]. split; [done|]. intros Hz. destruct (Hf Hz) as [E _].
  destruct (run_calls n x log z calls Hr) as (Hb&order&rest&Ho&Hrest&Hcalls).
  { unfold x, initial. cbn. apply Forall2_same_length_lookup. split.
    - rewrite length_zip_with, length_map. apply Forall2_length in Hp. lia.
    - intros t th ks Ht Hk. apply lookup_zip_with_Some in Ht as (r&cs&->&_&Hcs).
      by apply (Forall2_lookup_lr _ _ _ _ _ _ Hp Hcs Hk). }
  assert (length calls = length ws) as Hl by (apply Forall2_length in Hp; lia).
  destruct (serial_replay log order s (map (fun w => ([], w)) ws) Ho) as [E1 E2].
  { by rewrite length_map, <- Hl. }
  rewrite E in E1, E2. cbn in E1, E2. exists order. split_and!.
  - intros t ks Hk. destruct (Hcalls t ks Hk) as (ks'&Hk'&->).
    destruct (Forall2_lookup_r _ _ _ _ _ Hrest Hk') as (th&Hth&Hi).
    unfold finished in Hz. rewrite Forall_lookup in Hz. destruct (Hz t th Hth) as [_ Ht].
    rewrite Ht in Hi. inversion Hi. by rewrite app_nil_r.
  - eapply Forall2_Forall_r; [exact Ho|]. eapply Forall_impl; [|exact Hb].
    intros e He o [Eo _]. by rewrite <- Eo.
  - done.
  - intros t th Hth.
    assert (t < length ws)%nat as Ht.
    { pose proof (length_serial log s (map (fun w => ([], w)) ws)) as El.
      rewrite E, length_map in El. cbn in El. rewrite length_fmap in El. rewrite <- El. by eapply lookup_lt_Some. }
    destruct (lookup_lt_is_Some_2 ws t Ht) as [w Hws].
    destruct (E2 t [] w) as [w' E3]; [by rewrite list_lookup_fmap, Hws|].
    rewrite list_lookup_fmap, Hth in E3. cbn in E3. by injection E3 as ->.
Qed.
(** The section a thread is inside is the last that it began. *)
Lemma run_inside n (x : config L S (list A * W)) log z :
  run n x log z -> Forall (fun th => th_inside th = None) (c_threads x) ->
  forall t th c, c_threads z !! t = Some th -> th_inside th = Some c ->
    exists pre c0, of_thread t log = pre ++ [c0] /\ cs_mode c0 = cs_mode c.
Proof.
  intros Hr Hx. rewrite Forall_lookup in Hx.
  induction Hr as [x|n x log y ev z Hr IH Hs]; intros t th c Ht Hc.
  { specialize (Hx t th Ht). congruence. }
  specialize (IH Hx). rewrite of_thread_app.
  destruct Hs as [t' r c' cs l l' s ths E _|t' r md f body cs l s s' r' ths E _|t' r md cs l s ths E];
  cbn [c_threads] in *; try rewrite of_thread_one;
  (destruct (decide (t' = t)) as [->|];
   [rewrite list_lookup_insert_eq in Ht by (by eapply lookup_lt_Some); injection Ht as <-; cbn in Hc
   |rewrite list_lookup_insert_ne in Ht by done]); simplify_eq; rewrite ?app_nil_r; eauto.
  destruct (IH t _ _ E eq_refl) as (pre&c0&?&?). eauto.
Qed.

(** The call that a thread has begun and not yet returned from. *)
Definition inside (sect : K -> section) (calls : list (list K)) (x : config L S (list A * W))
    (t : nat) (k : K) : Prop :=
  exists th c before after, c_threads x !! t = Some th /\ th_inside th = Some c /\
    calls !! t = Some (before ++ k :: after) /\ th_todo th = map sect after.

(** Nobody is inside beside a call that excludes others. *)
Lemma run_excludes n (s : S) (ws : list W) (sect : K -> section) (calls : list (list K)) log z :
  length ws = length calls -> (forall k, implements (sect k) k) ->
  run n (initial s (map (fun w => ([], w)) ws) (map (map sect) calls)) log z ->
  forall t t' k k', t <> t' -> inside sect calls z t k -> inside sect calls z t' k' ->
    call_mode k = Shared /\ call_mode k' = Shared.
Proof.
  intros Hlen Hi Hr.
  assert (Forall (Forall reads_only) (map (map sect) calls)) as Hp.
  { apply Forall_forall. intros cs Hcs. apply in_map_iff in Hcs as (ks&<-&_).
    apply Forall_forall. intros c Hc. apply in_map_iff in Hc as (k&<-&_). apply Hi. }
  set (rs := map (fun w => ([] : list A, w)) ws) in Hr.
  assert (length rs = length (map (map sect) calls)) as Hl by (unfold rs; by rewrite !length_map).
  pose proof (run_on_the_way _ _ _ _ _ _ Hr (initial_on_the_way s rs _ Hl Hp)) as Hw. unfold rs in Hr.
  assert (forall t k, inside sect calls z t k -> (t, call_mode k) ∈ holds (c_lock z)) as Hin.
  { intros t k (th&c&before&after&Ht&Hc&Hk&Htodo). apply (way_held _ _ Hw). exists th, c. split; [done|].
    split; [done|]. destruct (run_inside _ _ _ _ Hr) with (t := t) (th := th) (c := c) as (pre&c0&Hlog&<-); [|done..|].
    { apply Forall_lookup. intros u thu Hu. unfold initial in Hu. cbn in Hu.
      by apply lookup_zip_with_Some in Hu as (?&?&->&_). }
    pose proof (run_program _ _ _ _ t Hr) as E. unfold initial in E. cbn [c_threads] in E.
    destruct (lookup_lt_is_Some_2 ws t) as [w Hwt]; [rewrite Hlen; by eapply lookup_lt_Some|].
    rewrite lookup_zip_with, !list_lookup_fmap, Hwt, Hk, Ht in E. cbn in E. injection E as E.
    rewrite Htodo, Hlog in E. change (map sect) with (fmap (M := list) sect) in E.
    rewrite fmap_app in E. cbn in E. rewrite <- app_assoc in E.
    apply app_inj_2 in E as [_ E]; [|done]. injection E as <-. apply Hi. }
  intros t t' k k' Hne Hk Hk'. by apply (way_exclusive _ _ Hw t (call_mode k) t' (call_mode k')); [apply Hin..|].
Qed.

(** The same of threads whose sections are given by their calls. *)
Lemma call_sections_serial n s ws (sect : K -> section) (calls : list (list K)) log z :
  length ws = length calls -> (forall k, implements (sect k) k) ->
  let x := initial s (map (fun w => ([], w)) ws) (map (map sect) calls) in
  run n x log z ->
  (finished z \/ exists ev z', step z ev z') /\ (n + work z = work x)%nat /\
  (forall t t' k k', t <> t' -> inside sect calls z t k -> inside sect calls z t' k' ->
     call_mode k = Shared /\ call_mode k' = Shared) /\
  (finished z -> exists order,
     (forall t ks, calls !! t = Some ks -> of_thread t order = ks) /\
     Forall (fun o => (o.1 < length calls)%nat) order /\
     c_store z = (replay order s).2 /\
     forall t th, c_threads z !! t = Some th -> (th_local th).1 = of_thread t (replay order s).1).
Proof.
  intros Hlen Hi x Hr.
  assert (Forall2 (Forall2 implements) (map (map sect) calls) calls) as Hall.
  { apply Forall2_fmap_l, Forall_Forall2_diag, Forall_forall. intros ks _.
    apply Forall2_fmap_l, Forall_Forall2_diag, Forall_forall. intros k _. apply Hi. }
  assert (length ws = length (map (map sect) calls)) as Hl by by rewrite length_map.
  destruct (calls_serial n s ws _ calls log z Hl Hall Hr) as (Hp&Hw&Hf).
  split_and!; [done..| |done]. by eapply run_excludes.
Qed.
End calls.

(** ** The registry of tcp_router.cpp

    [add], [remove] and [remove_all] hold a [std::unique_lock], [find] a
    [std::shared_lock] of the [std::shared_mutex].  Alone they are the
    operations of RouterCore.v, so this is what allows a model of the daemon to
    treat one call as one step -- one call, not the several calls with which a
    connection handles a frame (TcpThreads.v interleaves those). *)
Module Registry.
Section registry.
Context {E X : Type} `{RouteEntry E}.
Abbreviation Router := (Router E X).

Inductive method := Add (m : Z) (e : E) | Remove (m : Z) | RemoveAll (c : nat) | Find (m : Z).

Inductive answer := Added (ok : bool) | Done | Found (e : option E).

Definition method_lock (k : method) : lock_mode :=
  match k with Find _ => Shared | _ => Exclusive end.

Definition method_run (k : method) : state Router answer :=
  match k with
  | Add m e => ok ← registry_add m e; mret (Added ok)
  | Remove m => _ ← registry_remove m; mret Done
  | RemoveAll c => _ ← registry_remove_all c; mret Done
  | Find m => e ← registry_find m; mret (Found e)
  end.

#[global] Instance registry_calls : LockedCalls method Router answer := {
  call_mode := method_lock; call_run := method_run
}.

(** The bodies of the methods.  Each has two accesses between which a thread
    that does not keep the others out could be interrupted: it looks for the
    node of its id ([remove_all]: the nodes whose value is [con]), and acts on
    the nodes it found. *)
Definition look (k : method) (st : Router) : list (Z * E) :=
  match k with
  | Add m _ | Remove m | Find m =>
      match r_registry st !! m with Some e => [(m, e)] | None => [] end
  | RemoveAll c =>
      List.filter (fun kv => bool_decide (route_con kv.2 = Some c)) (map_to_list (r_registry st))
  end.

Definition erase_nodes (nodes : list (Z * E)) (table : gmap Z E) : gmap Z E :=
  foldr (fun kv table => delete kv.1 table) table nodes.

Definition act (k : method) (nodes : list (Z * E)) : state Router answer :=
  match k with
  | Add m e =>
      match nodes with
      | [] => fun st => (Added true, set_registry (<[m := e]> (r_registry st)) st)
      | _ => mret (Added false)
      end
  | Remove _ | RemoveAll _ =>
      fun st => (Done, set_registry (erase_nodes nodes (r_registry st)) st)
  | Find _ => mret (Found (snd <$> head nodes))
  end.

(** The method under the lock that it takes. *)
Definition method_section (k : method) : critical Router (list answer * list (Z * E)) :=
  mkCrit (method_lock k) [
    fun st '(answers, _) => (st, (answers, look k st));
    fun st '(answers, nodes) =>
      let '(a, st) := act k nodes st in (st, (answers ++ [a], nodes))].

(** Threads that are about to call methods, the lock being free. *)
Definition registry_threads (st : Router) (methods : list (list method)) :=
  initial (L := StdLock.SharedMutex) st (map (fun w => ([], w)) (map (fun _ => []) methods))
    (map (map method_section) methods).

Lemma erase_nodes_lookup nodes table m :
  erase_nodes nodes table !! m = (if decide (m ∈ nodes.*1) then None else table !! m).
Proof.
  induction nodes as [|[m' e] nodes IH]; [cbn; by rewrite decide_False by apply not_elem_of_nil|].
  change (erase_nodes ((m', e) :: nodes) table) with (delete m' (erase_nodes nodes table)). cbn [fmap list_fmap fst].
  destruct (decide (m' = m)) as [->|Hne].
  - rewrite lookup_delete_eq, decide_True; [done|]. by left.
  - rewrite lookup_delete_ne, IH by done. apply decide_ext. rewrite elem_of_cons. naive_solver.
Qed.

Lemma erase_all c (table : gmap Z E) :
  erase_nodes (List.filter (fun kv => bool_decide (route_con kv.2 = Some c)) (map_to_list table)) table
  = filter (fun '(_, e) => route_con e <> Some c) table.
Proof.
  apply map_eq. intros m. rewrite erase_nodes_lookup, map_lookup_filter.
  destruct (table !! m) as [e|] eqn:Em; cbn; [|by destruct (decide _)].
  assert (m ∈ (List.filter (fun kv => bool_decide (route_con kv.2 = Some c)) (map_to_list table)).*1
    <-> route_con e = Some c) as Hin.
  { rewrite list_elem_of_fmap. split.
    - intros ([m' e']&->&Hin). apply list_elem_of_In, List.filter_In in Hin as [Hin Hc]. cbn in *.
      apply bool_decide_eq_true in Hc. apply list_elem_of_In, elem_of_map_to_list in Hin. congruence.
    - intros Hc. exists (m, e). split; [done|]. apply list_elem_of_In, List.filter_In.
      split; [by apply list_elem_of_In, elem_of_map_to_list|]. by apply bool_decide_eq_true. }
  destruct (decide (route_con e = Some c)).
  - rewrite decide_True by tauto. by rewrite option_guard_False by tauto.
  - rewrite decide_False by tauto. by rewrite option_guard_True by done.
Qed.

Lemma set_registry_id (st : Router) : set_registry (r_registry st) st = st.
Proof. by destruct st. Qed.

Lemma method_implements k : implements (method_section k) k.
Proof.
  split; [done|]. split.
  - destruct k; cbn; intros [=]. repeat constructor; by intros st [answers w].
  - intros st answers w. exists (look k st). cbn -[act look].
    enough (act k (look k st) st = method_run k st) as -> by by destruct (method_run k st).
    unfold method_run, registry_add, registry_remove, registry_remove_all, registry_find, modify.
    destruct k as [m e|m|c|m]; cbn -[set_registry erase_nodes]; rewrite ?bind_eq;
      try (destruct (r_registry st !! m) as [e'|] eqn:Em); try done; cbn -[set_registry].
    + by rewrite delete_id, set_registry_id.
    + by rewrite erase_all.
Qed.

Lemma replay_taken m e order (st : Router) :
  r_registry st !! m = Some e -> Forall (fun o => exists e', o.2 = Add m e') order ->
  replay order st = (map (fun o => (o.1, Added false)) order, st).
Proof.
  intros Hm Ho. induction Ho as [|[t k] order [e' Hk] _ IH]; [done|]. cbn in Hk. subst k.
  cbn -[registry_add]. unfold registry_add at 1. rewrite bind_eq. cbn. rewrite Hm. cbn. by rewrite IH.
Qed.

Lemma of_thread_map {A B} t (f : A -> B) (l : list (nat * A)) :
  of_thread t (map (fun o => (o.1, f o.2)) l) = map f (of_thread t l).
Proof.
  unfold of_thread. induction l as [|[t' a] l IH]; [done|]. cbn. destruct (t' =? t)%nat; cbn; by rewrite IH.
Qed.

(** One thread per entry, each registering the same free id. *)
Lemma replay_race m (es : list E) order (st : Router) :
  (forall t ks, map (fun e => [Add m e]) es !! t = Some ks -> of_thread t order = ks) ->
  Forall (fun o => (o.1 < length es)%nat) order -> es <> [] -> r_registry st !! m = None ->
  exists w e, es !! w = Some e /\ r_registry (replay order st).2 !! m = Some e /\
    forall t, (t < length es)%nat -> of_thread t (replay order st).1 = [Added (bool_decide (t = w))].
Proof.
  intros Hof Hb Hne Hm.
  assert (forall t e, es !! t = Some e -> of_thread t order = [Add m e]) as Hone.
  { intros t e He. apply Hof. by rewrite list_lookup_fmap, He. }
  destruct order as [|[w k] order].
  { destruct es as [|e es]; [done|]. specialize (Hone 0%nat e eq_refl). done. }
  inversion Hb as [|?? Hw Hb']; subst. cbn in Hw.
  destruct (lookup_lt_is_Some_2 es w Hw) as [e He].
  assert (of_thread w ((w, k) :: order) = k :: of_thread w order) as Ew
    by (unfold of_thread; cbn; by rewrite Nat.eqb_refl).
  pose proof (Hone w e He) as Ek. rewrite Ew in Ek. injection Ek as -> Ew'.
  assert (Forall (fun o => exists e', o.2 = Add m e') order) as Hadds.
  { apply Forall_forall. intros [t k] Hin. rewrite Forall_forall in Hb'. specialize (Hb' _ Hin). cbn in Hb'.
    destruct (lookup_lt_is_Some_2 es t Hb') as [e' He']. exists e'.
    assert (k ∈ of_thread t ((w, Add m e) :: order)) as Hk.
    { unfold of_thread. apply list_elem_of_fmap. exists (t, k). split; [done|].
      apply list_elem_of_In, List.filter_In. split; [by right|]. cbn. apply Nat.eqb_refl. }
    rewrite (Hone t e' He') in Hk. by apply list_elem_of_singleton in Hk. }
  exists w, e. split; [done|]. cbn -[registry_add of_thread]. unfold registry_add. rewrite bind_eq, Hm. cbn -[of_thread].
  set (st' := set_registry _ st).
  assert (r_registry st' !! m = Some e) as Hm' by apply lookup_insert_eq.
  rewrite (replay_taken m e order st' Hm' Hadds). cbn -[of_thread]. split; [done|].
  intros t Ht. change ((w, Added true) :: ?l) with ([(w, Added true)] ++ l).
  rewrite of_thread_app, of_thread_one.
  rewrite (of_thread_map t (fun _ => Added false)).
  destruct (decide (w = t)) as [<-|Hwt].
  - by rewrite Ew', bool_decide_true.
  - destruct (lookup_lt_is_Some_2 es t Ht) as [e' He']. pose proof (Hone t e' He') as E'.
    unfold of_thread in E'. cbn in E'. rewrite (proj2 (Nat.eqb_neq w t)) in E' by done.
    unfold of_thread. rewrite E'. by rewrite bool_decide_false.
Qed.

(** C5. Threads that call [add], [remove], [remove_all] and [find] of the
    registry of corerat-router-tcp, each under the lock that the method takes
    and interrupted between its look at the table and its change of it wherever
    the lock allows, never block each other for good and finish in a bounded
    number of steps.  While a thread is inside [add], [remove] or [remove_all]
    nobody else is inside any method: two threads can be inside [find] only.  In the end the table and every answer
    are those of the same calls made one after the other, each thread's in its
    order.  In particular, of threads that register the same free id at the
    same time exactly one is told that it succeeded, and the table has its
    connection. *)
Theorem registry_calls_serial n log z (st : Router) (methods : list (list method)) :
  run n (registry_threads st methods) log z ->
  (finished z \/ exists ev z', step z ev z') /\
  (n + work z = work (registry_threads st methods))%nat /\
  (forall t t' k k', t <> t' -> inside method_section methods z t k -> inside method_section methods z t' k' ->
     exists m m', k = Find m /\ k' = Find m') /\
  (finished z -> exists order,
     (forall t ks, methods !! t = Some ks -> of_thread t order = ks) /\
     c_store z = (replay order st).2 /\
     forall t th, c_threads z !! t = Some th -> (th_local th).1 = of_thread t (replay order st).1) /\
  (finished z -> forall m es,
     methods = map (fun e => [Add m e]) es -> es <> [] -> r_registry st !! m = None ->
     exists w e, es !! w = Some e /\ r_registry (c_store z) !! m = Some e /\
       forall t th, c_threads z !! t = Some th -> (th_local th).1 = [Added (bool_decide (t = w))]).
Proof.
  intros Hr.
  destruct (call_sections_serial n st (map (fun _ => []) methods) method_section methods log z
    ltac:(by rewrite length_map) method_implements Hr) as (Hp&Hw&Hx&Hf).
  split_and!; [done|done| | |].
  - intros t t' k k' Hne Hk Hk'. destruct (Hx t t' k k' Hne Hk Hk') as [Hm Hm'].
    destruct k, k'; try discriminate Hm; try discriminate Hm'. eauto.
  - intros Hz. destruct (Hf Hz) as (order&?&_&?&?). eauto.
  - intros Hz m es -> Hne Hm. destruct (Hf Hz) as (order&Ho&Hb&Hs&Ht). rewrite length_map in Hb.
    destruct (replay_race m es order st Ho Hb Hne Hm) as (w&e&He&Hreg&Hans).
    exists w, e. split; [done|]. split; [by rewrite Hs|]. intros t th Hth. rewrite (Ht t th Hth).
    apply Hans. apply lookup_lt_Some in Hth.
    rewrite (run_threads _ _ _ _ Hr) in Hth. unfold registry_threads, initial in Hth. cbn in Hth.
    rewrite length_zip_with, !length_map in Hth. lia.
Qed.
End registry.

#[local] Existing Instance Tcp.connection_entry.

(** Connections 5 and 6 register mailbox 7 while connection 4, which has
    mailboxes 8 and 9, is cleaned up and two threads look up 8; the schedule
    lets the threads take turns as far as the lock allows. *)
Lemma registry_calls_serial_witness :
  let st : Router nat unit := mkRouter 4096 (<[8 := 4%nat]> {[9 := 4%nat]}) ∅ [] 0 sock_closed true [] ∅ tt in
  let methods := [[Add 7 5%nat]; [Add 7 6%nat; Remove 9]; [RemoveAll 4%nat]; [Find 8]; [Find 8]] in
  let x := registry_threads st methods in
  let out := run_schedule [3; 4; 3; 4; 4; 3; 4; 3; 1; 1; 1; 1; 2; 2; 2; 2; 1; 1; 1; 1; 0; 0; 0; 0]%nat [] x in
  let z := from_option snd x out in
  thread_step 2 (from_option snd x (run_schedule [3; 4; 3]%nat [] x)) = None /\
  exists order,
    (forall t ks, methods !! t = Some ks -> of_thread t order = ks) /\
    c_store z = (replay order st).2 /\
    forall t th, c_threads z !! t = Some th -> (th_local th).1 = of_thread t (replay order st).1.
Proof.
  intros st methods x out z. split; [vm_compute; reflexivity|].
  refine (proj1 (proj2 (proj2 (proj2 (registry_calls_serial 24 (from_option fst [] out) z st methods _)))) _).
  - apply (schedule_runs [3; 4; 3; 4; 4; 3; 4; 3; 1; 1; 1; 1; 2; 2; 2; 2; 1; 1; 1; 1; 0; 0; 0; 0]%nat).
    vm_compute. reflexivity.
  - vm_compute. repeat constructor.
Defined.
End Registry.

(** ** Frames on a socket

    What is written to a socket that threads share: the socket-level view of
    [forward], [send_peer_register], [send_peer_delete] and the replies of a
    connection, under its [send_mutex_], and of [forward_to_upstream], under
    [send_mutex] or [upstream_send_mutex_]; the answer is whether every
    [send_all] succeeded. *)
Module Link.

Inductive outgoing :=
| Forward (hdr : FrameHeader) (body : bytes)
| PeerRegister (m : Z)
| PeerDelete (m : Z)
| Reply (hdr : FrameHeader)
| Upstream (hdr : FrameHeader) (body : bytes).

Definition mbx_header (type : Z) : FrameHeader := make_frame type 0 0 0 0 sizeof_MbxInitPayload.

Definition put (o : outgoing) (s : TcpSocket) : bool * TcpSocket :=
  match o with
  | Forward hdr body =>
      let '(ok, s) := send_all s (encode_frame hdr) in
      if ok then send_all s body else (false, s)
  | PeerRegister m =>
      let '(ok, s) := send_all s (encode_frame (mbx_header MSG_ROUTER_PEER_REGISTER)) in
      let '(ok', s) := send_all s (encode_mbx m) in (ok && ok', s)
  | PeerDelete m =>
      let '(ok, s) := send_all s (encode_frame (mbx_header MSG_ROUTER_PEER_DELETE)) in
      let '(ok', s) := send_all s (encode_mbx m) in (ok && ok', s)
  | Reply hdr => send_all s (encode_frame hdr)
  | Upstream hdr body => if sock_is_open s then link_send s hdr body else (false, s)
  end.

#[global] Instance link_calls : LockedCalls outgoing TcpSocket bool := {
  call_mode := fun _ => Exclusive; call_run := put
}.

(** Header and body of the frame. *)
Definition head_of (o : outgoing) : bytes :=
  match o with
  | Forward hdr _ | Reply hdr | Upstream hdr _ => encode_frame hdr
  | PeerRegister m => encode_frame (mbx_header MSG_ROUTER_PEER_REGISTER)
  | PeerDelete m => encode_frame (mbx_header MSG_ROUTER_PEER_DELETE)
  end.

Definition body_of (o : outgoing) : bytes :=
  match o with
  | Forward _ body | Upstream _ body => body
  | PeerRegister m | PeerDelete m => encode_mbx m
  | Reply _ => []
  end.

Definition wire (o : outgoing) : bytes := head_of o ++ body_of o.

(** *** The functions, call by call of the kernel

    What a thread has of its own while it sends: the answers of the calls it
    has completed; whether all [send_all]s of this one succeeded so far;
    whether the current one goes on, and what it has still to send. *)
Abbreviation sending := (list bool * (bool * bool * bytes))%type.

Definition begin_send (s : TcpSocket) (x : sending) : TcpSocket * sending :=
  (s, (x.1, (true, true, []))).

(** [is_open() && ...] *)
Definition begin_if_open (s : TcpSocket) (x : sending) : TcpSocket * sending :=
  (s, (x.1, (sock_is_open s, true, []))).

(** The head of [send_all(buf, len)]; [always]: the call is not the right-hand
    side of an [&&]. *)
Definition start_send (always : bool) (buf : bytes) (s : TcpSocket) (x : sending) : TcpSocket * sending :=
  let '(answers, (all, _, _)) := x in (s, (answers, (all, always || all, buf))).

(** An iteration of its loop. *)
Definition one_send (s : TcpSocket) (x : sending) : TcpSocket * sending :=
  let '(answers, (all, go, rest)) := x in
  if go && (0 <? zlen rest) then
    let '(n, s) := sys_send s rest in
    if n <=? 0 then (s, (answers, (all, false, rest)))
    else (s, (answers, (all, true, drop (Z.to_nat n) rest)))
  else (s, x).

Definition end_send (s : TcpSocket) (x : sending) : TcpSocket * sending :=
  let '(answers, (all, go, rest)) := x in (s, (answers, (all && go, go, []))).

Definition all_sends (always : bool) (buf : bytes) : list (TcpSocket -> sending -> TcpSocket * sending) :=
  start_send always buf :: repeat one_send (length buf) ++ [end_send].

(** The function returns. *)
Definition end_call (s : TcpSocket) (x : sending) : TcpSocket * sending :=
  let '(answers, (all, go, rest)) := x in (s, (answers ++ [all], (all, go, rest))).

(** The [lock_guard] blocks of the function, in order. *)
Definition guards (o : outgoing) : list (critical TcpSocket sending) :=
  match o with
  | Forward hdr body =>
      [mkCrit Exclusive (begin_send :: all_sends false (encode_frame hdr) ++ all_sends false body ++ [end_call])]
  | PeerRegister m =>
      [mkCrit Exclusive (begin_send :: all_sends true (encode_frame (mbx_header MSG_ROUTER_PEER_REGISTER)) ++
         all_sends true (encode_mbx m) ++ [end_call])]
  | PeerDelete m =>
      [mkCrit Exclusive (begin_send :: all_sends true (encode_frame (mbx_header MSG_ROUTER_PEER_DELETE)) ++
         all_sends true (encode_mbx m) ++ [end_call])]
  | Reply hdr => [mkCrit Exclusive (begin_send :: all_sends true (encode_frame hdr) ++ [end_call])]
  | Upstream hdr body =>
      [mkCrit Exclusive (begin_if_open :: all_sends false (encode_frame hdr) ++
         (if zlen body =? 0 then [] else all_sends false body) ++ [end_call])]
  end.

(** Threads that are about to write frames, the mutex being free. *)
Definition link_threads (s : TcpSocket) (frames : list (list outgoing)) :=
  initial (L := StdLock.Mutex) s (map (fun w => ([], w)) (map (fun _ => (true, true, [])) frames))
    (map (fun os => concat (map guards os)) frames).

(** One frame as it went out: its thread was told [sf_ok]. *)
Record sent_frame := mkSent { sf_frame : outgoing; sf_ok : bool; sf_part : bytes }.

(** What is on the wire of it: a prefix of the header and a prefix of the body,
    all of both exactly if the answer is true; and nothing of the body after a
    broken header, except that [send_peer_register] and [send_peer_delete] go
    on. *)
Definition went_out (f : sent_frame) : Prop :=
  exists p q, sf_part f = p ++ q /\ p `prefix_of` head_of (sf_frame f) /\ q `prefix_of` body_of (sf_frame f) /\
    (sf_ok f = true <-> p = head_of (sf_frame f) /\ q = body_of (sf_frame f)) /\
    match sf_frame f with
    | PeerRegister _ | PeerDelete _ => True
    | _ => p <> head_of (sf_frame f) -> q = []
    end.

(** These are the calls of RouterCore.v, on the socket of the connection. *)
Section connection.
Context {E X : Type} `{RouteEntry E}.
Implicit Types (st : Router E X) (c : nat).

Definition call_of (o : outgoing) (c : nat) : state (Router E X) unit :=
  match o with
  | Forward hdr body => _ ← forward c hdr body; mret tt
  | PeerRegister m => send_peer_register m c
  | PeerDelete m => send_peer_delete m c
  | Reply hdr => send_reply c hdr
  | Upstream hdr body => mret tt
  end.

Lemma con_send_again bs c con s' h st :
  con_send c bs (set_cons (<[c := con_set_socket s' con]> h) st) =
  ((send_all s' bs).1, set_cons (<[c := con_set_socket (send_all s' bs).2 con]> h) st).
Proof.
  rewrite (con_send_lookup _ _ _ (con_set_socket s' con)) by apply lookup_insert_eq. cbn.
  by rewrite insert_insert_eq.
Qed.

Lemma put_connection o c con st :
  r_cons st !! c = Some con -> (forall hdr body, o <> Upstream hdr body) ->
  (call_of o c st).2 = set_cons (<[c := con_set_socket (put o (con_socket con)).2 con]> (r_cons st)) st.
Proof.
  intros Hc Hup. destruct o; [..|by destruct (Hup hdr body)]; cbn [call_of put]; unfold mbx_header;
  unfold forward, send_peer_register, send_peer_delete, send_reply;
  rewrite !bind_eq, !(con_send_lookup _ _ _ _ Hc); cbn -[send_all encode_frame encode_mbx];
  rewrite ?bind_eq.
  - destruct (send_all (con_socket con) (encode_frame hdr)) as [[|] s'] eqn:Es; cbn -[send_all encode_frame]; [|done].
    by rewrite con_send_again.
  - rewrite con_send_again. cbn -[send_all encode_frame encode_mbx].
    destruct (send_all (con_socket con) _) as [b s']. cbn -[send_all encode_frame encode_mbx]. by destruct (send_all s' _).
  - rewrite con_send_again. cbn -[send_all encode_frame encode_mbx].
    destruct (send_all (con_socket con) _) as [b s']. cbn -[send_all encode_frame encode_mbx]. by destruct (send_all s' _).
  - done.
Qed.

Lemma put_upstream hdr body st :
  send_to_system (system_id_of (f_dest hdr)) hdr body (r_system_connections st) = None ->
  forward_to_upstream hdr body st =
  ((put (Upstream hdr body) (r_upstream_socket st)).1,
   set_upstream (put (Upstream hdr body) (r_upstream_socket st)).2 (r_upstream_done st) st).
Proof.
  intros Hn. unfold forward_to_upstream. rewrite Hn. cbn [put]. destruct (sock_is_open _).
  - by destruct (link_send _ _ _).
  - by destruct st.
Qed.

Lemma put_system hdr body sc scs :
  sc_system_id sc = system_id_of (f_dest hdr) ->
  send_to_system (system_id_of (f_dest hdr)) hdr body (sc :: scs) =
  Some ((put (Upstream hdr body) (sc_socket sc)).1,
        mkSys (sc_system_id sc) (put (Upstream hdr body) (sc_socket sc)).2 (sc_reader_done sc) :: scs).
Proof.
  intros Hi. cbn [send_to_system put]. rewrite Hi, Z.eqb_refl. destruct (sock_is_open _).
  - by destruct (link_send _ _ _).
  - by destruct sc; cbn in *; subst.
Qed.
End connection.

(** The iterations are the loop of [send_all]. *)
Lemma one_send_loop answers all fuel s buf sent ok s' :
  send_all_loop fuel s buf sent = Some (ok, s') -> 0 <= sent -> exists rest,
    run_body (repeat one_send fuel) s (answers, (all, true, drop (Z.to_nat sent) buf)) =
    (s', (answers, (all, ok, rest))).
Proof.
  assert (forall n s rest, run_body (repeat one_send n) s (answers, (all, false, rest)) =
    (s, (answers, (all, false, rest)))) as Hstop by (intros n ??; by induction n).
  assert (forall n s rest, zlen rest <= 0 -> run_body (repeat one_send n) s (answers, (all, true, rest)) =
    (s, (answers, (all, true, rest)))) as Hdone.
  { intros n s0 rest Hr. induction n as [|n IH]; [done|]. cbn.
    destruct (Z.ltb_spec 0 (zlen rest)); [lia|]. apply IH. }
  revert s sent. induction fuel as [|fuel IH]; intros s sent; cbn -[zlen].
  - destruct (sent <? zlen buf); intros [=]. subst. eauto.
  - unfold zlen at 2. rewrite length_drop. destruct (Z.ltb_spec sent (zlen buf)) as [Hlt|Hge].
    + destruct (Z.ltb_spec 0 (Z.of_nat (length buf - Z.to_nat sent))); [|unfold zlen in *; lia].
      destruct (sys_send s _) as [n s1]. destruct (Z.leb_spec n 0).
      * intros [= <- <-] _. rewrite Hstop. eauto.
      * intros E Hs. rewrite drop_drop. destruct (IH s1 (sent + n) E ltac:(lia)) as [rest Er]. exists rest.
        by rewrite Z2Nat.inj_add in Er by lia.
    + intros [= <- <-] _. destruct (Z.ltb_spec 0 (Z.of_nat (length buf - Z.to_nat sent))); [unfold zlen in *; lia|].
      rewrite Hdone; [eauto|]. unfold zlen in *. rewrite length_drop. lia.
Qed.

Lemma run_body_app {S R} (b1 b2 : list (S -> R -> S * R)) s r :
  run_body (b1 ++ b2) s r = let '(s, r) := run_body b1 s r in run_body b2 s r.
Proof.
  revert s r. induction b1 as [|f b1 IH]; intros s r; [done|]. cbn. by destruct (f s r).
Qed.

Lemma all_sends_run always buf answers all go rest s :
  (all || always) = true ->
  exists go' rest', run_body (all_sends always buf) s (answers, (all, go, rest)) =
    ((send_all s buf).2, (answers, (all && (send_all s buf).1, go', rest'))).
Proof.
  intros Ha. unfold all_sends. cbn [run_body start_send]. rewrite orb_comm, Ha, run_body_app.
  destruct (send_all_loop_spec (length buf) s buf 0) as (ok&s'&k&E&_); [unfold zlen; lia|].
  destruct (one_send_loop answers all _ _ _ _ _ _ E ltac:(lia)) as [rest1 Er].
  change (drop _ buf) with buf in Er. rewrite Er. unfold send_all.
  change (Z.of_nat 0) with 0 in E. rewrite E. cbn. eauto.
Qed.

Lemma all_sends_skip buf answers go rest s :
  exists go' rest', run_body (all_sends false buf) s (answers, (false, go, rest)) =
    (s, (answers, (false, go', rest'))).
Proof.
  unfold all_sends. cbn [run_body start_send orb]. rewrite run_body_app.
  assert (run_body (repeat one_send (length buf)) s (answers, (false, false, buf)) =
    (s, (answers, (false, false, buf)))) as -> by (generalize (length buf); intros n; by induction n).
  cbn. eauto.
Qed.

(** One block per function, and it is the function. *)
Definition section_of (o : outgoing) : critical TcpSocket sending := hd (mkCrit Exclusive []) (guards o).

Lemma guards_one o : guards o = [section_of o].
Proof. by destruct o. Qed.

Ltac sends := repeat first
  [ rewrite run_body_app
  | match goal with
    | |- context [run_body (all_sends ?al ?b) ?s (?a, (true, ?go, ?r))] =>
        let E := fresh in destruct (all_sends_run al b a true go r s eq_refl) as (?&?&E); rewrite E; clear E
    | |- context [run_body (all_sends true ?b) ?s (?a, (?all, ?go, ?r))] =>
        let E := fresh in destruct (all_sends_run true b a all go r s (orb_true_r all)) as (?&?&E); rewrite E; clear E
    | |- context [run_body (all_sends false ?b) ?s (?a, (false, ?go, ?r))] =>
        let E := fresh in destruct (all_sends_skip b a go r s) as (?&?&E); rewrite E; clear E
    end
  | progress cbn [begin_send begin_if_open end_call run_body fst snd andb app] ].

Lemma section_implements o : implements (section_of o) o.
Proof.
  split; [by destruct o|]. split; [by destruct o|]. intros s answers w.
  destruct o; cbn [section_of guards hd cs_body call_run link_calls put run_body begin_send begin_if_open fst snd];
    unfold link_send.
  - sends. destruct (send_all s _) as [[] s1]; cbn [fst snd andb]; sends;
      [destruct (send_all s1 body)|]; eauto.
  - sends. destruct (send_all s _) as [ok s1]; cbn [fst snd andb]. sends. destruct (send_all s1 _); eauto.
  - sends. destruct (send_all s _) as [ok s1]; cbn [fst snd andb]. sends. destruct (send_all s1 _); eauto.
  - sends. destruct (send_all s _); eauto.
  - destruct (sock_is_open s); sends.
    + destruct (send_all s _) as [[] s1]; cbn [fst snd andb]; destruct (zlen body =? 0); sends;
        try destruct (send_all s1 body); eauto.
    + destruct (zlen body =? 0); sends; eauto.
Qed.

Lemma head_nonempty o : head_of o <> [].
Proof. destruct o; cbn [head_of]; intros E; apply (f_equal length) in E; by rewrite length_encode_frame in E. Qed.

(** What one [send_all] leaves on the wire. *)
Lemma send_all_part s buf : exists p, sent_on s (send_all s buf).2 p /\ p `prefix_of` buf /\
  ((send_all s buf).1 = true <-> p = buf).
Proof.
  destruct (send_all_spec s buf) as (k&Hs&Hk&Hb&_). exists (take k buf). split; [done|].
  split; [exists (drop k buf); by rewrite take_drop|]. rewrite Hb, bool_decide_eq_true. split.
  - apply take_ge.
  - intros E. apply (f_equal length) in E. rewrite length_take in E. lia.
Qed.

Ltac part s b p Hs Hp Hok :=
  let s' := fresh "s" in let ok := fresh "ok" in
  destruct (send_all_part s b) as (p&Hs&Hp&Hok); destruct (send_all s b) as [ok s']; cbn [fst snd andb] in *.

Lemma put_part o s : exists part,
  sent_on s (put o s).2 part /\ went_out (mkSent o (put o s).1 part).
Proof.
  pose proof (head_nonempty o) as Hne. unfold went_out. cbn [sf_frame sf_ok sf_part].
  assert (forall hdr body, (let '(ok, s) := send_all s (encode_frame hdr) in
      if ok then send_all s body else (false, s)) = put (Forward hdr body) s) as Hput by done.
  assert (forall hdr body, exists p q,
    sent_on s (put (Forward hdr body) s).2 (p ++ q) /\ p `prefix_of` encode_frame hdr /\ q `prefix_of` body /\
    ((put (Forward hdr body) s).1 = true <-> p = encode_frame hdr /\ q = body) /\ (p <> encode_frame hdr -> q = []))
    as Hforward.
  { intros hdr body. cbn [put]. part s (encode_frame hdr) p Hs Hp Hok. destruct ok.
    - part s0 body q Hs2 Hq Hok2. exists p, q. split; [by eapply sent_on_trans|]. tauto.
    - exists p, []. split; [by rewrite app_nil_r|]. split; [done|]. split; [apply prefix_nil|].
      split; [|done]. split; [done|]. by intros [E _]; apply Hok. }
  assert (forall type m, exists p q,
    let r := (let '(ok, s) := send_all s (encode_frame (mbx_header type)) in
      let '(ok', s) := send_all s (encode_mbx m) in (ok && ok', s)) in
    sent_on s r.2 (p ++ q) /\ p `prefix_of` encode_frame (mbx_header type) /\ q `prefix_of` encode_mbx m /\
    (r.1 = true <-> p = encode_frame (mbx_header type) /\ q = encode_mbx m)) as Hpeer.
  { intros type m. part s (encode_frame (mbx_header type)) p Hs Hp Hok.
    part s0 (encode_mbx m) q Hs2 Hq Hok2. exists p, q. split; [by eapply sent_on_trans|].
    rewrite andb_true_iff. tauto. }
  destruct o as [hdr body|m|m|hdr|hdr body]; cbn [head_of body_of] in *.
  - destruct (Hforward hdr body) as (p&q&?). exists (p ++ q). naive_solver.
  - destruct (Hpeer MSG_ROUTER_PEER_REGISTER m) as (p&q&?). exists (p ++ q). naive_solver.
  - destruct (Hpeer MSG_ROUTER_PEER_DELETE m) as (p&q&?). exists (p ++ q). naive_solver.
  - destruct (send_all_part s (encode_frame hdr)) as (p&Hs&Hp&Hok). exists p. split; [done|].
    exists p, []. split; [by rewrite app_nil_r|]. split; [done|]. split; [done|]. cbn [put]. tauto.
  - cbn [put]. destruct (sock_is_open s).
    + unfold link_send. destruct (Hforward hdr body) as (p&q&Hf). exists (p ++ q). cbn [put] in Hf.
      destruct (send_all s (encode_frame hdr)) as [[|] s1]; [|naive_solver].
      destruct (Z.eqb_spec (zlen body) 0) as [E|]; [|naive_solver].
      destruct body as [|? body]; [|done]. naive_solver.
    + exists []. split; [apply sent_on_nil|]. exists [], []. split; [done|]. split; [apply prefix_nil|].
      split; [apply prefix_nil|]. split; [|done]. cbn. split; [done|]. by intros [E _].
Qed.

Ltac second_send Hall :=
  match goal with
  | Hs : no_send_error ?s |- context [send_all ?s ?b] =>
      let E := fresh "E" in let H1 := fresh "H" in let s1 := fresh "s" in
      destruct (Hall s b Hs) as [E H1]; destruct (send_all s b) as [? s1]; cbn [fst snd] in *; subst;
      match goal with
      | |- context [send_all s1 ?b2] =>
          destruct (Hall s1 b2 H1); destruct (send_all s1 b2); cbn [fst snd] in *; by subst
      end
  end.

Lemma put_no_error o s : no_send_error s -> (put o s).1 = true /\ no_send_error (put o s).2.
Proof.
  assert (forall s b, no_send_error s -> (send_all s b).1 = true /\ no_send_error (send_all s b).2) as Hall.
  { intros s0 b Hs0. destruct (send_all_ok s0 b Hs0) as (s'&->&_&?). done. }
  intros Hs. assert (sock_is_open s = true) as Ho by (apply Z.leb_le; apply Hs).
  destruct o as [hdr body|m|m|hdr|hdr body]; cbn [put]; rewrite ?Ho; unfold link_send; try by apply Hall.
  - destruct (Hall s (encode_frame hdr) Hs) as [E1 H1]. destruct (send_all s _). cbn [fst snd] in *. subst. by apply Hall.
  - second_send Hall.
  - second_send Hall.
  - destruct (Hall s (encode_frame hdr) Hs) as [E1 H1]. destruct (send_all s _). cbn [fst snd] in *. subst.
    destruct (zlen body =? 0); [done|by apply Hall].
Qed.

Lemma replay_put order s : exists sent,
  (fun e => (e.1, sf_frame e.2)) <$> sent = order /\
  (replay order s).1 = (fun e => (e.1, sf_ok e.2)) <$> sent /\
  sent_on s (replay order s).2 (concat (map (fun e => sf_part e.2) sent)) /\
  Forall (fun e => went_out e.2) sent /\
  (no_send_error s -> Forall (fun e => sf_ok e.2 = true) sent).
Proof.
  revert s. induction order as [|[t o] order IH]; intros s.
  { exists []. split_and!; [done|done|apply sent_on_nil|constructor|constructor]. }
  cbn [replay call_run link_calls]. destruct (put_part o s) as (part&Hs&Hp).
  pose proof (put_no_error o s) as Hok. destruct (put o s) as [b s']. cbn [fst snd] in *.
  destruct (IH s') as (sent&Ho&Ha&Hw&Hf&Hn). destruct (replay order s') as [answers s2]. cbn [fst snd] in *.
  exists ((t, mkSent o b part) :: sent). split_and!.
  - cbn. by rewrite Ho.
  - cbn. by rewrite Ha.
  - cbn. by eapply sent_on_trans.
  - by constructor.
  - intros Hs0. destruct (Hok Hs0) as [-> Hs']. constructor; auto.
Qed.

(** C6. The functions that write frames to a socket, called from several
    threads, the iterations of their [send_all] loops interleaved wherever
    [send_mutex_] lets them, and whatever the kernel answers: the threads never
    block each other for good and finish in a bounded number of steps.  Then
    the stream is the frames one after the other, those of each thread in its
    order, of each frame a part that [went_out] describes: the whole frame
    exactly if its thread was told [true], and after an error of the kernel a
    prefix only -- which the next frame follows, since nobody closes the
    socket.  If the kernel reports no error, every frame is whole. *)
Theorem frames_whole n log z (s : TcpSocket) (frames : list (list outgoing)) :
  run n (link_threads s frames) log z ->
  (finished z \/ exists ev z', step z ev z') /\ (n + work z = work (link_threads s frames))%nat /\
  (finished z -> exists sent : list (nat * sent_frame),
     (forall t os, frames !! t = Some os -> map sf_frame (of_thread t sent) = os) /\
     (forall t th, c_threads z !! t = Some th -> (th_local th).1 = map sf_ok (of_thread t sent)) /\
     sent_on s (c_store z) (concat (map (fun e => sf_part e.2) sent)) /\
     Forall (fun e => went_out e.2) sent /\
     (no_send_error s ->
        Forall (fun e => sf_ok e.2 = true) sent /\
        sent_on s (c_store z) (concat (map (fun e => wire (sf_frame e.2)) sent)))).
Proof.
  intros Hr.
  assert (link_threads s frames = initial s (map (fun w => ([], w)) (map (fun _ => (true, true, [])) frames))
    (map (map section_of) frames)) as Ex.
  { unfold link_threads. f_equal. apply map_ext. intros os. induction os as [|o os IH]; [done|].
    cbn [map concat]. by rewrite guards_one, IH. }
  rewrite Ex in Hr |- *.
  destruct (call_sections_serial n s (map (fun _ => (true, true, [])) frames) section_of frames log z
    ltac:(by rewrite length_map) section_implements Hr) as (Hp&Hw&_&Hf).
  split; [done|]. split; [done|]. intros Hz. destruct (Hf Hz) as (order&Ho&_&Hst&Ht).
  destruct (replay_put order s) as (sent&<-&Ha&Hs&Hp1&Hn). exists sent. rewrite <- Hst in Hs.
  split_and!; [| |done|done|].
  - intros t os Hos. rewrite <- (Ho t os Hos). symmetry. apply (Registry.of_thread_map t sf_frame).
  - intros t th Hth. rewrite (Ht t th Hth), Ha. apply (Registry.of_thread_map t sf_ok).
  - intros He. specialize (Hn He). split; [done|].
    replace (map (fun e => wire (sf_frame e.2)) sent) with (map (fun e => sf_part e.2) sent); [done|].
    apply map_ext_in. intros e Hin. rewrite List.Forall_forall in Hn, Hp1.
    destruct (Hp1 e Hin) as (p&q&->&_&_&Hok&_). by destruct (proj1 Hok (Hn e Hin)) as [-> ->].
Qed.

(** Two threads forward a frame each and a third answers; the kernel takes two
    bytes of the first frame and then fails.  That frame is broken off, and the
    other two follow its first two bytes. *)
Definition hdr_of (src len : Z) : FrameHeader := make_frame 10 7 src 0 0 len.

Lemma frames_whole_witness :
  let s := sock_of_fd 4 [] [2; -1; 3; 5] [] in
  let frames := [[Forward (hdr_of 1 2) [1; 2]]; [PeerRegister 9]; [Reply (hdr_of 2 0)]] in
  let x := link_threads s frames in
  let ts := (repeat 0 26 ++ repeat 2 22 ++ repeat 1 28)%nat in
  let z := from_option snd x (run_schedule ts [] x) in
  thread_step 1 (from_option snd x (run_schedule (repeat 0 5)%nat [] x)) = None /\
  sk_tx (c_store z) = take 2 (encode_frame (hdr_of 1 2)) ++ wire (Reply (hdr_of 2 0)) ++ wire (PeerRegister 9) /\
  exists sent : list (nat * sent_frame),
    (forall t os, frames !! t = Some os -> map sf_frame (of_thread t sent) = os) /\
    (forall t th, c_threads z !! t = Some th -> (th_local th).1 = map sf_ok (of_thread t sent)) /\
    sent_on s (c_store z) (concat (map (fun e => sf_part e.2) sent)) /\
    Forall (fun e => went_out e.2) sent.
Proof.
  intros s frames x ts z. split; [vm_compute; reflexivity|]. split; [vm_compute; reflexivity|].
  assert (run (length ts) x (from_option fst [] (run_schedule ts [] x)) z) as Hr
    by (apply (schedule_runs ts x); vm_compute; reflexivity).
  destruct (proj2 (proj2 (frames_whole _ _ z s frames Hr))) as (sent&H1&H2&H3&H4&_).
  { vm_compute. repeat constructor. }
  by exists sent.
Defined.
End Link.
