(* ===== verification/EvlRouter.v ===== *)
(** * corerat-router-evl

    Models what src/router/evl_router.cpp adds to RouterCore.v: the registry of
    tagged entries, the xbuf bridge ([XbufEntry], its writer and its reader
    thread) and [Connection::handle_frame] of this daemon.

    The in-band side of an xbuf device is a byte stream in each direction, so
    its descriptor, the bytes written, the bytes still to be read and the
    answers of [::write] and [::read] are a [TcpSocket] value. *)

From Stdlib Require Import ZArith Lia.
From stdpp Require Import base list gmap sets numbers.
From S2P Require Import Prelude Protocol TcpSocket RouterCore.

#[local] Open Scope Z_scope.

Module Evl.

(** ** MailboxEntry *)

Inductive MailboxKind := KTcp | KXbuf | KPeer.

#[export] Instance MailboxKind_eq_dec : EqDecision MailboxKind.
Proof. solve_decision. Defined.

Record MailboxEntry := mkEntry {
  e_kind : MailboxKind;
  e_con : option nat;
  e_xbuf_entry : option nat
}.

(** [(kind == Tcp || kind == Peer) && con]: the test of [remove_all_for_con],
    of [run_connection_reader], of the xbuf reader and of the data path. *)
#[export] Instance evl_entry : RouteEntry MailboxEntry := fun e =>
  if decide (e_kind e = KTcp \/ e_kind e = KPeer) then e_con e else None.

Definition xbuf_of (e : MailboxEntry) : option nat :=
  if decide (e_kind e = KXbuf) then e_xbuf_entry e else None.

(** ** XbufEntry *)

Record XbufEntry := mkXbuf {
  xb_dev : TcpSocket;          (* fd_ and the device behind it *)
  xb_mailbox_id : Z;
  xb_reader : bool             (* reader_thread_ is running *)
}.

(** [xs_open] are the answers of the next [::open] calls on xbuf devices. *)
Record xbufs := mkXbufs {
  xs_heap : gmap nat XbufEntry;
  xs_open : list (option TcpSocket)
}.

Abbreviation EvlRouter := (Router MailboxEntry xbufs).

(** The packed [WireHeader]: [dest] at byte 20, [src] at byte 24. *)
Definition sizeof_WireHeader : Z := 32.
Definition wire_dest (buf : bytes) : Z := field 20 4 buf.
Definition wire_src (buf : bytes) : Z := field 24 4 buf.

Definition set_heap (h : gmap nat XbufEntry) (st : EvlRouter) : EvlRouter :=
  set_ext (mkXbufs h (xs_open (r_ext st))) st.

(** [::open("/dev/evl/xbuf/corerat-xbuf-<id>", O_RDWR | O_NONBLOCK)] *)
Definition open_xbuf : state EvlRouter (option TcpSocket) :=
  fun st =>
    match xs_open (r_ext st) with
    | [] => (None, st)
    | dev :: plan =>
        (match dev with
         | Some s => if 0 <=? sk_fd s then Some s else None
         | None => None
         end, set_ext (mkXbufs (xs_heap (r_ext st)) plan) st)
    end.

(** [make_shared<XbufEntry>(xfd, mbx_id, ...)] *)
Definition new_xbuf (dev : TcpSocket) (m : Z) : state EvlRouter nat :=
  fun st =>
    let x := fresh (dom (xs_heap (r_ext st))) in
    (x, set_heap (<[x := mkXbuf dev m false]> (xs_heap (r_ext st))) st).

Definition start_reader (x : nat) : state EvlRouter unit :=
  modify (fun st =>
    set_heap (alter (fun xe => mkXbuf (xb_dev xe) (xb_mailbox_id xe) true) x
      (xs_heap (r_ext st))) st).

(** [~XbufEntry]: the descriptor is closed, the reader thread joined. *)
Definition destroy_xbuf (x : nat) : state EvlRouter unit :=
  modify (fun st =>
    set_heap (alter (fun xe => mkXbuf (sock_close (xb_dev xe)) (xb_mailbox_id xe) false) x
      (xs_heap (r_ext st))) st).

(** The write loop is that of [send_all], over [::write]. *)
Definition write_body (x : nat) (body : bytes) : state EvlRouter bool :=
  fun st =>
    match xs_heap (r_ext st) !! x with
    | None => (false, st)
    | Some xe =>
        if (sk_fd (xb_dev xe) <? 0) || (zlen body =? 0) then (false, st)
        else
          let '(ok, dev) := send_all (xb_dev xe) body in
          (ok, set_heap (<[x := mkXbuf dev (xb_mailbox_id xe) (xb_reader xe)]>
                 (xs_heap (r_ext st))) st)
    end.

(** One iteration of the loop of [run_reader]; [::poll] on a closed
    descriptor times out. *)
Definition reader_iter (x : nat) (stop : bool) (poll : Z) : state EvlRouter unit :=
  fun st =>
    match xs_heap (r_ext st) !! x with
    | None => (tt, st)
    | Some xe =>
        if negb (xb_reader xe) || stop then (tt, st)
        else if poll_in (xb_dev xe) poll <=? 0 then (tt, st)
        else
          let '(n, buf, dev) := sys_recv (xb_dev xe) (r_max_msg_size st) in
          let st := set_heap (<[x := mkXbuf dev (xb_mailbox_id xe) (xb_reader xe)]>
                      (xs_heap (r_ext st))) st in
          if n <=? 0 then (tt, st)
          else if n <? sizeof_WireHeader then (tt, st)
          else
            let dest := wire_dest buf in
            let src := wire_src buf in
            (entry ← registry_find dest;
             match entry ≫= route_con with
             | None => mret tt
             | Some con => _ ← forward con (make_frame 0 dest src 0 0 (u32 n)) buf; mret tt
             end) st
    end.

(** ** Handlers *)

(** [table_.erase(mailbox_id)] drops the last reference to an xbuf entry. *)
Definition remove_mailbox (m : Z) : state EvlRouter unit :=
  e ← registry_find m;
  _ ← registry_remove m;
  match e ≫= xbuf_of with
  | Some x => destroy_xbuf x
  | None => mret tt
  end.

Definition register_mailbox (c : nat) (m : Z) : state EvlRouter bool :=
  dev ← open_xbuf;
  match dev with
  | Some dev =>
      x ← new_xbuf dev m;
      ok ← registry_add m (mkEntry KXbuf None (Some x));
      if (ok : bool) then
        _ ← start_reader x;
        _ ← on_local_registered m;
        mret true
      else
        _ ← destroy_xbuf x;
        mret false
  | None =>
      ok ← registry_add m (mkEntry KTcp (Some c) None);
      if (ok : bool) then _ ← on_local_registered m; mret true
      else mret false
  end.

(** Here the reply follows the advertisement. *)
Definition handle_mbx_init (c : nat) (frame : FrameHeader) (m : Z) : state EvlRouter unit :=
  ok ← register_mailbox c m;
  send_reply c (make_frame (if (ok : bool) then MSG_OK else MSG_ERROR)
                  (f_src frame) 0 0 (f_seq_nr frame) 0).

Definition handle_mbx_delete (m : Z) : state EvlRouter unit :=
  _ ← remove_mailbox m;
  on_local_deleted m.

Definition send_error (c : nat) (frame : FrameHeader) : state EvlRouter unit :=
  send_reply c (make_frame MSG_ERROR (f_src frame) 0 0 (f_seq_nr frame) 0).

(** The [default] case. *)
Definition route_data (c : nat) (frame : FrameHeader) (body : bytes) : state EvlRouter unit :=
  entry ← registry_find (f_dest frame);
  match entry with
  | None =>
      is_peer ← get_is_peer c;
      if (is_peer : bool) then mret tt
      else
        forwarded ← forward_to_upstream frame body;
        if (forwarded : bool) then mret tt else send_error c frame
  | Some e =>
      match route_con e with
      | Some dest => _ ← forward dest frame body; mret tt
      | None =>
          match xbuf_of e with
          | Some x =>
              ok ← write_body x body;
              if (ok : bool) then mret tt else send_error c frame
          | None => mret tt
          end
      end
  end.

(** The [switch] of [handle_frame]. *)
Definition dispatch (c : nat) (frame : FrameHeader) (buf : bytes) : state EvlRouter unit :=
  let body_len := frame_body_len frame in
  let type := f_type frame in
  is_peer ← get_is_peer c;
  if type =? MSG_ROUTER_PEER_HELLO then
    if (is_peer : bool) then mret tt
    else _ ← update_con c (con_set_peer true); advertise_as_peer c
  else if type =? MSG_ROUTER_PEER_REGISTER then
    if negb is_peer || (body_len <? sizeof_MbxInitPayload) then mret tt
    else _ ← registry_add (decode_mbx buf) (mkEntry KPeer (Some c) None); mret tt
  else if type =? MSG_ROUTER_PEER_DELETE then
    if negb is_peer || (body_len <? sizeof_MbxInitPayload) then mret tt
    else remove_mailbox (decode_mbx buf)
  else if type =? MSG_ROUTER_DISABLE_WATCHDOG then mret tt
  else if type =? MSG_ROUTER_MBX_INIT_WITH_REPLY then
    if body_len <? sizeof_MbxInitPayload then mret tt
    else handle_mbx_init c frame (decode_mbx buf)
  else if type =? MSG_ROUTER_MBX_DELETE then
    if body_len <? sizeof_MbxInitPayload then mret tt
    else handle_mbx_delete (decode_mbx buf)
  else route_data c frame buf.

Definition handle_frame (c : nat) (frame : FrameHeader) : state EvlRouter unit :=
  body ← read_body c frame;
  match body with
  | None => mret tt
  | Some buf => dispatch c frame buf
  end.

(** ** Runs: the events of RouterCore.v and the xbuf readers *)

Inductive evl_event :=
  | Core (e : event)
  | XbufIterate (x : nat) (stop : bool) (poll : Z).

Definition evl_step (e : evl_event) : state EvlRouter unit :=
  match e with
  | Core e => handle_event handle_frame e
  | XbufIterate x stop poll => reader_iter x stop poll
  end.

Definition evl_run (es : list evl_event) : state EvlRouter unit := for_each es evl_step.

Definition evl_initial (max : Z) (devices : list (option TcpSocket)) : EvlRouter :=
  initial max (mkXbufs ∅ devices).

Definition evl_reachable (max : Z) (st : EvlRouter) : Prop :=
  exists devices es, (evl_run es (evl_initial max devices)).2 = st.

(** ** The invariant of RouterCore.v *)

Section core_invariant.
Implicit Types (st : EvlRouter) (c : nat) (m : Z) (frame : FrameHeader).

Lemma inv_set_ext st (x : xbufs) : router_inv st -> router_inv (set_ext x st).
Proof. by intros []. Qed.

Lemma inv_on_local_registered m e st :
  (forall c, route_con e = Some c -> looping st c) -> router_inv st ->
  router_inv (on_local_registered m (set_registry (<[m := e]> (r_registry st)) st)).2.
Proof.
  intros He Hi.
  rewrite <- (on_local_registered_quiet m (set_registry (<[m := e]> (r_registry st)) st)).
  exact (inv_register st m e He Hi).
Qed.

Lemma destroy_xbuf_inv x : preserves router_inv (destroy_xbuf x).
Proof. intros st. apply inv_set_ext. Qed.

Lemma remove_mailbox_inv m : preserves router_inv (remove_mailbox m).
Proof.
  intros st Hi. unfold remove_mailbox. rewrite bind_eq. cbn [registry_find fst snd].
  rewrite bind_eq. cbn [registry_remove modify fst snd].
  destruct (_ ≫= xbuf_of); [apply inv_set_ext|]; by apply inv_remove.
Qed.

Lemma open_xbuf_ext st :
  exists plan, (open_xbuf st).2 = set_ext (mkXbufs (xs_heap (r_ext st)) plan) st.
Proof.
  unfold open_xbuf. destruct (xs_open (r_ext st)) as [|dev plan] eqn:E; cbn; [|by eexists].
  exists []. destruct st as [????????? []]; cbn in *; by subst.
Qed.

Lemma register_mailbox_inv c m st :
  looping st c -> router_inv st -> router_inv (register_mailbox c m st).2.
Proof.
  intros Hc Hi. unfold register_mailbox. rewrite bind_eq.
  destruct (open_xbuf_ext st) as [plan Eo]. rewrite Eo.
  pose proof (inv_set_ext st (mkXbufs (xs_heap (r_ext st)) plan) Hi) as Hi1.
  set (st1 := set_ext _ st) in *. change (looping st1 c) in Hc. clearbody st1.
  destruct (open_xbuf st).1 as [dev|].
  - rewrite bind_eq. unfold new_xbuf. cbn [fst snd]. rewrite bind_eq. unfold set_heap.
    set (st2 := set_ext _ st1). assert (router_inv st2) as Hi2 by by apply inv_set_ext.
    unfold registry_add. destruct (r_registry st2 !! m); cbn [fst snd].
    + rewrite bind_eq. cbn [destroy_xbuf modify fst snd mret state_ret].
      by do 2 apply inv_set_ext.
    + rewrite bind_eq. cbn [start_reader modify fst snd]. rewrite bind_eq. cbn [mret state_ret snd].
      match goal with |- context [on_local_registered m (set_heap ?h _)] =>
        apply (inv_on_local_registered m (mkEntry KXbuf None (Some (fresh (dom (xs_heap (r_ext st1))))))
          (set_heap h st2))
      end; [|by apply inv_set_ext].
      unfold route_con, evl_entry. cbn. intros d. case_decide; [naive_solver|done].
  - rewrite bind_eq. unfold registry_add. destruct (r_registry st1 !! m); cbn [fst snd]; [done|].
    rewrite bind_eq. cbn [mret state_ret snd]. apply inv_on_local_registered; [|done].
    by intros ? [= <-].
Qed.

Lemma evl_mbx_delete_inv m : preserves router_inv (handle_mbx_delete m).
Proof.
  intros st Hi. unfold handle_mbx_delete. rewrite bind_eq.
  rewrite <- (on_local_deleted_quiet m _). unfold remove_mailbox.
  rewrite bind_eq. cbn [registry_find fst snd].
  rewrite bind_eq. cbn [registry_remove modify fst snd].
  destruct (_ ≫= xbuf_of); [|exact (inv_unregister st m Hi)]. cbn [destroy_xbuf modify snd].
  exact (inv_set_ext _ _ (inv_unregister _ m Hi)).
Qed.

Lemma write_body_ext x body st :
  exists h, (write_body x body st).2 = set_heap h st /\
    forall y, (h !! y = xs_heap (r_ext st) !! y \/
      exists xe dev, xs_heap (r_ext st) !! y = Some xe /\ sk_fd dev = sk_fd (xb_dev xe) /\
        h !! y = Some (mkXbuf dev (xb_mailbox_id xe) (xb_reader xe))).
Proof.
  assert (st = set_heap (xs_heap (r_ext st)) st) as Est by by destruct st as [????????? []].
  unfold write_body. destruct (xs_heap (r_ext st) !! x) as [xe|] eqn:Hx.
  2:{ exists (xs_heap (r_ext st)). split; [done|]. by left. }
  destruct (_ || _). { exists (xs_heap (r_ext st)). split; [done|]. by left. }
  pose proof (send_all_fd (xb_dev xe) body) as Hfd. destruct (send_all _ _) as [ok dev].
  eexists. split; [reflexivity|]. intros y. destruct (decide (y = x)) as [->|].
  - right. exists xe, dev. by rewrite lookup_insert_eq.
  - left. by rewrite lookup_insert_ne.
Qed.

(** Data routing changes nothing but sockets and devices. *)
Lemma route_data_effect c frame body st :
  quiet st (route_data c frame body st).2 \/
  exists x st1, st1 = (write_body x body st).2 /\ quiet st1 (route_data c frame body st).2.
Proof.
  unfold route_data. rewrite bind_eq. cbn [registry_find fst snd].
  destruct (r_registry st !! f_dest frame) as [e|].
  2:{ left. refine (quietly_bind (get_is_peer c) _ (get_is_peer_quietly c) _ st).
      intros is_peer. apply quietly_if; [apply quietly_ret|].
      apply quietly_bind; [apply forward_to_upstream_quietly|]. intros forwarded.
      apply quietly_if; [apply quietly_ret|unfold send_error; apply send_reply_quietly]. }
  destruct (route_con e).
  { left. refine (quietly_bind (forward _ frame body) _ (forward_quietly _ _ _) _ st).
    intros. apply quietly_ret. }
  destruct (xbuf_of e) as [x|]; [|by left]. right. exists x. eexists. split; [done|].
  rewrite bind_eq. destruct (write_body x body st).1; [done|unfold send_error; apply send_reply_quietly].
Qed.

Lemma route_data_inv c frame body : preserves router_inv (route_data c frame body).
Proof.
  intros st Hi. destruct (route_data_effect c frame body st) as [Hq|(x&st1&->&Hq)];
    rewrite <- Hq; [done|].
  destruct (write_body_ext x body st) as (h&->&_). by apply inv_set_ext.
Qed.
End core_invariant.

(** ** The invariant of the bridge

    Every entry of the registry is a connection or an xbuf; the xbuf entries
    are exactly the objects with an open descriptor, each under its own
    mailbox id and with a running reader. *)

Definition xroute (r : gmap Z MailboxEntry) (m : Z) : option nat := r !! m ≫= xbuf_of.

Definition entry_wf (e : MailboxEntry) : Prop := is_Some (route_con e) \/ is_Some (xbuf_of e).

Record bridge_inv (r : gmap Z MailboxEntry) (h : gmap nat XbufEntry) : Prop := mkBridge {
  bi_wf m e : r !! m = Some e -> entry_wf e;
  bi_entry m x : xroute r m = Some x ->
    exists xe, h !! x = Some xe /\ xb_mailbox_id xe = m /\ 0 <= sk_fd (xb_dev xe);
  bi_open x xe : h !! x = Some xe -> 0 <= sk_fd (xb_dev xe) -> xroute r (xb_mailbox_id xe) = Some x;
  bi_reader x xe : h !! x = Some xe -> (xb_reader xe = true <-> 0 <= sk_fd (xb_dev xe))
}.

Definition st_bridge (st : EvlRouter) : Prop := bridge_inv (r_registry st) (xs_heap (r_ext st)).

Section bridge.
Implicit Types (st : EvlRouter) (c : nat) (m : Z) (frame : FrameHeader)
  (r : gmap Z MailboxEntry) (h : gmap nat XbufEntry).

(** Fewer connection entries. *)
Lemma bridge_shrink r r' h :
  bridge_inv r h -> (forall m e, r' !! m = Some e -> r !! m = Some e) ->
  (forall m, xroute r' m = xroute r m) -> bridge_inv r' h.
Proof.
  intros [Hw He Ho Hr] Hsub Hx. split; [naive_solver| | |done].
  - intros m x. rewrite Hx. apply He.
  - intros x xe. rewrite Hx. apply Ho.
Qed.

Lemma bridge_quiet st st' : quiet st st' -> st_bridge st -> st_bridge st'.
Proof. intros Hq. unfold st_bridge. by rewrite (quiet_registry _ _ Hq), (quiet_ext _ _ Hq). Qed.

(** A new connection entry. *)
Lemma bridge_add_con r h m e :
  bridge_inv r h -> r !! m = None -> is_Some (route_con e) -> xbuf_of e = None ->
  bridge_inv (<[m := e]> r) h.
Proof.
  intros [Hw He Ho Hr] Hm Hc Hxb.
  assert (forall m', xroute (<[m := e]> r) m' = xroute r m') as Hx.
  { intros m'. unfold xroute. rewrite lookup_insert. case_decide; [|done]. subst.
    rewrite Hm. cbn. done. }
  split; [| | |done].
  - intros m' e'. rewrite lookup_insert. case_decide; [|apply Hw]. intros [= <-]. by left.
  - intros m' x. rewrite Hx. apply He.
  - intros x xe. rewrite Hx. apply Ho.
Qed.

Lemma xroute_insert_ne r m m' e : m <> m' -> xroute (<[m := e]> r) m' = xroute r m'.
Proof. intros. unfold xroute. by rewrite lookup_insert_ne. Qed.

(** A new xbuf, registered and with its reader started. *)
Lemma bridge_add_xbuf r h m x dev :
  bridge_inv r h -> r !! m = None -> h !! x = None -> 0 <= sk_fd dev ->
  bridge_inv (<[m := mkEntry KXbuf None (Some x)]> r) (<[x := mkXbuf dev m true]> h).
Proof.
  intros [Hw He Ho Hr] Hm Hx Hdev. split.
  - intros m' e'. rewrite lookup_insert. case_decide; [|apply Hw]. intros [= <-].
    right. by eexists.
  - intros m' y. destruct (decide (m = m')) as [<-|Hne].
    + unfold xroute. rewrite lookup_insert_eq. cbn. intros [= <-].
      eexists. by rewrite lookup_insert_eq.
    + rewrite xroute_insert_ne by done. intros (xe&Hy&Hxe)%He. exists xe.
      rewrite lookup_insert_ne; [done|]. intros ->. congruence.
  - intros y xe. rewrite lookup_insert. case_decide as Hd.
    + intros [= <-] _. cbn. unfold xroute. rewrite lookup_insert_eq. by subst.
    + intros Hy Hfd. pose proof (Ho y xe Hy Hfd) as Hr'. rewrite xroute_insert_ne; [done|].
      intros Em. rewrite <- Em in Hr'. unfold xroute in Hr'. by rewrite Hm in Hr'.
  - intros y xe. rewrite lookup_insert. case_decide; [|apply Hr]. by intros [= <-].
Qed.

(** The entry of a mailbox goes, with the object it owned. *)
Lemma bridge_remove r h m :
  bridge_inv r h ->
  bridge_inv (delete m r)
    (match xroute r m with
     | Some x => alter (fun xe => mkXbuf (sock_close (xb_dev xe)) (xb_mailbox_id xe) false) x h
     | None => h
     end).
Proof.
  intros [Hw He Ho Hr].
  assert (forall m', m' <> m -> xroute (delete m r) m' = xroute r m') as Hx.
  { intros m' Hne. unfold xroute. by rewrite lookup_delete_ne. }
  assert (xroute (delete m r) m = None) as Hxm by (unfold xroute; by rewrite lookup_delete_eq).
  destruct (xroute r m) as [x|] eqn:Hm.
  - assert (forall y, y <> x -> alter (fun xe => mkXbuf (sock_close (xb_dev xe)) (xb_mailbox_id xe) false) x h !! y = h !! y) as Ha.
    { intros y Hy. by rewrite lookup_alter_ne. }
    destruct (He m x Hm) as (xe0&Hx0&Hm0&Hfd0). split.
    + intros m' e. rewrite lookup_delete_Some. intros [_ ?]. by eapply Hw.
    + intros m' y. destruct (decide (m' = m)) as [->|Hne]; [by rewrite Hxm|].
      rewrite Hx by done. intros Hy. destruct (He m' y Hy) as (xe&Hxe&Em&?). exists xe.
      rewrite Ha; [done|]. intros ->. congruence.
    + intros y xe. destruct (decide (y = x)) as [->|Hy].
      * rewrite lookup_alter_eq, Hx0. cbn. intros [= <-]. cbn. unfold sock_close.
        destruct (Z.leb_spec 0 (sk_fd (xb_dev xe0))); cbn; lia.
      * rewrite Ha by done. intros Hxe Hfd. pose proof (Ho y xe Hxe Hfd) as Hr'.
        rewrite Hx; [done|]. intros Em. rewrite Em in Hr'. congruence.
    + intros y xe. destruct (decide (y = x)) as [->|Hy]; [|rewrite Ha by done; apply Hr].
      rewrite lookup_alter_eq, Hx0. cbn. intros [= <-]. cbn. unfold sock_close.
      destruct (Z.leb_spec 0 (sk_fd (xb_dev xe0))); cbn; split; try done; lia.
  - split; [| | |done].
    + intros m' e. rewrite lookup_delete_Some. intros [_ ?]. by eapply Hw.
    + intros m' y. destruct (decide (m' = m)) as [->|Hne]; [by rewrite Hxm|]. rewrite Hx by done. apply He.
    + intros y xe Hy Hfd. pose proof (Ho y xe Hy Hfd) as Hr'. rewrite Hx; [done|]. congruence.
Qed.

(** Bytes through a device: neither descriptor nor thread changes. *)
Lemma bridge_io r h h' :
  bridge_inv r h ->
  (forall y, h' !! y = h !! y \/
    exists xe dev, h !! y = Some xe /\ sk_fd dev = sk_fd (xb_dev xe) /\
      h' !! y = Some (mkXbuf dev (xb_mailbox_id xe) (xb_reader xe))) ->
  bridge_inv r h'.
Proof.
  intros [Hw He Ho Hr] Hh. split; [done| | |].
  - intros m x Hx. destruct (He m x Hx) as (xe&Hxe&Hm&Hfd).
    destruct (Hh x) as [->|(xe'&dev&E1&E2&->)]; [by exists xe|].
    assert (xe' = xe) as -> by congruence. eexists. split; [done|]. cbn. by rewrite E2.
  - intros x xe Hx Hfd. destruct (Hh x) as [E|(xe'&dev&E1&E2&E)]; rewrite E in Hx.
    + by apply Ho.
    + injection Hx as <-. cbn in *. rewrite E2 in Hfd. by apply Ho.
  - intros x xe Hx. destruct (Hh x) as [E|(xe'&dev&E1&E2&E)]; rewrite E in Hx.
    + by apply (Hr x).
    + injection Hx as <-. cbn. rewrite E2. by apply (Hr x).
Qed.
End bridge.

Section bridge_steps.
Implicit Types (st : EvlRouter) (c : nat) (m : Z) (frame : FrameHeader).

Lemma remove_mailbox_bridge m : preserves st_bridge (remove_mailbox m).
Proof.
  intros st Hb. unfold remove_mailbox. rewrite bind_eq. cbn [registry_find fst snd].
  rewrite bind_eq. cbn [registry_remove modify fst snd].
  pose proof (bridge_remove _ _ m Hb) as Hb'. unfold xroute in Hb'.
  by destruct (r_registry st !! m ≫= xbuf_of).
Qed.

Lemma handle_mbx_delete_bridge m : preserves st_bridge (handle_mbx_delete m).
Proof.
  intros st Hb. unfold handle_mbx_delete. rewrite bind_eq.
  eapply bridge_quiet; [apply on_local_deleted_quiet|]. by apply (remove_mailbox_bridge m st).
Qed.

Lemma open_xbuf_bridge st : st_bridge st -> st_bridge (open_xbuf st).2.
Proof. by destruct (open_xbuf_ext st) as [plan ->]. Qed.

Lemma open_xbuf_fd st dev : (open_xbuf st).1 = Some dev -> 0 <= sk_fd dev.
Proof.
  unfold open_xbuf. destruct (xs_open (r_ext st)) as [|[s|] plan]; cbn; try done.
  destruct (Z.leb_spec 0 (sk_fd s)); [|done]. by intros [= <-].
Qed.

Lemma alter_insert_new {A} (h : gmap nat A) x a f : alter f x (<[x := a]> h) = <[x := f a]> h.
Proof.
  apply map_eq. intros y. destruct (decide (y = x)) as [->|].
  - by rewrite lookup_alter_eq, !lookup_insert_eq.
  - by rewrite lookup_alter_ne, !lookup_insert_ne.
Qed.

Lemma bridge_orphan r h x dev m :
  bridge_inv r h -> h !! x = None -> sk_fd dev < 0 -> bridge_inv r (<[x := mkXbuf dev m false]> h).
Proof.
  intros [Hw He Ho Hr] Hx Hfd. split; [done| | |].
  - intros m' y Hy. destruct (He m' y Hy) as (xe&Hxe&?). exists xe.
    rewrite lookup_insert_ne; [done|]. intros ->. congruence.
  - intros y xe. rewrite lookup_insert. case_decide; [|apply Ho]. intros [= <-]. cbn. lia.
  - intros y xe. rewrite lookup_insert. case_decide; [|apply Hr]. intros [= <-]. cbn. split; [done|lia].
Qed.

Lemma sock_close_fd s : sk_fd (sock_close s) < 0.
Proof. unfold sock_close. destruct (Z.leb_spec 0 (sk_fd s)); cbn; lia. Qed.

Lemma register_mailbox_bridge c m : preserves st_bridge (register_mailbox c m).
Proof.
  intros st Hb. unfold register_mailbox. rewrite bind_eq.
  apply open_xbuf_bridge in Hb. pose proof (open_xbuf_fd st) as Hfd.
  destruct (open_xbuf st) as [[dev|] st1]; cbn [fst snd] in *.
  - specialize (Hfd dev eq_refl). rewrite bind_eq. cbn [new_xbuf fst snd]. rewrite bind_eq.
    set (x := fresh (dom (xs_heap (r_ext st1)))).
    assert (xs_heap (r_ext st1) !! x = None) as Hx by (apply not_elem_of_dom, is_fresh).
    unfold registry_add. cbn [r_registry set_heap set_ext].
    destruct (r_registry st1 !! m) eqn:Hm; cbn [fst snd]; rewrite bind_eq; cbn [mret state_ret snd].
    + cbn [destroy_xbuf modify snd]. unfold st_bridge. cbn. rewrite alter_insert_new. cbn.
      apply bridge_orphan; [done|done|apply sock_close_fd].
    + rewrite bind_eq. cbn [mret state_ret snd].
      eapply bridge_quiet; [apply on_local_registered_quiet|].
      cbn [start_reader modify snd]. unfold st_bridge. cbn. rewrite alter_insert_new. cbn.
      by apply bridge_add_xbuf.
  - rewrite bind_eq. unfold registry_add.
    destruct (r_registry st1 !! m) eqn:Hm; cbn [fst snd]; [done|].
    rewrite bind_eq. cbn [mret state_ret snd].
    eapply bridge_quiet; [apply on_local_registered_quiet|].
    apply bridge_add_con; [done|done|by eexists|done].
Qed.

Lemma route_data_bridge c frame body : preserves st_bridge (route_data c frame body).
Proof.
  intros st Hb. destruct (route_data_effect c frame body st) as [Hq|(x&st1&->&Hq)];
    apply (bridge_quiet _ _ Hq); [done|].
  destruct (write_body_ext x body st) as (h&->&Hh). by apply (bridge_io _ _ _ Hb).
Qed.

Lemma dispatch_bridge c frame buf : preserves st_bridge (dispatch c frame buf).
Proof.
  intros st Hb. unfold dispatch. rewrite bind_eq. cbn [get_is_peer fst snd].
  destruct (f_type frame =? MSG_ROUTER_PEER_HELLO).
  { destruct (is_peer_con st c); [done|]. rewrite bind_eq.
    eapply bridge_quiet; [apply advertise_quietly|]. done. }
  destruct (f_type frame =? MSG_ROUTER_PEER_REGISTER).
  { destruct (_ || _); [done|]. rewrite bind_eq. unfold registry_add.
    destruct (r_registry st !! decode_mbx buf) eqn:Hm; [done|].
    apply bridge_add_con; [done|done|by eexists|done]. }
  destruct (f_type frame =? MSG_ROUTER_PEER_DELETE).
  { destruct (_ || _); [done|by apply remove_mailbox_bridge]. }
  destruct (f_type frame =? MSG_ROUTER_DISABLE_WATCHDOG); [done|].
  destruct (f_type frame =? MSG_ROUTER_MBX_INIT_WITH_REPLY).
  { destruct (_ <? _); [done|]. unfold handle_mbx_init. rewrite bind_eq.
    eapply bridge_quiet; [apply send_reply_quietly|]. by apply register_mailbox_bridge. }
  destruct (f_type frame =? MSG_ROUTER_MBX_DELETE).
  { destruct (_ <? _); [done|by apply handle_mbx_delete_bridge]. }
  by apply route_data_bridge.
Qed.

Lemma handle_frame_bridge c frame : preserves st_bridge (handle_frame c frame).
Proof.
  intros st Hb. unfold handle_frame. rewrite bind_eq.
  pose proof (bridge_quiet _ _ (read_body_quietly c frame st) Hb) as Hb'.
  destruct (read_body c frame st).1; [by apply dispatch_bridge|done].
Qed.

Lemma evl_dispatch_inv c frame buf st :
  looping st c -> router_inv st -> router_inv (dispatch c frame buf st).2.
Proof.
  intros Hc Hi. unfold dispatch. rewrite bind_eq. cbn [get_is_peer fst snd].
  destruct (f_type frame =? MSG_ROUTER_PEER_HELLO).
  { destruct (is_peer_con st c); [done|]. rewrite bind_eq, <- (advertise_quietly c _).
    by apply inv_update_con. }
  destruct (f_type frame =? MSG_ROUTER_PEER_REGISTER).
  { destruct (is_peer_con st c) eqn:Hp; cbn [negb orb]; [|done]. destruct (_ <? _); [done|].
    rewrite bind_eq. unfold registry_add. destruct (r_registry st !! decode_mbx buf); [done|].
    rewrite is_peer_con_view in Hp. destruct (view st c) as [[[[i p] w] ph]|] eqn:Hv; [|done].
    subst p. by eapply inv_learn. }
  destruct (f_type frame =? MSG_ROUTER_PEER_DELETE).
  { destruct (_ || _); [done|by apply remove_mailbox_inv]. }
  destruct (f_type frame =? MSG_ROUTER_DISABLE_WATCHDOG); [done|].
  destruct (f_type frame =? MSG_ROUTER_MBX_INIT_WITH_REPLY).
  { destruct (_ <? _); [done|]. unfold handle_mbx_init. rewrite bind_eq.
    rewrite <- (send_reply_quietly c _ _). by apply register_mailbox_inv. }
  destruct (f_type frame =? MSG_ROUTER_MBX_DELETE).
  { destruct (_ <? _); [done|by apply evl_mbx_delete_inv]. }
  by apply route_data_inv.
Qed.

Lemma evl_frame_keeps_inv c frame st :
  looping st c -> router_inv st -> router_inv (handle_frame c frame st).2.
Proof.
  intros Hc Hi. unfold handle_frame. rewrite bind_eq.
  pose proof (read_body_quietly c frame st) as Hq.
  destruct (read_body c frame st).1 as [buf|]; [|by rewrite <- Hq].
  apply evl_dispatch_inv; by rewrite <- Hq.
Qed.
End bridge_steps.

#[export] Instance evl_frame_handler : FrameHandler MailboxEntry xbufs :=
  {| RouterCore.handle_frame := handle_frame;
     RouterCore.handle_frame_inv := evl_frame_keeps_inv |}.

(** ** Reachable states *)

Section runs.
Implicit Types (st : EvlRouter) (c : nat) (m : Z).

Lemma con_finish_bridge c : preserves st_bridge (con_finish c).
Proof.
  intros st Hb. unfold con_finish. rewrite bind_eq. cbn [registry_remove_all modify snd].
  eapply bridge_shrink; [exact Hb| |].
  - intros m e. cbn. rewrite map_lookup_filter_Some. by intros [].
  - intros m. unfold xroute. cbn. rewrite map_lookup_filter.
    destruct (r_registry st !! m) as [e|]; cbn; [|done]. case_guard as Hg; [done|].
    cbn. unfold route_con, evl_entry, xbuf_of in *.
    repeat case_decide; intuition congruence.
Qed.

Lemma handle_event_bridge e : preserves st_bridge (handle_event handle_frame e).
Proof.
  destruct e; cbn [handle_event].
  - intros st Hb. destruct sock; exact Hb.
  - intros st Hb. destruct configured, sock; exact Hb.
  - apply preserves_for_each. intros [i [s|]] _ st Hb; exact Hb.
  - intros st Hb. unfold accept_iter. destruct (poll <=? 0), sock; exact Hb.
  - intros st Hb. unfold publish, modify. cbn. case_decide; exact Hb.
  - intros st Hb. unfold con_start. destruct (r_cons st !! c) as [con|]; [|done].
    case_decide; [|done]. rewrite bind_eq. destruct (con_is_peer con); [|done].
    by eapply bridge_quiet; [apply advertise_quietly|].
  - intros st Hb. unfold con_run_iter. destruct (r_cons st !! c) as [con|]; [|done].
    case_decide; [|done]. destruct stop; [by apply con_finish_bridge|].
    destruct (poll_in _ _ <=? 0); [done|]. destruct (recv_all _ _) as [[[] hdr] s].
    + by apply handle_frame_bridge.
    + by apply con_finish_bridge.
  - intros st Hb. eapply bridge_quiet; [|done]. apply run_connection_reader_quietly.
Qed.

Lemma sys_recv_fd s len : sk_fd (sys_recv s len).2 = sk_fd s.
Proof. unfold sys_recv. repeat case_match; done. Qed.

Lemma reader_iter_effect x stop poll st :
  exists h, quiet (set_heap h st) (reader_iter x stop poll st).2 /\
    forall y, (h !! y = xs_heap (r_ext st) !! y \/
      exists xe dev, xs_heap (r_ext st) !! y = Some xe /\ sk_fd dev = sk_fd (xb_dev xe) /\
        h !! y = Some (mkXbuf dev (xb_mailbox_id xe) (xb_reader xe))).
Proof.
  assert (st = set_heap (xs_heap (r_ext st)) st) as Est by by destruct st as [????????? []].
  assert (exists h, quiet (set_heap h st) st /\ forall y, h !! y = xs_heap (r_ext st) !! y \/
    exists xe dev, xs_heap (r_ext st) !! y = Some xe /\ sk_fd dev = sk_fd (xb_dev xe) /\
        h !! y = Some (mkXbuf dev (xb_mailbox_id xe) (xb_reader xe))) as Hid.
  { exists (xs_heap (r_ext st)). rewrite <- Est. split; [done|]. by left. }
  unfold reader_iter. destruct (xs_heap (r_ext st) !! x) as [xe|] eqn:Hx; [|done].
  destruct (_ || _); [done|]. destruct (poll_in _ _ <=? 0); [done|].
  pose proof (sys_recv_fd (xb_dev xe) (r_max_msg_size st)) as Hfd.
  destruct (sys_recv _ _) as [[n buf] dev]. cbn [snd] in Hfd.
  exists (<[x := mkXbuf dev (xb_mailbox_id xe) (xb_reader xe)]> (xs_heap (r_ext st))). split.
  - destruct (n <=? 0); [done|]. destruct (n <? _); [done|].
    rewrite bind_eq. cbn [registry_find fst snd]. destruct (_ ≫= route_con) as [con|]; [|done].
    refine (quietly_bind (forward con _ buf) _ (forward_quietly _ _ _) _ _).
    intros. apply quietly_ret.
  - intros y. destruct (decide (y = x)) as [->|]; [|by left; rewrite lookup_insert_ne].
    right. exists xe, dev. by rewrite lookup_insert_eq.
Qed.

Lemma evl_step_inv e st :
  router_inv st /\ st_bridge st -> router_inv (evl_step e st).2 /\ st_bridge (evl_step e st).2.
Proof.
  intros [Hi Hb]. destruct e as [e|x stop poll]; cbn [evl_step].
  - split; [exact (handle_event_inv (E := MailboxEntry) (X := xbufs) e st Hi)|by apply handle_event_bridge].
  - destruct (reader_iter_effect x stop poll st) as (h&Hq&Hh). split.
    + rewrite <- Hq. by apply inv_set_ext.
    + apply (bridge_quiet _ _ Hq). by apply (bridge_io _ _ _ Hb).
Qed.

Lemma evl_reachable_inv max st : evl_reachable max st -> router_inv st /\ st_bridge st.
Proof.
  intros (devices&es&<-).
  apply (preserves_for_each (fun st => router_inv st /\ st_bridge st) es evl_step).
  - intros e _. exact (evl_step_inv e).
  - split; [apply initial_inv|]. split; cbn.
    + intros m e. by rewrite lookup_empty.
    + intros m x. unfold xroute. by rewrite lookup_empty.
    + intros x xe. by rewrite lookup_empty.
    + intros x xe. by rewrite lookup_empty.
Qed.
End runs.
End Evl.
