(* ===== verification/EvlBridge.v ===== *)
(** * corerat-router-evl: the xbuf bridge

    What EvlRouter.v implies for the traffic between TCP clients and EVL
    mailboxes, and the interleaving of [MailboxRegistry::remove] with the reader
    thread of the xbuf entry it destroys. *)

From Stdlib Require Import ZArith Lia.
From stdpp Require Import base list gmap sets numbers relations.
From S2P Require Import Prelude Protocol TcpSocket RouterCore EvlRouter.

#[local] Open Scope Z_scope.

Import Evl.

(** C18. In every state the daemon can reach, a registered mailbox is either
    routed to a connection whose thread is in its loop, or to an xbuf object
    opened for that very mailbox, with an open descriptor and a running reader;
    and no other object holds a descriptor: none leaks, whatever the clients,
    the peers and the devices do. *)
Theorem evl_reachable_bridge max (st : EvlRouter) :
  evl_reachable max st ->
  (forall m e, r_registry st !! m = Some e ->
    (exists c con, route_con e = Some c /\ r_cons st !! c = Some con /\ con_phase con = Looping) \/
    (exists x xe, xbuf_of e = Some x /\ xs_heap (r_ext st) !! x = Some xe /\
       xb_mailbox_id xe = m /\ 0 <= sk_fd (xb_dev xe) /\ xb_reader xe = true)) /\
  (forall x xe, xs_heap (r_ext st) !! x = Some xe -> 0 <= sk_fd (xb_dev xe) ->
    exists e, r_registry st !! xb_mailbox_id xe = Some e /\ xbuf_of e = Some x).
Proof.
  intros [Hi [Hw He Ho Hr]]%evl_reachable_inv. split.
  - intros m e Hm. destruct (Hw m e Hm) as [[c Hc]|[x Hx]].
    + left. destruct (inv_live _ Hi m e c Hm Hc) as (i&p&w&Hv). unfold view in Hv.
      destruct (r_cons st !! c) as [con|] eqn:Hcon; [|done]. exists c, con.
      cbn in Hv. unfold con_view in Hv. split_and!; congruence.
    + right. destruct (He m x) as (xe&Hxe&Hm'&Hfd); [unfold xroute; by rewrite Hm|].
      exists x, xe. split_and!; auto. by apply (Hr x).
  - intros x xe Hx Hfd. pose proof (Ho x xe Hx Hfd) as Hxr. unfold xroute in Hxr.
    destruct (r_registry st !! xb_mailbox_id xe) as [e|]; [|done]. by exists e.
Qed.

Section data.
Implicit Types (st : EvlRouter) (c : nat) (frame : FrameHeader).

Lemma send_reply_ext c hdr st : r_ext (send_reply c hdr st).2 = r_ext st.
Proof. apply (quiet_ext _ _ (send_reply_quietly c hdr st)). Qed.

Lemma write_body_step x xe body st :
  xs_heap (r_ext st) !! x = Some xe -> 0 <= sk_fd (xb_dev xe) -> body <> [] ->
  exists k dev, (k <= length body)%nat /\ sent_on (xb_dev xe) dev (take k body) /\
    (no_send_error (xb_dev xe) -> k = length body) /\
    write_body x body st
    = (bool_decide (k = length body),
       set_heap (<[x := mkXbuf dev (xb_mailbox_id xe) (xb_reader xe)]> (xs_heap (r_ext st))) st).
Proof.
  intros Hx Hfd Hne. unfold write_body. rewrite Hx.
  destruct (Z.ltb_spec (sk_fd (xb_dev xe)) 0); [lia|].
  apply nonempty_zlen in Hne. destruct (Z.eqb_spec (zlen body) 0); [lia|]. cbn [orb].
  destruct (send_all_spec (xb_dev xe) body) as (k&Hs&Hk&Hok&Hne'). exists k.
  destruct (send_all (xb_dev xe) body) as [ok dev]. cbn [fst snd] in *. exists dev.
  split_and!; [done|done| |].
  - intros Hs'. destruct (Hne' Hs') as [Ht _]. rewrite Hok, bool_decide_eq_true in Ht. lia.
  - rewrite Hok. f_equal. apply bool_decide_ext. lia.
Qed.
End data.

(** STD to EVL: a data frame whose destination is an xbuf mailbox is
    stripped of its header and its body is written to the device of that mailbox
    alone, in order and once.  A device that does not take all of it has taken a
    proper prefix, and the sender, nobody else, gets MSG_ERROR. *)
Theorem tcp_to_xbuf c frame body (st : EvlRouter) e x xe :
  r_registry st !! f_dest frame = Some e -> route_con e = None -> xbuf_of e = Some x ->
  xs_heap (r_ext st) !! x = Some xe -> 0 <= sk_fd (xb_dev xe) -> body <> [] ->
  let st' := (route_data c frame body st).2 in
  exists k dev, (k <= length body)%nat /\ sent_on (xb_dev xe) dev (take k body) /\
    (no_send_error (xb_dev xe) -> k = length body) /\
    xs_heap (r_ext st') = <[x := mkXbuf dev (xb_mailbox_id xe) (xb_reader xe)]> (xs_heap (r_ext st)) /\
    forall d, send_ok st d ->
      con_tx st' d = con_tx st d ++
        if decide (d = c /\ k <> length body)
        then encode_frame (make_frame MSG_ERROR (f_src frame) 0 0 (f_seq_nr frame) 0) else [].
Proof.
  intros He Hc Hxb Hx Hfd Hne st'.
  destruct (write_body_step x xe body st Hx Hfd Hne) as (k&dev&Hk&Hs&Hok&Ew).
  exists k, dev. split_and!; [done..| |]; unfold st', route_data;
    rewrite bind_eq; cbn [registry_find fst snd]; rewrite He, Hc, Hxb, bind_eq, Ew; cbn [fst snd].
  - case_bool_decide; [done|]. unfold send_error. by rewrite send_reply_ext.
  - intros d Hd. case_bool_decide as Hkl.
    + rewrite decide_False by tauto. cbn. by rewrite app_nil_r.
    + set (st1 := set_heap _ st).
      destruct (send_reply_sends (E := MailboxEntry) (X := xbufs) c
        (make_frame MSG_ERROR (f_src frame) 0 0 (f_seq_nr frame) 0) st1 d Hd) as [_ E].
      unfold send_error. rewrite E. unfold only_to.
      change (con_tx st1 d) with (con_tx st d). f_equal. apply decide_ext. tauto.
Qed.

Lemma evl_handler : reads_then_dispatches handle_frame dispatch.
Proof. done. Qed.

Lemma xbuf_of_route_con e x : xbuf_of e = Some x -> route_con e = None.
Proof.
  unfold xbuf_of, route_con, evl_entry. case_decide as Hk; [|done]. rewrite Hk. intros _.
  case_decide as Hd; [|done]. by destruct Hd.
Qed.

Lemma evl_dispatch_data c hdr body (st : EvlRouter) :
  is_control (f_type hdr) = false -> dispatch c hdr body st = route_data c hdr body st.
Proof.
  unfold is_control. rewrite bool_decide_eq_false, !not_elem_of_cons. intros Ht. destruct_and! Ht.
  unfold dispatch. rewrite bind_eq. cbn [get_is_peer fst snd].
  repeat match goal with
  | |- context [f_type hdr =? ?t] => destruct (Z.eqb_spec (f_type hdr) t); [done|]
  end.
  done.
Qed.

(** The same for the iteration that reads the frame from its connection. *)
Lemma tcp_to_xbuf_iteration c (st : EvlRouter) con frame body rest poll e x xe :
  receiving st c con -> 0 < poll -> sk_rx (con_socket con) = encode_frame frame ++ body ++ rest ->
  wf_frame frame -> f_msglen frame = sizeof_FrameHeader + zlen body -> zlen body <= r_max_msg_size st ->
  is_control (f_type frame) = false ->
  r_registry st !! f_dest frame = Some e -> xbuf_of e = Some x ->
  xs_heap (r_ext st) !! x = Some xe -> 0 <= sk_fd (xb_dev xe) -> body <> [] ->
  let st' := (con_run_iter handle_frame c false poll st).2 in
  exists k dev, (k <= length body)%nat /\ sent_on (xb_dev xe) dev (take k body) /\
    (no_send_error (xb_dev xe) -> k = length body) /\
    xs_heap (r_ext st') = <[x := mkXbuf dev (xb_mailbox_id xe) (xb_reader xe)]> (xs_heap (r_ext st)) /\
    forall d, send_ok st d ->
      con_tx st' d = con_tx st d ++
        if decide (d = c /\ k <> length body)
        then encode_frame (make_frame MSG_ERROR (f_src frame) 0 0 (f_seq_nr frame) 0) else [].
Proof.
  intros Hrec Hpoll Hrx Hwf Hlen Hmax Hty He Hxb Hx Hfd Hne st'. pose proof Hrec as (Hc&_).
  destruct (iterate_frame evl_handler c st con frame body rest poll) as (s&E&_&_&Htx&Hsfd&Hsp); auto.
  unfold st'. rewrite E, evl_dispatch_data by done. set (st1 := set_cons _ st).
  destruct (tcp_to_xbuf c frame body st1 e x xe) as (k&dev&Hk&Hs&Hok&Hheap&Hcons); auto.
  { by eapply xbuf_of_route_con. }
  exists k, dev. split_and!; auto. intros d Hd. rewrite Hcons by by apply set_socket_send_ok.
  f_equal. by apply set_socket_tx.
Qed.

(** EVL to STD: what one read of a device returns, if it is at least a
    [WireHeader], goes as one frame to the connection that owns the [dest] of that
    header, with the length the receiver needs to take exactly these bytes back
    out; anything else is dropped and no connection receives a byte. *)
Theorem xbuf_to_tcp x xe poll (st : EvlRouter) n buf dev :
  xs_heap (r_ext st) !! x = Some xe -> xb_reader xe = true -> 0 <= sk_fd (xb_dev xe) -> 0 < poll ->
  sys_recv (xb_dev xe) (r_max_msg_size st) = (n, buf, dev) -> n < 2 ^ 32 - 16 ->
  let st' := (reader_iter x false poll st).2 in
  let routed := r_registry st !! wire_dest buf ≫= route_con in
  let frame := make_frame 0 (wire_dest buf) (wire_src buf) 0 0 n in
  (sizeof_WireHeader <= n -> frame_body_len frame = n) /\
  forall d, send_ok st d ->
    con_tx st' d = con_tx st d ++
      if decide (sizeof_WireHeader <= n /\ routed = Some d) then encode_frame frame ++ buf else [].
Proof.
  intros Hx Hrd Hfd Hpoll Hrecv Hn st' routed frame. split.
  { intros. apply frame_body_len_make. unfold sizeof_WireHeader in *. lia. }
  intros d Hd. unfold st', reader_iter. rewrite Hx, Hrd. cbn [negb orb].
  unfold poll_in. destruct (Z.ltb_spec (sk_fd (xb_dev xe)) 0); [lia|].
  destruct (Z.leb_spec poll 0); [lia|]. rewrite Hrecv.
  set (st1 := set_heap _ st). change (con_tx st d) with (con_tx st1 d).
  change (send_ok st1 d) in Hd. unfold sizeof_WireHeader in *.
  destruct (Z.leb_spec n 0); [rewrite decide_False by lia; by rewrite app_nil_r|].
  destruct (Z.ltb_spec n 32); [rewrite decide_False by lia; by rewrite app_nil_r|].
  rewrite bind_eq. cbn [registry_find fst snd].
  change (r_registry st1 !! wire_dest buf ≫= route_con) with routed.
  rewrite wrapu_id by (unfold in_u; lia). fold frame. clearbody routed frame.
  destruct routed as [con|]; [|rewrite decide_False by naive_solver; by rewrite app_nil_r].
  rewrite bind_eq. cbn [mret state_ret snd].
  destruct (forward_sends con frame buf st1 d Hd) as [_ E]. rewrite E. unfold only_to.
  f_equal. apply decide_ext. naive_solver lia.
Qed.

(** A frame that arrives from the upstream router for an xbuf mailbox is
    consumed and lost: no connection and no device receives anything of it, and
    nobody is told. *)
Theorem upstream_frame_for_xbuf_lost l poll (st : EvlRouter) s s' frame body e :
  get_link l st = Some (s, false) -> 0 <= sk_fd s -> 0 < poll ->
  read_frame (r_max_msg_size st) s = (Some (frame, body), s') ->
  r_registry st !! f_dest frame = Some e -> e_kind e = KXbuf ->
  let st' := (run_connection_reader l false poll st).2 in
  r_cons st' = r_cons st /\ r_ext st' = r_ext st.
Proof.
  intros Hl Hfd Hpoll Hread He Hk st'. unfold st', run_connection_reader. rewrite Hl.
  unfold poll_in. destruct (Z.ltb_spec (sk_fd s) 0); [lia|].
  destruct (Z.leb_spec poll 0); [lia|]. rewrite Hread, bind_eq. cbn [registry_find fst snd].
  assert (r_registry (set_link l s' false st) !! f_dest frame = Some e) as -> by by destruct l.
  cbn [mbind option_bind]. assert (route_con e = None) as ->.
  { unfold route_con, evl_entry. rewrite Hk. case_decide as Hd; [|done]. by destruct Hd. }
  by destruct l.
Qed.

(** ** Removing an xbuf mailbox while its reader runs

    [MailboxRegistry::remove] destroys the erased entry while it holds
    [mutex_] exclusively; [~XbufEntry] closes the descriptor and then the
    destructor of [reader_thread_] requests a stop and joins.  The reader takes
    [mutex_] shared in [find].  One step per action of a thread. *)

Module Teardown.
Inductive lock := Unlocked | Exclusive | Shared.

(** The thread in [remove]: before the lock, holding it, in the join, after. *)
Inductive remover := RBefore | RErase | RJoin | RAfter.

(** The reader thread: loop head, in [poll], before, in and after [find]
    (to [forward]), returned. *)
Inductive reader := LHead | LPoll | LBeforeFind | LInFind | LForward | LReturned.

#[export] Instance reader_eq_dec : EqDecision reader.
Proof. solve_decision. Defined.

Record threads := mkThreads {
  t_lock : lock;
  t_remover : remover;
  t_reader : reader;
  t_fd_open : bool;
  t_stop : bool
}.

Inductive step : threads -> threads -> Prop :=
  | s_lock l fd s : step (mkThreads Unlocked RBefore l fd s) (mkThreads Exclusive RErase l fd s)
  | s_erase k l fd s : step (mkThreads k RErase l fd s) (mkThreads k RJoin l false true)
  | s_join k fd s : step (mkThreads k RJoin LReturned fd s) (mkThreads Unlocked RAfter LReturned fd s)
  | s_stop k r fd : step (mkThreads k r LHead fd true) (mkThreads k r LReturned fd true)
  | s_loop k r fd : step (mkThreads k r LHead fd false) (mkThreads k r LPoll fd false)
  | s_timeout k r fd s : step (mkThreads k r LPoll fd s) (mkThreads k r LHead fd s)
  | s_message k r s : step (mkThreads k r LPoll true s) (mkThreads k r LBeforeFind true s)
  | s_find r fd s : step (mkThreads Unlocked r LBeforeFind fd s) (mkThreads Shared r LInFind fd s)
  | s_found r fd s : step (mkThreads Shared r LInFind fd s) (mkThreads Unlocked r LForward fd s)
  | s_forward k r fd s : step (mkThreads k r LForward fd s) (mkThreads k r LHead fd s).

Definition start : threads := mkThreads Unlocked RBefore LHead true false.

Definition terminated (t : threads) : Prop := t_remover t = RAfter /\ t_reader t = LReturned.

(** The lock belongs to whom the program counters say. *)
Definition lock_inv (t : threads) : Prop :=
  match t_remover t with
  | RErase | RJoin => t_lock t = Exclusive /\ t_reader t <> LInFind
  | RBefore => t_lock t = (if decide (t_reader t = LInFind) then Shared else Unlocked)
  | RAfter => t_reader t = LReturned
  end.

Lemma lock_inv_step t t' : lock_inv t -> step t t' -> lock_inv t'.
Proof.
  intros Hi Hs. destruct Hs; cbn in *; try destruct r; cbn in *; intuition (try congruence).
  all: repeat case_decide; intuition congruence.
Qed.

Lemma lock_inv_reachable t : rtc step start t -> lock_inv t.
Proof.
  intros Hs. assert (lock_inv start) as Hi by done. revert Hi.
  induction Hs; eauto using lock_inv_step.
Qed.
End Teardown.

(** C39. Removing an xbuf mailbox can deadlock the daemon: the reader has taken
    a message from the device and waits for the registry while [remove] holds it
    and waits for the reader.  This is the only way the two threads can get
    stuck: every other reachable state has a step or both are done. *)
Theorem xbuf_removal_deadlock :
  (exists t, rtc Teardown.step Teardown.start t /\ ~ Teardown.terminated t /\
     forall t', ~ Teardown.step t t') /\
  forall t, rtc Teardown.step Teardown.start t -> (forall t', ~ Teardown.step t t') ->
    ~ Teardown.terminated t ->
    Teardown.t_remover t = Teardown.RJoin /\ Teardown.t_reader t = Teardown.LBeforeFind /\
    Teardown.t_lock t = Teardown.Exclusive.
Proof.
  split.
  - exists (Teardown.mkThreads Teardown.Exclusive Teardown.RJoin Teardown.LBeforeFind false true).
    split_and!.
    + eapply rtc_l; [apply Teardown.s_loop|]. eapply rtc_l; [apply Teardown.s_message|].
      eapply rtc_l; [apply Teardown.s_lock|]. eapply rtc_l; [apply Teardown.s_erase|].
      apply rtc_refl.
    + by intros [? ?].
    + intros t' Hs. inversion Hs.
  - intros [k r l fd s] Hr Hstuck Hnt. apply Teardown.lock_inv_reachable in Hr.
    unfold Teardown.lock_inv, Teardown.terminated in *. cbn in *.
    destruct r, l; cbn in *; destruct_and?; subst; try done; try tauto; exfalso;
      try (destruct s); eapply Hstuck; constructor.
Qed.

(** ** Witnesses *)

Definition sample_devices : list (option TcpSocket) :=
  [Some (sock_of_fd 9 (le_bytes 4 1 ++ le_bytes 4 34 ++ le_bytes 8 0 ++ le_bytes 4 1
     ++ le_bytes 4 71 ++ le_bytes 4 70 ++ le_bytes 4 0 ++ [5; 6]) [] [])].

Definition init_bytes (m : Z) : bytes :=
  encode_frame (make_frame MSG_ROUTER_MBX_INIT_WITH_REPLY 0 7 0 1 4) ++ encode_mbx m.

(** Connection 0 registers mailbox 70, which has a device, and then mailbox 71. *)
Definition sample_events : list evl_event :=
  [ Core (EvAccept 1 (Some (sock_of_fd 5 (init_bytes 70 ++ init_bytes 71) [] [])));
    Core (EvPublish 0%nat); Core (EvStart 0%nat);
    Core (EvIterate 0%nat false 1); Core (EvIterate 0%nat false 1) ].

Definition sample : EvlRouter := (evl_run sample_events (evl_initial 4096 sample_devices)).2.

Definition sample_xbuf : XbufEntry := mkXbuf
  (sock_of_fd 9 (le_bytes 4 1 ++ le_bytes 4 34 ++ le_bytes 8 0 ++ le_bytes 4 1
     ++ le_bytes 4 71 ++ le_bytes 4 70 ++ le_bytes 4 0 ++ [5; 6]) [] []) 70 true.

Lemma sample_heap : xs_heap (r_ext sample) !! 0%nat = Some sample_xbuf.
Proof. vm_compute. reflexivity. Qed.

Lemma sample_entry : r_registry sample !! 70 = Some (mkEntry KXbuf None (Some 0%nat)).
Proof. vm_compute. reflexivity. Qed.

Lemma evl_reachable_bridge_witness :
  exists e, r_registry sample !! 70 = Some e /\ xbuf_of e = Some 0%nat.
Proof.
  destruct (evl_reachable_bridge 4096 sample) as [_ H].
  - exists sample_devices, sample_events. reflexivity.
  - apply (H 0%nat sample_xbuf); [apply sample_heap|by_compute].
Defined.

Lemma tcp_to_xbuf_witness :
  exists k dev, (k <= 3)%nat /\ sent_on (xb_dev sample_xbuf) dev (take k [1; 2; 3]).
Proof.
  destruct (tcp_to_xbuf 0%nat (make_frame 1 70 7 0 1 3) [1; 2; 3] sample
    (mkEntry KXbuf None (Some 0%nat)) 0%nat sample_xbuf) as (k&dev&H1&H2&_).
  - apply sample_entry.
  - reflexivity.
  - reflexivity.
  - apply sample_heap.
  - by_compute.
  - discriminate.
  - exists k, dev. split; [exact H1|exact H2].
Defined.

Lemma xbuf_to_tcp_witness :
  frame_body_len (make_frame 0 71 70 0 0 34) = 34.
Proof.
  destruct (xbuf_to_tcp 0%nat sample_xbuf 1 sample 34 (sk_rx (xb_dev sample_xbuf))
    (sock_of_fd 9 [] [] [])) as [H _].
  - apply sample_heap.
  - reflexivity.
  - by_compute.
  - by_compute.
  - vm_compute. reflexivity.
  - by_compute.
  - exact (H ltac:(by_compute)).
Defined.

(** The sample router with an upstream connection that delivers a frame. *)
Definition sample_up : EvlRouter :=
  set_upstream (sock_of_fd 8 (encode_frame (make_frame 1 70 9 0 1 1) ++ [4]) [] []) false sample.

Lemma upstream_frame_for_xbuf_lost_witness :
  r_ext (run_connection_reader LinkUpstream false 1 sample_up).2 = r_ext sample_up.
Proof.
  destruct (upstream_frame_for_xbuf_lost LinkUpstream 1 sample_up (r_upstream_socket sample_up)
    (sock_of_fd 8 [] [] []) (make_frame 1 70 9 0 1 1) [4] (mkEntry KXbuf None (Some 0%nat)))
    as [_ H].
  - reflexivity.
  - by_compute.
  - by_compute.
  - vm_compute. reflexivity.
  - vm_compute. reflexivity.
  - reflexivity.
  - exact H.
Defined.
