(* ===== verification/EvlShared.v ===== *)
(** * What corerat-router-evl repeats of corerat-router-tcp

    The members of src/router/evl_router.cpp that are those of RouterCore.v at
    the registry entries of this daemon, and the theorem that a corerat-router-evl
    on a machine without xbuf devices behaves as corerat-router-tcp does: run
    on the same events, the two daemons stay in states that are related by
    [same], with the same bytes on every connection.  What is shown of TCP
    traffic in TcpRouter.v and TcpDelivery.v therefore holds of it as well. *)

From Stdlib Require Import ZArith Lia.
From stdpp Require Import base list gmap sets numbers.
From S2P Require Import Prelude Protocol TcpSocket RouterCore TcpRouter EvlRouter.

#[local] Open Scope Z_scope.

#[local] Existing Instance Tcp.connection_entry.
#[local] Existing Instance Evl.evl_entry.
#[local] Abbreviation TcpRouter := (Router nat unit).

(** ** The members *)
Module EvlMember.

Abbreviation EvlRouter := (Router Evl.MailboxEntry Evl.xbufs).
Implicit Types (c : nat) (m : Z).

(** MailboxRegistry *)
Definition add_tcp m c : state EvlRouter bool := registry_add m (Evl.mkEntry Evl.KTcp (Some c) None).
Definition add_xbuf m (x : nat) : state EvlRouter bool := registry_add m (Evl.mkEntry Evl.KXbuf None (Some x)).
Definition add_peer m c : state EvlRouter bool := registry_add m (Evl.mkEntry Evl.KPeer (Some c) None).
Definition remove_all_for_con c : state EvlRouter unit := registry_remove_all c.
Definition find m : state EvlRouter (option Evl.MailboxEntry) := registry_find m.

(** Connection *)
Definition forward c hdr body : state EvlRouter bool := RouterCore.forward c hdr body.
Definition send_peer_register m c : state EvlRouter unit := RouterCore.send_peer_register m c.
Definition send_peer_delete m c : state EvlRouter unit := RouterCore.send_peer_delete m c.
Definition is_peer c : state EvlRouter bool := get_is_peer c.
Definition advertise_as_peer c : state EvlRouter unit := RouterCore.advertise_as_peer c.
Definition read_body c frame : state EvlRouter (option bytes) := RouterCore.read_body c frame.
Definition con_start c : state EvlRouter unit := RouterCore.con_start c.
Definition con_finish c : state EvlRouter unit := RouterCore.con_finish c.
Definition con_run_iter c stop poll : state EvlRouter unit :=
  RouterCore.con_run_iter Evl.handle_frame c stop poll.

(** EvlRouter *)
Definition on_local_registered m : state EvlRouter unit := RouterCore.on_local_registered m.
Definition on_local_deleted m : state EvlRouter unit := RouterCore.on_local_deleted m.
Definition local_mailboxes_snapshot : state EvlRouter (list Z) := RouterCore.local_mailboxes_snapshot.
Definition forward_to_upstream hdr body : state EvlRouter bool := RouterCore.forward_to_upstream hdr body.
Definition accept_iter poll sock : state EvlRouter unit := RouterCore.accept_iter poll sock.
Definition connect_to_upstream configured sock : state EvlRouter unit :=
  RouterCore.connect_to_upstream configured sock.
Definition connect_to_system_routes configs : state EvlRouter unit :=
  RouterCore.connect_to_system_routes configs.
Definition run_connection_reader l stop poll : state EvlRouter unit :=
  RouterCore.run_connection_reader l stop poll.
Definition connect_to_peer sock : state EvlRouter unit := RouterCore.connect_to_peer sock.
Definition publish c : state EvlRouter unit := RouterCore.publish c.
Definition broadcast_to_peers (fn : nat -> state EvlRouter unit) : state EvlRouter unit :=
  RouterCore.broadcast_to_peers fn.
End EvlMember.

Abbreviation EvlRouter := (Router Evl.MailboxEntry Evl.xbufs).

(** ** The relation between the daemons

    The same mailboxes on the same connections, the same connections but for
    the watchdog flag, which only corerat-router-tcp keeps and neither reads, and
    no device to open. *)
Definition clear_watchdog (con : Connection) : Connection := con_set_watchdog true con.

Record same (st : EvlRouter) (st' : TcpRouter) : Prop := {
  same_max : r_max_msg_size st = r_max_msg_size st';
  same_registry m : r_registry st' !! m = r_registry st !! m ≫= route_con;
  same_routes m e : r_registry st !! m = Some e -> is_Some (route_con e);
  same_cons c : clear_watchdog <$> r_cons st !! c = clear_watchdog <$> r_cons st' !! c;
  same_connections : r_connections st = r_connections st';
  same_index : r_next_index st = r_next_index st';
  same_upstream : r_upstream_socket st = r_upstream_socket st';
  same_upstream_done : r_upstream_done st = r_upstream_done st';
  same_system : r_system_connections st = r_system_connections st';
  same_local : r_local_mailboxes st = r_local_mailboxes st';
  same_devices : Evl.xs_open (r_ext st) = []
}.

(** The computations answer the same and keep the relation. *)
Definition sim {A} (m : state EvlRouter A) (m' : state TcpRouter A) : Prop :=
  forall st st', same st st' -> (m st).1 = (m' st').1 /\ same (m st).2 (m' st').2.

Lemma sim_ret {A} (a : A) : sim (mret a) (mret a).
Proof. by intros st st'. Qed.

Lemma sim_bind {A B} (m : state EvlRouter A) m' (f : A -> state EvlRouter B) f' :
  sim m m' -> (forall a, sim (f a) (f' a)) -> sim (m ≫= f) (m' ≫= f').
Proof.
  intros Hm Hf st st' Hs. rewrite !bind_eq. destruct (Hm st st' Hs) as [<- Hs']. by apply Hf.
Qed.

Lemma sim_if {A} (b : bool) (m1 m2 : state EvlRouter A) m1' m2' :
  sim m1 m1' -> sim m2 m2' -> sim (if b then m1 else m2) (if b then m1' else m2').
Proof. by destruct b. Qed.

Lemma sim_for_each {A} (l : list A) (f : A -> state EvlRouter unit) f' :
  (forall x, sim (f x) (f' x)) -> sim (for_each l f) (for_each l f').
Proof. intros Hf. induction l as [|x l IH]; [apply sim_ret|]. by apply sim_bind. Qed.

Create HintDb sim.
#[export] Hint Resolve sim_ret sim_bind sim_if sim_for_each : sim.

(** Connections correspond. *)
Lemma same_con st st' c :
  same st st' ->
  (r_cons st !! c = None /\ r_cons st' !! c = None) \/
  exists con con', r_cons st !! c = Some con /\ r_cons st' !! c = Some con' /\
    clear_watchdog con = clear_watchdog con'.
Proof.
  intros Hs. pose proof (same_cons _ _ Hs c) as E.
  destruct (r_cons st !! c) as [con|], (r_cons st' !! c) as [con'|]; [|discriminate E..|by left].
  right. exists con, con'. by apply (inj Some) in E.
Qed.

Lemma clear_watchdog_eq con con' :
  clear_watchdog con = clear_watchdog con' ->
  con_socket con = con_socket con' /\ con_index con = con_index con' /\
  con_is_peer con = con_is_peer con' /\ con_phase con = con_phase con'.
Proof. destruct con, con'. cbn. intros [=]. by subst. Qed.

Lemma clear_watchdog_socket s con con' :
  clear_watchdog con = clear_watchdog con' ->
  clear_watchdog (con_set_socket s con) = clear_watchdog (con_set_socket s con').
Proof. destruct con, con'. cbn. intros [=]. by subst. Qed.

Lemma same_set_cons st st' h h' :
  same st st' -> (forall c, clear_watchdog <$> h !! c = clear_watchdog <$> h' !! c) ->
  same (set_cons h st) (set_cons h' st').
Proof. intros [] Hh. by split. Qed.

Lemma same_insert st st' c con con' :
  same st st' -> clear_watchdog con = clear_watchdog con' ->
  same (set_cons (<[c := con]> (r_cons st)) st) (set_cons (<[c := con']> (r_cons st')) st').
Proof.
  intros Hs E. apply same_set_cons; [done|]. intros d. destruct (decide (c = d)) as [<-|].
  - rewrite !lookup_insert_eq. exact (f_equal Some E).
  - rewrite !lookup_insert_ne by done. apply (same_cons _ _ Hs).
Qed.

Lemma same_is_peer st st' c : same st st' -> is_peer_con st c = is_peer_con st' c.
Proof.
  intros Hs. unfold is_peer_con. destruct (same_con st st' c Hs) as [[-> ->]|(con&con'&->&->&E)]; [done|].
  by apply clear_watchdog_eq in E as (_&_&?&_).
Qed.

Lemma same_peers st st' : same st st' -> peers_of st = peers_of st'.
Proof.
  intros Hs. unfold peers_of. rewrite (same_connections _ _ Hs).
  apply List.filter_ext. intros c. by apply same_is_peer.
Qed.

(** ** The shared members *)

Lemma sim_con_send c bs : sim (con_send c bs) (con_send c bs).
Proof.
  intros st st' Hs. unfold con_send. destruct (same_con st st' c Hs) as [[-> ->]|(con&con'&->&->&E)]; [done|].
  destruct (clear_watchdog_eq _ _ E) as (->&Ei&Ep&Eph). destruct (send_all (con_socket con') bs) as [ok s].
  split; [done|]. by apply same_insert, clear_watchdog_socket.
Qed.

Lemma sim_update_con c f :
  (forall con con', clear_watchdog con = clear_watchdog con' -> clear_watchdog (f con) = clear_watchdog (f con')) ->
  sim (update_con c f) (update_con c f).
Proof.
  intros Hf st st' Hs. split; [done|]. cbn. apply same_set_cons; [done|]. intros d.
  destruct (decide (d = c)) as [->|].
  - rewrite !lookup_alter_eq. destruct (same_con st st' c Hs) as [[-> ->]|(con&con'&->&->&E)]; [done|].
    cbn. f_equal. by apply Hf.
  - rewrite !lookup_alter_ne by done. apply (same_cons _ _ Hs).
Qed.

#[export] Hint Resolve sim_con_send : sim.

Lemma sim_forward c hdr body : sim (EvlMember.forward c hdr body) (forward c hdr body).
Proof. unfold EvlMember.forward, forward. auto with sim. Qed.

Lemma sim_send_peer_register m c : sim (EvlMember.send_peer_register m c) (send_peer_register m c).
Proof. unfold EvlMember.send_peer_register, send_peer_register. auto 6 with sim. Qed.

Lemma sim_send_peer_delete m c : sim (EvlMember.send_peer_delete m c) (send_peer_delete m c).
Proof. unfold EvlMember.send_peer_delete, send_peer_delete. auto 6 with sim. Qed.

Lemma sim_send_reply c hdr : sim (send_reply c hdr) (send_reply c hdr).
Proof. unfold send_reply. auto with sim. Qed.

Lemma sim_broadcast (f : nat -> state EvlRouter unit) f' :
  (forall c, sim (f c) (f' c)) -> sim (EvlMember.broadcast_to_peers f) (broadcast_to_peers f').
Proof.
  intros Hf st st' Hs. unfold EvlMember.broadcast_to_peers, broadcast_to_peers.
  rewrite !bind_eq. cbn [get_state fst snd]. rewrite (same_peers st st' Hs). by apply (sim_for_each _ f f' Hf).
Qed.

Lemma sim_set_local f :
  sim (modify (fun st => set_local (f (r_local_mailboxes st)) st))
      (modify (fun st => set_local (f (r_local_mailboxes st)) st)).
Proof. intros st st' []. split; [done|]. cbn. split; try done; cbn; congruence. Qed.

Lemma sim_on_local_registered m : sim (EvlMember.on_local_registered m) (on_local_registered m).
Proof.
  apply sim_bind; [apply (sim_set_local (fun l => {[m]} ∪ l))|]. intros _.
  apply sim_broadcast. intros c. apply sim_send_peer_register.
Qed.

Lemma sim_on_local_deleted m : sim (EvlMember.on_local_deleted m) (on_local_deleted m).
Proof.
  apply sim_bind; [apply (sim_set_local (fun l => l ∖ {[m]}))|]. intros _.
  apply sim_broadcast. intros c. apply sim_send_peer_delete.
Qed.

Lemma sim_snapshot : sim EvlMember.local_mailboxes_snapshot local_mailboxes_snapshot.
Proof. intros st st' Hs. cbn. by rewrite (same_local _ _ Hs). Qed.

Lemma sim_advertise c : sim (EvlMember.advertise_as_peer c) (advertise_as_peer c).
Proof.
  apply sim_bind; [apply sim_con_send|]. intros _. apply sim_bind; [apply sim_snapshot|]. intros ms.
  apply sim_for_each. intros m. apply sim_send_peer_register.
Qed.

Lemma sim_is_peer c : sim (EvlMember.is_peer c) (get_is_peer c).
Proof. intros st st' Hs. split; [by apply same_is_peer|done]. Qed.

Lemma sim_read_body c frame : sim (EvlMember.read_body c frame) (read_body c frame).
Proof.
  intros st st' Hs. unfold EvlMember.read_body, read_body. rewrite (same_max _ _ Hs).
  destruct (same_con st st' c Hs) as [[-> ->]|(con&con'&->&->&E)]; [done|].
  destruct (clear_watchdog_eq _ _ E) as (->&Ei&Ep&Eph).
  assert (forall s, same (set_cons (<[c := con_set_socket s con]> (r_cons st)) st)
    (set_cons (<[c := con_set_socket s con']> (r_cons st')) st')) as Hset.
  { intros s. by apply same_insert, clear_watchdog_socket. }
  destruct (_ <? _); [split; [done|apply Hset]|]. destruct (0 <? _); [|done].
  destruct (recv_all (con_socket con') (frame_body_len frame)) as [[ok body] s]. split; [done|apply Hset].
Qed.

Lemma sim_forward_to_upstream hdr body :
  sim (EvlMember.forward_to_upstream hdr body) (forward_to_upstream hdr body).
Proof.
  intros st st' Hs. unfold EvlMember.forward_to_upstream, forward_to_upstream.
  rewrite (same_system _ _ Hs), (same_upstream _ _ Hs), (same_upstream_done _ _ Hs).
  destruct (send_to_system _ _ _ _) as [[ok scs]|].
  { split; [done|]. destruct Hs. by split. }
  destruct (sock_is_open _); [|done]. destruct (link_send _ _ _) as [ok s].
  split; [done|]. destruct Hs. by split.
Qed.

#[export] Hint Resolve sim_forward sim_send_reply sim_is_peer sim_read_body sim_forward_to_upstream
  sim_on_local_registered sim_on_local_deleted sim_advertise : sim.

(** ** The registry *)

Lemma same_set_registry st st' r r' :
  same st st' -> (forall m, r' !! m = r !! m ≫= route_con) ->
  (forall m e, r !! m = Some e -> is_Some (route_con e)) ->
  same (set_registry r st) (set_registry r' st').
Proof. intros [] Hr Hc. by split. Qed.

Lemma sim_add m (e : Evl.MailboxEntry) c :
  route_con e = Some c -> sim (registry_add m e) (registry_add m c).
Proof.
  intros He st st' Hs. unfold registry_add. rewrite (same_registry _ _ Hs m).
  destruct (r_registry st !! m) as [e'|] eqn:E; cbn.
  - destruct (same_routes _ _ Hs m e' E) as [c' ->]. done.
  - split; [done|]. apply same_set_registry; [done|..]; intros m'; (destruct (decide (m = m')) as [<-|];
    [rewrite !lookup_insert_eq|rewrite !lookup_insert_ne by done]).
    + by cbn.
    + apply (same_registry _ _ Hs).
    + intros ? [= <-]. eauto.
    + apply (same_routes _ _ Hs).
Qed.

Lemma sim_remove m : sim (Evl.remove_mailbox m) (registry_remove m).
Proof.
  intros st st' Hs. unfold Evl.remove_mailbox. rewrite !bind_eq. cbn [registry_find registry_remove modify fst snd].
  assert (same (set_registry (delete m (r_registry st)) st) (set_registry (delete m (r_registry st')) st')) as Hd.
  { apply same_set_registry; [done|..]; intros m'; (destruct (decide (m = m')) as [<-|];
    [rewrite !lookup_delete_eq|rewrite !lookup_delete_ne by done]); try done.
    - apply (same_registry _ _ Hs).
    - apply (same_routes _ _ Hs). }
  destruct (r_registry st !! m) as [e|] eqn:E; cbn [mbind option_bind]; [|done].
  destruct (same_routes _ _ Hs m e E) as [c Hc]. unfold route_con, Evl.evl_entry in Hc. unfold Evl.xbuf_of.
  rewrite decide_False; [done|]. intros Hk. rewrite Hk, decide_False in Hc by naive_solver. done.
Qed.

Lemma sim_remove_all c : sim (EvlMember.remove_all_for_con c) (registry_remove_all c).
Proof.
  intros st st' Hs. split; [done|]. cbn. apply same_set_registry; [done|..].
  - intros m. rewrite !map_lookup_filter. rewrite (same_registry _ _ Hs).
    destruct (r_registry st !! m) as [e|] eqn:E; cbn; [|done].
    destruct (same_routes _ _ Hs m e E) as [d Hd]. rewrite Hd. cbn. unfold route_con at 1, Tcp.connection_entry.
    destruct (decide (Some d <> Some c)); [rewrite !option_guard_True by (try rewrite Hd; done)|
      rewrite !option_guard_False by (try rewrite Hd; done)]; cbn; by rewrite ?Hd.
  - intros m e He. apply map_lookup_filter_Some in He as [He _]. by apply (same_routes _ _ Hs m).
Qed.

(** What is found, and where frames for it go. *)
Lemma same_find st st' m :
  same st st' ->
  (r_registry st !! m = None /\ r_registry st' !! m = None) \/
  exists e c, r_registry st !! m = Some e /\ route_con e = Some c /\ r_registry st' !! m = Some c.
Proof.
  intros Hs. rewrite (same_registry _ _ Hs m). destruct (r_registry st !! m) as [e|] eqn:E; [|by left].
  right. destruct (same_routes _ _ Hs m e E) as [c Hc]. exists e, c. by rewrite Hc.
Qed.

(** ** Registration: the reply and the advertisement change places *)

(** [m] does not notice what is sent to [c]. *)
Definition unaware {A} (c : nat) (m : state TcpRouter A) : Prop :=
  forall bs st, is_peer_con st c = false ->
    m (con_send c bs st).2 = ((m st).1, (con_send c bs (m st).2).2) /\ is_peer_con (m st).2 c = false.

Lemma unaware_ret {A} c (a : A) : unaware c (mret a).
Proof. done. Qed.

Lemma unaware_bind {A B} c (m : state TcpRouter A) (f : A -> state TcpRouter B) :
  unaware c m -> (forall a, unaware c (f a)) -> unaware c (m ≫= f).
Proof.
  intros Hm Hf bs st Hp. rewrite !bind_eq. destruct (Hm bs st Hp) as [E Hp']. rewrite E. cbn [fst snd].
  by apply Hf.
Qed.

Lemma is_peer_con_send c d bs (st : TcpRouter) : is_peer_con (con_send d bs st).2 c = is_peer_con st c.
Proof.
  unfold con_send, is_peer_con. destruct (r_cons st !! d) as [con|] eqn:E; [|done].
  destruct (send_all _ _) as [ok s]. cbn. destruct (decide (d = c)) as [<-|].
  - by rewrite lookup_insert_eq, E.
  - by rewrite lookup_insert_ne.
Qed.

(** Sending as a function of the heap of connections. *)
Definition sent (bs : bytes) (con : Connection) : Connection :=
  con_set_socket (send_all (con_socket con) bs).2 con.

Lemma con_send_alter c bs (st : TcpRouter) :
  con_send c bs st =
  (match r_cons st !! c with Some con => (send_all (con_socket con) bs).1 | None => false end,
   set_cons (alter (sent bs) c (r_cons st)) st).
Proof.
  unfold con_send. destruct (r_cons st !! c) as [con|] eqn:E.
  - unfold sent. rewrite (surjective_pairing (send_all (con_socket con) bs)). do 2 f_equal.
    apply map_eq. intros d. destruct (decide (d = c)) as [->|].
    + by rewrite lookup_insert_eq, lookup_alter_eq, E.
    + by rewrite lookup_insert_ne, lookup_alter_ne.
  - f_equal. destruct st. cbn in *. unfold set_cons. cbn. f_equal.
    apply map_eq. intros d. destruct (decide (d = c)) as [->|].
    + by rewrite lookup_alter_eq, E.
    + by rewrite lookup_alter_ne.
Qed.

Lemma unaware_con_send c d bs : d <> c -> unaware c (con_send d bs).
Proof.
  intros Hne bs' st Hp. split; [|by rewrite is_peer_con_send].
  rewrite !con_send_alter. cbn [fst snd r_cons set_cons]. rewrite lookup_alter_ne by done. f_equal.
  unfold set_cons. cbn. f_equal. by apply alter_alter_ne.
Qed.

Lemma unaware_set_local c g : unaware c (modify (fun st => set_local (g (r_local_mailboxes st)) st)).
Proof.
  intros bs st Hp. split; [|done]. unfold con_send. cbn. destruct (r_cons st !! c) as [con|]; [|done].
  by destruct (send_all _ _).
Qed.

Lemma unaware_for_each {A} c (l : list A) (f : A -> state TcpRouter unit) :
  (forall x, x ∈ l -> unaware c (f x)) -> unaware c (for_each l f).
Proof.
  induction l as [|x l IH]; intros Hf; [apply unaware_ret|]. apply unaware_bind; [apply Hf; by left|].
  intros _. apply IH. intros. apply Hf. by right.
Qed.

Lemma peers_of_con_send c bs (st : TcpRouter) : peers_of (con_send c bs st).2 = peers_of st.
Proof.
  unfold peers_of. transitivity (List.filter (is_peer_con st) (r_connections (con_send c bs st).2)).
  - apply List.filter_ext. intros d. apply is_peer_con_send.
  - unfold con_send. destruct (r_cons st !! c); [|done]. by destruct (send_all _ _).
Qed.

Lemma unaware_on_local_registered c m : unaware c (on_local_registered m).
Proof.
  apply unaware_bind; [apply (unaware_set_local c (fun l => {[m]} ∪ l))|]. intros _ bs st Hp.
  unfold broadcast_to_peers. rewrite !bind_eq. cbn [get_state fst snd]. rewrite peers_of_con_send.
  apply unaware_for_each; [|done]. intros d Hd.
  assert (d <> c) as Hne.
  { intros ->. unfold peers_of in Hd. apply list_elem_of_In, List.filter_In in Hd as [_ Hd]. congruence. }
  unfold send_peer_register. apply unaware_bind; [by apply unaware_con_send|]. intros _.
  apply unaware_bind; [by apply unaware_con_send|]. intros _. apply unaware_ret.
Qed.

Lemma same_mbx_init c frame m st st' :
  same st st' -> is_peer_con st' c = false ->
  same (Evl.handle_mbx_init c frame m st).2 (Tcp.handle_mbx_init c frame m st').2.
Proof.
  intros Hs Hp. unfold Evl.handle_mbx_init, Evl.register_mailbox, Tcp.handle_mbx_init.
  rewrite !bind_eq. unfold Evl.open_xbuf. rewrite (same_devices _ _ Hs). cbn [fst snd].
  rewrite bind_eq.
  destruct (sim_add m (Evl.mkEntry Evl.KTcp (Some c) None) c eq_refl st st' Hs) as [E Hs1].
  assert (is_peer_con (registry_add m c st').2 c = false) as Hp1.
  { unfold registry_add. by destruct (r_registry st' !! m). }
  rewrite E. destruct (registry_add m c st') as [ok st1']. cbn [fst snd] in *.
  destruct (registry_add m _ st) as [ok' st1]. cbn [fst snd] in *. destruct ok.
  - cbv beta iota. unfold send_reply. rewrite !bind_eq. cbn [fst snd mret state_ret].
    destruct (unaware_on_local_registered c m (encode_frame (make_frame MSG_OK (f_src frame) 0 0 (f_seq_nr frame) 0)) st1' Hp1)
      as [-> _]. cbn [fst snd].
    apply sim_con_send. apply (sim_on_local_registered m _ _ Hs1).
  - cbv beta iota. by apply sim_send_reply.
Qed.

(** ** handle_frame *)

Lemma sim_send_error c frame :
  sim (Evl.send_error c frame) (send_reply c (make_frame MSG_ERROR (f_src frame) 0 0 (f_seq_nr frame) 0)).
Proof. exact (sim_send_reply c (make_frame MSG_ERROR (f_src frame) 0 0 (f_seq_nr frame) 0)). Qed.

Lemma sim_route_data c frame body : sim (Evl.route_data c frame body) (Tcp.route_data c frame body).
Proof.
  intros st st' Hs. unfold Evl.route_data, Tcp.route_data. rewrite !(bind_eq (registry_find _)).
  cbn [registry_find fst snd].
  destruct (same_find st st' (f_dest frame) Hs) as [[-> ->]|(e&d&->&Hd&->)]; [|rewrite Hd]; revert st st' Hs.
  - apply sim_bind; [apply sim_is_peer|]. intros b. apply sim_if; [apply sim_ret|].
    apply sim_bind; [apply sim_forward_to_upstream|]. intros b'. apply sim_if; [apply sim_ret|apply sim_send_error].
  - apply sim_bind; [apply sim_forward|]. intros _. apply sim_ret.
Qed.

Lemma sim_mbx_delete m : sim (Evl.handle_mbx_delete m) (Tcp.handle_mbx_delete m).
Proof. apply sim_bind; [apply sim_remove|]. intros _. apply sim_on_local_deleted. Qed.

(** A connection that registers a mailbox is not a peer: its reply goes out
    before the advertisement in one daemon, after it in the other. *)
Definition orderly (frame : FrameHeader) (c : nat) (st' : TcpRouter) : Prop :=
  f_type frame = MSG_ROUTER_MBX_INIT_WITH_REPLY -> is_peer_con st' c = false.

Lemma same_watchdog c st st' :
  same st st' -> same st (update_con c (con_set_watchdog false) st').2.
Proof.
  intros Hs. assert (same st (set_cons (alter (con_set_watchdog false) c (r_cons st')) st')) as H.
  { destruct Hs. split; try done. cbn. intros d. destruct (decide (d = c)) as [->|].
    - rewrite lookup_alter_eq, same_cons0. by destruct (r_cons st' !! c).
    - by rewrite lookup_alter_ne. }
  exact H.
Qed.

Lemma same_dispatch c frame buf st st' :
  same st st' -> orderly frame c st' ->
  same (Evl.dispatch c frame buf st).2 (Tcp.dispatch c frame buf st').2.
Proof.
  intros Hs Ho. unfold Evl.dispatch, Tcp.dispatch. rewrite !bind_eq. cbn [get_is_peer fst snd].
  rewrite (same_is_peer st st' c Hs).
  destruct (_ =? MSG_ROUTER_PEER_HELLO).
  { destruct (is_peer_con st' c); [done|]. apply sim_bind; [|intros _; apply sim_advertise|done].
    apply sim_update_con. intros [] []. cbn. intros [=]. by subst. }
  destruct (_ =? MSG_ROUTER_PEER_REGISTER).
  { destruct (_ || _); [done|]. apply sim_bind; [by apply sim_add|intros; apply sim_ret|done]. }
  destruct (_ =? MSG_ROUTER_PEER_DELETE).
  { destruct (_ || _); [done|]. by apply sim_remove. }
  destruct (_ =? MSG_ROUTER_DISABLE_WATCHDOG); [by apply same_watchdog|].
  destruct (Z.eqb_spec (f_type frame) MSG_ROUTER_MBX_INIT_WITH_REPLY) as [Et|].
  { destruct (_ <? _); [done|]. apply same_mbx_init; auto. }
  destruct (_ =? MSG_ROUTER_MBX_DELETE).
  { destruct (_ <? _); [done|]. by apply sim_mbx_delete. }
  by apply sim_route_data.
Qed.

Lemma is_peer_read_body c frame (st : TcpRouter) : is_peer_con (read_body c frame st).2 c = is_peer_con st c.
Proof.
  unfold read_body, is_peer_con. destruct (r_cons st !! c) as [con|] eqn:E; cbn; [|by rewrite E].
  destruct (_ <? _); cbn; [by rewrite lookup_insert_eq|].
  destruct (0 <? _); cbn; [|by rewrite E]. destruct (recv_all _ _) as [[ok body] s]. cbn. by rewrite lookup_insert_eq.
Qed.

Lemma same_handle_frame c frame st st' :
  same st st' -> orderly frame c st' ->
  same (Evl.handle_frame c frame st).2 (Tcp.handle_frame c frame st').2.
Proof.
  intros Hs Ho. unfold Evl.handle_frame, Tcp.handle_frame. rewrite !bind_eq.
  destruct (sim_read_body c frame st st' Hs) as [E Hs1]. unfold EvlMember.read_body in E, Hs1. rewrite E.
  destruct (read_body c frame st').1 as [buf|]; [|done].
  apply same_dispatch; [done|]. intros Et. rewrite is_peer_read_body. by apply Ho.
Qed.

(** ** The events *)

Lemma sim_con_start c : sim (EvlMember.con_start c) (con_start c).
Proof.
  intros st st' Hs. unfold EvlMember.con_start, con_start.
  destruct (same_con st st' c Hs) as [[-> ->]|(con&con'&->&->&E)]; [done|].
  destruct (clear_watchdog_eq _ _ E) as (_&_&->&->). destruct (decide _); [|done].
  apply sim_bind; [| |done].
  - apply sim_update_con. intros [] []. cbn. intros [=]. by subst.
  - intros _. apply sim_if; [apply sim_advertise|apply sim_ret].
Qed.

Lemma sim_con_finish c : sim (EvlMember.con_finish c) (con_finish c).
Proof.
  apply sim_bind; [apply sim_remove_all|]. intros _. apply sim_update_con.
  intros [] []. cbn. intros [=]. by subst.
Qed.

(** The header that an iteration of connection [c] reads, if it gets there. *)
Definition next_header (c : nat) (st : TcpRouter) : option FrameHeader :=
  match r_cons st !! c with
  | Some con =>
      let '(ok, hdr, _) := recv_all (con_socket con) sizeof_FrameHeader in
      if (ok : bool) then Some (decode_frame hdr) else None
  | None => None
  end.

Lemma same_con_run_iter c stop poll st st' :
  same st st' -> (forall frame, next_header c st' = Some frame -> orderly frame c st') ->
  same (EvlMember.con_run_iter c stop poll st).2 (con_run_iter Tcp.handle_frame c stop poll st').2.
Proof.
  intros Hs Ho. unfold EvlMember.con_run_iter, con_run_iter, next_header in *.
  destruct (same_con st st' c Hs) as [[-> ->]|(con&con'&Hc&Hc'&E)]; [done|]. rewrite Hc, Hc' in *.
  destruct (clear_watchdog_eq _ _ E) as (->&Ei&Ep&->). destruct (decide _); [|done].
  destruct stop; [by apply sim_con_finish|]. destruct (_ <=? 0); [done|].
  destruct (recv_all (con_socket con') sizeof_FrameHeader) as [[ok hdr] s].
  assert (same (set_cons (<[c := con_set_socket s con]> (r_cons st)) st)
    (set_cons (<[c := con_set_socket s con']> (r_cons st')) st')) as Hset.
  { by apply same_insert, clear_watchdog_socket. }
  destruct ok; [|by apply sim_con_finish]. apply same_handle_frame; [done|].
  intros Et. specialize (Ho _ eq_refl Et). unfold is_peer_con in *. cbn. rewrite lookup_insert_eq.
  by rewrite Hc' in Ho.
Qed.

Lemma same_dom st st' : same st st' -> dom (r_cons st) = dom (r_cons st').
Proof.
  intros Hs. apply set_eq. intros c. rewrite !elem_of_dom.
  destruct (same_con st st' c Hs) as [[-> ->]|(con&con'&->&->&_)]; [done|]. split; eauto.
Qed.

Lemma sim_new_connection sock is_peer : sim (new_connection sock is_peer) (new_connection sock is_peer).
Proof.
  intros st st' Hs. unfold new_connection. cbn [fst snd]. rewrite (same_dom _ _ Hs), (same_index _ _ Hs).
  split; [done|]. pose proof (same_cons _ _ Hs) as Hc. destruct Hs. split; try done; cbn.
  - intros d. destruct (decide (fresh (dom (r_cons st')) = d)) as [->|];
    [by rewrite !lookup_insert_eq|by rewrite !lookup_insert_ne].
Qed.

Lemma sim_publish c : sim (EvlMember.publish c) (publish c).
Proof.
  intros st st' Hs. split; [done|]. cbn.
  assert (c ∈ r_connections st \/ r_cons st !! c = None <-> c ∈ r_connections st' \/ r_cons st' !! c = None) as Hiff.
  { rewrite (same_connections _ _ Hs).
    destruct (same_con st st' c Hs) as [[-> ->]|(con&con'&->&->&_)]; [done|]. naive_solver. }
  destruct (decide (c ∈ r_connections st \/ _)); [rewrite decide_True by tauto|rewrite decide_False by tauto]; [done|].
  rewrite (same_connections _ _ Hs), (same_index _ _ Hs). destruct Hs. by split.
Qed.

Lemma sim_connect_to_peer sock : sim (EvlMember.connect_to_peer sock) (connect_to_peer sock).
Proof.
  destruct sock; [|apply sim_ret]. apply sim_bind; [apply sim_new_connection|]. intros _. apply sim_ret.
Qed.

Lemma sim_accept_iter poll sock : sim (EvlMember.accept_iter poll sock) (accept_iter poll sock).
Proof.
  unfold EvlMember.accept_iter, accept_iter. apply sim_if; [apply sim_ret|].
  destruct sock; [|apply sim_ret]. apply sim_bind; [apply sim_new_connection|]. intros _. apply sim_ret.
Qed.

Lemma sim_connect_to_upstream configured sock :
  sim (EvlMember.connect_to_upstream configured sock) (connect_to_upstream configured sock).
Proof.
  apply sim_if; [apply sim_ret|]. destruct sock; intros st st' []; (split; [done|]); by split.
Qed.

Lemma sim_connect_to_system_routes configs :
  sim (EvlMember.connect_to_system_routes configs) (connect_to_system_routes configs).
Proof.
  apply sim_for_each. intros [sys_id [sock|]]; [|apply sim_ret]. intros st st' Hs. split; [done|]. cbn.
  rewrite (same_system _ _ Hs). destruct Hs. by split.
Qed.

Lemma sim_run_connection_reader l stop poll :
  sim (EvlMember.run_connection_reader l stop poll) (run_connection_reader l stop poll).
Proof.
  intros st st' Hs. unfold EvlMember.run_connection_reader, run_connection_reader.
  assert (get_link l st = get_link l st') as ->.
  { destruct l; cbn; by rewrite ?(same_upstream _ _ Hs), ?(same_upstream_done _ _ Hs), ?(same_system _ _ Hs). }
  assert (forall s done, same (set_link l s done st) (set_link l s done st')) as Hl.
  { intros s done. destruct l; cbn; rewrite ?(same_system _ _ Hs); destruct Hs; by split. }
  destruct (get_link l st') as [[s [|]]|]; [done| |done].
  destruct stop; [split; [done|apply Hl]|]. destruct (_ <=? 0); [done|].
  rewrite (same_max _ _ Hs). destruct (read_frame _ s) as [[[frame body]|] s1]; [|split; [done|apply Hl]].
  specialize (Hl s1 false). revert Hl. generalize (set_link l s1 false st), (set_link l s1 false st').
  intros st1 st1' Hs1. rewrite !(bind_eq (registry_find _)). cbn [registry_find fst snd].
  destruct (same_find st1 st1' (f_dest frame) Hs1) as [[-> ->]|(e&d&->&Hd&->)]; [done|].
  cbn [mbind option_bind]. rewrite Hd. cbn [route_con Tcp.connection_entry].
  apply (sim_bind _ _ (fun _ => mret tt) (fun _ => mret tt) (sim_forward d frame body)); [|done].
  intros _. apply sim_ret.
Qed.

(** Only the iterations of connections ask for the order. *)
Definition orderly_event (e : event) (st' : TcpRouter) : Prop :=
  match e with
  | EvIterate c _ _ => forall frame, next_header c st' = Some frame -> orderly frame c st'
  | _ => True
  end.

Fixpoint orderly_run (es : list event) (st' : TcpRouter) : Prop :=
  match es with
  | [] => True
  | e :: es => orderly_event e st' /\ orderly_run es (handle_event Tcp.handle_frame e st').2
  end.

Lemma same_step e st st' :
  same st st' -> orderly_event e st' ->
  same (Evl.evl_step (Evl.Core e) st).2 (handle_event Tcp.handle_frame e st').2.
Proof.
  intros Hs Ho. destruct e as [sock|configured sock|configs|poll sock|c|c|c stop poll|l stop poll]; cbn [Evl.evl_step handle_event].
  - by apply sim_connect_to_peer.
  - by apply sim_connect_to_upstream.
  - by apply sim_connect_to_system_routes.
  - by apply sim_accept_iter.
  - by apply sim_publish.
  - by apply sim_con_start.
  - by apply same_con_run_iter.
  - by apply sim_run_connection_reader.
Qed.

Lemma same_run es st st' :
  same st st' -> orderly_run es st' ->
  same (Evl.evl_run (map Evl.Core es) st).2 (run_events Tcp.handle_frame es st').2.
Proof.
  revert st st'. induction es as [|e es IH]; intros st st' Hs Ho; [done|]. destruct Ho as [He Ho].
  unfold Evl.evl_run, run_events in *. cbn [map for_each]. rewrite !bind_eq. apply IH; [|done]. by apply same_step.
Qed.

Lemma same_initial max : same (Evl.evl_initial max []) (initial max tt).
Proof. split; try done; cbn; intros; by rewrite ?lookup_empty in *. Qed.

(** C7. A corerat-router-evl that finds no xbuf device is a corerat-router-tcp:
    fed with the same connections, bytes and kernel answers in any order, both
    have written the same bytes to every connection and upstream link and route
    every mailbox to the same connection, as long as no peer registers a mailbox
    of its own (to such a peer the two daemons send the reply and the
    advertisement in different order). *)
Theorem evl_router_without_devices max es :
  orderly_run es (initial max tt) ->
  let evl := (Evl.evl_run (map Evl.Core es) (Evl.evl_initial max [])).2 in
  let tcp := (run_events Tcp.handle_frame es (initial max tt)).2 in
  (forall c, con_tx evl c = con_tx tcp c) /\
  (forall l, get_link l evl = get_link l tcp) /\
  (forall m, r_registry evl !! m ≫= route_con = r_registry tcp !! m) /\
  same evl tcp.
Proof.
  intros Ho evl tcp. assert (same evl tcp) as Hs by (by apply same_run, Ho; apply same_initial).
  split_and!; [| | |done].
  - intros c. unfold con_tx. destruct (same_con evl tcp c Hs) as [[-> ->]|(con&con'&->&->&E)]; [done|].
    by apply clear_watchdog_eq in E as [-> _].
  - intros l. destruct l; cbn; by rewrite ?(same_upstream _ _ Hs), ?(same_upstream_done _ _ Hs), ?(same_system _ _ Hs).
  - intros m. by rewrite (same_registry _ _ Hs).
Qed.

(** Two clients register mailboxes 7 and 9, and 9 sends a message to 7. *)
Lemma evl_router_without_devices_witness :
  let init m := encode_frame (make_frame MSG_ROUTER_MBX_INIT_WITH_REPLY 0 m 0 0 sizeof_MbxInitPayload) ++ encode_mbx m in
  let data := encode_frame (make_frame 10 7 9 0 0 2) ++ [1; 2] in
  let es := [EvAccept 1 (Some (sock_of_fd 4 (init 7) [] [])); EvAccept 1 (Some (sock_of_fd 5 (init 9 ++ data) [] []));
    EvPublish 0; EvPublish 1; EvStart 0; EvStart 1; EvIterate 0 false 1; EvIterate 1 false 1; EvIterate 1 false 1] in
  let evl := (Evl.evl_run (map Evl.Core es) (Evl.evl_initial 4096 [])).2 in
  let tcp := (run_events Tcp.handle_frame es (initial 4096 tt)).2 in
  (forall c, con_tx evl c = con_tx tcp c) /\
  length (con_tx evl 0) = 34%nat /\ r_registry evl !! 7 ≫= route_con = Some 0%nat.
Proof.
  intros init data es evl tcp. split; [|split; vm_compute; reflexivity].
  apply (evl_router_without_devices 4096 es).
  repeat (split; [first [exact I|intros frame _ _; vm_compute; reflexivity]|]). exact I.
Defined.
