(* ===== verification/Resources.v ===== *)
(** * Kernel resources and the objects that own them

    The classes File, Thread and TcpSocket and the routers' ServerSocket own
    descriptors (or joinable threads) of the kernel.  This file models the
    kernel side of that ownership, the logic in which their member functions
    are verified, and the interface [Owner] with its laws [OwnerSpec],
    against which the theorem about pools of such objects is proved once.  PlatformFile.v and
    PlatformThread.v implement the interface. *)

From Stdlib Require Import ZArith Lia.
From stdpp Require Import base list gmap sets numbers.
From S2P Require Import Prelude.

#[local] Open Scope Z_scope.

(** ** The kernel

    [k_open] are the descriptors that are open, or the threads neither joined
    nor detached.  [k_plan] holds the answers of the next creating calls: a
    negative one is the error the call returns, another one is the descriptor
    the kernel chooses, unless it is in use; with an empty plan calls succeed.
    [k_faults] records every release of something that was not open. *)
Record Kernel := mkKernel {
  k_open : gset nat;
  k_plan : list Z;
  k_faults : list nat
}.

Definition choose (r : Z) (used : gset nat) : nat :=
  if decide (Z.to_nat r ∈ used) then fresh used else Z.to_nat r.

(** [::open], [::socket], [::accept], [evl_create_proxy], [pthread_create]. *)
Definition sys_create : state Kernel Z := fun k =>
  match k_plan k with
  | [] => let fd := fresh (k_open k) in (Z.of_nat fd, mkKernel ({[fd]} ∪ k_open k) [] (k_faults k))
  | r :: plan =>
      if r <? 0 then (r, mkKernel (k_open k) plan (k_faults k))
      else let fd := choose r (k_open k) in
           (Z.of_nat fd, mkKernel ({[fd]} ∪ k_open k) plan (k_faults k))
  end.

(** [::close], [pthread_join], [pthread_detach]; a negative descriptor is
    refused with EBADF. *)
Definition sys_release (fd : Z) : state Kernel unit := fun k =>
  if fd <? 0 then (tt, k)
  else if decide (Z.to_nat fd ∈ k_open k)
  then (tt, mkKernel (k_open k ∖ {[Z.to_nat fd]}) (k_plan k) (k_faults k))
  else (tt, mkKernel (k_open k) (k_plan k) (Z.to_nat fd :: k_faults k)).

(** ** Ownership

    [owns l k]: the open descriptors are those of [l], each listed once.
    [keeps pre m post]: whoever else holds [R], running [m] with [pre] leaves
    [post] of its result, and releases nothing that is not open. *)

Definition owns (l : list nat) (k : Kernel) : Prop := l ≡ₚ elements (k_open k).

Definition keeps {A} (pre : list nat) (m : state Kernel A) (post : A -> list nat) : Prop :=
  forall R k, owns (pre ++ R) k ->
    owns (post (m k).1 ++ R) (m k).2 /\ k_faults (m k).2 = k_faults k.

(** The descriptor in an [int], -1 for none. *)
Definition held (fd : Z) : list nat := if 0 <=? fd then [Z.to_nat fd] else [].

#[export] Instance owns_proper : Proper ((≡ₚ) ==> (=) ==> iff) owns.
Proof. intros l1 l2 Hl k ? <-. unfold owns. by rewrite Hl. Qed.

Lemma held_neg fd : fd < 0 -> held fd = [].
Proof. unfold held. destruct (Z.leb_spec 0 fd); [lia|done]. Qed.

Lemma held_nonneg fd : 0 <= fd -> held fd = [Z.to_nat fd].
Proof. unfold held. by destruct (Z.leb_spec 0 fd); [|lia]. Qed.

Lemma keeps_ret {A} (a : A) pre post : pre ≡ₚ post a -> keeps pre (mret a) post.
Proof. intros Hp R k Ho. cbn. by rewrite <- Hp. Qed.

Lemma keeps_bind {A B} pre (m : state Kernel A) mid (f : A -> state Kernel B) post :
  keeps pre m mid -> (forall a, keeps (mid a) (f a) post) -> keeps pre (m ≫= f) post.
Proof.
  intros Hm Hf R k Ho. rewrite bind_eq. destruct (Hm R k Ho) as [Ho1 E1].
  destruct (Hf (m k).1 R _ Ho1) as [Ho2 E2]. split; [done|]. by rewrite E2.
Qed.

(** With what is known of the answer whatever the kernel does. *)
Lemma keeps_bind_fact {A B} (P : A -> Prop) pre (m : state Kernel A) mid (f : A -> state Kernel B) post :
  keeps pre m mid -> (forall k, P (m k).1) -> (forall a, P a -> keeps (mid a) (f a) post) ->
  keeps pre (m ≫= f) post.
Proof.
  intros Hm HP Hf R k Ho. rewrite bind_eq. destruct (Hm R k Ho) as [Ho1 E1].
  destruct (Hf (m k).1 (HP k) R _ Ho1) as [Ho2 E2]. split; [done|]. by rewrite E2.
Qed.

Lemma keeps_perm {A} pre pre' (m : state Kernel A) post post' :
  keeps pre m post -> pre' ≡ₚ pre -> (forall a, post a ≡ₚ post' a) -> keeps pre' m post'.
Proof.
  intros Hm Hpre Hpost R k Ho. rewrite Hpre in Ho. destruct (Hm R k Ho) as [Ho' E].
  by rewrite Hpost in Ho'.
Qed.

Lemma keeps_frame {A} F pre (m : state Kernel A) post :
  keeps pre m post -> keeps (pre ++ F) m (fun a => post a ++ F).
Proof.
  intros Hm R k. rewrite <- !(assoc_L (++)). exact (Hm (F ++ R) k).
Qed.

Lemma keeps_if {A} (b : bool) pre (m1 m2 : state Kernel A) post :
  (b = true -> keeps pre m1 post) -> (b = false -> keeps pre m2 post) ->
  keeps pre (if b then m1 else m2) post.
Proof. destruct b; auto. Qed.

Lemma elements_add (x : nat) (s : gset nat) : x ∉ s -> elements ({[x]} ∪ s) ≡ₚ x :: elements s.
Proof. apply elements_union_singleton. Qed.

Lemma elements_remove (x : nat) (s : gset nat) : x ∈ s -> elements s ≡ₚ x :: elements (s ∖ {[x]}).
Proof.
  intros Hx. rewrite <- elements_add by (apply not_elem_of_difference; right; by apply elem_of_singleton).
  by rewrite <- (union_difference_singleton_L x s).
Qed.

Lemma choose_fresh r used : choose r used ∉ used.
Proof. unfold choose. destruct (decide _); [apply is_fresh|done]. Qed.

Lemma keeps_create : keeps [] sys_create held.
Proof.
  intros R k Ho. unfold owns in *. cbn [app] in Ho.
  assert (forall fd plan, fd ∉ k_open k ->
    held (Z.of_nat fd) ++ R ≡ₚ elements (k_open (mkKernel ({[fd]} ∪ k_open k) plan (k_faults k)))) as Hnew.
  { intros fd plan Hfd. rewrite held_nonneg, Nat2Z.id by lia. cbn. by rewrite elements_add, Ho. }
  unfold sys_create. destruct (k_plan k) as [|r plan]; cbn [fst snd].
  - split; [apply Hnew, is_fresh|done].
  - destruct (Z.ltb_spec r 0); cbn [fst snd].
    + by rewrite held_neg.
    + split; [apply Hnew, choose_fresh|done].
Qed.

Lemma keeps_release fd : 0 <= fd -> keeps [Z.to_nat fd] (sys_release fd) (fun _ => []).
Proof.
  intros Hfd R k Ho. unfold owns in *. unfold sys_release. destruct (Z.ltb_spec fd 0); [lia|].
  assert (Z.to_nat fd ∈ k_open k) as Hin.
  { apply elem_of_elements. rewrite <- Ho. by left. }
  destruct (decide _); [|done]. cbn. split; [|done].
  rewrite (elements_remove (Z.to_nat fd)) in Ho by done. by apply Permutation_cons_inv in Ho.
Qed.

Lemma keeps_release_held fd : keeps (held fd) (sys_release fd) (fun _ => []).
Proof.
  destruct (Z.leb_spec 0 fd); [rewrite held_nonneg by lia; by apply keeps_release|].
  rewrite held_neg by lia. intros R k Ho. unfold sys_release. by destruct (Z.ltb_spec fd 0); [|lia].
Qed.

(** [if (fd >= 0) { ::close(fd); fd = -1; }] *)
Definition close_fd (fd : Z) : state Kernel Z :=
  if 0 <=? fd then _ ← sys_release fd; mret (-1) else mret fd.

Lemma keeps_close_fd fd : keeps (held fd) (close_fd fd) (fun _ => []).
Proof.
  unfold close_fd. apply keeps_if; intros E.
  - eapply keeps_bind; [apply keeps_release_held|]. intros ?. by apply keeps_ret.
  - rewrite held_neg by lia. by apply keeps_ret.
Qed.

Lemma close_fd_neg fd k : (close_fd fd k).1 < 0.
Proof. unfold close_fd, mbind, state_bind. destruct (Z.leb_spec 0 fd), (sys_release fd k); cbn; lia. Qed.

Create HintDb resources.
#[export] Hint Resolve keeps_create keeps_release keeps_close_fd : resources.

(** ** The interface

    [acquire] is [open], [connect] or [start], [release] is [close] or [join];
    [move_from] answers the moved-to and the moved-from object. *)
Class Owner (H A : Type) : Type := {
  holds : H -> list nat;
  new_object : H;
  acquire : A -> H -> state Kernel (bool * H);
  release : H -> state Kernel H;
  move_from : H -> H * H;
  move_to : H -> H -> state Kernel (H * H)
}.

Class OwnerSpec (H A : Type) `{Owner H A} := {
  new_object_holds : holds new_object = [];
  acquire_keeps a h : keeps (holds h) (acquire a h) (fun r => holds r.2);
  release_keeps h : keeps (holds h) (release h) (fun _ => []);
  release_holds h k : holds (release h k).1 = [];
  move_from_holds h : holds (move_from h).1 = holds h /\ holds (move_from h).2 = [];
  move_to_keeps h other :
    keeps (holds h ++ holds other) (move_to h other) (fun r => holds r.1 ++ holds r.2);
  move_to_source h other k : holds (move_to h other k).1.2 = []
}.

(** ** A program that uses such objects

    [Object o] is an object at an address; assigning an object to itself is
    the [this != &other] test of every [operator=]. *)
Section pool.
Context {H A : Type} `{Owner H A}.

Inductive object_event :=
  | Construct (o : nat)
  | Acquire (o : nat) (a : A)
  | Release (o : nat)
  | MoveConstruct (o source : nat)
  | MoveAssign (o source : nat)
  | Destroy (o : nat).

Record Pool := mkPool { p_kernel : Kernel; p_objects : gmap nat H }.

Definition with_kernel {B} (m : state Kernel B) (f : B -> gmap nat H) (p : Pool) : Pool :=
  mkPool (m (p_kernel p)).2 (f (m (p_kernel p)).1).

(** An event on objects that do not exist, or a construction where one exists,
    is no step of a C++ program. *)
Definition pool_step (e : object_event) (p : Pool) : Pool :=
  let objs := p_objects p in
  match e with
  | Construct o =>
      if decide (objs !! o = None) then mkPool (p_kernel p) (<[o := new_object]> objs) else p
  | Acquire o a =>
      match objs !! o with
      | Some h => with_kernel (acquire a h) (fun r => <[o := r.2]> objs) p
      | None => p
      end
  | Release o =>
      match objs !! o with
      | Some h => with_kernel (release h) (fun h => <[o := h]> objs) p
      | None => p
      end
  | MoveConstruct o source =>
      match objs !! source with
      | Some h =>
          if decide (objs !! o = None)
          then mkPool (p_kernel p) (<[o := (move_from h).1]> (<[source := (move_from h).2]> objs))
          else p
      | None => p
      end
  | MoveAssign o source =>
      match objs !! o, objs !! source with
      | Some h, Some other =>
          if decide (o = source) then p
          else with_kernel (move_to h other) (fun r => <[o := r.1]> (<[source := r.2]> objs)) p
      | _, _ => p
      end
  | Destroy o =>
      match objs !! o with
      | Some h => with_kernel (release h) (fun _ => delete o objs) p
      | None => p
      end
  end.

Definition pool_run (es : list object_event) (p : Pool) : Pool := fold_left (fun p e => pool_step e p) es p.

(** What the objects hold, all together. *)
Definition held_by (objs : gmap nat H) : list nat := map_to_list objs ≫= (fun oh => holds oh.2).

Definition pool_inv (p : Pool) : Prop :=
  owns (held_by (p_objects p)) (p_kernel p) /\ k_faults (p_kernel p) = [].

Lemma held_by_insert_new o h (objs : gmap nat H) :
  objs !! o = None -> held_by (<[o := h]> objs) ≡ₚ holds h ++ held_by objs.
Proof. intros Ho. unfold held_by. by rewrite map_to_list_insert. Qed.

Lemma held_by_lookup o h (objs : gmap nat H) :
  objs !! o = Some h -> held_by objs ≡ₚ holds h ++ held_by (delete o objs).
Proof.
  intros Ho. rewrite <- held_by_insert_new by apply lookup_delete_eq.
  by rewrite insert_delete_eq, insert_id.
Qed.

Lemma held_by_insert o h (objs : gmap nat H) :
  held_by (<[o := h]> objs) ≡ₚ holds h ++ held_by (delete o objs).
Proof. rewrite <- insert_delete_eq. apply held_by_insert_new, lookup_delete_eq. Qed.

Context `{!OwnerSpec H A}.

(** A computation on part of the pool, with the rest as its frame. *)
Lemma with_kernel_inv {B} (m : state Kernel B) pre post rest f (p : Pool) :
  keeps pre m post -> held_by (p_objects p) ≡ₚ pre ++ rest ->
  (forall b, held_by (f b) ≡ₚ post b ++ rest) -> pool_inv p -> pool_inv (with_kernel m f p).
Proof.
  intros Hm Hpre Hpost [Ho Hf]. unfold pool_inv, with_kernel. cbn.
  rewrite Hpost. rewrite Hpre in Ho. destruct (Hm rest _ Ho) as [Ho' ->]. done.
Qed.

Lemma pool_step_inv e p : pool_inv p -> pool_inv (pool_step e p).
Proof.
  intros Hi. destruct e as [o|o a|o|o source|o source|o]; cbn [pool_step].
  - destruct (decide _); [|done]. destruct Hi as [Ho Hf]. split; [|done]. cbn.
    by rewrite held_by_insert_new, new_object_holds.
  - destruct (p_objects p !! o) as [h|] eqn:E; [|done].
    eapply with_kernel_inv; [apply (acquire_keeps a h)|by apply held_by_lookup| |done].
    intros [b h']. apply held_by_insert.
  - destruct (p_objects p !! o) as [h|] eqn:E; [|done]. unfold pool_inv, with_kernel. cbn.
    rewrite held_by_insert, release_holds. destruct Hi as [Ho Hf]. rewrite (held_by_lookup o h) in Ho by done.
    destruct (release_keeps h _ _ Ho) as [? ->]. done.
  - destruct (p_objects p !! source) as [h|] eqn:E; [|done]. destruct (decide _); [|done].
    destruct Hi as [Ho Hf]. split; [|done]. cbn.
    destruct (move_from_holds h) as [E1 E2].
    rewrite held_by_insert_new, held_by_insert, E1, E2.
    2:{ rewrite lookup_insert_ne; [done|]. by intros <-; rewrite E in *. }
    cbn [app]. by rewrite <- (held_by_lookup source h).
  - destruct (p_objects p !! o) as [h|] eqn:E; [|done].
    destruct (p_objects p !! source) as [other|] eqn:E'; [|done]. destruct (decide _) as [|Hne]; [done|].
    eapply with_kernel_inv; [apply (move_to_keeps h other)| | |done].
    + rewrite (held_by_lookup o h), (held_by_lookup source other) by (try rewrite lookup_delete_ne; done).
      by rewrite (assoc_L (++)).
    + intros [h' other']. cbn.
      rewrite held_by_insert, delete_insert_ne, held_by_insert by done.
      by rewrite (assoc_L (++)), delete_delete.
  - destruct (p_objects p !! o) as [h|] eqn:E; [|done].
    eapply with_kernel_inv; [apply (release_keeps h)|by apply held_by_lookup|by intros|done].
Qed.

Lemma pool_run_inv es p : pool_inv p -> pool_inv (pool_run es p).
Proof. revert p. induction es; intros p Hi; [done|]. by apply IHes, pool_step_inv. Qed.

Lemma empty_pool_inv k : k_open k = ∅ -> k_faults k = [] -> pool_inv (mkPool k ∅).
Proof. intros Ho Hf. split; [|done]. unfold owns, held_by. cbn. by rewrite Ho, map_to_list_empty, elements_empty. Qed.
End pool.

Arguments object_event : clear implicits.
Arguments Pool : clear implicits.

(** What the invariant means for descriptors. *)
Lemma pool_inv_unique {H A} `{OwnerSpec H A} (p : Pool H) :
  pool_inv p ->
  NoDup (held_by (p_objects p)) /\
  (forall fd, fd ∈ k_open (p_kernel p) <->
     exists o h, p_objects p !! o = Some h /\ fd ∈ holds h).
Proof.
  intros [Ho _]. unfold owns in Ho. split; [rewrite Ho; apply NoDup_elements|].
  intros fd. rewrite <- elem_of_elements, <- Ho. unfold held_by.
  rewrite list_elem_of_bind. split.
  - intros ([o h]&?&Hin). exists o, h. by rewrite elem_of_map_to_list in Hin.
  - intros (o&h&?&?). exists (o, h). by rewrite elem_of_map_to_list.
Qed.
