(* ===== verification/PlatformFile.v ===== *)
(** * Files and sockets as owners of descriptors

    Models include/corerat/platform/file.hpp with its two implementations
    (std/file_impl.hpp, evl/file_impl.hpp) and the descriptor side of
    include/corerat/ipc/tims/tcp_socket.hpp, as owners in the sense of
    Resources.v; and which system call, on which descriptor, each operation of
    a File makes. *)

From Stdlib Require Import ZArith Lia.
From stdpp Require Import base list gmap sets numbers.
From S2P Require Import Prelude TcpSocket Resources.

#[local] Open Scope Z_scope.

(** The arguments of [open]. *)
Record OpenArgs := mkOpen { oa_flags : Z; oa_mode : Z; proxy_buf_size : Z }.

(** The system calls that move data; the kernel answers them. *)
Inductive io_call :=
  | SysWrite (fd : Z) (data : bytes)
  | SysRead (fd count : Z)
  | SysPwrite (fd : Z) (data : bytes) (offset : Z)
  | SysPread (fd count offset : Z)
  | SysLseek (fd offset whence : Z)
  | SysFsync (fd : Z)
  | OobWrite (fd : Z) (data : bytes)
  | OobRead (fd count : Z).

Definition io_call_fd (c : io_call) : Z :=
  match c with
  | SysWrite fd _ | SysRead fd _ | SysPwrite fd _ _ | SysPread fd _ _ | SysLseek fd _ _ | SysFsync fd
  | OobWrite fd _ | OobRead fd _ => fd
  end.

(** EVL demotes an out-of-band thread that makes one of the others. *)
Definition io_call_oob (c : io_call) : bool :=
  match c with OobWrite _ _ | OobRead _ _ => true | _ => false end.

(** A call of a member function of a File. *)
Inductive file_op :=
  | FileWrite (data : bytes)
  | FileRead (count : Z)
  | FilePwrite (data : bytes) (offset : Z)
  | FilePread (count offset : Z)
  | FileSeek (offset whence : Z)
  | FileSync.

Definition sequential (op : file_op) : bool :=
  match op with FileWrite _ | FileRead _ => true | _ => false end.

(** ** std/file_impl.hpp *)
Module StdFile.

Record File := mkFile { file_fd_ : Z }.

Definition close (f : File) : state Kernel File :=
  if 0 <=? file_fd_ f then _ ← sys_release (file_fd_ f); mret (mkFile (-1)) else mret f.

Definition is_open (f : File) : bool := 0 <=? file_fd_ f.

Definition open (a : OpenArgs) (f : File) : state Kernel (bool * File) :=
  _ ← close f;
  fd ← sys_create;
  mret (0 <=? fd, mkFile fd).

Definition write (data : bytes) (f : File) : io_call := SysWrite (file_fd_ f) data.
Definition read (count : Z) (f : File) : io_call := SysRead (file_fd_ f) count.
Definition pwrite (data : bytes) (offset : Z) (f : File) : io_call := SysPwrite (file_fd_ f) data offset.
Definition pread (count offset : Z) (f : File) : io_call := SysPread (file_fd_ f) count offset.
Definition seek (offset whence : Z) (f : File) : io_call := SysLseek (file_fd_ f) offset whence.
Definition sync (f : File) : io_call := SysFsync (file_fd_ f).

Definition do_io (op : file_op) (f : File) : io_call :=
  match op with
  | FileWrite data => write data f
  | FileRead count => read count f
  | FilePwrite data offset => pwrite data offset f
  | FilePread count offset => pread count offset f
  | FileSeek offset whence => seek offset whence f
  | FileSync => sync f
  end.

(** The move constructor: the new object and the one moved from. *)
Definition move_construct (other : File) : File * File := (mkFile (file_fd_ other), mkFile (-1)).

(** [operator=] of two different objects. *)
Definition move_assign (f other : File) : state Kernel (File * File) :=
  _ ← close f;
  mret (mkFile (file_fd_ other), mkFile (-1)).

Lemma std_file_close_keeps f : keeps (held (file_fd_ f)) (close f) (fun _ => []).
Proof.
  unfold close. apply keeps_if; intros E.
  - eapply keeps_bind; [apply keeps_release_held|]. intros ?. by apply keeps_ret.
  - rewrite held_neg by lia. by apply keeps_ret.
Qed.

#[global] Instance file_owner : Owner File OpenArgs := {
  holds f := held (file_fd_ f);
  new_object := mkFile (-1);
  acquire := open;
  release := close;
  move_from := move_construct;
  move_to := move_assign
}.

#[global] Instance file_owner_spec : OwnerSpec File OpenArgs.
Proof.
  split; cbn -[held].
  - done.
  - intros a f. eapply keeps_bind; [apply std_file_close_keeps|]. intros ?.
    eapply keeps_bind; [apply keeps_create|]. intros ?. by apply keeps_ret.
  - apply std_file_close_keeps.
  - intros f k. unfold close. destruct (Z.leb_spec 0 (file_fd_ f)); unfold mbind, state_bind.
    + by destruct (sys_release _ _).
    + by apply held_neg.
  - done.
  - intros f other. eapply keeps_bind; [apply keeps_frame, std_file_close_keeps|]. intros ?.
    apply keeps_ret. cbn -[held]. by rewrite app_nil_r.
  - intros f other k. unfold move_assign, mbind, state_bind. by destruct (close f k).
Qed.

(** Input and output reach the file that is open; after [close] they reach no
    descriptor at all. *)
Lemma std_io_reaches op f : is_open f = true -> holds f = [Z.to_nat (io_call_fd (do_io op f))].
Proof. intros H%Z.leb_le. cbn [holds file_owner]. rewrite held_nonneg by done. by destruct op. Qed.

Lemma std_io_closed op f k : io_call_fd (do_io op (close f k).1) < 0.
Proof.
  assert (file_fd_ (close f k).1 < 0) as H.
  { unfold close. destruct (Z.leb_spec 0 (file_fd_ f)); [by rewrite bind_eq|done]. }
  by destruct op.
Qed.
End StdFile.

(** ** evl/file_impl.hpp

    libevl is a parameter: [evl_create_proxy] answers a new descriptor or a
    negative error, the flags are its constants. *)
Module EvlFile.

Record File := mkFile { file_fd_ : Z; proxy_fd_ : Z }.

Definition close (f : File) : state Kernel File :=
  proxy ← close_fd (proxy_fd_ f);
  fd ← close_fd (file_fd_ f);
  mret (mkFile fd proxy).

Definition is_open (f : File) : bool := 0 <=? file_fd_ f.

(** Input and output; [is_inband] is the answer of [evl_is_inband] in the calling
    thread. *)
Definition write (is_inband : bool) (data : bytes) (f : File) : io_call :=
  if negb is_inband then OobWrite (proxy_fd_ f) data else SysWrite (file_fd_ f) data.

Definition read (is_inband : bool) (count : Z) (f : File) : io_call :=
  if negb is_inband then OobRead (proxy_fd_ f) count else SysRead (file_fd_ f) count.

Definition pwrite (data : bytes) (offset : Z) (f : File) : io_call := SysPwrite (file_fd_ f) data offset.
Definition pread (count offset : Z) (f : File) : io_call := SysPread (file_fd_ f) count offset.
Definition seek (offset whence : Z) (f : File) : io_call := SysLseek (file_fd_ f) offset whence.
Definition sync (f : File) : io_call := SysFsync (file_fd_ f).

Definition do_io (is_inband : bool) (op : file_op) (f : File) : io_call :=
  match op with
  | FileWrite data => write is_inband data f
  | FileRead count => read is_inband count f
  | FilePwrite data offset => pwrite data offset f
  | FilePread count offset => pread count offset f
  | FileSeek offset whence => seek offset whence f
  | FileSync => sync f
  end.

Definition move_construct (other : File) : File * File :=
  (mkFile (file_fd_ other) (proxy_fd_ other), mkFile (-1) (-1)).

Definition move_assign (f other : File) : state Kernel (File * File) :=
  _ ← close f;
  mret (mkFile (file_fd_ other) (proxy_fd_ other), mkFile (-1) (-1)).

Definition O_RDONLY : Z := 0.
Definition O_WRONLY : Z := 1.
Definition O_ACCMODE : Z := 3.

Section evl.
Context (EVL_CLONE_PRIVATE EVL_CLONE_INPUT EVL_CLONE_OUTPUT : Z)
  (evl_create_proxy : Z -> Z -> Z -> Z -> state Kernel Z).

Definition proxy_flags (flags : Z) : Z :=
  let acc := Z.land flags O_ACCMODE in
  if acc =? O_RDONLY then Z.lor EVL_CLONE_PRIVATE EVL_CLONE_INPUT
  else if acc =? O_WRONLY then Z.lor EVL_CLONE_PRIVATE EVL_CLONE_OUTPUT
  else Z.lor EVL_CLONE_PRIVATE (Z.lor EVL_CLONE_INPUT EVL_CLONE_OUTPUT).

Definition open (a : OpenArgs) (f : File) : state Kernel (bool * File) :=
  f ← close f;
  fd ← sys_create;
  if fd <? 0 then mret (false, mkFile fd (proxy_fd_ f))
  else
    ret ← evl_create_proxy fd (proxy_buf_size a) 0 (proxy_flags (oa_flags a));
    if ret <? 0 then _ ← sys_release fd; mret (false, mkFile (-1) (proxy_fd_ f))
    else mret (true, mkFile fd ret).

Definition file_holds (f : File) : list nat := held (proxy_fd_ f) ++ held (file_fd_ f).

(** After [close] neither descriptor is left. *)
Definition closed (f : File) : Prop := file_fd_ f < 0 /\ proxy_fd_ f < 0.

Lemma evl_file_close_keeps f : keeps (file_holds f) (close f) (fun _ => []).
Proof.
  unfold close, file_holds. eapply keeps_bind; [apply keeps_frame, keeps_close_fd|]. intros ?. cbn [app].
  eapply keeps_bind; [apply keeps_close_fd|]. intros ?. by apply keeps_ret.
Qed.

Lemma close_closed f k : closed (close f k).1.
Proof.
  unfold close, closed. rewrite !bind_eq. cbn. split; apply close_fd_neg.
Qed.

Lemma closed_holds f : closed f -> file_holds f = [].
Proof. intros []. unfold file_holds. by rewrite !held_neg. Qed.

#[global] Instance file_owner : Owner File OpenArgs := {
  holds := file_holds;
  new_object := mkFile (-1) (-1);
  acquire := open;
  release := close;
  move_from := move_construct;
  move_to := move_assign
}.

Context (Hproxy : forall fd size granularity flags, keeps [] (evl_create_proxy fd size granularity flags) held).

Lemma open_keeps a f : keeps (file_holds f) (open a f) (fun r => file_holds r.2).
Proof.
  intros R k Ho. unfold open. rewrite bind_eq. destruct (evl_file_close_keeps f R k Ho) as [Ho1 E1].
  pose proof (close_closed f k) as [_ Hp]. destruct (close f k) as [f' k1]. cbn [fst snd] in *. rewrite <- E1.
  clear Ho E1. revert R k1 Ho1. change (keeps [] (fd ← sys_create;
    if fd <? 0 then mret (false, mkFile fd (proxy_fd_ f'))
    else
      ret ← evl_create_proxy fd (proxy_buf_size a) 0 (proxy_flags (oa_flags a));
      if ret <? 0 then _ ← sys_release fd; mret (false, mkFile (-1) (proxy_fd_ f'))
      else mret (true, mkFile fd ret)) (fun r => file_holds r.2)).
  eapply keeps_bind; [apply keeps_create|]. intros fd. apply keeps_if; intros Hfd.
  { apply keeps_ret. unfold file_holds. cbn [proxy_fd_ file_fd_ snd]. by rewrite !held_neg by lia. }
  eapply keeps_bind.
  { eapply keeps_perm; [apply (keeps_frame (held fd)), Hproxy|done|done]. }
  intros ret. cbn beta. apply keeps_if; intros Hret.
  - rewrite (held_neg ret), (held_nonneg fd) by lia.
    eapply keeps_bind; [apply keeps_release; lia|]. intros ?. apply keeps_ret. unfold file_holds.
    cbn [proxy_fd_ file_fd_ snd]. by rewrite !held_neg by lia.
  - by apply keeps_ret.
Qed.

#[global] Instance file_owner_spec : OwnerSpec File OpenArgs.
Proof.
  split; cbn -[held].
  - done.
  - apply open_keeps.
  - apply evl_file_close_keeps.
  - intros f k. apply closed_holds, close_closed.
  - done.
  - intros f other. eapply keeps_bind; [apply keeps_frame, evl_file_close_keeps|]. intros ?.
    apply keeps_ret. cbn -[held]. by rewrite app_nil_r.
  - intros f other k. unfold move_assign, mbind, state_bind. by destruct (close f k).
Qed.

(** A File has both descriptors or none. *)
Definition file_wf (f : File) : Prop := 0 <= file_fd_ f <-> 0 <= proxy_fd_ f.

Lemma open_wf a f k : file_wf (open a f k).1.2 /\ (open a f k).1.1 = is_open (open a f k).1.2.
Proof.
  unfold open, file_wf, is_open. rewrite bind_eq. destruct (close_closed f k) as [_ Hp].
  destruct (close f k) as [f' k1]. cbn [fst snd] in *. rewrite bind_eq.
  destruct (sys_create k1) as [fd k2]. cbn [fst snd].
  destruct (Z.ltb_spec fd 0). { cbn. split; [lia|]. by destruct (Z.leb_spec 0 fd); [lia|]. }
  rewrite bind_eq. destruct (evl_create_proxy _ _ _ _ k2) as [ret k3]. cbn [fst snd].
  destruct (Z.ltb_spec ret 0).
  - rewrite bind_eq. cbn. split; [lia|done].
  - cbn. split; [lia|]. by destruct (Z.leb_spec 0 fd); [|lia].
Qed.

(** Input and output use a descriptor that the File holds, and after [close] none
    at all; a thread out of band stays there for [write] and [read], and only for
    these. *)
Lemma evl_io_reaches is_inband op f :
  file_wf f -> is_open f = true -> Z.to_nat (io_call_fd (do_io is_inband op f)) ∈ file_holds f.
Proof.
  intros [Hwf _] H%Z.leb_le. specialize (Hwf H). unfold file_holds. rewrite !held_nonneg by done.
  destruct op, is_inband; cbn; set_solver.
Qed.

Lemma evl_io_closed is_inband op f k : io_call_fd (do_io is_inband op (close f k).1) < 0.
Proof. destruct (close_closed f k) as [H1 H2]. by destruct op, is_inband. Qed.

Lemma evl_io_oob op is_inband f : io_call_oob (do_io is_inband op f) = sequential op && negb is_inband.
Proof. by destruct op, is_inband. Qed.
End evl.
End EvlFile.

(** ** The descriptor of a TcpSocket *)
Module SockFd.

(** The outcome of a [connect]: whether [inet_pton] accepts the host, what
    [::connect] answers, and the stream of the new connection. *)
Record ConnectArgs := mkConnect {
  ca_pton : bool;
  ca_connect : Z;
  ca_stream : bytes * list Z * list Z
}.

Definition close (s : TcpSocket) : state Kernel TcpSocket :=
  if 0 <=? sk_fd s then _ ← sys_release (sk_fd s); mret (sock_close s) else mret s.

Definition connect (a : ConnectArgs) (s : TcpSocket) : state Kernel (bool * TcpSocket) :=
  _ ← close s;
  fd ← sys_create;
  let '(rx, send_plan, recv_plan) := ca_stream a in
  let s := sock_of_fd fd rx send_plan recv_plan in
  if fd <? 0 then mret (false, s)
  else if negb (ca_pton a) then s ← close s; mret (false, s)
  else if ca_connect a <? 0 then s ← close s; mret (false, s)
  else mret (true, s).

Definition move_construct (o : TcpSocket) : TcpSocket * TcpSocket := (o, sock_closed).

Definition move_assign (s o : TcpSocket) : state Kernel (TcpSocket * TcpSocket) :=
  _ ← close s;
  mret (o, sock_closed).

Lemma sock_close_holds s : held (sk_fd (sock_close s)) = [].
Proof. unfold sock_close. destruct (Z.leb_spec 0 (sk_fd s)); [done|]. by apply held_neg. Qed.

Lemma socket_close_keeps s : keeps (held (sk_fd s)) (close s) (fun s' => held (sk_fd s')).
Proof.
  unfold close. apply keeps_if; intros E; [|by apply keeps_ret].
  eapply keeps_bind; [apply keeps_release_held|]. intros ?.
  apply keeps_ret. by rewrite sock_close_holds.
Qed.

Lemma close_releases s k : held (sk_fd (close s k).1) = [].
Proof.
  unfold close. destruct (Z.leb_spec 0 (sk_fd s)); [|by apply held_neg].
  rewrite bind_eq. apply sock_close_holds.
Qed.

Lemma close_keeps_nil s : keeps (held (sk_fd s)) (close s) (fun _ => []).
Proof. intros R k Ho. destruct (socket_close_keeps s R k Ho) as [Ho' ?]. by rewrite close_releases in Ho'. Qed.

#[global] Instance socket_owner : Owner TcpSocket ConnectArgs := {
  holds s := held (sk_fd s);
  new_object := sock_closed;
  acquire := connect;
  release := close;
  move_from := move_construct;
  move_to := move_assign
}.

Lemma connect_keeps a s : keeps (held (sk_fd s)) (connect a s) (fun r => held (sk_fd r.2)).
Proof.
  eapply keeps_bind; [apply close_keeps_nil|]. intros ?.
  eapply keeps_bind; [apply keeps_create|]. intros fd. destruct (ca_stream a) as [[rx sp] rp].
  assert (keeps (held fd) (s ← close (sock_of_fd fd rx sp rp); mret (false, s)) (fun r => held (sk_fd r.2))).
  { eapply keeps_bind; [apply (socket_close_keeps (sock_of_fd fd rx sp rp))|]. intros ?. by apply keeps_ret. }
  repeat (apply keeps_if; intros ?); try done; by apply keeps_ret.
Qed.

#[global] Instance socket_owner_spec : OwnerSpec TcpSocket ConnectArgs.
Proof.
  split; cbn -[held].
  - done.
  - apply connect_keeps.
  - apply close_keeps_nil.
  - apply close_releases.
  - done.
  - intros s o. eapply keeps_bind; [apply keeps_frame, close_keeps_nil|]. intros ?.
    apply keeps_ret. cbn -[held]. by rewrite app_nil_r.
  - intros s o k. unfold move_assign. by rewrite bind_eq.
Qed.
End SockFd.
