(* ===== verification/ServerSocket.v ===== *)
(** * ServerSocket and the shutdown of the routers

    Models the ServerSocket of src/router/tcp_router.cpp (evl_router.cpp has
    the same class), the accept loop of [TcpRouter::run] as far as it opens
    descriptors, and the two threads that close the socket at shutdown. *)

From Stdlib Require Import ZArith Lia.
From stdpp Require Import base list gmap sets numbers.
From S2P Require Import Prelude TcpSocket Resources PlatformFile.

#[local] Open Scope Z_scope.

Module Server.

Record ServerSocket := mkServer { fd_ : Z }.

(** The constructor; [bind] and [listen] are the answers of the calls. *)
Definition new_server (bind listen : Z) : state Kernel ServerSocket :=
  fd ← sys_create;
  if fd <? 0 then mret (mkServer fd)
  else if (bind <? 0) || (listen <? 0) then _ ← sys_release fd; mret (mkServer (-1))
  else mret (mkServer fd).

Definition is_open (s : ServerSocket) : bool := 0 <=? fd_ s.

Definition close (s : ServerSocket) : state Kernel ServerSocket :=
  if 0 <=? fd_ s then _ ← sys_release (fd_ s); mret (mkServer (-1)) else mret s.

Definition destroy (s : ServerSocket) : state Kernel unit :=
  if 0 <=? fd_ s then sys_release (fd_ s) else mret tt.

Definition poll_in (answer : Z) (s : ServerSocket) : Z := if fd_ s <? 0 then -1 else answer.

(** [::accept] on a closed socket fails; a connection comes with its stream. *)
Definition accept (stream : bytes * list Z * list Z) (s : ServerSocket) : state Kernel (option TcpSocket) :=
  if fd_ s <? 0 then mret None
  else
    cfd ← sys_create;
    if cfd <? 0 then mret None
    else let '(rx, send_plan, recv_plan) := stream in mret (Some (sock_of_fd cfd rx send_plan recv_plan)).

(** The loop of [run], one element per iteration; answers the sockets that
    became connections. *)
Fixpoint run_loop (iters : list (Z * (bytes * list Z * list Z))) (s : ServerSocket)
    (socks : list TcpSocket) : state Kernel (list TcpSocket) :=
  match iters with
  | [] => mret socks
  | (answer, stream) :: iters =>
      if poll_in answer s <=? 0 then run_loop iters s socks
      else
        sock ← accept stream s;
        match sock with
        | None => run_loop iters s socks
        | Some sock => run_loop iters s (socks ++ [sock])
        end
  end.

(** The daemon as one thread: the constructor, [run], [stop] and the destructor. *)
Definition server_life (bind listen : Z) (iters : list (Z * (bytes * list Z * list Z))) : state Kernel (list TcpSocket) :=
  s ← new_server bind listen;
  if negb (is_open s) then _ ← destroy s; mret []
  else
    socks ← run_loop iters s [];
    s ← close s;
    s ← close s;
    _ ← destroy s;
    mret socks.

(** ** [stop] and [run] in two threads

    [main] calls [stop] while the loop of [run] ends and closes the socket too.
    One step is one access to [fd_] or one system call. *)

Inductive pc := Test | Call | Reset | Done.

Inductive party := Main | Run | Opener.     (* Opener: another thread opens a descriptor *)

Record race := mkRace { r_fd : Z; r_kernel : Kernel; r_main : pc; r_run : pc }.

Definition close_step (p : pc) (fd : Z) (k : Kernel) : pc * Z * Kernel :=
  match p with
  | Test => (if 0 <=? fd then Call else Done, fd, k)
  | Call => (Reset, fd, (sys_release fd k).2)
  | Reset => (Done, -1, k)
  | Done => (Done, fd, k)
  end.

Definition race_step (p : party) (r : race) : race :=
  match p with
  | Main => let '(q, fd, k) := close_step (r_main r) (r_fd r) (r_kernel r) in mkRace fd k q (r_run r)
  | Run => let '(q, fd, k) := close_step (r_run r) (r_fd r) (r_kernel r) in mkRace fd k (r_main r) q
  | Opener => mkRace (r_fd r) (sys_create (r_kernel r)).2 (r_main r) (r_run r)
  end.

Definition race_run (ps : list party) (r : race) : race := fold_left (fun r p => race_step p r) ps r.

(** ** The daemon as one thread *)

Definition sockets_hold (socks : list TcpSocket) : list nat := socks ≫= (fun s => held (sk_fd s)).

Lemma new_server_keeps bind listen : keeps [] (new_server bind listen) (fun s => held (fd_ s)).
Proof.
  unfold new_server. eapply keeps_bind; [apply keeps_create|]. intros fd.
  repeat (apply keeps_if; intros ?); try by apply keeps_ret.
  eapply keeps_bind; [apply keeps_release_held|]. intros ?. by apply keeps_ret.
Qed.

Lemma server_close_keeps s : keeps (held (fd_ s)) (close s) (fun s' => held (fd_ s')).
Proof.
  unfold close. apply keeps_if; intros E; [|by apply keeps_ret].
  eapply keeps_bind; [apply keeps_release_held|]. intros ?. by apply keeps_ret.
Qed.

Lemma destroy_keeps s : keeps (held (fd_ s)) (destroy s) (fun _ => []).
Proof.
  unfold destroy. apply keeps_if; intros E.
  - apply keeps_release_held.
  - rewrite held_neg by lia. by apply keeps_ret.
Qed.

Lemma accept_keeps stream s :
  keeps [] (accept stream s) (fun sock => sockets_hold (option_list sock)).
Proof.
  unfold accept. apply keeps_if; intros ?; [by apply keeps_ret|].
  eapply keeps_bind; [apply keeps_create|]. intros cfd. apply keeps_if; intros ?.
  - rewrite held_neg by lia. by apply keeps_ret.
  - destruct stream as [[rx sp] rp]. apply keeps_ret. unfold sockets_hold. cbn -[held]. by rewrite app_nil_r.
Qed.

Lemma sockets_hold_snoc socks sock :
  sockets_hold (socks ++ [sock]) = sockets_hold socks ++ held (sk_fd sock).
Proof. unfold sockets_hold. rewrite bind_app. cbn -[held]. by rewrite app_nil_r. Qed.

Lemma run_loop_keeps iters s socks : keeps (sockets_hold socks) (run_loop iters s socks) sockets_hold.
Proof.
  revert socks. induction iters as [|[answer stream] iters IH]; intros socks; cbn [run_loop]; [by apply keeps_ret|].
  apply keeps_if; intros ?; [apply IH|].
  eapply keeps_bind; [apply (keeps_frame (sockets_hold socks) []), accept_keeps|].
  intros [sock|]; [|apply IH]. eapply keeps_perm; [apply IH| |done].
  rewrite sockets_hold_snoc, (comm (++)). unfold sockets_hold at 1. cbn -[held]. by rewrite app_nil_r.
Qed.

(** ** The race *)

Definition passed (p : pc) : nat := match p with Test | Call => 0 | Reset | Done => 1 end.

Definition released (n : nat) (fd : Z) (k : Kernel) : Kernel := Nat.iter n (fun k => (sys_release fd k).2) k.

Definition race_inv (fd : Z) (k : Kernel) (r : race) : Prop :=
  exists n, r_kernel r = released n fd k /\ (n <= passed (r_main r) + passed (r_run r))%nat /\
    ((r_fd r = fd /\ r_main r <> Done /\ r_run r <> Done /\ n = (passed (r_main r) + passed (r_run r))%nat) \/
     (r_fd r = -1 /\ (1 <= n)%nat /\ (r_main r = Done \/ r_run r = Done))).

Lemma race_inv_intro fd k r n :
  r_kernel r = released n fd k -> (n <= passed (r_main r) + passed (r_run r))%nat ->
  ((r_fd r = fd /\ r_main r <> Done /\ r_run r <> Done /\ n = (passed (r_main r) + passed (r_run r))%nat) \/
   (r_fd r = -1 /\ (1 <= n)%nat /\ (r_main r = Done \/ r_run r = Done))) -> race_inv fd k r.
Proof. intros. by exists n. Qed.

Lemma race_step_inv fd k p r : 0 <= fd -> p <> Opener -> race_inv fd k r -> race_inv fd k (race_step p r).
Proof.
  intros Hfd Hp (n&Hk&Hn&H). destruct r as [f k' m q]. cbn in *. subst k'.
  destruct p; [| |done]; destruct m, q; cbn in *;
    (destruct H as [(->&Hm&Hq&->)|(->&Hn1&Hd)];
     [try destruct (Z.leb_spec 0 fd); try lia|]); try (exfalso; intuition congruence);
    unfold race_step; cbn;
    solve [ apply (race_inv_intro _ _ _ n); cbn; [done|lia|intuition congruence]
          | eapply race_inv_intro with (n := 0%nat); cbn; [done|lia|intuition (try lia; congruence)]
          | eapply race_inv_intro with (n := 1%nat); cbn; [done|lia|intuition (try lia; congruence)]
          | eapply race_inv_intro with (n := 2%nat); cbn; [done|lia|intuition (try lia; congruence)]
          | eapply race_inv_intro; cbn; [reflexivity|lia|intuition (try lia; congruence)] ].
Qed.

Lemma race_run_inv fd k ps r :
  0 <= fd -> Opener ∉ ps -> race_inv fd k r -> race_inv fd k (race_run ps r).
Proof.
  intros Hfd. revert r. induction ps as [|p ps IH]; intros r Hp Hi; [done|].
  apply not_elem_of_cons in Hp as [Hp Hps]. apply IH; [done|]. by apply race_step_inv.
Qed.

Lemma release_open fd k :
  0 <= fd -> Z.to_nat fd ∈ k_open k ->
  (sys_release fd k).2 = mkKernel (k_open k ∖ {[Z.to_nat fd]}) (k_plan k) (k_faults k).
Proof. intros. unfold sys_release. destruct (Z.ltb_spec fd 0); [lia|]. by rewrite decide_True. Qed.

Lemma release_closed fd k :
  0 <= fd -> Z.to_nat fd ∉ k_open k ->
  (sys_release fd k).2 = mkKernel (k_open k) (k_plan k) (Z.to_nat fd :: k_faults k).
Proof. intros. unfold sys_release. destruct (Z.ltb_spec fd 0); [lia|]. by rewrite decide_False. Qed.

Lemma passed_le p : (passed p <= 1)%nat.
Proof. destruct p; cbn; lia. Qed.

Lemma not_elem_of_removed (x : nat) (s : gset nat) : x ∉ s ∖ {[x]}.
Proof. set_solver. Qed.

(** A router that runs in one thread - constructor, accept loop, [stop],
    destructor - leaves exactly the accepted connections open and closes
    nothing twice, whatever the kernel answers and the number of iterations. *)
Theorem server_lifetime bind listen iters k l :
  owns l k ->
  let '(socks, k') := server_life bind listen iters k in
  owns (sockets_hold socks ++ l) k' /\ k_faults k' = k_faults k.
Proof.
  intros Ho. destruct (server_life bind listen iters k) as [socks k'] eqn:E.
  assert (keeps [] (server_life bind listen iters) sockets_hold) as Hk.
  { eapply keeps_bind; [apply new_server_keeps|]. intros s. apply keeps_if; intros ?.
    - eapply keeps_bind; [apply destroy_keeps|]. intros ?. by apply keeps_ret.
    - eapply keeps_bind; [apply (keeps_frame (held (fd_ s)) []), (run_loop_keeps iters s [])|]. intros socks0.
      do 2 (eapply keeps_bind;
        [eapply keeps_perm; [apply (keeps_frame (sockets_hold socks0)), server_close_keeps|apply (comm (++))|
          intros s'; apply (comm (++))]|intros ?; cbn beta]).
      eapply keeps_bind;
        [eapply keeps_perm; [apply (keeps_frame (sockets_hold socks0)), destroy_keeps|apply (comm (++))|done]|].
      intros ?. by apply keeps_ret. }
  specialize (Hk l k Ho). by rewrite E in Hk.
Qed.

(** Three connection attempts, one of which the kernel refuses. *)
Lemma server_lifetime_witness :
  let stream := (@nil Z, @nil Z, @nil Z) in
  let life := server_life 0 0 [(1, stream); (0, stream); (1, stream); (1, stream)] in
  let k := mkKernel ∅ [3; 4; -11; 5] [] in
  sockets_hold (life k).1 = [4%nat; 5%nat] /\ owns [4%nat; 5%nat] (life k).2 /\ k_faults (life k).2 = [].
Proof.
  intros stream life k. split; [vm_compute; reflexivity|].
  assert (owns [] k) as Ho by (unfold owns; vm_compute; reflexivity).
  exact (server_lifetime 0 0 [(1, stream); (0, stream); (1, stream); (1, stream)] k [] Ho).
Defined.

(** At shutdown [main] (in [stop]) and the thread of [run] both close the
    listening socket.  If nobody opens a descriptor meanwhile it ends closed,
    but it may be closed twice; if another thread opens one between the two
    calls and gets the number, the second call closes that one. *)
Theorem stop_race fd k ps :
  0 <= fd -> Z.to_nat fd ∈ k_open k ->
  let r0 := mkRace fd k Test Test in
  (Opener ∉ ps -> let r := race_run ps r0 in
     r_main r = Done -> r_run r = Done ->
     r_fd r = -1 /\ k_open (r_kernel r) = k_open k ∖ {[Z.to_nat fd]} /\
     (k_faults (r_kernel r) = k_faults k \/ k_faults (r_kernel r) = Z.to_nat fd :: k_faults k)) /\
  k_faults (r_kernel (race_run [Main; Run; Main; Run; Main; Run] r0)) = Z.to_nat fd :: k_faults k /\
  (forall plan, k_plan k = fd :: plan ->
     let r1 := race_run [Main; Run; Main] r0 in
     (sys_create (r_kernel r1)).1 = fd /\
     let r2 := race_run [Opener; Run; Main; Run] r1 in
     r_main r2 = Done /\ r_run r2 = Done /\ (Z.to_nat fd ∉ k_open (r_kernel r2)) /\
     k_faults (r_kernel r2) = k_faults k).
Proof.
  intros Hfd Hin r0. split; [|split].
  - intros Hps r Hm Hr.
    destruct (race_run_inv fd k ps r0 Hfd Hps) as (n&Hk&Hn&[(_&Hm'&_)|(Hf&Hn1&_)]); [|by destruct (Hm' Hm)|].
    { exists 0%nat. cbn. split; [done|]. split; [lia|]. left. by split_and!. }
    split; [done|]. fold r in Hk, Hn. rewrite Hm, Hr in Hn. cbn in Hn. rewrite Hk.
    destruct n as [|[|[|n]]]; cbn; try lia; rewrite (release_open fd k) by done; [by eauto|].
    rewrite release_closed by (done || apply not_elem_of_removed). cbn. eauto.
  - unfold race_run, race_step. cbn. destruct (Z.leb_spec 0 fd); [|lia]. cbn.
    rewrite (release_open fd k) by done.
    rewrite release_closed by (done || apply not_elem_of_removed). done.
  - intros plan Hplan r1. subst r1. unfold race_run, race_step. cbn.
    destruct (Z.leb_spec 0 fd); [|lia]. cbn. rewrite (release_open fd k) by done.
    unfold sys_create. cbn. rewrite Hplan. destruct (Z.ltb_spec fd 0); [lia|]. cbn.
    assert (choose fd (k_open k ∖ {[Z.to_nat fd]}) = Z.to_nat fd) as ->.
    { unfold choose. rewrite decide_False; [done|]. apply not_elem_of_removed. }
    split; [lia|]. rewrite release_open by (set_solver || done). cbn.
    split; [done|]. split; [done|]. split; [apply not_elem_of_removed|done].
Qed.

(** With descriptor 3 open and free for the next creation. *)
Lemma stop_race_witness :
  let r0 := mkRace 3 (mkKernel {[3%nat]} [3] []) Test Test in
  k_faults (r_kernel (race_run [Main; Run; Main; Run; Main; Run] r0)) = [3%nat] /\
  (sys_create (r_kernel (race_run [Main; Run; Main] r0))).1 = 3 /\
  3%nat ∉ k_open (r_kernel (race_run [Main; Run; Main; Opener; Run; Main; Run] r0)).
Proof.
  assert (Z.to_nat 3 ∈ ({[3%nat]} : gset nat)) as Hin by by_compute.
  assert (0 <= 3) as H3 by lia.
  destruct (stop_race 3 (mkKernel {[3%nat]} [3] []) [] H3 Hin) as (_&H1&H2).
  destruct (H2 [] eq_refl) as (H4&_&_&H5&_). exact (conj H1 (conj H4 H5)).
Defined.
End Server.

(** ** The same class in evl_router.cpp *)
Module EvlServer.
Import Server.

Definition new_server (bind listen : Z) : state Kernel ServerSocket := Server.new_server bind listen.
Definition close (s : ServerSocket) : state Kernel ServerSocket := Server.close s.
Definition destroy (s : ServerSocket) : state Kernel unit := Server.destroy s.
Definition is_open (s : ServerSocket) : bool := Server.is_open s.
Definition poll_in (answer : Z) (s : ServerSocket) : Z := Server.poll_in answer s.
Definition accept (stream : bytes * list Z * list Z) (s : ServerSocket) : state Kernel (option TcpSocket) :=
  Server.accept stream s.
Definition run_loop (iters : list (Z * (bytes * list Z * list Z))) (s : ServerSocket) : state Kernel (list TcpSocket) :=
  Server.run_loop iters s [].
Definition server_life (bind listen : Z) (iters : list (Z * (bytes * list Z * list Z))) : state Kernel (list TcpSocket) :=
  Server.server_life bind listen iters.
End EvlServer.
