(* ===== verification/CommandLine.v ===== *)
(** * The command lines of the routers

    Models the [main] functions of src/router/tcp_router.cpp and
    src/router/evl_router.cpp up to the construction of the router: the option
    loop, [parse_host_port], and [std::stoul] as the C++ standard defines it
    for base 10 (64-bit [unsigned long]).  Both daemons parse alike. *)

From Stdlib Require Import ZArith Lia Ascii String.
From stdpp Require Import base list numbers strings.
From S2P Require Import Prelude.

#[local] Open Scope Z_scope.

Module CmdLine.

(** ** std::stoul *)

Definition code (a : ascii) : Z := Z.of_nat (nat_of_ascii a).

(** [isspace] in the C locale. *)
Definition is_space (a : ascii) : bool := (code a =? 32) || ((9 <=? code a) && (code a <=? 13)).

Definition digit (a : ascii) : option Z :=
  if (48 <=? code a) && (code a <=? 57) then Some (code a - 48) else None.

Fixpoint skip_space (s : string) : string :=
  match s with
  | String a rest => if is_space a then skip_space rest else s
  | EmptyString => s
  end.

(** The number that the digits at the front of [s] make after [acc]. *)
Fixpoint read_digits (acc : Z) (s : string) : Z :=
  match s with
  | String a rest =>
      match digit a with
      | Some d => read_digits (acc * 10 + d) rest
      | None => acc
      end
  | EmptyString => acc
  end.

Inductive conversion := Value (n : Z) | InvalidArgument | OutOfRange.

Definition starts_with_digit (s : string) : bool :=
  match s with String a _ => bool_decide (is_Some (digit a)) | EmptyString => false end.

(** What follows the digits is ignored; a minus sign negates modulo 2^64. *)
Definition stoul (s : string) : conversion :=
  let s := skip_space s in
  let '(negative, s) :=
    match s with
    | String a rest => if code a =? 45 then (true, rest) else if code a =? 43 then (false, rest) else (false, s)
    | EmptyString => (false, s)
    end in
  if negb (starts_with_digit s) then InvalidArgument
  else
    let n := read_digits 0 s in
    if 2 ^ 64 <=? n then OutOfRange
    else Value (if negative : bool then u64 (- n) else n).

(** ** std::string *)

(** [find(c)]: what precedes and what follows the first [c]. *)
Fixpoint split_first (c : ascii) (s : string) : option (string * string) :=
  match s with
  | EmptyString => None
  | String a rest =>
      if Ascii.eqb a c then Some (EmptyString, rest)
      else match split_first c rest with
           | Some (before, after) => Some (String a before, after)
           | None => None
           end
  end.

(** [rfind(c)]: around the last [c]. *)
Fixpoint split_last (c : ascii) (s : string) : option (string * string) :=
  match s with
  | EmptyString => None
  | String a rest =>
      match split_last c rest with
      | Some (before, after) => Some (String a before, after)
      | None => if Ascii.eqb a c then Some (EmptyString, rest) else None
      end
  end.

(** ** The configuration *)

Record SystemRouteConfig := mkRoute { sr_system_id : Z; sr_host : string; sr_port : Z }.

Record Config := mkConfig {
  port : Z;
  max_msg_size : Z;
  peers : list (string * Z);
  upstream_config : option (string * Z);
  system_routes : list SystemRouteConfig
}.

Definition kDefaultPort : Z := 2000.

Definition default_config : Config := mkConfig kDefaultPort (256 * 1024) [] None [].

Definition set_port (p : Z) (c : Config) := mkConfig p (max_msg_size c) (peers c) (upstream_config c) (system_routes c).
Definition set_max (m : Z) (c : Config) := mkConfig (port c) m (peers c) (upstream_config c) (system_routes c).
Definition add_peer (p : string * Z) (c : Config) :=
  mkConfig (port c) (max_msg_size c) (peers c ++ [p]) (upstream_config c) (system_routes c).
Definition set_upstream (u : string * Z) (c : Config) :=
  mkConfig (port c) (max_msg_size c) (peers c) (Some u) (system_routes c).
Definition add_route (r : SystemRouteConfig) (c : Config) :=
  mkConfig (port c) (max_msg_size c) (peers c) (upstream_config c) (system_routes c ++ [r]).

(** How parsing ends: an exception of [stoul] that nobody catches ends the
    program, [--help] ends it with 0. *)
Inductive outcome := Start (c : Config) | Help | Uncaught (e : conversion).

(** [parse_host_port]: the answer or the exception. *)
Definition parse_host_port (s : string) (default_port : Z) : (string * Z) + conversion :=
  match split_last ":" s with
  | Some (host, digits) =>
      match stoul digits with
      | Value n => inl (host, u16 n)
      | e => inr e
      end
  | None => inl (s, default_port)
  end.

Definition is_option (long short arg : string) : bool := String.eqb arg long || String.eqb arg short.

(** The loop over [argv]; the options that take a value need [i + 1 < argc]. *)
Fixpoint parse_args (argv : list string) (c : Config) : outcome :=
  match argv with
  | [] => Start c
  | arg :: rest =>
      match rest with
      | value :: rest' =>
          if is_option "--port" "-p" arg then
            match stoul value with
            | Value n => parse_args rest' (set_port (u16 n) c)
            | e => Uncaught e
            end
          else if is_option "--max-msg-size" "-m" arg then
            match stoul value with
            | Value n => parse_args rest' (set_max n c)
            | e => Uncaught e
            end
          else if is_option "--peer" "-r" arg then
            match parse_host_port value kDefaultPort with
            | inl p => parse_args rest' (add_peer p c)
            | inr e => Uncaught e
            end
          else if is_option "--upstream" "-u" arg then
            match parse_host_port value kDefaultPort with
            | inl u => parse_args rest' (set_upstream u c)
            | inr e => Uncaught e
            end
          else if is_option "--system-route" "-s" arg then
            match split_first "@" value with
            | None => parse_args rest' c
            | Some (id, target) =>
                match stoul id with
                | Value n =>
                    match parse_host_port target kDefaultPort with
                    | inl (host, p) => parse_args rest' (add_route (mkRoute (u8 n) host p) c)
                    | inr e => Uncaught e
                    end
                | e => Uncaught e
                end
            end
          else if is_option "--help" "-h" arg then Help
          else parse_args rest c
      | [] => if is_option "--help" "-h" arg then Help else Start c
      end
  end.

(** ** The command line of a configuration *)

Definition digit_char (d : Z) : ascii := ascii_of_nat (Z.to_nat (48 + d)).

Fixpoint decimal_go (fuel : nat) (n : Z) (s : string) : string :=
  match fuel with
  | O => s
  | S fuel =>
      let s := String (digit_char (n mod 10)) s in
      if n <? 10 then s else decimal_go fuel (n / 10) s
  end.

(** Twenty digits are enough below 2^64. *)
Definition decimal (n : Z) : string := decimal_go 20 n "".

Definition host_port (p : string * Z) : string := (p.1 ++ ":" ++ decimal p.2)%string.

Definition command_line (c : Config) : list string :=
  ["--port"%string; decimal (port c); "--max-msg-size"%string; decimal (max_msg_size c)] ++
  concat (map (fun p => ["--peer"%string; host_port p]) (peers c)) ++
  match upstream_config c with Some u => ["--upstream"%string; host_port u] | None => [] end ++
  concat (map (fun r => ["--system-route"%string;
                 (decimal (sr_system_id r) ++ "@" ++ host_port (sr_host r, sr_port r))%string]) (system_routes c)).

(** A configuration that the fields can hold. *)
Definition config_ok (c : Config) : Prop :=
  in_u 16 (port c) /\ in_u 64 (max_msg_size c) /\ Forall (fun p => in_u 16 p.2) (peers c) /\
  match upstream_config c with Some u => in_u 16 u.2 | None => True end /\
  Forall (fun r => in_u 8 (sr_system_id r) /\ in_u 16 (sr_port r)) (system_routes c).

(** ** Decimal numbers *)

Fixpoint all_digits (s : string) : bool :=
  match s with
  | String a rest => bool_decide (is_Some (digit a)) && all_digits rest
  | EmptyString => true
  end.

Lemma digit_digit_char d : 0 <= d < 10 -> digit (digit_char d) = Some d.
Proof.
  intros Hd.
  assert (d = 0 \/ d = 1 \/ d = 2 \/ d = 3 \/ d = 4 \/ d = 5 \/ d = 6 \/ d = 7 \/ d = 8 \/ d = 9) as H by lia.
  by repeat destruct H as [->|H]; [..|subst].
Qed.

Lemma digit_code a d : digit a = Some d -> 48 <= code a <= 57.
Proof.
  unfold digit. destruct (Z.leb_spec 48 (code a)), (Z.leb_spec (code a) 57); cbn; intros; done || lia.
Qed.

Lemma digit_not a c : is_Some (digit a) -> digit c = None -> Ascii.eqb a c = false.
Proof. intros Ha Hc. apply Ascii.eqb_neq. intros ->. rewrite Hc in Ha. by destruct Ha. Qed.

Lemma decimal_go_succ fuel n s :
  decimal_go (S fuel) n s =
  if n <? 10 then String (digit_char (n mod 10)) s else decimal_go fuel (n / 10) (String (digit_char (n mod 10)) s).
Proof. done. Qed.

Lemma read_decimal_go fuel n s :
  0 <= n < 10 ^ Z.of_nat fuel -> read_digits 0 (decimal_go fuel n s) = read_digits n s.
Proof.
  revert n s. induction fuel as [|fuel IH]; intros n s Hn.
  { change (10 ^ Z.of_nat 0) with 1 in Hn. by replace n with 0 by lia. }
  rewrite Nat2Z.inj_succ, Z.pow_succ_r in Hn by lia. cbn [decimal_go].
  pose proof (Z.mod_pos_bound n 10 ltac:(lia)). pose proof (Z.div_mod n 10 ltac:(lia)) as Hdm.
  destruct (Z.ltb_spec n 10).
  - cbn [read_digits]. rewrite digit_digit_char by lia. f_equal. rewrite Z.mod_small; lia.
  - rewrite IH. 2:{ split; [apply Z.div_pos; lia|apply Z.div_lt_upper_bound; lia]. }
    cbn [read_digits]. rewrite digit_digit_char by lia. f_equal. lia.
Qed.

Lemma all_digits_decimal_go fuel n s : 0 <= n -> all_digits s = true -> all_digits (decimal_go fuel n s) = true.
Proof.
  revert n s. induction fuel as [|fuel IH]; intros n s Hn Hs; [done|]. cbn [decimal_go].
  pose proof (Z.mod_pos_bound n 10 ltac:(lia)).
  assert (all_digits (String (digit_char (n mod 10)) s) = true) as Hd.
  { cbn [all_digits]. by rewrite digit_digit_char, Hs by lia. }
  destruct (n <? 10); [done|]. apply IH; [apply Z.div_pos; lia|done].
Qed.

Lemma starts_decimal_go fuel n s : 0 <= n -> starts_with_digit (decimal_go (S fuel) n s) = true.
Proof.
  revert n s. induction fuel as [|fuel IH]; intros n s Hn;
    pose proof (Z.mod_pos_bound n 10 ltac:(lia));
    assert (starts_with_digit (String (digit_char (n mod 10)) s) = true) as Hd
      by (cbn [starts_with_digit]; by rewrite digit_digit_char by lia).
  - cbn [decimal_go]. by destruct (n <? 10).
  - rewrite decimal_go_succ. destruct (n <? 10); [done|]. apply IH, Z.div_pos; lia.
Qed.

Lemma decimal_digits n : 0 <= n -> all_digits (decimal n) = true.
Proof. intros. by apply all_digits_decimal_go. Qed.

Lemma decimal_starts n : 0 <= n -> starts_with_digit (decimal n) = true.
Proof. apply starts_decimal_go. Qed.

Lemma stoul_digits s :
  starts_with_digit s = true ->
  stoul s = if 2 ^ 64 <=? read_digits 0 s then OutOfRange else Value (read_digits 0 s).
Proof.
  destruct s as [|a s]; [done|]. intros Hs. assert (exists d, digit a = Some d) as [d Hd].
  { cbn in Hs. by apply bool_decide_eq_true in Hs. }
  pose proof (digit_code a d Hd). unfold stoul. cbn [skip_space].
  assert (is_space a = false) as ->.
  { unfold is_space. destruct (Z.eqb_spec (code a) 32), (Z.leb_spec 9 (code a)), (Z.leb_spec (code a) 13); done || lia. }
  destruct (Z.eqb_spec (code a) 45), (Z.eqb_spec (code a) 43); try lia. by rewrite Hs.
Qed.

Lemma stoul_decimal n :
  0 <= n < 10 ^ 20 -> stoul (decimal n) = if 2 ^ 64 <=? n then OutOfRange else Value n.
Proof.
  intros Hn. rewrite stoul_digits by (apply decimal_starts; lia).
  unfold decimal. by rewrite read_decimal_go.
Qed.

Lemma stoul_decimal_64 n : in_u 64 n -> stoul (decimal n) = Value n.
Proof.
  unfold in_u. intros Hn. assert (2 ^ 64 < 10 ^ 20) by done.
  rewrite stoul_decimal by lia. by destruct (Z.leb_spec (2 ^ 64) n); [lia|].
Qed.

(** ** Splitting *)

Lemma split_last_digits c s : digit c = None -> all_digits s = true -> split_last c s = None.
Proof.
  intros Hc. induction s as [|a s IH]; intros Hs; [done|]. cbn in Hs |- *.
  apply andb_prop in Hs as [Ha Hs]. rewrite IH by done. apply bool_decide_eq_true in Ha.
  by rewrite digit_not.
Qed.

Lemma split_last_app c h s : split_last c s = None -> split_last c (h ++ String c s) = Some (h, s).
Proof.
  intros Hs. induction h as [|a h IH]; simpl; [|by rewrite IH]. by rewrite Hs, Ascii.eqb_refl.
Qed.

Lemma split_first_digits c d t :
  digit c = None -> all_digits d = true -> split_first c (d ++ String c t) = Some (d, t).
Proof.
  intros Hc. induction d as [|a d IH]; intros Hs; simpl in *; [by rewrite Ascii.eqb_refl|].
  apply andb_prop in Hs as [Ha Hs]. apply bool_decide_eq_true in Ha.
  by rewrite digit_not, IH.
Qed.

Lemma parse_host_port_eq h n :
  in_u 64 n -> parse_host_port (host_port (h, n)) kDefaultPort = inl (h, u16 n).
Proof.
  intros Hn. unfold parse_host_port, host_port. cbn [fst snd].
  change (":" ++ decimal n)%string with (String ":" (decimal n)).
  rewrite (split_last_app ":" h (decimal n)); [by rewrite stoul_decimal_64|].
  apply split_last_digits; [done|]. apply decimal_digits. unfold in_u in Hn. lia.
Qed.

Lemma in_u_weaken v w z : 0 <= v <= w -> in_u v z -> in_u w z.
Proof. unfold in_u. intros ??. pose proof (Z.pow_le_mono_r 2 v w ltac:(lia) ltac:(lia)). lia. Qed.

(** ** One option *)

Lemma parse_port n rest c :
  in_u 64 n -> parse_args ("--port"%string :: decimal n :: rest) c = parse_args rest (set_port (u16 n) c).
Proof. intros Hn. cbn -[stoul decimal wrapu]. by rewrite stoul_decimal_64. Qed.

Lemma parse_max n rest c :
  in_u 64 n -> parse_args ("--max-msg-size"%string :: decimal n :: rest) c = parse_args rest (set_max n c).
Proof. intros Hn. cbn -[stoul decimal wrapu]. by rewrite stoul_decimal_64. Qed.

Lemma parse_peer h n rest c :
  in_u 64 n ->
  parse_args ("--peer"%string :: host_port (h, n) :: rest) c = parse_args rest (add_peer (h, u16 n) c).
Proof. intros Hn. cbn -[parse_host_port host_port wrapu]. by rewrite parse_host_port_eq. Qed.

Lemma parse_upstream h n rest c :
  in_u 64 n ->
  parse_args ("--upstream"%string :: host_port (h, n) :: rest) c = parse_args rest (set_upstream (h, u16 n) c).
Proof. intros Hn. cbn -[parse_host_port host_port wrapu]. by rewrite parse_host_port_eq. Qed.

Lemma parse_route id h n rest c :
  in_u 64 id -> in_u 64 n ->
  parse_args ("--system-route"%string :: (decimal id ++ "@" ++ host_port (h, n))%string :: rest) c =
  parse_args rest (add_route (mkRoute (u8 id) h (u16 n)) c).
Proof.
  intros Hid Hn. cbn -[parse_host_port host_port wrapu split_first decimal stoul append].
  change ("@" ++ host_port (h, n))%string with (String "@" (host_port (h, n))).
  rewrite (split_first_digits "@" (decimal id)); [|done|apply decimal_digits; unfold in_u in Hid; lia].
  by rewrite stoul_decimal_64, parse_host_port_eq.
Qed.

(** ** Command lines *)

Lemma parse_peers l rest c :
  Forall (fun p => in_u 16 p.2) l ->
  parse_args (concat (map (fun p => ["--peer"%string; host_port p]) l) ++ rest) c =
  parse_args rest (mkConfig (port c) (max_msg_size c) (peers c ++ l) (upstream_config c) (system_routes c)).
Proof.
  revert c. induction l as [|[h n] l IH]; intros c Hl; cbn [map concat].
  - destruct c; cbn. by rewrite app_nil_r.
  - apply Forall_cons in Hl as [Hn Hl]. cbn [snd] in Hn. cbn [app].
    rewrite parse_peer by (apply (in_u_weaken 16); [lia|done]). rewrite IH by done.
    cbn -[wrapu parse_args]. by rewrite wrapu_id, <- (assoc_L (++)).
Qed.

Lemma parse_routes l c :
  Forall (fun r => in_u 8 (sr_system_id r) /\ in_u 16 (sr_port r)) l ->
  parse_args (concat (map (fun r => ["--system-route"%string;
                 (decimal (sr_system_id r) ++ "@" ++ host_port (sr_host r, sr_port r))%string]) l)) c =
  Start (mkConfig (port c) (max_msg_size c) (peers c) (upstream_config c) (system_routes c ++ l)).
Proof.
  revert c. induction l as [|[id h n] l IH]; intros c Hl; cbn [map concat].
  - destruct c; cbn. by rewrite app_nil_r.
  - apply Forall_cons in Hl as [[Hid Hn] Hl]. cbn [sr_system_id sr_port sr_host] in *. cbn [app].
    rewrite parse_route by (eapply in_u_weaken; [|done]; lia). rewrite IH by done.
    cbn -[wrapu parse_args]. by rewrite !wrapu_id, <- (assoc_L (++)).
Qed.

Lemma command_line_eq c :
  command_line c =
  "--port"%string :: decimal (port c) :: "--max-msg-size"%string :: decimal (max_msg_size c) ::
  (concat (map (fun p => ["--peer"%string; host_port p]) (peers c)) ++
   match upstream_config c with Some u => ["--upstream"%string; host_port u] | None => [] end ++
   concat (map (fun r => ["--system-route"%string;
                 (decimal (sr_system_id r) ++ "@" ++ host_port (sr_host r, sr_port r))%string]) (system_routes c))).
Proof. done. Qed.

(** C34. Every configuration the router can hold has a command line, with all
    hosts (colons and at signs included) and numbers in decimal, which [main]
    parses to exactly that configuration. *)
Theorem command_line_roundtrip c :
  config_ok c -> parse_args (command_line c) default_config = Start c.
Proof.
  intros (Hp&Hm&Hps&Hu&Hr). rewrite command_line_eq.
  rewrite parse_port by (apply (in_u_weaken 16); [lia|done]). rewrite parse_max by done.
  rewrite parse_peers by done. destruct c as [p m ps [[h n]|] rs]; cbn [upstream_config app] in *.
  - rewrite parse_upstream by (apply (in_u_weaken 16); [lia|done]). rewrite parse_routes by done.
    cbn -[wrapu]. by rewrite !wrapu_id.
  - rewrite parse_routes by done. cbn -[wrapu]. by rewrite wrapu_id.
Qed.

Lemma command_line_roundtrip_witness :
  let c := mkConfig 2001 65536 [("10.0.0.2"%string, 2000)] (Some ("fe80::1"%string, 70))
             [mkRoute 7 "a@b"%string 65535] in
  command_line c = ["--port"; "2001"; "--max-msg-size"; "65536"; "--peer"; "10.0.0.2:2000";
                    "--upstream"; "fe80::1:70"; "--system-route"; "7@a@b:65535"]%string /\
  parse_args (command_line c) default_config = Start c.
Proof.
  intros c. split; [vm_compute; reflexivity|]. apply (command_line_roundtrip c).
  unfold config_ok. cbn. repeat split; repeat constructor; by compute.
Defined.

(** Numbers that do not fit are not refused: a port is taken modulo 2^16,
    a system id modulo 2^8, so a route can be installed for another system;
    only what does not fit 64 bits, or is no number, ends the program, with an
    exception nobody catches.  An option without its value is ignored. *)
Theorem options_out_of_range n id h rest :
  (in_u 64 n -> in_u 64 id ->
     parse_args ("--port"%string :: decimal n :: rest) default_config =
       parse_args rest (set_port (n mod 2 ^ 16) default_config) /\
     parse_args ("--system-route"%string :: (decimal id ++ "@" ++ host_port (h, n))%string :: rest) default_config =
       parse_args rest (add_route (mkRoute (id mod 2 ^ 8) h (n mod 2 ^ 16)) default_config)) /\
  (2 ^ 64 <= n < 10 ^ 20 ->
     parse_args ("--port"%string :: decimal n :: rest) default_config = Uncaught OutOfRange) /\
  parse_args ("--peer"%string :: (h ++ ":")%string :: rest) default_config = Uncaught InvalidArgument /\
  parse_args ["--port"%string] default_config = Start default_config.
Proof.
  split; [|split; [|split]].
  - intros Hn Hid. by rewrite parse_port, parse_route.
  - intros Hn. cbn -[stoul decimal]. rewrite stoul_decimal by lia.
    by destruct (Z.leb_spec (2 ^ 64) n); [|lia].
  - cbn -[parse_host_port append]. unfold parse_host_port. by rewrite split_last_app.
  - done.
Qed.

Example parse_wraps :
  parse_args ["--port"; "70000"; "-s"; "300@10.0.0.9:65536"; "--peer"; "::1"; "--help-me"]%string default_config =
  Start (mkConfig 4464 262144 [(":"%string, 1)] None [mkRoute 44 "10.0.0.9"%string 0]).
Proof. vm_compute. reflexivity. Qed.
End CmdLine.

(** ** The same in evl_router.cpp *)
Module EvlCmdLine.
Import CmdLine.

Definition SystemRouteConfig : Set := CmdLine.SystemRouteConfig.
Definition default_config : Config := CmdLine.default_config.
Definition kDefaultPort : Z := CmdLine.kDefaultPort.
Definition parse_host_port (s : string) (default_port : Z) : (string * Z) + conversion :=
  CmdLine.parse_host_port s default_port.
Definition parse_args (argv : list string) : outcome := CmdLine.parse_args argv default_config.
End EvlCmdLine.
