(* ===== verification/Shutdown.v ===== *)
(** * The end of a router daemon

    What happens after a signal: [main] of src/router/tcp_router.cpp requests the
    stop of the accept loop, closes the server socket, joins the loop, and
    destroys the router, whose members stop and join the threads of the
    connections one after the other.  evl_router.cpp has the same [main] and the
    same members.

    A thread that reads frames is a deterministic program over the bytes that
    its remote side has sent; [None] means that it waits in [recv].  What it does
    with a frame (RouterCore.v, TcpRouter.v) is one step here, so the sends of a
    handler are taken to return. *)

From Stdlib Require Import ZArith Lia.
From stdpp Require Import base list numbers relations.
From S2P Require Import Prelude Protocol.

#[local] Open Scope Z_scope.

Module Shutdown.

(** ** A thread that reads frames *)

(** [Connection::run] and [run_connection_reader]. *)
Inductive kind := Client | Link.

(** The head of the loop, in [poll_in], in [recv_all] of the header and of the
    body, in the handler, returned. *)
Inductive pc := Head | Poll | Header | Body (frame : FrameHeader) | Handle (frame : FrameHeader) (body : bytes) | Returned.

Record reader := mkReader {
  rd_kind : kind;
  rd_pc : pc;
  rd_open : bool;       (* the descriptor *)
  rd_rx : bytes;        (* received, not yet read *)
  rd_eof : bool;        (* the remote side has closed *)
  rd_stop : bool        (* stop_requested *)
}.

Definition goto (p : pc) (rx : bytes) (r : reader) : reader :=
  mkReader (rd_kind r) p (rd_open r) rx (rd_eof r) (rd_stop r).

Definition close_reader (p : pc) (r : reader) : reader :=
  mkReader (rd_kind r) p false (rd_rx r) (rd_eof r) (rd_stop r).

(** Where a failed or refused body leads: [handle_frame] returns to the loop,
    [run_connection_reader] leaves it. *)
Definition after_failure (k : kind) : pc := match k with Client => Head | Link => Returned end.

Definition reader_next (max : Z) (r : reader) : option reader :=
  let rx := rd_rx r in
  match rd_pc r with
  | Head => Some (goto (if rd_stop r then Returned else Poll) rx r)
  | Poll => Some (goto (if rd_open r && ((0 <? zlen rx) || rd_eof r) then Header else Head) rx r)
  | Header =>
      if sizeof_FrameHeader <=? zlen rx then Some (goto (Body (decode_frame (take 16 rx))) (drop 16 rx) r)
      else if rd_eof r then Some (goto Returned [] r)
      else None
  | Body frame =>
      let len := frame_body_len frame in
      if max <? len then Some (close_reader (after_failure (rd_kind r)) r)
      else if len <=? zlen rx then
        Some (goto (Handle frame (take (Z.to_nat len) rx)) (drop (Z.to_nat len) rx) r)
      else if rd_eof r then Some (goto (after_failure (rd_kind r)) [] r)
      else None
  | Handle _ _ => Some (goto Head rx r)
  | Returned => None
  end.

Definition request_stop (r : reader) : reader :=
  mkReader (rd_kind r) (rd_pc r) (rd_open r) (rd_rx r) (rd_eof r) true.

Definition more_input (bs : bytes) (eof : bool) (r : reader) : reader :=
  mkReader (rd_kind r) (rd_pc r) (rd_open r) (rd_rx r ++ bs) (rd_eof r || eof) (rd_stop r).

(** ** The daemon *)

(** What the destructor of the router does, in its order: the members declared
    after [connections_] go first, then every [Entry] (its thread is stopped and
    joined, then its connection is destroyed), then the system connections, then
    the upstream connection. *)
Inductive action := DestroyLocals | StopThread (i : nat) | JoinThread (i : nat) | DestroyObject (i : nat).

Inductive main_pc := Sleeping | RequestStop | CloseServer | JoinRun | Destructor (todo : list action).

Inductive run_pc := RunHead | RunPoll | RunReturned.

(** The links come first in [d_readers], [d_links] of them: the system
    connections, then the upstream connection; then [connections_]. *)
Record daemon := mkDaemon {
  d_main : main_pc;
  d_run : run_pc;
  d_stop : bool;
  d_server_open : bool;
  d_links : nat;
  d_readers : list reader;
  d_locals : bool                  (* local_mailboxes_ and local_mutex_ exist *)
}.

Definition set_main (p : main_pc) (d : daemon) : daemon :=
  mkDaemon p (d_run d) (d_stop d) (d_server_open d) (d_links d) (d_readers d) (d_locals d).

Definition set_readers (rs : list reader) (d : daemon) : daemon :=
  mkDaemon (d_main d) (d_run d) (d_stop d) (d_server_open d) (d_links d) rs (d_locals d).

Definition set_run (p : run_pc) (d : daemon) : daemon :=
  mkDaemon (d_main d) p (d_stop d) (d_server_open d) (d_links d) (d_readers d) (d_locals d).

Definition destroy_one (i : nat) : list action := [StopThread i; JoinThread i; DestroyObject i].

Definition destructor (d : daemon) : list action :=
  let n := length (d_readers d) in
  DestroyLocals :: ((seq (d_links d) (n - d_links d) ++ seq 0 (d_links d)) ≫= destroy_one).

#[export] Instance pc_returned_dec p : Decision (p = Returned).
Proof. destruct p; (left; reflexivity) || (right; discriminate). Defined.

Definition has_returned (i : nat) (d : daemon) : bool :=
  match d_readers d !! i with Some r => bool_decide (rd_pc r = Returned) | None => true end.

(** The main thread; [None]: it waits, or it has returned. *)
Definition main_next (d : daemon) : option daemon :=
  match d_main d with
  | Sleeping => Some (set_main RequestStop d)                     (* a signal *)
  | RequestStop =>
      Some (mkDaemon CloseServer (d_run d) true (d_server_open d) (d_links d) (d_readers d) (d_locals d))
  | CloseServer =>
      Some (mkDaemon JoinRun (d_run d) (d_stop d) false (d_links d) (d_readers d) (d_locals d))
  | JoinRun =>
      match d_run d with
      | RunReturned => Some (set_main (Destructor (destructor d)) d)
      | _ => None
      end
  | Destructor [] => None
  | Destructor (DestroyLocals :: todo) =>
      Some (mkDaemon (Destructor todo) (d_run d) (d_stop d) (d_server_open d) (d_links d) (d_readers d) false)
  | Destructor (StopThread i :: todo) =>
      Some (set_main (Destructor todo) (set_readers (alter request_stop i (d_readers d)) d))
  | Destructor (JoinThread i :: todo) =>
      if has_returned i d then Some (set_main (Destructor todo) d) else None
  | Destructor (DestroyObject _ :: todo) => Some (set_main (Destructor todo) d)
  end.

(** The thread of [run]: its loop, and after it the second close. *)
Definition run_next (d : daemon) : option daemon :=
  match d_run d with
  | RunHead =>
      Some (if d_stop d
            then mkDaemon (d_main d) RunReturned (d_stop d) false (d_links d) (d_readers d) (d_locals d)
            else set_run RunPoll d)
  | RunPoll => Some (set_run RunHead d)
  | RunReturned => None
  end.

(** [accept] gives a connection: a thread for it is started. *)
Definition accept_next (d : daemon) : option daemon :=
  match d_run d with
  | RunPoll =>
      if d_server_open d
      then Some (set_run RunHead (set_readers (d_readers d ++ [mkReader Client Head true [] false false]) d))
      else None
  | _ => None
  end.

Inductive step (max : Z) : daemon -> daemon -> Prop :=
  | step_main d d' : main_next d = Some d' -> step max d d'
  | step_run d d' : run_next d = Some d' -> step max d d'
  | step_accept d d' : accept_next d = Some d' -> step max d d'
  | step_reader i r r' d :
      d_readers d !! i = Some r -> reader_next max r = Some r' ->
      step max d (set_readers (<[i := r']> (d_readers d)) d).

(** Bytes arrive, or the end of a stream. *)
Inductive input : daemon -> daemon -> Prop :=
  | input_bytes i bs eof d : input d (set_readers (alter (more_input bs eof) i (d_readers d)) d).

(** The daemon with [links] and peers connected and nothing received. *)
Definition started (links : nat) (ks : list kind) : daemon :=
  mkDaemon Sleeping RunHead false true links ((fun k => mkReader k Head true [] false false) <$> ks) true.

Definition reachable (max : Z) (d : daemon) : Prop :=
  exists links ks, rtc (fun d1 d2 => step max d1 d2 \/ input d1 d2) (started links ks) d /\ (links <= length ks)%nat.

Definition finished (d : daemon) : Prop := d_main d = Destructor [].

(** ** Invariant *)

(** Every thread is asked to stop before it is joined. *)
Definition guarded (rs : list reader) (todo : list action) : Prop :=
  forall pre i post, todo = pre ++ JoinThread i :: post ->
    StopThread i ∈ pre \/ forall r, rs !! i = Some r -> rd_stop r = true.

(** A thread that need not be joined any more has returned. *)
Definition joined (rs : list reader) (todo : list action) : Prop :=
  forall i r, rs !! i = Some r -> JoinThread i ∈ todo \/ rd_pc r = Returned.

Definition inv (d : daemon) : Prop :=
  match d_main d with
  | Sleeping | RequestStop => True
  | CloseServer | JoinRun => d_stop d = true
  | Destructor todo =>
      d_stop d = true /\ d_run d = RunReturned /\ guarded (d_readers d) todo /\ joined (d_readers d) todo
  end.

Lemma guarded_pop rs rs' a todo :
  (forall i r', rs' !! i = Some r' -> exists r, rs !! i = Some r /\ (rd_stop r = true -> rd_stop r' = true)) ->
  (forall i, a = StopThread i -> forall r', rs' !! i = Some r' -> rd_stop r' = true) ->
  guarded rs (a :: todo) -> guarded rs' todo.
Proof.
  intros Hrs Ha Hg pre i post ->. destruct (Hg (a :: pre) i post eq_refl) as [Hin|Hstop].
  - apply elem_of_cons in Hin as [<-|Hin]; [|by left]. right. by apply (Ha i).
  - right. intros r' Hr'. destruct (Hrs i r' Hr') as (r&Hr&Himp). auto.
Qed.

Lemma guarded_map rs rs' todo :
  (forall i r', rs' !! i = Some r' -> exists r, rs !! i = Some r /\ (rd_stop r = true -> rd_stop r' = true)) ->
  guarded rs todo -> guarded rs' todo.
Proof.
  intros Hrs Hg pre i post E. destruct (Hg pre i post E) as [Hin|Hstop]; [by left|].
  right. intros r' Hr'. destruct (Hrs i r' Hr') as (r&Hr&Himp). auto.
Qed.

Lemma joined_map rs rs' todo :
  (forall i r', rs' !! i = Some r' -> exists r, rs !! i = Some r /\ (rd_pc r = Returned -> rd_pc r' = Returned)) ->
  joined rs todo -> joined rs' todo.
Proof.
  intros Hrs Hj i r' Hr'. destruct (Hrs i r' Hr') as (r&Hr&Himp).
  destruct (Hj i r Hr); [by left|right; auto].
Qed.

Lemma destroy_all_guarded rs (l : list nat) : guarded rs (l ≫= destroy_one).
Proof.
  induction l as [|j l IH]; intros pre i post E; [by destruct pre|].
  change ((j :: l) ≫= destroy_one) with (StopThread j :: JoinThread j :: DestroyObject j :: (l ≫= destroy_one)) in E.
  destruct pre as [|a1 pre]; [done|]. injection E as <- E.
  destruct pre as [|a2 pre]; [injection E as <- _; left; set_solver|]. injection E as <- E.
  destruct pre as [|a3 pre]; [done|]. injection E as <- E.
  destruct (IH pre i post E) as [?|?]; [left; set_solver|by right].
Qed.

Lemma destructor_guarded rs d : guarded rs (destructor d).
Proof.
  intros [|a pre] i post E; [done|]. injection E as <- E.
  destruct (destroy_all_guarded rs _ pre i post E); [left; set_solver|by right].
Qed.

Lemma destructor_joined d : joined (d_readers d) (destructor d).
Proof.
  intros i r Hi%lookup_lt_Some. left. unfold destructor. apply elem_of_cons. right.
  apply list_elem_of_bind. exists i. split; [set_solver|]. apply elem_of_app. rewrite !elem_of_seq. lia.
Qed.

Lemma reader_next_keeps max r r' : reader_next max r = Some r' -> rd_stop r' = rd_stop r /\ rd_pc r <> Returned.
Proof.
  unfold reader_next. destruct (rd_pc r); try done; repeat case_match; intros [= <-]; done.
Qed.

Lemma alter_reader f (rs : list reader) i j r' :
  alter f i rs !! j = Some r' -> exists r, rs !! j = Some r /\ (r' = r \/ i = j /\ r' = f r).
Proof.
  destruct (decide (i = j)) as [<-|Hne].
  - rewrite list_lookup_alter_eq. destruct (rs !! i) as [r|]; [|done]. intros [= <-]. exists r. auto.
  - rewrite list_lookup_alter_ne by done. intros ->. eauto.
Qed.

Lemma inv_step max d d' : step max d d' -> inv d -> inv d'.
Proof.
  intros Hs Hi. destruct Hs as [d d' E|d d' E|d d' E|i r r' d Hr E].
  - unfold main_next, inv in *. destruct (d_main d) as [| | | |[|a todo]] eqn:Em; try done.
    + by injection E as <-.
    + by injection E as <-.
    + by injection E as <-.
    + destruct (d_run d) eqn:Er; [done..|]. injection E as <-. cbn [d_main set_main d_stop d_run d_readers].
      split_and!; auto using destructor_guarded, destructor_joined.
    + destruct Hi as (Hstop&Hrun&Hg&Hj).
      assert (forall i r, d_readers d !! i = Some r -> exists r0, d_readers d !! i = Some r0 /\ (rd_stop r0 = true -> rd_stop r = true)) as Hsame by eauto.
      destruct a as [|i|i|i].
      * injection E as <-. cbn. split_and!; auto.
        { by eapply guarded_pop; [| |exact Hg]. }
        { intros j r Hj'. destruct (Hj j r Hj') as [Hin|]; [left; set_solver|by right]. }
      * injection E as <-. cbn. split_and!; auto.
        { eapply guarded_pop; [| |exact Hg].
          - intros j r' (r&Hr&[->|[_ ->]])%alter_reader; eauto.
          - intros j [= ->] r' Hr'. rewrite list_lookup_alter_eq in Hr'. destruct (d_readers d !! j); [by injection Hr' as <-|done]. }
        { eapply (joined_map (d_readers d)).
          - intros j r' (r&Hr&[->|[_ ->]])%alter_reader; eauto.
          - intros j r Hj'. destruct (Hj j r Hj') as [Hin|]; [left; set_solver|by right]. }
      * destruct (has_returned i d) eqn:Eh; [|done]. injection E as <-. cbn. split_and!; auto.
        { by eapply guarded_pop; [| |exact Hg]. }
        { intros j r Hj'. destruct (Hj j r Hj') as [[[= ->]|Hin]%elem_of_cons|]; [|by left|by right].
          right. unfold has_returned in Eh. rewrite Hj' in Eh. by apply bool_decide_eq_true in Eh. }
      * injection E as <-. cbn. split_and!; auto.
        { by eapply guarded_pop; [| |exact Hg]. }
        { intros j r Hj'. destruct (Hj j r Hj') as [Hin|]; [left; set_solver|by right]. }
  - unfold run_next in E. unfold inv in *. destruct (d_run d) eqn:Er; [| |done].
    + destruct (d_stop d) eqn:Es; injection E as <-; cbn; rewrite ?Es; destruct (d_main d); intuition congruence.
    + injection E as <-. cbn. destruct (d_main d); intuition congruence.
  - unfold accept_next in E. unfold inv in *. destruct (d_run d) eqn:Er; [done| |done].
    destruct (d_server_open d); [|done]. injection E as <-. cbn. destruct (d_main d); intuition congruence.
  - apply reader_next_keeps in E as [Hstop Hpc]. unfold inv in *. cbn. destruct (d_main d); auto.
    destruct Hi as (?&?&Hg&Hj). split_and!; auto.
    + eapply (guarded_map (d_readers d)); [|exact Hg]. intros j r1 Hj1.
      apply list_lookup_insert_Some in Hj1 as [(<-&<-&_)|[_ ?]]; [|by eauto]. exists r. split; congruence.
    + eapply (joined_map (d_readers d)); [|exact Hj]. intros j r1 Hj1.
      apply list_lookup_insert_Some in Hj1 as [(<-&<-&_)|[_ ?]]; [|by eauto]. exists r. done.
Qed.

Lemma inv_input d d' : input d d' -> inv d -> inv d'.
Proof.
  intros [i bs eof d1] Hi. unfold inv in *. cbn. destruct (d_main d1); auto.
  destruct Hi as (?&?&Hg&Hj). split_and!; auto.
  - eapply (guarded_map (d_readers d1)); [|exact Hg]. intros j r' (r&Hr&[->|[_ ->]])%alter_reader; eauto.
  - eapply (joined_map (d_readers d1)); [|exact Hj]. intros j r' (r&Hr&[->|[_ ->]])%alter_reader; eauto.
Qed.

Lemma inv_reachable max d : reachable max d -> inv d.
Proof.
  intros (links&ks&Hs&_). assert (inv (started links ks)) as Hi by done. revert Hi.
  induction Hs as [|d1 d2 d3 [H|H] _ IH]; eauto using inv_step, inv_input.
Qed.

(** ** Which threads cannot return *)

(** The stream ends in the middle of a frame. *)
Definition owes_header (max : Z) (rx : bytes) : bool :=
  (zlen rx <? sizeof_FrameHeader) ||
  (let len := frame_body_len (decode_frame (take 16 rx)) in (len <=? max) && (zlen (drop 16 rx) <? len)).

(** The thread is reading a frame, or about to, of which the remote side still
    owes a part. *)
Definition mid_frame (max : Z) (r : reader) : bool :=
  negb (rd_eof r) &&
  match rd_pc r with
  | Poll => rd_open r && (0 <? zlen (rd_rx r)) && owes_header max (rd_rx r)
  | Header => owes_header max (rd_rx r)
  | Body frame => (frame_body_len frame <=? max) && (zlen (rd_rx r) <? frame_body_len frame)
  | _ => false
  end.

Lemma mid_frame_stays max r r' :
  reader_next max r = Some r' -> mid_frame max r = true -> mid_frame max r' = true.
Proof.
  unfold mid_frame, reader_next. destruct (rd_eof r) eqn:Ee; [done|]. cbn [negb andb].
  destruct (rd_pc r) eqn:Ep; try done.
  - intros [= <-] H. apply andb_true_iff in H as [[-> ->]%andb_true_iff Ho]. cbn. by rewrite Ee.
  - unfold owes_header. destruct (Z.leb_spec sizeof_FrameHeader (zlen (rd_rx r))); [|done].
    intros [= <-]. destruct (Z.ltb_spec (zlen (rd_rx r)) sizeof_FrameHeader); [lia|]. cbn. by rewrite Ee.
  - destruct (Z.ltb_spec max (frame_body_len frame)) as [H|H].
    + destruct (Z.leb_spec (frame_body_len frame) max); [lia|done].
    + destruct (Z.leb_spec (frame_body_len frame) (zlen (rd_rx r))); [|done].
      destruct (Z.ltb_spec (zlen (rd_rx r)) (frame_body_len frame)); [lia|]. by rewrite andb_false_r.
Qed.

Definition reader_steps (max : Z) : relation reader := rtc (fun r r' => reader_next max r = Some r').

Definition returns (max : Z) (r : reader) : Prop := exists r', reader_steps max r r' /\ rd_pc r' = Returned.

Lemma returned_returns max r : rd_pc r = Returned -> returns max r.
Proof. exists r. split; [apply rtc_refl|done]. Qed.

Lemma next_returns max r r' : reader_next max r = Some r' -> returns max r' -> returns max r.
Proof. intros E (r1&Hs&Hp). exists r1. split; [by eapply rtc_l|done]. Qed.

Lemma head_returns max r : rd_pc r = Head -> rd_stop r = true -> returns max r.
Proof.
  intros Hp Hs. eapply next_returns; [unfold reader_next; by rewrite Hp, Hs|]. by apply returned_returns.
Qed.

Lemma failure_returns max r : rd_pc r = after_failure (rd_kind r) -> rd_stop r = true -> returns max r.
Proof. destruct (rd_kind r); [apply head_returns|by intros; apply returned_returns]. Qed.

Lemma body_returns max r frame :
  rd_pc r = Body frame -> mid_frame max r = false -> rd_stop r = true -> returns max r.
Proof.
  intros Hp Hm Hs. unfold mid_frame in Hm. rewrite Hp in Hm.
  assert (reader_next max r <> None /\ forall r', reader_next max r = Some r' -> returns max r') as [Hn Hr].
  { unfold reader_next. rewrite Hp. destruct (Z.ltb_spec max (frame_body_len frame)).
    - split; [done|]. intros r' [= <-]. by apply failure_returns.
    - destruct (Z.leb_spec (frame_body_len frame) (zlen (rd_rx r))).
      + split; [done|]. intros r' [= <-]. eapply next_returns; [reflexivity|]. by apply head_returns.
      + destruct (rd_eof r).
        * split; [done|]. intros r' [= <-]. by apply failure_returns.
        * rewrite (proj2 (Z.leb_le _ _)), (proj2 (Z.ltb_lt _ _)) in Hm by lia. done. }
  destruct (reader_next max r) as [r'|] eqn:E; [|done]. eapply next_returns; [exact E|]. by apply Hr.
Qed.

Lemma header_returns max r :
  rd_pc r = Header -> mid_frame max r = false -> rd_stop r = true -> returns max r.
Proof.
  intros Hp Hm Hs. unfold mid_frame in Hm. rewrite Hp in Hm. unfold owes_header in Hm.
  destruct (Z.leb_spec sizeof_FrameHeader (zlen (rd_rx r))).
  - rewrite (proj2 (Z.ltb_ge _ _)) in Hm by lia.
    eapply next_returns; [unfold reader_next; rewrite Hp, (proj2 (Z.leb_le _ _)) by lia; reflexivity|].
    by eapply body_returns.
  - rewrite (proj2 (Z.ltb_lt _ _)) in Hm by lia. destruct (rd_eof r) eqn:He; [|done].
    eapply next_returns; [unfold reader_next; rewrite Hp, (proj2 (Z.leb_gt _ _)), He by lia; reflexivity|].
    by apply returned_returns.
Qed.

(** A thread that is asked to stop, and is not in the middle of a frame, returns. *)
Lemma reader_returns max r : mid_frame max r = false -> rd_stop r = true -> returns max r.
Proof.
  intros Hm Hs. destruct (rd_pc r) eqn:Hp.
  - by apply head_returns.
  - destruct (rd_open r && ((0 <? zlen (rd_rx r)) || rd_eof r)) eqn:Eready;
      (eapply next_returns; [unfold reader_next; rewrite Hp, Eready; reflexivity|]); [|by apply head_returns].
    apply header_returns; [done| |done]. unfold mid_frame in *. rewrite Hp in Hm. cbn.
    destruct (rd_eof r); [done|]. rewrite orb_false_r in Eready. by rewrite Eready in Hm.
  - by apply header_returns.
  - by eapply body_returns.
  - eapply next_returns; [unfold reader_next; rewrite Hp; reflexivity|]. by apply head_returns.
  - by apply returned_returns.
Qed.

(** ** The way to the end *)

Lemma reader_steps_daemon max i r r' d :
  reader_steps max r r' -> d_readers d !! i = Some r ->
  rtc (step max) d (set_readers (<[i := r']> (d_readers d)) d).
Proof.
  intros Hs. revert d. induction Hs as [r|r r1 r2 E Hs IH]; intros d Hr.
  - rewrite list_insert_id by done. destruct d. apply rtc_refl.
  - eapply rtc_l; [by eapply step_reader|].
    assert (i < length (d_readers d))%nat by by eapply lookup_lt_Some.
    specialize (IH (set_readers (<[i := r1]> (d_readers d)) d)). cbn [d_readers set_readers] in IH.
    rewrite list_insert_insert_eq in IH. apply IH. by apply list_lookup_insert_eq.
Qed.

Abbreviation calm max d := (Forall (fun r => mid_frame max r = false) (d_readers d)).

Definition ends (max : Z) (d : daemon) : Prop := exists d', rtc (step max) d d' /\ finished d'.

Lemma step_ends max d d1 : step max d d1 -> (inv d1 -> ends max d1) -> inv d -> ends max d.
Proof.
  intros Hs H1 Hi. destruct (H1 (inv_step _ _ _ Hs Hi)) as (d'&Hs'&Hf). exists d'. split; [by eapply rtc_l|done].
Qed.

Lemma main_ends max d d1 : main_next d = Some d1 -> (inv d1 -> ends max d1) -> inv d -> ends max d.
Proof. intros E. by apply step_ends, step_main. Qed.

Lemma run_ends max d d1 : run_next d = Some d1 -> (inv d1 -> ends max d1) -> inv d -> ends max d.
Proof. intros E. by apply step_ends, step_run. Qed.

Lemma calm_stop max i d : calm max d -> Forall (fun r => mid_frame max r = false) (alter request_stop i (d_readers d)).
Proof.
  intros Hc. apply list.Forall_lookup. intros j r' (r&Hr&[->|[_ ->]])%alter_reader;
    apply (list.Forall_lookup_1 _ _ _ _ Hc Hr).
Qed.

(** A thread that is joined runs until it returns. *)
Lemma join_thread max i r d :
  calm max d -> inv d -> d_readers d !! i = Some r -> rd_stop r = true ->
  exists rs, rtc (step max) d (set_readers rs d) /\ inv (set_readers rs d) /\
    has_returned i (set_readers rs d) = true /\ Forall (fun r => mid_frame max r = false) rs.
Proof.
  intros Hc Hi Hr Hstop. destruct (reader_returns max r (list.Forall_lookup_1 _ _ _ _ Hc Hr) Hstop) as (r'&Hsteps&Hret).
  pose proof (reader_steps_daemon max i r r' d Hsteps Hr) as Hs.
  exists (<[i := r']> (d_readers d)). split_and!; [done| | |].
  - clear -Hs Hi. induction Hs; eauto using inv_step.
  - unfold has_returned. cbn. rewrite list_lookup_insert_eq by by eapply lookup_lt_Some. by apply bool_decide_eq_true.
  - apply list.Forall_insert; [done|]. unfold mid_frame. rewrite Hret. by rewrite andb_false_r.
Qed.

(** The destructor ends, if no thread is in the middle of a frame. *)
Lemma destructor_ends max todo d : d_main d = Destructor todo -> calm max d -> inv d -> ends max d.
Proof.
  revert d. induction todo as [|a todo IH]; intros d Hm Hc Hi.
  { exists d. split; [apply rtc_refl|done]. }
  destruct a as [|i|i|i].
  - eapply main_ends; [unfold main_next; rewrite Hm; reflexivity|by apply IH|done].
  - eapply main_ends; [unfold main_next; rewrite Hm; reflexivity|apply IH|done]; [done|by apply calm_stop].
  - destruct (d_readers d !! i) as [r|] eqn:Hr.
    2:{ eapply main_ends; [unfold main_next, has_returned; rewrite Hm, Hr; reflexivity|by apply IH|done]. }
    assert (rd_stop r = true) as Hstop.
    { unfold inv in Hi. rewrite Hm in Hi. destruct Hi as (_&_&Hg&_).
      destruct (Hg [] i todo eq_refl) as [Hin|Hs]; [by apply elem_of_nil in Hin|by apply Hs]. }
    destruct (join_thread max i r d Hc Hi Hr Hstop) as (rs&Hs&Hi1&Hret&Hc1).
    assert (ends max (set_readers rs d)) as (d'&Hs'&Hf).
    { apply (main_ends max _ (set_main (Destructor todo) (set_readers rs d))); [|by apply IH|done].
      unfold main_next. cbn [d_main set_readers]. by rewrite Hm, Hret. }
    exists d'. split; [by etrans|done].
  - eapply main_ends; [unfold main_next; rewrite Hm; reflexivity|by apply IH|done].
Qed.

(** From [JoinRun] the accept loop returns, and the destructor runs. *)
Lemma loop_ends max d : d_main d = JoinRun -> calm max d -> inv d -> ends max d.
Proof.
  assert (forall d, d_main d = JoinRun -> d_run d = RunReturned -> calm max d -> inv d -> ends max d) as Hjoin.
  { intros d1 Hm Hr Hc Hi. eapply main_ends; [unfold main_next; rewrite Hm, Hr; reflexivity| |done].
    by eapply destructor_ends. }
  assert (forall d, d_main d = JoinRun -> d_run d = RunHead -> calm max d -> inv d -> ends max d) as Hhead.
  { intros d1 Hm Hr Hc Hi. assert (d_stop d1 = true) as Hs by (unfold inv in Hi; by rewrite Hm in Hi).
    eapply run_ends; [unfold run_next; rewrite Hr, Hs; reflexivity|by apply Hjoin|done]. }
  intros Hm Hc Hi. destruct (d_run d) eqn:Hr; [by apply Hhead| |by apply Hjoin].
  eapply run_ends; [unfold run_next; rewrite Hr; reflexivity|by apply Hhead|done].
Qed.

Lemma calm_ends max d : calm max d -> inv d -> ends max d.
Proof.
  assert (forall d, d_main d = CloseServer -> calm max d -> inv d -> ends max d) as Hclose.
  { intros d1 Hm Hc. eapply main_ends; [unfold main_next; rewrite Hm; reflexivity|by apply loop_ends]. }
  assert (forall d, d_main d = RequestStop -> calm max d -> inv d -> ends max d) as Hstop.
  { intros d1 Hm Hc. eapply main_ends; [unfold main_next; rewrite Hm; reflexivity|by apply Hclose]. }
  intros Hc Hi. destruct (d_main d) eqn:Hm; eauto using loop_ends, destructor_ends.
  revert Hi. eapply main_ends; [unfold main_next; rewrite Hm; reflexivity|by apply Hstop].
Qed.

(** A thread in the middle of a frame stays there. *)
Lemma owing_step max d d' i r :
  step max d d' -> d_readers d !! i = Some r -> mid_frame max r = true ->
  exists r', d_readers d' !! i = Some r' /\ mid_frame max r' = true.
Proof.
  intros Hs Hr Hm. destruct Hs as [d d' E|d d' E|d d' E|j r0 r0' d Hr0 E].
  - unfold main_next in E. destruct (d_main d) as [| | | |[|[| | |] todo]]; repeat case_match; try done;
      injection E as <-; cbn; try (by exists r).
    destruct (decide (i0 = i)) as [->|Hne].
    + exists (request_stop r). rewrite list_lookup_alter_eq, Hr. done.
    + exists r. by rewrite list_lookup_alter_ne.
  - unfold run_next in E. repeat case_match; try done; injection E as <-; by exists r.
  - unfold accept_next in E. repeat case_match; try done. injection E as <-. exists r. cbn.
    split; [by apply lookup_app_l_Some|done].
  - cbn. destruct (decide (i = j)) as [->|Hne].
    + assert (r0 = r) as -> by congruence. exists r0'. split; [|by eapply mid_frame_stays].
      apply list_lookup_insert_eq. by eapply lookup_lt_Some.
    + exists r. by rewrite list_lookup_insert_ne.
Qed.

Lemma finished_returned d i r : finished d -> inv d -> d_readers d !! i = Some r -> rd_pc r = Returned.
Proof.
  intros Hf Hi Hr. unfold inv in Hi. rewrite Hf in Hi. destruct Hi as (_&_&_&Hj).
  destruct (Hj i r Hr) as [Hin|]; [by apply elem_of_nil in Hin|done].
Qed.

(** C30. A daemon that gets a signal can end exactly if no thread is in the middle
    of a frame: from every state it can reach, without any more input, there is a
    way to the end of [main] if no remote side has sent a part of a frame, or of
    one that is being read, and there is none otherwise.  At the end the accept
    loop and all threads have returned. *)
Theorem shutdown_completes max d :
  reachable max d ->
  ((exists d', rtc (step max) d d' /\ finished d') <-> Forall (fun r => mid_frame max r = false) (d_readers d)) /\
  (finished d -> d_run d = RunReturned /\ Forall (fun r => rd_pc r = Returned) (d_readers d)).
Proof.
  intros Hi%inv_reachable. split; [split|].
  - intros (d'&Hs&Hf). apply list.Forall_lookup. intros i r Hr. destruct (mid_frame max r) eqn:Hm; [exfalso|done].
    revert r Hr Hm Hi. induction Hs as [d|d d1 d' Hs _ IH]; intros r Hr Hm Hi.
    + pose proof (finished_returned d i r Hf Hi Hr) as Hp. unfold mid_frame in Hm. rewrite Hp, andb_false_r in Hm. done.
    + destruct (owing_step max d d1 i r Hs Hr Hm) as (r'&Hr'&Hm'). eapply IH; eauto using inv_step.
  - intros Hc. by apply calm_ends.
  - intros Hf. split.
    + unfold inv in Hi. rewrite Hf in Hi. apply Hi.
    + apply list.Forall_lookup. intros i r. by apply finished_returned.
Qed.

(** ** Schedules *)

Inductive event := ByMain | ByRun | Accept | ByReader (i : nat) | Input (i : nat) (bs : bytes) (eof : bool).

Definition event_next (max : Z) (e : event) (d : daemon) : option daemon :=
  match e with
  | ByMain => main_next d
  | ByRun => run_next d
  | Accept => accept_next d
  | ByReader i =>
      match d_readers d !! i with
      | Some r => (fun r' => set_readers (<[i := r']> (d_readers d)) d) <$> reader_next max r
      | None => None
      end
  | Input i bs eof => Some (set_readers (alter (more_input bs eof) i (d_readers d)) d)
  end.

Fixpoint schedule (max : Z) (es : list event) (d : daemon) : option daemon :=
  match es with
  | [] => Some d
  | e :: es => event_next max e d ≫= schedule max es
  end.

Lemma schedule_reachable max links ks es d :
  (links <= length ks)%nat -> schedule max es (started links ks) = Some d -> reachable max d.
Proof.
  intros Hl E. exists links, ks. split; [|done]. revert E. generalize (started links ks).
  induction es as [|e es IH]; intros d0; cbn [schedule]; [intros [= ->]; apply rtc_refl|].
  destruct (event_next max e d0) as [d1|] eqn:E1; [|done]. cbn [mbind option_bind]. intros Es.
  eapply rtc_l; [|by apply IH]. destruct e; cbn in E1.
  - left. by apply step_main.
  - left. by apply step_run.
  - left. by apply step_accept.
  - destruct (d_readers d0 !! i) as [r|] eqn:Hr; [|done]. destruct (reader_next max r) as [r'|] eqn:Er; [|done].
    cbn in E1. injection E1 as <-. left. by eapply step_reader.
  - injection E1 as <-. right. constructor.
Qed.

(** [local_mailboxes_] and its mutex are declared after [connections_], so they
    are destroyed while the threads of the connections still run: a registration
    that is being handled at that moment uses them. *)
Definition registration_bytes : bytes :=
  encode_frame (make_frame MSG_ROUTER_MBX_INIT_WITH_REPLY 0 7 0 1 4) ++ encode_mbx 7.

Definition late_registration : list event :=
  [Input 0 registration_bytes false; ByReader 0; ByMain; ByMain; ByMain; ByRun; ByMain;
   ByReader 0; ByReader 0; ByReader 0; ByMain].

Theorem locals_used_after_destruction :
  exists d r frame body, reachable 4096 d /\ d_locals d = false /\ d_readers d !! 0%nat = Some r /\
    rd_pc r = Handle frame body /\ f_type frame = MSG_ROUTER_MBX_INIT_WITH_REPLY /\ decode_mbx body = 7.
Proof.
  destruct (schedule 4096 late_registration (started 0 [Client])) as [d|] eqn:E; [|by vm_compute in E].
  pose proof (schedule_reachable 4096 0 [Client] _ d (Nat.le_0_l _) E) as Hr.
  vm_compute in E. injection E as <-. eexists _, _, _, _. split_and!; [exact Hr|reflexivity..|vm_compute; reflexivity].
Qed.

(** ** Witness *)

(** A client has sent half a header; its thread has seen it. *)
Definition half_frame : list event := [ByReader 0; Input 0 [1; 2; 3; 4; 5; 6; 7; 8] false].

(** With it the daemon cannot end; when the client closes its connection it can. *)
Lemma shutdown_completes_witness :
  exists d d', schedule 4096 half_frame (started 0 [Client]) = Some d /\
    schedule 4096 (half_frame ++ [Input 0 [] true]) (started 0 [Client]) = Some d' /\
    ~ (exists d1, rtc (step 4096) d d1 /\ finished d1) /\
    (exists d1, rtc (step 4096) d' d1 /\ finished d1).
Proof.
  eexists _, _. split; [reflexivity|]. split; [reflexivity|]. split.
  - intros He. match type of He with exists d1, rtc _ ?d d1 /\ _ =>
      destruct (shutdown_completes 4096 d) as [[H _] _] end.
    + apply (schedule_reachable 4096 0 [Client] half_frame); [apply Nat.le_0_l|reflexivity].
    + specialize (H He). inversion H as [|? ? Hm]. vm_compute in Hm. discriminate.
  - match goal with |- exists d1, rtc _ ?d d1 /\ _ =>
      destruct (shutdown_completes 4096 d) as [[_ H] _] end.
    + apply (schedule_reachable 4096 0 [Client] (half_frame ++ [Input 0 [] true])); [apply Nat.le_0_l|reflexivity].
    + apply H. by_compute.
Defined.

End Shutdown.
