(* ===== verification/EvlNames.v ===== *)
(** * Names of EVL objects

    Models [evl_name] and [shm_name] of include/corerat/ipc/evl/evl_backend.hpp
    and the names made with them: processes find the objects of a mailbox by
    the name they compute from its id, with no table in between.  The routers
    compute the path of the xbuf in the same way.  The threads, mutexes and
    events of include/corerat/platform/evl/threading_impl.hpp have names made
    from numbers that no other object has. *)

From Stdlib Require Import ZArith Lia Ascii String.
From stdpp Require Import base list numbers.
From S2P Require Import Prelude CommandLine.

#[local] Open Scope Z_scope.
#[local] Open Scope string_scope.

Import CmdLine.

(** [snprintf(buf, sizeof(buf), ...)] with 64 bytes: the terminator needs one. *)
Definition buffer_size : nat := 64.

Definition snprintf (s : string) : string := String.substring 0 (buffer_size - 1) s.

(** [evl_name]: the answer is the view of [n] bytes of the buffer, [n] being
    what [snprintf] answers, the length without truncation; [None] where it
    would reach past the buffer. *)
Definition evl_name (prefix : string) (id : Z) : option string :=
  let s := prefix ++ decimal id in
  if (String.length s <? buffer_size)%nat then Some (snprintf s) else None.

Definition shm_name (id : Z) : option string := evl_name "/corerat_mbx_" id.

(** [create_evl_objects] and [open_remote]; [create_xbuf]. *)
Definition mutex_name (id : Z) : option string := evl_name "corerat-ring-mtx-" id.
Definition event_name (id : Z) : option string := evl_name "corerat-ring-evt-" id.
Definition xbuf_name (id : Z) : option string := evl_name "corerat-xbuf-" id.

(** tcp_router.cpp has no xbufs; [Connection::handle_frame] of evl_router.cpp
    opens this path into a buffer of the same size. *)
Definition xbuf_path (id : Z) : string := snprintf ("/dev/evl/xbuf/corerat-xbuf-" ++ decimal id).

(** [%d] of an int. *)
Definition decimal_int (n : Z) : string := if (n <? 0)%Z then "-" ++ decimal (- n) else decimal n.

(** [c_str()] as [%s] reads it: up to the first zero byte. *)
Fixpoint c_str (s : string) : string :=
  match s with
  | String a rest => if Ascii.eqb a "000" then "" else String a (c_str rest)
  | EmptyString => ""
  end.

(** [Thread::thread_entry], with the name of the configuration. *)
Definition thread_name (name : string) (tid : Z) : string :=
  let cfg_name := if String.eqb name "" then "thread" else name in
  snprintf ("corerat-" ++ c_str (String.substring 0 40 cfg_name) ++ ":" ++ decimal_int tid).

(** The constructors of [Mutex] and [ConditionVariable]; [counter] is the
    process-wide counter of the class, [pid] the process. *)
Definition runtime_mutex_name (counter pid : Z) : string :=
  snprintf ("corerat-mtx-" ++ decimal_int counter ++ ":" ++ decimal_int pid).
Definition runtime_event_name (counter pid : Z) : string :=
  snprintf ("corerat-evt-" ++ decimal_int counter ++ ":" ++ decimal_int pid).

(** All the names made from one id. *)
Definition names (id : Z) : list (option string) :=
  [shm_name id; mutex_name id; event_name id; xbuf_name id; Some (xbuf_path id)].

Lemma substring_all n s : (String.length s <= n)%nat -> String.substring 0 n s = s.
Proof.
  revert n. induction s as [|a s IH]; intros [|n] Hn; cbn in *; [done..|lia|]. f_equal. apply IH. lia.
Qed.

Lemma snprintf_all s : (String.length s < buffer_size)%nat -> snprintf s = s.
Proof. intros Hs. apply substring_all. unfold buffer_size in *. lia. Qed.

Lemma length_append s t : String.length (s ++ t) = (String.length s + String.length t)%nat.
Proof. induction s as [|a s IH]; [done|]. exact (f_equal S IH). Qed.

Lemma length_decimal_go fuel n s : (String.length (decimal_go fuel n s) <= fuel + String.length s)%nat.
Proof.
  revert n s. induction fuel as [|fuel IH]; intros n s; cbn [decimal_go]; [lia|].
  destruct (n <? 10)%Z; cbn [String.length]; [lia|]. specialize (IH (n / 10)%Z (String (digit_char (n mod 10)) s)).
  cbn [String.length] in IH. lia.
Qed.

Lemma length_decimal n : (String.length (decimal n) <= 20)%nat.
Proof. apply (length_decimal_go 20 n ""). Qed.

Lemma decimal_inj n m : in_u 32 n -> in_u 32 m -> decimal n = decimal m -> n = m.
Proof.
  intros Hn Hm E. apply (f_equal (read_digits 0)) in E. unfold decimal in E.
  assert (2 ^ 32 < 10 ^ Z.of_nat 20)%Z by done. unfold in_u in *.
  by rewrite !read_decimal_go in E by lia.
Qed.

Lemma evl_name_fits prefix id :
  (String.length prefix <= 43)%nat -> evl_name prefix id = Some (prefix ++ decimal id).
Proof.
  intros Hp. unfold evl_name. pose proof (length_decimal id) as Hd.
  assert (String.length (prefix ++ decimal id) < buffer_size)%nat as Hl.
  { rewrite length_append. unfold buffer_size. lia. }
  rewrite (proj2 (Nat.ltb_lt _ _) Hl). by rewrite snprintf_all.
Qed.

Lemma xbuf_path_fits id : xbuf_path id = "/dev/evl/xbuf/corerat-xbuf-" ++ decimal id.
Proof.
  unfold xbuf_path. apply snprintf_all. rewrite length_append. pose proof (length_decimal id).
  change (String.length "/dev/evl/xbuf/corerat-xbuf-") with 27%nat. unfold buffer_size. lia.
Qed.

Lemma names_eq id :
  names id = [Some ("/corerat_mbx_" ++ decimal id); Some ("corerat-ring-mtx-" ++ decimal id);
    Some ("corerat-ring-evt-" ++ decimal id); Some ("corerat-xbuf-" ++ decimal id);
    Some ("/dev/evl/xbuf/corerat-xbuf-" ++ decimal id)].
Proof.
  unfold names, shm_name, mutex_name, event_name, xbuf_name. rewrite xbuf_path_fits.
  by rewrite !evl_name_fits by (cbn; lia).
Qed.

(** ** Names with numbers *)

Lemma length_decimal_go_digits k fuel n s :
  0 <= n < 10 ^ Z.of_nat (S k) -> (String.length (decimal_go fuel n s) <= S k + String.length s)%nat.
Proof.
  revert k n s. induction fuel as [|fuel IH]; intros k n s Hn; cbn [decimal_go]; [lia|].
  destruct (Z.ltb_spec n 10); cbn [String.length]; [lia|]. destruct k as [|k].
  - change (10 ^ Z.of_nat 1) with 10 in Hn. lia.
  - rewrite Nat2Z.inj_succ, Z.pow_succ_r in Hn by lia.
    assert (0 <= n / 10 < 10 ^ Z.of_nat (S k)) as Hd
      by (split; [apply Z.div_pos; lia|apply Z.div_lt_upper_bound; lia]).
    specialize (IH k (n / 10) (String (digit_char (n mod 10)) s) Hd). cbn [String.length] in IH. lia.
Qed.

(** A 32-bit int has at most a sign and ten digits. *)
Lemma length_decimal_int n : in_s 32 n -> (String.length (decimal_int n) <= 11)%nat.
Proof.
  intros Hn. assert (forall m, 0 <= m <= 2 ^ 31 -> (String.length (decimal m) <= 10)%nat) as Hd.
  { intros m Hm. assert (2 ^ 31 < 10 ^ Z.of_nat 10) by done.
    etransitivity; [apply (length_decimal_go_digits 9 20 m ""); lia|done]. }
  unfold in_s, decimal_int in *. change (32 - 1) with 31 in *.
  destruct (Z.ltb_spec n 0); [|specialize (Hd n); lia].
  rewrite length_append. change (String.length "-") with 1%nat. specialize (Hd (- n)). lia.
Qed.

Lemma decimal_not_minus n s : 0 <= n -> decimal n <> "-" ++ s.
Proof. intros Hn E. pose proof (decimal_starts n Hn) as Hs. by rewrite E in Hs. Qed.

Lemma decimal_int_inj n m : in_s 32 n -> in_s 32 m -> decimal_int n = decimal_int m -> n = m.
Proof.
  unfold in_s, decimal_int. intros Hn Hm. change (32 - 1) with 31 in *.
  assert (2 ^ 32 = 2 * 2 ^ 31) as Hp by done.
  destruct (Z.ltb_spec n 0), (Z.ltb_spec m 0); intros E.
  - injection E as E. apply decimal_inj in E; unfold in_u; lia.
  - symmetry in E. by apply decimal_not_minus in E.
  - by apply decimal_not_minus in E.
  - apply decimal_inj; unfold in_u; lia || done.
Qed.

Lemma split_last_decimal_int n : split_last ":" (decimal_int n) = None.
Proof.
  assert (forall m, 0 <= m -> split_last ":" (decimal m) = None) as Hd
    by (intros; apply split_last_digits; [done|by apply decimal_digits]).
  unfold decimal_int. destruct (Z.ltb_spec n 0); [|by apply Hd].
  change ("-" ++ decimal (- n)) with (String "-" (decimal (- n))).
  cbn [split_last]. by rewrite Hd by lia.
Qed.

(** What stands before the last colon, and the number after it. *)
Lemma colon_number_inj s s' n n' :
  in_s 32 n -> in_s 32 n' -> s ++ ":" ++ decimal_int n = s' ++ ":" ++ decimal_int n' -> s = s' /\ n = n'.
Proof.
  intros Hn Hn' E. apply (f_equal (split_last ":")) in E.
  change (":" ++ decimal_int n) with (String ":" (decimal_int n)) in E.
  change (":" ++ decimal_int n') with (String ":" (decimal_int n')) in E.
  rewrite !split_last_app in E by apply split_last_decimal_int.
  injection E as -> E. split; [done|]. by apply decimal_int_inj.
Qed.

Lemma append_inj_l s t t' : s ++ t = s ++ t' -> t = t'.
Proof. induction s as [|a s IH]; cbn; [done|]. intros [= E]. by apply IH. Qed.

Lemma append_assoc s t u : (s ++ t) ++ u = s ++ (t ++ u).
Proof. induction s as [|a s IH]; [done|]. exact (f_equal (String a) IH). Qed.

Lemma length_substring n s : (String.length (String.substring 0 n s) <= n)%nat.
Proof. revert s. induction n as [|n IH]; intros [|a s]; cbn; [lia..|]. specialize (IH s). lia. Qed.

Lemma length_c_str s : (String.length (c_str s) <= String.length s)%nat.
Proof. induction s as [|a s IH]; cbn; [done|]. destruct (Ascii.eqb a "000"); cbn; lia. Qed.

Definition shown_name (name : string) : string :=
  c_str (String.substring 0 40 (if String.eqb name "" then "thread" else name)).

Lemma length_shown_name name : (String.length (shown_name name) <= 40)%nat.
Proof. etransitivity; [apply length_c_str|apply length_substring]. Qed.

Lemma thread_name_eq name tid :
  in_s 32 tid -> thread_name name tid = ("corerat-" ++ shown_name name) ++ ":" ++ decimal_int tid.
Proof.
  intros Ht. rewrite append_assoc. apply snprintf_all. fold (shown_name name). rewrite !length_append.
  pose proof (length_shown_name name). pose proof (length_decimal_int tid Ht).
  change (String.length "corerat-") with 8%nat. change (String.length ":") with 1%nat. unfold buffer_size. lia.
Qed.

Lemma runtime_name_eq prefix counter pid :
  String.length prefix = 12%nat -> in_s 32 counter -> in_s 32 pid ->
  snprintf (prefix ++ decimal_int counter ++ ":" ++ decimal_int pid) =
  (prefix ++ decimal_int counter) ++ ":" ++ decimal_int pid.
Proof.
  intros Hp Hc Ht. rewrite append_assoc. apply snprintf_all. rewrite !length_append, Hp.
  pose proof (length_decimal_int counter Hc). pose proof (length_decimal_int pid Ht).
  change (String.length ":") with 1%nat. unfold buffer_size. lia.
Qed.

(** The objects of threading_impl.hpp: two live threads, and two mutexes or
    condition variables, never have the same name, whatever the threads are
    called, and a mutex or event of a mailbox never has the name of one of these. *)
Definition runtime_names_distinct : Prop :=
  (forall name tid name' tid', in_s 32 tid -> in_s 32 tid' ->
     thread_name name tid = thread_name name' tid' -> tid = tid') /\
  (forall c pid c' pid', in_s 32 c -> in_s 32 pid -> in_s 32 c' -> in_s 32 pid' ->
     (runtime_mutex_name c pid = runtime_mutex_name c' pid' -> c = c' /\ pid = pid') /\
     (runtime_event_name c pid = runtime_event_name c' pid' -> c = c' /\ pid = pid') /\
     runtime_mutex_name c pid <> runtime_event_name c' pid') /\
  (forall id c pid, in_s 32 c -> in_s 32 pid ->
     Some (runtime_mutex_name c pid) ∉ names id /\ Some (runtime_event_name c pid) ∉ names id).

Lemma runtime_names : runtime_names_distinct.
Proof.
  assert (forall prefix c pid c' pid', String.length prefix = 12%nat ->
    in_s 32 c -> in_s 32 pid -> in_s 32 c' -> in_s 32 pid' ->
    snprintf (prefix ++ decimal_int c ++ ":" ++ decimal_int pid) =
    snprintf (prefix ++ decimal_int c' ++ ":" ++ decimal_int pid') -> c = c' /\ pid = pid') as Hinj.
  { intros prefix c pid c' pid' Hp Hc Ht Hc' Ht' E. rewrite !runtime_name_eq in E by done.
    apply colon_number_inj in E as [E ->]; [|done..]. apply append_inj_l in E. by apply decimal_int_inj in E. }
  split; [|split].
  - intros name tid name' tid' Ht Ht' E. rewrite !thread_name_eq in E by done.
    by apply colon_number_inj in E as [_ ->].
  - intros c pid c' pid' Hc Ht Hc' Ht'. split; [by apply Hinj|]. split; [by apply Hinj|].
    unfold runtime_mutex_name, runtime_event_name. by rewrite !runtime_name_eq.
  - intros id c pid Hc Ht. rewrite names_eq. unfold runtime_mutex_name, runtime_event_name.
    rewrite !runtime_name_eq by done.
    split; intros H; repeat (apply elem_of_cons in H as [H|H]; [done|]); by apply elem_of_nil in H.
Qed.

(** C25. The names of the shared memory, mutex, event and xbuf of a mailbox fit
    their buffers for every 32-bit id, and identify the object: two names are
    equal only if they are of the same kind and for the same id.  The path a
    router opens is that of the xbuf of the mailbox.  No two live threads, and
    no two mutexes or events, of the whole machine get one name. *)
Theorem object_names id id' :
  in_u 32 id -> in_u 32 id' ->
  Forall is_Some (names id) /\
  (forall i j n, names id !! i = Some n -> names id' !! j = Some n -> i = j /\ id = id') /\
  (forall n, xbuf_name id = Some n -> xbuf_path id = "/dev/evl/xbuf/" ++ n) /\
  runtime_names_distinct.
Proof.
  intros Hid Hid'. rewrite !names_eq. split; [repeat constructor; eauto|]. split; [|split; [|apply runtime_names]].
  - intros i j n Hi Hj.
    destruct i as [|[|[|[|[|i]]]]]; cbn in Hi; simplify_eq;
      destruct j as [|[|[|[|[|j]]]]]; cbn in Hj; simplify_eq; (split; [done|]);
      apply decimal_inj; done.
  - intros n. unfold xbuf_name. rewrite evl_name_fits, xbuf_path_fits by (cbn; lia). by intros [= <-].
Qed.

Lemma object_names_witness :
  names 4294967295 !! 1%nat = Some (Some "corerat-ring-mtx-4294967295") /\
  (forall i j n, names 7 !! i = Some n -> names 4294967295 !! j = Some n -> i = j /\ 7%Z = 4294967295%Z).
Proof.
  split; [vm_compute; reflexivity|].
  apply (object_names 7 4294967295); by_compute.
Defined.
