(* ===== verification/Diagnostics.v ===== *)
(** * Messages on stderr

    The EVL parts report the failure of a call of libevl with [snprintf] into a
    buffer of the stack and [::write] of as many bytes as [snprintf] answers,
    which is the length of the whole text, not of what fits.  Models those of
    include/corerat/ipc/evl/evl_backend.hpp and of timestamp_impl.hpp and
    threading_impl.hpp in include/corerat/platform/evl/. *)

From Stdlib Require Import ZArith Lia Ascii String.
From stdpp Require Import base list numbers.
From S2P Require Import Prelude CommandLine EvlNames.

#[local] Open Scope Z_scope.
#[local] Open Scope string_scope.

Import CmdLine.

(** What [::write] takes from a buffer of [size] bytes, the terminator
    included where the text has exactly that length; [None]: it reads past the
    buffer. *)
Definition report (size : nat) (text : string) : option string :=
  let n := String.length text in
  if (n <? size)%nat then Some text
  else if (n =? size)%nat then Some (String.substring 0 (size - 1) text ++ String "000" "")
  else None.

Definition newline : string := String "010" "".
Definition quote : string := String "034" "".

Definition EPERM : Z := 1.
Definition ENOMEM : Z := 12.
Definition EEXIST : Z := 17.

(** [create_evl_objects] *)
Definition mutex_failed (r : Z) : string := "[corerat] evl_create_mutex failed: " ++ decimal_int r ++ newline.
Definition event_failed (r : Z) : string := "[corerat] evl_create_event failed: " ++ decimal_int r ++ newline.
Definition mutex_report (r : Z) : option string := report 64 (mutex_failed r).
Definition event_report (r : Z) : option string := report 64 (event_failed r).

(** [create_xbuf] *)
Definition xbuf_failed (r : Z) : string := "[corerat] evl_create_xbuf failed: " ++ decimal_int r ++ newline.
Definition xbuf_report (r : Z) : option string := report 80 (xbuf_failed r).

(** [Time::sleep_ns] *)
Definition usleep_failed (us r : Z) : string :=
  "[corerat] evl_usleep(" ++ decimal us ++ " us) failed: " ++ decimal_int r ++ " (thread not OOB-attached)" ++ newline.
Definition usleep_report (us r : Z) : option string := report 96 (usleep_failed us r).

(** [Thread::thread_entry] *)
Definition attach_reason (efd : Z) : string :=
  if (efd =? - EPERM)%Z then "EVL core unavailable or no permission"
  else if (efd =? - EEXIST)%Z then "name already registered (duplicate thread name in EVL core)"
  else if (efd =? - ENOMEM)%Z then "kernel out of memory"
  else "unknown error".
Definition attach_failed (name : string) (efd : Z) : string :=
  "[corerat] evl_attach_self(" ++ quote ++ name ++ quote ++ ") = " ++ decimal_int efd ++ ": " ++ attach_reason efd ++
  " -- thread will run in-band, OOB sleep disabled" ++ newline.
Definition attach_report (name : string) (efd : Z) : option string := report 160 (attach_failed name efd).

(** ** Lengths *)

Lemma report_fits size text : (String.length text < size)%nat -> report size text = Some text.
Proof. unfold report. by intros ->%Nat.ltb_lt. Qed.

Lemma report_none size text : report size text = None <-> (size < String.length text)%nat.
Proof.
  unfold report. destruct (Nat.ltb_spec (String.length text) size); [split; [done|lia]|].
  destruct (Nat.eqb_spec (String.length text) size); split; done || lia.
Qed.

Lemma length_decimal_32 n : in_u 32 n -> (String.length (decimal n) <= 10)%nat.
Proof.
  unfold in_u. intros Hn. assert (2 ^ 32 < 10 ^ Z.of_nat 10) by done.
  etransitivity; [apply (length_decimal_go_digits 9 20 n ""); lia|done].
Qed.

Lemma decimal_int_nonempty n : (1 <= String.length (decimal_int n))%nat.
Proof.
  unfold decimal_int. destruct (Z.ltb_spec n 0); [rewrite length_append; cbn; lia|].
  pose proof (decimal_starts n ltac:(lia)) as Hs. destruct (decimal n); [done|cbn; lia].
Qed.

Lemma length_attach_failed name tid efd :
  in_s 32 tid ->
  String.length (attach_failed (thread_name name tid) efd) =
  (91 + String.length (attach_reason efd) + String.length (shown_name name) +
   String.length (decimal_int tid) + String.length (decimal_int efd))%nat.
Proof.
  intros Ht. unfold attach_failed. rewrite thread_name_eq by done. rewrite !length_append.
  change (String.length quote) with 1%nat. change (String.length newline) with 1%nat. cbn [String.length]. lia.
Qed.

Lemma length_attach_reason efd :
  (efd = - EEXIST /\ String.length (attach_reason efd) = 59%nat) \/
  (efd <> - EEXIST /\ (efd = - EPERM \/ efd = - ENOMEM \/ (String.length (attach_reason efd) = 13)%nat) /\
   (String.length (attach_reason efd) <= 37)%nat).
Proof.
  unfold attach_reason.
  destruct (Z.eqb_spec efd (- EPERM)) as [->|]; [right; split; [done|]; cbn; lia|].
  destruct (Z.eqb_spec efd (- EEXIST)) as [->|]; [by left|]. right. split; [done|].
  destruct (Z.eqb_spec efd (- ENOMEM)) as [->|]; cbn; lia.
Qed.

(** C37. The messages about a mailbox and about a sleep fit their buffers and are
    written whole, for every error code.  The message of a thread that cannot
    attach does not always: [::write] reads past the 160 bytes exactly if
    reason, name and numbers together are longer than 69.  That happens to every
    thread with the default name whose attachment is refused with -EEXIST; with
    any other code it does not happen to names of up to 18 bytes. *)
Theorem diagnostics_bounds :
  (forall r, in_s 32 r ->
     mutex_report r = Some (mutex_failed r) /\ event_report r = Some (event_failed r) /\
     xbuf_report r = Some (xbuf_failed r)) /\
  (forall us r, in_u 32 us -> in_s 32 r -> usleep_report us r = Some (usleep_failed us r)) /\
  (forall name tid efd, in_s 32 tid -> in_s 32 efd ->
     (attach_report (thread_name name tid) efd = None <->
      (69 < String.length (attach_reason efd) + String.length (shown_name name) +
            String.length (decimal_int tid) + String.length (decimal_int efd))%nat)) /\
  (forall tid, in_s 32 tid -> attach_report (thread_name "unnamed" tid) (- EEXIST) = None) /\
  (forall name tid efd, in_s 32 tid -> in_s 32 efd -> efd <> - EEXIST ->
     (String.length (shown_name name) <= 18)%nat ->
     attach_report (thread_name name tid) efd = Some (attach_failed (thread_name name tid) efd)).
Proof.
  split; [|split; [|split; [|split]]].
  - intros r Hr. pose proof (length_decimal_int r Hr).
    split_and!; apply report_fits; unfold mutex_failed, event_failed, xbuf_failed; rewrite !length_append; cbn; lia.
  - intros us r Hu Hr. pose proof (length_decimal_int r Hr). pose proof (length_decimal_32 us Hu).
    apply report_fits. unfold usleep_failed. rewrite !length_append. cbn [String.length newline]. lia.
  - intros name tid efd Ht He. unfold attach_report. rewrite report_none, length_attach_failed by done. lia.
  - intros tid Ht. apply report_none. rewrite length_attach_failed by done.
    pose proof (decimal_int_nonempty tid).
    change (String.length (attach_reason (- EEXIST))) with 59%nat. change (String.length (shown_name "unnamed")) with 7%nat.
    change (String.length (decimal_int (- EEXIST))) with 3%nat. lia.
  - intros name tid efd Ht He Hne Hl. apply report_fits. rewrite length_attach_failed by done.
    pose proof (length_decimal_int tid Ht). pose proof (length_decimal_int efd He).
    destruct (length_attach_reason efd) as [[? _]|(_&Hc&Hr)]; [done|].
    destruct Hc as [->|[->|Hc]]; [| |lia].
    + change (String.length (attach_reason (- EPERM))) with 37%nat. change (String.length (decimal_int (- EPERM))) with 2%nat. lia.
    + change (String.length (attach_reason (- ENOMEM))) with 20%nat. change (String.length (decimal_int (- ENOMEM))) with 3%nat. lia.
Qed.

(** The default name with a five-digit thread id: 165 bytes from a buffer of 160. *)
Lemma diagnostics_bounds_witness :
  attach_report (thread_name "unnamed" 12345) (- EEXIST) = None /\
  String.length (attach_failed (thread_name "unnamed" 12345) (- EEXIST)) = 165%nat /\
  attach_report (thread_name "unnamed" 12345) (- EPERM) = Some (attach_failed (thread_name "unnamed" 12345) (- EPERM)).
Proof.
  destruct diagnostics_bounds as (_&_&_&Hexist&Hother).
  split; [apply Hexist; by_compute|]. split; [vm_compute; reflexivity|].
  apply Hother; [by_compute..|vm_compute; lia].
Defined.
