(* ===== verification/PlatformThread.v ===== *)
(** * Threads and condition variables

    Models include/corerat/platform/threading.hpp with its two implementations
    (std/threading_impl.hpp, evl/threading_impl.hpp): [Thread] as an owner of a
    joinable thread in the sense of Resources.v, what a new thread does as the
    list of its actions, and the loops of [ConditionVariable].  ThreadLife.v
    runs the threads beside the one that starts them. *)

From Stdlib Require Import ZArith Lia String.
From Stdlib Require List.
From stdpp Require Import base list gmap sets numbers.
From S2P Require Import Prelude Resources PlatformFile EvlNames.

#[local] Open Scope Z_scope.

Module Threading.

Inductive ThreadPriority := IDLE | LOW | NORMAL | HIGH | REALTIME.

Inductive SchedulingPolicy := PolicyNORMAL | FIFO | ROUND_ROBIN | DEADLINE.

#[export] Instance ThreadPriority_eq_dec : EqDecision ThreadPriority.
Proof. solve_decision. Defined.

#[export] Instance SchedulingPolicy_eq_dec : EqDecision SchedulingPolicy.
Proof. solve_decision. Defined.

Definition priority_code (p : ThreadPriority) : Z :=
  match p with IDLE => 0 | LOW => 10 | NORMAL => 50 | HIGH => 75 | REALTIME => 99 end.

Record ThreadConfig := mkTC {
  tc_name : string;
  priority : ThreadPriority;
  policy : SchedulingPolicy;
  cpu_affinity : Z;
  stack_size : Z
}.

Definition default_config : ThreadConfig := mkTC "unnamed" NORMAL PolicyNORMAL (-1) 0.

(** The member functions that start or give up a thread. *)
Inductive thread_call :=
  | Start                              (* start(func) *)
  | StartWith (config : ThreadConfig)  (* start(config, func) *)
  | Detach.

(** ** What a new thread asks of the scheduler *)

(** The policies as the kernel has them. *)
Inductive kernel_policy := SCHED_OTHER | SCHED_FIFO | SCHED_RR.

Inductive sched_call :=
  | SetName (name : string)
  | SetScheduler (p : kernel_policy) (priority : Z)
  | SetAffinity (cpu : Z)
  | SetThreadMode.                     (* EVL_T_WOSS | EVL_T_HMSIG *)

#[export] Instance kernel_policy_eq_dec : EqDecision kernel_policy.
Proof. solve_decision. Defined.

#[export] Instance sched_call_eq_dec : EqDecision sched_call.
Proof. solve_decision. Defined.

(** ** What a new thread does *)
Inductive action :=
  | Attach (name : string)             (* evl_attach_self *)
  | GetSelf                            (* evl_get_self *)
  | Sched (c : sched_call)
  | Complain (name : string) (efd : Z) (* the message on stderr *)
  | Body                               (* func() *)
  | DetachSelf.                        (* evl_detach_self *)

#[export] Instance action_eq_dec : EqDecision action.
Proof. solve_decision. Defined.
End Threading.

Import Threading.

(** ** std/threading_impl.hpp

    [thread_] is the handle of a joinable std::thread, -1 for one that is not
    joinable.  A failing creation throws; the object stays as it is. *)
Module StdThread.

Record Thread := mkThread { config_ : ThreadConfig; thread_ : Z }.

Definition joinable (t : Thread) : bool := 0 <=? thread_ t.

Definition apply_config (c : ThreadConfig) : list sched_call :=
  (if String.eqb (tc_name c) "" then [] else [SetName (c_str (String.substring 0 15 (tc_name c)))]) ++
  (if decide (policy c <> PolicyNORMAL \/ priority c <> NORMAL)
   then [SetScheduler
           match policy c with FIFO => SCHED_FIFO | ROUND_ROBIN => SCHED_RR | _ => SCHED_OTHER end
           (priority_code (priority c))]
   else []) ++
  (if 0 <=? cpu_affinity c then [SetAffinity (cpu_affinity c)] else []).

(** The function that [start] gives to std::thread. *)
Definition thread_main (c : ThreadConfig) : list action := map Sched (apply_config c) ++ [Body].

(** [start(func)]: whether a thread was started. *)
Definition start (t : Thread) : state Kernel (bool * Thread) :=
  if joinable t then mret (false, t)
  else
    h ← sys_create;
    if h <? 0 then mret (false, t) else mret (true, mkThread (config_ t) h).

Definition start_with (c : ThreadConfig) (t : Thread) : state Kernel (bool * Thread) :=
  start (mkThread c (thread_ t)).

Definition join (t : Thread) : state Kernel Thread :=
  if joinable t then _ ← sys_release (thread_ t); mret (mkThread (config_ t) (-1)) else mret t.

(** As far as the handle goes, detaching is joining. *)
Definition detach (t : Thread) : state Kernel Thread :=
  if joinable t then _ ← sys_release (thread_ t); mret (mkThread (config_ t) (-1)) else mret t.

Definition move_construct (other : Thread) : Thread * Thread :=
  (other, mkThread (config_ other) (-1)).

Definition move_assign (t other : Thread) : state Kernel (Thread * Thread) :=
  _ ← join t;
  mret (other, mkThread (config_ other) (-1)).

Definition call (c : thread_call) (t : Thread) : state Kernel (bool * Thread) :=
  match c with
  | Start => start t
  | StartWith config => start_with config t
  | Detach => t ← detach t; mret (false, t)
  end.

Lemma std_join_keeps t : keeps (held (thread_ t)) (join t) (fun _ => []).
Proof.
  unfold join, joinable. apply keeps_if; intros E.
  - eapply keeps_bind; [apply keeps_release_held|]. intros ?. by apply keeps_ret.
  - rewrite held_neg by lia. by apply keeps_ret.
Qed.

Lemma std_join_joined t k : thread_ (join t k).1 < 0.
Proof.
  unfold join, joinable. destruct (Z.leb_spec 0 (thread_ t)); [rewrite bind_eq|]; cbn; lia.
Qed.

Lemma std_start_keeps t : keeps (held (thread_ t)) (start t) (fun r => held (thread_ r.2)).
Proof.
  unfold start, joinable. apply keeps_if; intros E; [by apply keeps_ret|].
  rewrite held_neg by lia. eapply keeps_bind; [apply keeps_create|]. intros h.
  apply keeps_if; intros Hh; apply keeps_ret; [|done]. cbn [snd]. by rewrite !held_neg by lia.
Qed.

#[global] Instance thread_owner : Owner Thread thread_call := {
  holds t := held (thread_ t);
  new_object := mkThread default_config (-1);
  acquire := call;
  release := join;
  move_from := move_construct;
  move_to := move_assign
}.

#[global] Instance thread_owner_spec : OwnerSpec Thread thread_call.
Proof.
  split; cbn -[held].
  - done.
  - intros [|c|] t; [apply std_start_keeps|apply (std_start_keeps (mkThread c (thread_ t)))|].
    intros R k Ho. destruct (std_join_keeps t R k Ho) as [Ho' E]. cbn [call]. rewrite bind_eq.
    change (detach t) with (join t). cbn -[held join]. by rewrite (held_neg (thread_ _)) by apply std_join_joined.
  - apply std_join_keeps.
  - intros t k. apply held_neg, std_join_joined.
  - done.
  - intros t other. eapply keeps_bind; [apply keeps_frame, std_join_keeps|]. intros ?.
    apply keeps_ret. cbn -[held]. by rewrite app_nil_r.
  - intros t other k. unfold move_assign. by rewrite bind_eq.
Qed.
End StdThread.

(** ** evl/threading_impl.hpp

    [posix_thread_] after a failed [pthread_create] is indeterminate; the
    answer of the call stands for it. *)
Module EvlThread.

Record Thread := mkThread { config_ : ThreadConfig; posix_thread_ : Z; joinable_ : bool }.

Definition EBUSY : Z := 16.

(** [thread_entry] after it took its context; [attach_self] and [get_self]
    answer the calls of libevl. *)
Definition thread_entry (attach_self : string -> Z) (get_self tid : Z) (c : ThreadConfig) : list action :=
  let name := thread_name (tc_name c) tid in
  let busy := attach_self name =? - EBUSY in
  let efd := if busy then get_self else attach_self name in
  Attach name :: (if busy then [GetSelf] else []) ++
  (if 0 <=? efd then
     (if decide (priority c = IDLE) then [] else [Sched (SetScheduler SCHED_FIFO (priority_code (priority c)))])
     ++ [Sched SetThreadMode]
   else [Complain name efd]) ++
  (if 0 <=? cpu_affinity c then [Sched (SetAffinity (cpu_affinity c))] else []) ++
  [Body] ++
  (if 0 <=? efd then [DetachSelf] else []).

Definition start (t : Thread) : state Kernel (bool * Thread) :=
  if joinable_ t then mret (false, t)
  else
    ret ← sys_create;
    if ret <? 0 then mret (false, mkThread (config_ t) ret false)
    else mret (true, mkThread (config_ t) ret true).

Definition start_with (c : ThreadConfig) (t : Thread) : state Kernel (bool * Thread) :=
  start (mkThread c (posix_thread_ t) (joinable_ t)).

Definition join (t : Thread) : state Kernel Thread :=
  if joinable_ t
  then _ ← sys_release (posix_thread_ t); mret (mkThread (config_ t) (posix_thread_ t) false)
  else mret t.

Definition detach (t : Thread) : state Kernel Thread :=
  if joinable_ t
  then _ ← sys_release (posix_thread_ t); mret (mkThread (config_ t) (posix_thread_ t) false)
  else mret t.

Definition move_construct (other : Thread) : Thread * Thread :=
  (other, mkThread (config_ other) (posix_thread_ other) false).

Definition move_assign (t other : Thread) : state Kernel (Thread * Thread) :=
  _ ← join t;
  mret (other, mkThread (config_ other) (posix_thread_ other) false).

Definition call (c : thread_call) (t : Thread) : state Kernel (bool * Thread) :=
  match c with
  | Start => start t
  | StartWith config => start_with config t
  | Detach => t ← detach t; mret (false, t)
  end.

(** The handle counts only while [joinable_] is set. *)
Definition handle (t : Thread) : list nat := if joinable_ t then held (posix_thread_ t) else [].

Lemma evl_join_keeps t : keeps (handle t) (join t) (fun _ => []).
Proof.
  unfold join, handle. destruct (joinable_ t); [|by apply keeps_ret].
  eapply keeps_bind; [apply keeps_release_held|]. intros ?. by apply keeps_ret.
Qed.

Lemma evl_join_joined t k : joinable_ (join t k).1 = false.
Proof. unfold join. destruct (joinable_ t) eqn:E; [by rewrite bind_eq|done]. Qed.

Lemma evl_start_keeps t : keeps (handle t) (start t) (fun r => handle r.2).
Proof.
  unfold start, handle. destruct (joinable_ t) eqn:Ej; [apply keeps_ret; cbn; by rewrite Ej|].
  eapply keeps_bind; [apply keeps_create|]. intros h.
  apply keeps_if; intros Hh; apply keeps_ret; [|done]. by rewrite held_neg by lia.
Qed.

#[global] Instance thread_owner : Owner Thread thread_call := {
  holds := handle;
  new_object := mkThread default_config 0 false;
  acquire := call;
  release := join;
  move_from := move_construct;
  move_to := move_assign
}.

#[global] Instance thread_owner_spec : OwnerSpec Thread thread_call.
Proof.
  split; cbn -[held handle].
  - done.
  - intros [|c|] t; [apply evl_start_keeps|apply (evl_start_keeps (mkThread c (posix_thread_ t) (joinable_ t)))|].
    intros R k Ho. destruct (evl_join_keeps t R k Ho) as [Ho' E]. cbn [call]. rewrite bind_eq.
    change (detach t) with (join t). cbn -[handle join]. unfold handle at 1. by rewrite evl_join_joined.
  - apply evl_join_keeps.
  - intros t k. unfold handle. by rewrite evl_join_joined.
  - done.
  - intros t other. eapply keeps_bind; [apply keeps_frame, evl_join_keeps|]. intros ?.
    apply keeps_ret. cbn -[handle]. by rewrite app_nil_r.
  - intros t other k. unfold move_assign. by rewrite bind_eq.
Qed.
End EvlThread.

(** ** Pools of objects *)

(** Over every run of a program with such objects, each descriptor is open
    exactly if one object holds it, no two objects hold the same, nothing is
    released twice, and when the objects are gone everything is released. *)
Definition sound (H A : Type) `{Owner H A} : Prop :=
  forall es k, k_open k = ∅ -> k_faults k = [] ->
    let p := pool_run es (mkPool k ∅) in
    NoDup (held_by (p_objects p)) /\
    (forall fd, fd ∈ k_open (p_kernel p) <-> exists o h, p_objects p !! o = Some h /\ fd ∈ holds h) /\
    k_faults (p_kernel p) = [] /\
    (p_objects p = ∅ -> k_open (p_kernel p) = ∅).

Lemma owner_sound H A `{OwnerSpec H A} : sound H A.
Proof.
  intros es k Ho Hf p. assert (pool_inv p) as Hi by by apply pool_run_inv, empty_pool_inv.
  destruct (pool_inv_unique p Hi) as [Hnd Hin]. split; [done|]. split; [done|]. split; [apply Hi|].
  intros He. apply set_eq. intros fd. rewrite Hin, He.
  split; [intros (?&?&?&_); by rewrite lookup_empty in *|set_solver].
Qed.

(** ** The scheduling set-up *)

(** The EVL platform does not look at the policy; the default configuration
    changes nothing on the std platform, and asks for SCHED_FIFO on EVL. *)
Lemma scheduling_setup :
  (forall attach self tid c p,
     EvlThread.thread_entry attach self tid (mkTC (tc_name c) (priority c) p (cpu_affinity c) (stack_size c))
     = EvlThread.thread_entry attach self tid c) /\
  StdThread.thread_main default_config = [Sched (SetName "unnamed"); Body] /\
  EvlThread.thread_entry (fun _ => 3) 0 7 default_config =
    [Attach "corerat-unnamed:7"; Sched (SetScheduler SCHED_FIFO 50); Sched SetThreadMode; Body; DetachSelf].
Proof. done. Qed.

(** A policy that is not real-time is passed with the configured priority. *)
Lemma normal_policy_with_priority c :
  policy c = PolicyNORMAL -> priority c <> NORMAL ->
  SetScheduler SCHED_OTHER (priority_code (priority c)) ∈ StdThread.apply_config c.
Proof.
  intros Hp Hn. unfold StdThread.apply_config. rewrite Hp, !elem_of_app. right. left.
  rewrite decide_True by auto. by left.
Qed.

(** ** ConditionVariable

    [sleep n s] is the state when the [n]-th wait returns: the lock was
    released, other threads ran, or the wake-up was spurious.  [answer n] is
    what that wait answers.  The predicate reads the state. *)
Module CondVar.
Section cv.
Context {S : Type} (pred : S -> bool) (sleep : nat -> S -> S) (answer : nat -> Z).

Definition ETIMEDOUT : Z := 110.

Inductive CvStatus := NO_TIMEOUT | TIMEOUT.

(** [wait_for(lock, timeout)]. *)
Definition wait_for_status (s : S) : CvStatus * S :=
  (if answer 0 =? - ETIMEDOUT then TIMEOUT else NO_TIMEOUT, sleep 0 s).

(** [wait(lock, pred)]; [None]: still waiting after [fuel] rounds. *)
Fixpoint wait (fuel n : nat) (s : S) : option S :=
  match fuel with
  | O => None
  | Datatypes.S fuel => if pred s then Some s else wait fuel (Datatypes.S n) (sleep n s)
  end.

(** The loop of [wait_for(lock, timeout, pred)]. *)
Fixpoint wait_for_loop (fuel n : nat) (s : S) : option (bool * S) :=
  match fuel with
  | O => None
  | Datatypes.S fuel =>
      if pred s then Some (true, s)
      else
        let s := sleep n s in
        if answer n =? - ETIMEDOUT then Some (pred s, s)
        else wait_for_loop fuel (Datatypes.S n) s
  end.

Definition wait_for (fuel : nat) (s : S) : option (bool * S) :=
  if pred s then Some (true, s) else wait_for_loop fuel 0 s.

(** [std::condition_variable_any::wait_for(lock, timeout, pred)] as the C++
    standard defines it, over the same waits. *)
Fixpoint std_wait_for (fuel n : nat) (s : S) : option (bool * S) :=
  match fuel with
  | O => None
  | Datatypes.S fuel =>
      if negb (pred s) then
        let s := sleep n s in
        if answer n =? - ETIMEDOUT then Some (pred s, s)
        else std_wait_for fuel (Datatypes.S n) s
      else Some (true, s)
  end.

(** The state before the [n]-th wait. *)
Fixpoint state_at (n : nat) (s : S) : S :=
  match n with
  | O => s
  | Datatypes.S n => sleep n (state_at n s)
  end.

(** What ends the loops in round [n]. *)
Definition woken (s : S) (n : nat) : bool := pred (state_at n s).
Definition expired (n : nat) : bool := answer n =? - ETIMEDOUT.

Lemma wait_spec fuel n s :
  wait fuel n (state_at n s) =
  match List.find (woken s) (seq n fuel) with
  | None => None
  | Some i => Some (state_at i s)
  end.
Proof.
  revert n. induction fuel as [|fuel IH]; intros n; [done|]. cbn.
  unfold woken at 1. destruct (pred (state_at n s)); [done|]. apply (IH (Datatypes.S n)).
Qed.

Lemma wait_for_loop_spec fuel n s :
  wait_for_loop fuel n (state_at n s) =
  match List.find (fun i => woken s i || expired i) (seq n fuel) with
  | None => None
  | Some i =>
      if woken s i then Some (true, state_at i s)
      else Some (woken s (1 + i), state_at (1 + i) s)
  end.
Proof.
  revert n. induction fuel as [|fuel IH]; intros n; [done|]. cbn [wait_for_loop seq List.find].
  unfold woken at 1, expired at 1. destruct (pred (state_at n s)) eqn:E; cbn [orb].
  - unfold woken. by rewrite E.
  - destruct (_ =? _); [|apply (IH (Datatypes.S n))]. unfold woken. by rewrite E.
Qed.

(** Entering the loop tests the predicate again. *)
Lemma wait_for_eq fuel s : wait_for (1 + fuel) s = wait_for_loop (1 + fuel) 0 s.
Proof. unfold wait_for. cbn. by destruct (pred s). Qed.

Lemma std_wait_for_loop fuel n s : std_wait_for fuel n s = wait_for_loop fuel n s.
Proof.
  revert n s. induction fuel as [|fuel IH]; intros n s; [done|]. cbn.
  destruct (pred s); [done|]. cbn. by rewrite IH.
Qed.
End cv.

Lemma find_seq (p : nat -> bool) n k fuel :
  (n <= k < n + fuel)%nat -> p k = true -> (forall i, (n <= i < k)%nat -> p i = false) ->
  List.find p (seq n fuel) = Some k.
Proof.
  revert n. induction fuel as [|fuel IH]; intros n Hk Hp Hlt; [lia|]. cbn.
  destruct (decide (n = k)) as [->|]; [by rewrite Hp|]. rewrite Hlt by lia.
  apply IH; [lia|done|]. intros. apply Hlt. lia.
Qed.

Lemma find_none (p : nat -> bool) l : (forall i, p i = false) -> List.find p l = None.
Proof. intros Hp. induction l as [|x l IH]; [done|]. cbn. by rewrite Hp. Qed.

(** C36. [wait] with a predicate returns in the first state after a wake-up in
    which the predicate holds, and never otherwise.  [wait_for] is what the
    standard says: it returns in the first round in which the predicate holds
    or the wait timed out, with the value of the predicate then; a wait that
    fails in any other way does not end it. *)
Theorem condition_waits {S} (pred : S -> bool) (sleep : nat -> S -> S) (answer : nat -> Z) (s : S) :
  (forall k, woken pred sleep s k = true -> (forall i, (i < k)%nat -> woken pred sleep s i = false) ->
     forall fuel, (k < fuel)%nat -> wait pred sleep fuel 0 s = Some (state_at sleep k s)) /\
  ((forall i, woken pred sleep s i = false) -> forall fuel, wait pred sleep fuel 0 s = None) /\
  (forall fuel, wait_for pred sleep answer (1 + fuel) s = std_wait_for pred sleep answer (1 + fuel) 0 s) /\
  (forall k, woken pred sleep s k || expired answer k = true ->
     (forall i, (i < k)%nat -> woken pred sleep s i || expired answer i = false) ->
     forall fuel, (k < fuel)%nat ->
     wait_for pred sleep answer fuel s =
       if woken pred sleep s k then Some (true, state_at sleep k s)
       else Some (woken pred sleep s (1 + k), state_at sleep (1 + k) s)) /\
  ((forall i, woken pred sleep s i || expired answer i = false) ->
     forall fuel, wait_for pred sleep answer (1 + fuel) s = None).
Proof.
  split; [|split; [|split; [|split]]].
  - intros k Hk Hlt fuel Hf. change (wait pred sleep fuel 0 s) with (wait pred sleep fuel 0 (state_at sleep 0 s)). rewrite wait_spec.
    rewrite (find_seq _ 0 k) by (done || lia || (intros; apply Hlt; lia)). done.
  - intros Hn fuel. change (wait pred sleep fuel 0 s) with (wait pred sleep fuel 0 (state_at sleep 0 s)). rewrite wait_spec. by rewrite find_none.
  - intros fuel. rewrite std_wait_for_loop. apply wait_for_eq.
  - intros k Hk Hlt [|fuel] Hf; [lia|]. change (Datatypes.S fuel) with (1 + fuel)%nat. rewrite wait_for_eq. rewrite (wait_for_loop_spec pred sleep answer _ 0 s : wait_for_loop _ _ _ _ 0 s = _).
    rewrite (find_seq _ 0 k) by (done || lia || (intros; apply Hlt; lia)). done.
  - intros Hn fuel. rewrite wait_for_eq. rewrite (wait_for_loop_spec pred sleep answer _ 0 s : wait_for_loop _ _ _ _ 0 s = _). by rewrite find_none.
Qed.
End CondVar.
