(* ===== verification/ThreadLife.v ===== *)
(** * Threads beside their owner

    Models [Thread::start], [join] and [detach] of both threading_impl.hpp with
    the threads they start running beside the caller: the context that [start]
    allocates and the new thread frees, the creation that may fail, and the
    actions of the thread one by one, under every scheduling.  The two platforms
    are instances of the interface [ThreadPlatform]. *)

From Stdlib Require Import ZArith Lia String.
From stdpp Require Import base list gmap sets numbers.
From S2P Require Import Prelude EvlNames PlatformThread.

#[local] Open Scope Z_scope.

Import Threading.

(** What the [i]-th thread does once it has its configuration. *)
Class ThreadPlatform := program : nat -> ThreadConfig -> list action.

(** It runs the function of the user exactly once. *)
Class ThreadPlatformSpec `{ThreadPlatform} :=
  program_body i c :
    exists setup cleanup, program i c = setup ++ [Body] ++ cleanup /\ (Body ∉ setup) /\ (Body ∉ cleanup).

Module ThreadLife.

(** A call of the owner; the destructor is [Join]. *)
Inductive call := Op (c : thread_call) | Join.

(** A thread: the address of its context, what it has still to do (nothing is
    known before it took the context), and what it did.  [ch_given] is the
    configuration at the time of [start], for the specification only. *)
Record Child := mkChild {
  ch_context : nat;
  ch_todo : option (list action);
  ch_done : list action;
  ch_given : ThreadConfig
}.

(** Where the owner stands in [start]: it allocated the context, or has to free
    it because [pthread_create] failed. *)
Inductive pc := Idle | Allocated (x : nat) | Failed (x : nat).

(** The owner with its Thread object; [w_joinable] is the thread the object
    holds; [w_answers] are the next answers of [pthread_create]; [w_heap] holds
    the contexts; [w_faults] records each use of a context that does not exist. *)
Record World := mkWorld {
  w_calls : list call;
  w_pc : pc;
  w_config : ThreadConfig;
  w_joinable : option nat;
  w_answers : list Z;
  w_heap : gmap nat ThreadConfig;
  w_children : list Child;
  w_detached : gset nat;
  w_faults : list nat
}.

Definition finished (ch : Child) : bool := bool_decide (ch_todo ch = Some []).

Section life.
Context `{ThreadPlatform}.

Definition set_calls (calls : list call) (w : World) : World :=
  mkWorld calls (w_pc w) (w_config w) (w_joinable w) (w_answers w) (w_heap w) (w_children w) (w_detached w) (w_faults w).

Definition set_config (c : ThreadConfig) (w : World) : World :=
  mkWorld (w_calls w) (w_pc w) c (w_joinable w) (w_answers w) (w_heap w) (w_children w) (w_detached w) (w_faults w).

(** [start(func)] up to [new ThreadContext]. *)
Definition start_step (w : World) : World :=
  match w_joinable w with
  | Some _ => w
  | None =>
      let x := fresh (dom (w_heap w)) in
      mkWorld (w_calls w) (Allocated x) (w_config w) None (w_answers w) (<[x := w_config w]> (w_heap w))
        (w_children w) (w_detached w) (w_faults w)
  end.

(** [pthread_create]. *)
Definition create_step (x : nat) (w : World) : World :=
  if default 0 (head (w_answers w)) =? 0 then
    mkWorld (w_calls w) Idle (w_config w) (Some (length (w_children w))) (tail (w_answers w)) (w_heap w)
      (w_children w ++ [mkChild x None [] (w_config w)]) (w_detached w) (w_faults w)
  else
    mkWorld (w_calls w) (Failed x) (w_config w) (w_joinable w) (tail (w_answers w)) (w_heap w)
      (w_children w) (w_detached w) (w_faults w).

(** [delete ctx] *)
Definition free (x : nat) (w : World) : World :=
  mkWorld (w_calls w) (w_pc w) (w_config w) (w_joinable w) (w_answers w) (delete x (w_heap w)) (w_children w) (w_detached w)
    (match w_heap w !! x with Some _ => w_faults w | None => x :: w_faults w end).

Definition set_pc (p : pc) (w : World) : World :=
  mkWorld (w_calls w) p (w_config w) (w_joinable w) (w_answers w) (w_heap w) (w_children w) (w_detached w) (w_faults w).

(** The object lets go of its thread, to nobody if [detached]. *)
Definition let_go (detached : bool) (i : nat) (w : World) : World :=
  mkWorld (w_calls w) (w_pc w) (w_config w) None (w_answers w) (w_heap w) (w_children w)
    (if detached then {[i]} ∪ w_detached w else w_detached w) (w_faults w).

(** One step of the owner; [join] blocks while the thread runs. *)
Definition owner_step (w : World) : World :=
  match w_pc w with
  | Allocated x => create_step x w
  | Failed x => set_pc Idle (free x w)
  | Idle =>
      match w_calls w with
      | [] => w
      | Op Start :: calls => start_step (set_calls calls w)
      | Op (StartWith c) :: calls => start_step (set_config c (set_calls calls w))
      | Op Detach :: calls =>
          match w_joinable w with
          | Some i => let_go true i (set_calls calls w)
          | None => set_calls calls w
          end
      | Join :: calls =>
          match w_joinable w with
          | Some i =>
              match w_children w !! i with
              | Some ch => if finished ch then let_go false i (set_calls calls w) else w
              | None => w
              end
          | None => set_calls calls w
          end
      end
  end.

Definition set_child (i : nat) (ch : Child) (w : World) : World :=
  mkWorld (w_calls w) (w_pc w) (w_config w) (w_joinable w) (w_answers w) (w_heap w) (<[i := ch]> (w_children w)) (w_detached w)
    (w_faults w).

(** One step of thread [i]: it copies the context and frees it, then acts. *)
Definition child_step (i : nat) (w : World) : World :=
  match w_children w !! i with
  | None => w
  | Some ch =>
      match ch_todo ch with
      | None =>
          match w_heap w !! ch_context ch with
          | Some c => set_child i (mkChild (ch_context ch) (Some (program i c)) (ch_done ch) (ch_given ch)) (free (ch_context ch) w)
          | None => free (ch_context ch) w
          end
      | Some [] => w
      | Some (a :: todo) => set_child i (mkChild (ch_context ch) (Some todo) (ch_done ch ++ [a]) (ch_given ch)) w
      end
  end.

(** A schedule: who steps next, the owner or a thread. *)
Definition life_step (w : World) (who : option nat) : World :=
  match who with None => owner_step w | Some i => child_step i w end.

Definition life_run (schedule : list (option nat)) (w : World) : World := fold_left life_step schedule w.

Definition life_start (config : ThreadConfig) (calls : list call) (answers : list Z) : World :=
  mkWorld calls Idle config None answers ∅ [] ∅ [].

(** ** The invariant *)

(** The contexts that somebody still has to free, with their contents. *)
Definition owner_context (w : World) : list (nat * ThreadConfig) :=
  match w_pc w with Idle => [] | Allocated x | Failed x => [(x, w_config w)] end.

Definition child_context (ch : Child) : option (nat * ThreadConfig) :=
  match ch_todo ch with None => Some (ch_context ch, ch_given ch) | Some _ => None end.

Definition contexts (w : World) : list (nat * ThreadConfig) := owner_context w ++ omap child_context (w_children w).

(** What a thread did and has to do is its program. *)
Definition child_ok (i : nat) (ch : Child) : Prop :=
  match ch_todo ch with None => ch_done ch = [] | Some todo => ch_done ch ++ todo = program i (ch_given ch) end.

(** A thread that is neither finished nor detached is the object's. *)
Definition child_owned (w : World) (i : nat) (ch : Child) : Prop :=
  finished ch = true \/ i ∈ w_detached w \/ w_joinable w = Some i.

Record life_inv (w : World) : Prop := {
  li_faults : w_faults w = [];
  li_heap : map_to_list (w_heap w) ≡ₚ contexts w;
  li_children i ch : w_children w !! i = Some ch -> child_ok i ch /\ child_owned w i ch;
  li_joinable i : w_joinable w = Some i -> is_Some (w_children w !! i);
  li_pc : w_pc w <> Idle -> w_joinable w = None
}.

(** ** Lemmas *)

Definition others {A} (i : nat) (l : list A) : list A := take i l ++ drop (S i) l.

Lemma omap_middle {A B} (f : A -> option B) l1 l2 a :
  omap f (l1 ++ a :: l2) ≡ₚ option_list (f a) ++ omap f (l1 ++ l2).
Proof. rewrite <- Permutation_middle. cbn. by destruct (f a). Qed.

Lemma omap_at {A B} (f : A -> option B) l i a :
  l !! i = Some a -> omap f l ≡ₚ option_list (f a) ++ omap f (others i l).
Proof. intros Hi. rewrite <- (take_drop_middle l i a) at 1 by done. apply omap_middle. Qed.

Lemma omap_insert_at {A B} (f : A -> option B) l i a b :
  l !! i = Some a -> omap f (<[i := b]> l) ≡ₚ option_list (f b) ++ omap f (others i l).
Proof. intros Hi. rewrite insert_take_drop by (by eapply lookup_lt_Some). apply omap_middle. Qed.

(** Freeing a context that somebody has to free. *)
Lemma free_context (h : gmap nat ThreadConfig) x c l :
  map_to_list h ≡ₚ (x, c) :: l -> h !! x = Some c /\ map_to_list (delete x h) ≡ₚ l.
Proof.
  intros Hl. assert (h !! x = Some c) as Hx by (apply elem_of_map_to_list; rewrite Hl; by left).
  split; [done|]. apply (Permutation_cons_inv (a := (x, c))). by rewrite map_to_list_delete.
Qed.

Lemma child_lookup_insert {A} (l : list A) i j a b :
  <[i := a]> l !! j = Some b -> (i = j /\ b = a) \/ (i <> j /\ l !! j = Some b).
Proof. intros Hj. apply list_lookup_insert_Some in Hj as [(->&->&_)|(?&?)]; eauto. Qed.

Lemma life_start_inv config calls answers : life_inv (life_start config calls answers).
Proof. by split. Qed.

Lemma set_calls_inv calls w : life_inv w -> life_inv (set_calls calls w).
Proof. by intros []. Qed.

Lemma set_config_inv c w : w_pc w = Idle -> life_inv w -> life_inv (set_config c w).
Proof.
  intros Hpc []. split; try done. cbn. unfold contexts, owner_context in *. cbn. by rewrite Hpc in *.
Qed.

Lemma start_step_inv w : w_pc w = Idle -> life_inv w -> life_inv (start_step w).
Proof.
  intros Hpc Hi. unfold start_step. destruct (w_joinable w) eqn:Ej; [done|]. destruct Hi as [Hf Hh Hc Hj Hp].
  split; cbn; try done.
  - unfold contexts, owner_context in *. rewrite Hpc in Hh. cbn in *.
    rewrite map_to_list_insert by (apply not_elem_of_dom, is_fresh). by rewrite Hh.
  - intros i ch Hi. destruct (Hc i ch Hi) as [Hok Ho]. split; [done|]. unfold child_owned in *. cbn. by rewrite Ej in Ho.
Qed.

Lemma create_step_inv x w : w_pc w = Allocated x -> life_inv w -> life_inv (create_step x w).
Proof.
  intros Hpc [Hf Hh Hc Hj Hp]. assert (w_joinable w = None) as Ej by (apply Hp; by rewrite Hpc).
  unfold contexts, owner_context in Hh. rewrite Hpc in Hh. unfold create_step.
  destruct (default 0 _ =? 0); split; cbn; try done.
  - rewrite Hh. unfold contexts. cbn. rewrite omap_app. cbn. by rewrite (comm (++)).
  - intros i ch Hi. apply lookup_app_Some in Hi as [Hi|[Hle Hi]].
    + destruct (Hc i ch Hi) as [Hok Ho]. split; [done|]. unfold child_owned in *. cbn. rewrite Ej in Ho. naive_solver.
    + apply list_lookup_singleton_Some in Hi as [Hz <-]. split; [done|]. right. right. cbn. f_equal. lia.
  - intros i [= <-]. rewrite lookup_app_r, Nat.sub_diag by lia. eauto.
Qed.

Lemma free_owner_inv x w : w_pc w = Failed x -> life_inv w -> life_inv (set_pc Idle (free x w)).
Proof.
  intros Hpc [Hf Hh Hc Hj Hp]. unfold contexts, owner_context in Hh. rewrite Hpc in Hh. cbn in Hh.
  apply free_context in Hh as [Hx Hh]. split; cbn; try done. by rewrite Hx.
Qed.

Lemma let_go_inv detached i w :
  w_pc w = Idle -> w_joinable w = Some i -> (detached = true \/ exists ch, w_children w !! i = Some ch /\ finished ch = true) ->
  life_inv w -> life_inv (let_go detached i w).
Proof.
  intros Hpc Ej Hd [Hf Hh Hc Hj Hp]. split; cbn; try done.
  intros j ch Hj'. destruct (Hc j ch Hj') as [Hok Ho]. split; [done|]. unfold child_owned in *. cbn.
  rewrite Ej in Ho. destruct Ho as [Ho|[Ho|[= <-]]]; [by left|right; left; destruct detached; set_solver|].
  destruct Hd as [->|(ch'&Hch'&Hfin)]; [right; left; set_solver|]. left. by simplify_eq.
Qed.

Lemma owner_step_inv w : life_inv w -> life_inv (owner_step w).
Proof.
  intros Hi. unfold owner_step. destruct (w_pc w) as [|x|x] eqn:Hpc; [|by apply create_step_inv|by apply free_owner_inv].
  destruct (w_calls w) as [|[[|c|]|] calls]; [done|..].
  - by apply start_step_inv, set_calls_inv.
  - apply start_step_inv; [done|]. apply set_config_inv; [done|]. by apply set_calls_inv.
  - destruct (w_joinable w) as [i|] eqn:Ej; [|by apply set_calls_inv].
    apply let_go_inv; [done|done|by left|by apply set_calls_inv].
  - destruct (w_joinable w) as [i|] eqn:Ej; [|by apply set_calls_inv].
    destruct (w_children w !! i) as [ch|] eqn:Ech; [|done]. destruct (finished ch) eqn:Efin; [|done].
    apply let_go_inv; [done|done|right; eauto|by apply set_calls_inv].
Qed.

(** A thread in the middle of its program makes one more action. *)
Lemma child_step_inv i w : life_inv w -> life_inv (child_step i w).
Proof.
  intros [Hf Hh Hc Hj Hp]. unfold child_step. destruct (w_children w !! i) as [ch|] eqn:Ech; [|by split].
  destruct (Hc i ch Ech) as [Hok Ho]. unfold child_ok in Hok.
  destruct (ch_todo ch) as [[|a todo]|] eqn:Etodo; [by split|..].
  - split; cbn; try done.
    + rewrite Hh. unfold contexts, owner_context. cbn. f_equiv.
      rewrite (omap_at child_context (w_children w) i ch), (omap_insert_at child_context (w_children w) i ch) by done.
      unfold child_context at 1. by rewrite Etodo.
    + intros j ch' Hj'. apply child_lookup_insert in Hj' as [[<- ->]|[Hne Hj']]; [|by apply Hc].
      split; [unfold child_ok; cbn; by rewrite <- (assoc_L (++))|]. unfold child_owned in *. cbn.
      destruct Ho as [Ho|Ho]; [|by right]. unfold finished in Ho. rewrite Etodo in Ho. by apply bool_decide_eq_true in Ho.
    + intros j Hj'. rewrite list_lookup_insert_is_Some. by apply Hj.
  - unfold contexts in Hh. rewrite (omap_at child_context (w_children w) i ch) in Hh by done.
    unfold child_context at 1 in Hh. rewrite Etodo in Hh. cbn in Hh.
    rewrite <- Permutation_middle in Hh. apply free_context in Hh as [Hx Hh]. rewrite Hx.
    split; cbn; rewrite ?Hx; try done.
    + rewrite Hh. unfold contexts, owner_context. cbn. f_equiv.
      by rewrite (omap_insert_at child_context (w_children w) i ch).
    + intros j ch' Hj'. apply child_lookup_insert in Hj' as [[<- ->]|[Hne Hj']]; [|by apply Hc].
      split; [unfold child_ok; cbn; by rewrite Hok|]. unfold child_owned in *. cbn.
      destruct Ho as [Ho|Ho]; [|by right]. unfold finished in Ho. rewrite Etodo in Ho. by apply bool_decide_eq_true in Ho.
    + intros j Hj'. rewrite list_lookup_insert_is_Some. by apply Hj.
Qed.

Lemma life_step_inv who w : life_inv w -> life_inv (life_step w who).
Proof. destruct who; [apply child_step_inv|apply owner_step_inv]. Qed.

Lemma life_run_inv schedule w : life_inv w -> life_inv (life_run schedule w).
Proof. revert w. induction schedule as [|who schedule IH]; intros w Hi; [done|]. by apply IH, life_step_inv. Qed.

Lemma life_run_app s1 s2 w : life_run (s1 ++ s2) w = life_run s2 (life_run s1 w).
Proof. apply fold_left_app. Qed.

(** ** Everything comes to an end *)

Definition all_finished (w : World) : Prop := Forall (fun ch => finished ch = true) (w_children w).

(** The owner made its calls and the threads have ended. *)
Definition life_over (w : World) : Prop := w_calls w = [] /\ w_pc w = Idle /\ all_finished w.

(** The actions that thread [i] has before it, taking the context included. *)
Definition left_over (i : nat) (ch : Child) : nat :=
  match ch_todo ch with None => S (length (program i (ch_given ch))) | Some todo => length todo end.

Definition same_owner (w w' : World) : Prop :=
  w_calls w' = w_calls w /\ w_pc w' = w_pc w /\ w_joinable w' = w_joinable w /\ length (w_children w') = length (w_children w).

Lemma same_owner_trans w1 w2 w3 : same_owner w1 w2 -> same_owner w2 w3 -> same_owner w1 w3.
Proof. intros (?&?&?&?) (?&?&?&?). split_and!; congruence. Qed.

(** A step of thread [i]: one action less, and nobody else is concerned. *)
Lemma child_step_left i ch w :
  life_inv w -> w_children w !! i = Some ch -> finished ch = false ->
  same_owner w (child_step i w) /\
  exists ch', w_children (child_step i w) = <[i := ch']> (w_children w) /\ left_over i ch = S (left_over i ch').
Proof.
  intros Hi Ech Hf. unfold child_step. rewrite Ech. unfold finished in Hf. apply bool_decide_eq_false in Hf.
  destruct (ch_todo ch) as [[|a todo]|] eqn:Etodo; [done|..].
  - split; [split_and!; try done; cbn; apply length_insert|]. eexists. split; [done|].
    unfold left_over. by rewrite Etodo.
  - pose proof (li_heap w Hi) as Hh. unfold contexts in Hh. rewrite (omap_at child_context (w_children w) i ch) in Hh by done.
    unfold child_context at 1 in Hh. rewrite Etodo in Hh. cbn in Hh.
    rewrite <- Permutation_middle in Hh. apply free_context in Hh as [-> _].
    split; [split_and!; try done; cbn; apply length_insert|]. eexists. split; [done|].
    unfold left_over. by rewrite Etodo.
Qed.

(** One thread runs to its end. *)
Lemma child_runs n i ch w :
  life_inv w -> w_children w !! i = Some ch -> left_over i ch = n ->
  let w' := life_run (replicate n (Some i)) w in
  same_owner w w' /\ exists ch', w_children w' = <[i := ch']> (w_children w) /\ finished ch' = true.
Proof.
  revert w ch. induction n as [|n IH]; intros w ch Hi Ech Hn.
  - split; [done|]. exists ch. split; [by rewrite list_insert_id|].
    unfold left_over, finished in *. apply bool_decide_eq_true. by destruct (ch_todo ch) as [[]|].
  - destruct (finished ch) eqn:Hf.
    { unfold finished, left_over in *. apply bool_decide_eq_true in Hf. by rewrite Hf in Hn. }
    destruct (child_step_left i ch w Hi Ech Hf) as [Hs (ch1&Hc1&Hl)].
    assert (w_children (child_step i w) !! i = Some ch1) as Ech1.
    { rewrite Hc1. apply list_lookup_insert_eq. by eapply lookup_lt_Some. }
    destruct (IH (child_step i w) ch1 (child_step_inv i w Hi) Ech1 ltac:(lia)) as [Ht (ch2&Hc2&Hf2)].
    split; [exact (same_owner_trans _ _ _ Hs Ht)|].
    exists ch2. split; [|done]. change (life_run _ w) with (life_run (replicate n (Some i)) (child_step i w)).
    by rewrite Hc2, Hc1, list_insert_insert_eq.
Qed.

(** The threads run to their ends, one after the other. *)
Lemma children_run w :
  life_inv w -> exists schedule, let w' := life_run schedule w in same_owner w w' /\ all_finished w'.
Proof.
  intros Hi.
  assert (forall n, (n <= length (w_children w))%nat -> exists schedule, let w' := life_run schedule w in
    same_owner w w' /\ (forall i ch, (i < n)%nat -> w_children w' !! i = Some ch -> finished ch = true)) as Hn.
  { induction n as [|n IH]; intros Hn; [exists []; split; [done|intros; lia]|].
    destruct IH as (schedule&Hs&Hf); [lia|].
    destruct (lookup_lt_is_Some_2 (w_children (life_run schedule w)) n) as [ch Ech]; [destruct Hs as (_&_&_&->); lia|].
    destruct (child_runs _ n ch _ (life_run_inv schedule w Hi) Ech eq_refl) as [Ht (ch'&Hc'&Hf')].
    eexists (schedule ++ _). cbn zeta. rewrite life_run_app. split; [by eapply same_owner_trans|].
    intros i c Hlt Hc. rewrite Hc' in Hc. apply child_lookup_insert in Hc as [[<- ->]|[Hne Hc]]; [done|].
    apply (Hf i); [lia|done]. }
  destruct (Hn (length (w_children w)) ltac:(lia)) as (schedule&Hs&Hf). exists schedule. split; [done|].
  apply Forall_lookup. intros i ch Hc. apply (Hf i); [|done]. destruct Hs as (_&_&_&<-). by eapply lookup_lt_Some.
Qed.

(** With all threads at their end, the owner makes its next call: at most three
    steps, none of which waits. *)
Lemma owner_call c calls w :
  w_pc w = Idle -> w_calls w = c :: calls -> all_finished w -> (forall i, w_joinable w = Some i -> is_Some (w_children w !! i)) ->
  exists n, let w' := life_run (replicate n None) w in w_pc w' = Idle /\ w_calls w' = calls.
Proof.
  intros Hpc Hc Hf Hj.
  assert (forall w0, w_pc w0 = Idle -> w_calls w0 = calls ->
    exists n, let w' := life_run (replicate n None) (start_step w0) in w_pc w' = Idle /\ w_calls w' = calls) as Hstart.
  { intros w0 Hpc0 Hc0. unfold start_step. destruct (w_joinable w0) eqn:Ej; [by exists 0%nat|].
    destruct (default 0 (head (w_answers w0)) =? 0) eqn:Ea.
    - exists 1%nat. unfold life_run. cbn. unfold owner_step. cbn. unfold create_step. cbn. by rewrite Ea.
    - exists 2%nat. unfold life_run. cbn. unfold owner_step at 2. cbn. unfold create_step. cbn. by rewrite Ea. }
  destruct c as [[|cfg|]|].
  - destruct (Hstart (set_calls calls w) Hpc eq_refl) as [n Hn]. exists (S n).
    change (life_run _ w) with (life_run (replicate n None) (owner_step w)). unfold owner_step. by rewrite Hpc, Hc.
  - destruct (Hstart (set_config cfg (set_calls calls w)) Hpc eq_refl) as [n Hn]. exists (S n).
    change (life_run _ w) with (life_run (replicate n None) (owner_step w)). unfold owner_step. by rewrite Hpc, Hc.
  - exists 1%nat. cbn. unfold owner_step. rewrite Hpc, Hc. by destruct (w_joinable w).
  - exists 1%nat. cbn. unfold owner_step. rewrite Hpc, Hc. destruct (w_joinable w) as [i|] eqn:Ej; [|done].
    destruct (Hj i eq_refl) as [ch Hch]. rewrite Hch. unfold all_finished in Hf. rewrite Forall_lookup in Hf.
    by rewrite (Hf i ch Hch).
Qed.

Lemma life_ends calls w :
  life_inv w -> w_pc w = Idle -> w_calls w = calls -> exists schedule, life_over (life_run schedule w).
Proof.
  revert w. induction calls as [|c calls IH]; intros w Hi Hpc Hc;
    destruct (children_run w Hi) as (schedule&(Hs1&Hs2&_&_)&Hf).
  - exists schedule. split_and!; congruence.
  - pose proof (life_run_inv schedule w Hi) as Hi'.
    destruct (owner_call c calls (life_run schedule w)) as (n&Hp&Hcs); [congruence|congruence|done|apply Hi'|].
    destruct (IH _ (life_run_inv (replicate n None) _ Hi') Hp Hcs) as (rest&Hover).
    exists (schedule ++ replicate n None ++ rest). by rewrite !life_run_app.
Qed.

(** The owner leaves [start] by its own steps. *)
Lemma owner_leaves_start w : exists n, w_pc (life_run (replicate n None) w) = Idle.
Proof.
  destruct (w_pc w) as [|x|x] eqn:Hpc; [by exists 0%nat|..].
  - destruct (default 0 (head (w_answers w)) =? 0) eqn:Ea.
    + exists 1%nat. cbn. unfold owner_step. rewrite Hpc. unfold create_step. by rewrite Ea.
    + exists 2%nat. cbn. unfold owner_step at 2. rewrite Hpc. unfold create_step. by rewrite Ea.
  - exists 1%nat. cbn. unfold owner_step. by rewrite Hpc.
Qed.

Lemma contexts_gone w :
  life_inv w -> w_pc w = Idle -> (forall i ch, w_children w !! i = Some ch -> ch_todo ch <> None) -> w_heap w = ∅.
Proof.
  intros [Hf Hh Hc Hj Hp] Hpc Hall. apply map_to_list_empty_iff, Permutation_nil_r. rewrite Hh.
  unfold contexts, owner_context. rewrite Hpc. cbn.
  assert (omap child_context (w_children w) = []) as ->; [|done].
  clear -Hall. induction (w_children w) as [|ch l IH]; [done|]. cbn.
  unfold child_context at 1. destruct (ch_todo ch) eqn:E; [|by destruct (Hall 0%nat ch)].
  apply IH. intros i. apply (Hall (S i)).
Qed.
End life.

(** C35. Whatever the owner calls, whichever creations fail and however the owner
    and the threads are scheduled: the context of a thread is used and freed only
    while it exists, and freed once - nothing is left when [start] has returned
    and the threads have begun; each thread follows the program of its platform
    for the configuration it was started with, the function running exactly once;
    a thread that is neither detached nor held by the object has ended, so
    [join] returns after the function; and no state is stuck: the calls and the
    threads can always be brought to their ends. *)
Theorem thread_life `{ThreadPlatformSpec} config calls answers schedule :
  let w := life_run schedule (life_start config calls answers) in
  w_faults w = [] /\
  (forall i ch, w_children w !! i = Some ch ->
     ch_done ch `prefix_of` program i (ch_given ch) /\
     (finished ch = true ->
        exists setup cleanup, ch_done ch = setup ++ [Body] ++ cleanup /\ (Body ∉ setup) /\ (Body ∉ cleanup)) /\
     (finished ch = true \/ i ∈ w_detached w \/ w_joinable w = Some i)) /\
  (w_pc w = Idle -> (forall i ch, w_children w !! i = Some ch -> ch_todo ch <> None) -> w_heap w = ∅) /\
  exists rest, life_over (life_run rest w).
Proof.
  intros w. assert (life_inv w) as Hi by apply life_run_inv, life_start_inv.
  split; [apply Hi|]. split; [|split; [by apply contexts_gone|]].
  - intros i ch Hc. destruct (li_children w Hi i ch Hc) as [Hok Ho]. unfold child_ok, finished in *.
    split; [destruct (ch_todo ch) as [todo|]; [by exists todo|rewrite Hok; apply prefix_nil]|].
    split; [|done]. intros Hf. apply bool_decide_eq_true in Hf. rewrite Hf, app_nil_r in Hok. rewrite Hok. apply program_body.
  - destruct (owner_leaves_start w) as [n Hn].
    destruct (life_ends _ _ (life_run_inv (replicate n None) w Hi) Hn eq_refl) as [rest Hover].
    exists (replicate n None ++ rest). by rewrite life_run_app.
Qed.

(** ** The two platforms *)

Definition std_platform : ThreadPlatform := fun _ => StdThread.thread_main.

Lemma std_platform_spec : ThreadPlatformSpec (H := std_platform).
Proof.
  intros i c. exists (map Sched (StdThread.apply_config c)), []. split_and!; [done| |set_solver].
  intros Hb%list_elem_of_fmap. by destruct Hb as (?&?&_).
Qed.

(** Each thread has its id and its answers of libevl. *)
Definition evl_platform (attach_self : nat -> string -> Z) (get_self tid : nat -> Z) : ThreadPlatform :=
  fun i => EvlThread.thread_entry (attach_self i) (get_self i) (tid i).

Lemma evl_platform_spec attach_self get_self tid :
  ThreadPlatformSpec (H := evl_platform attach_self get_self tid).
Proof.
  intros i c. unfold program, evl_platform, EvlThread.thread_entry.
  set (name := thread_name (tc_name c) (tid i)). set (busy := attach_self i name =? - EvlThread.EBUSY).
  set (efd := if busy then get_self i else attach_self i name).
  exists (Attach name :: (if busy then [GetSelf] else []) ++
    (if 0 <=? efd then
       (if decide (priority c = IDLE) then [] else [Sched (SetScheduler SCHED_FIFO (priority_code (priority c)))])
       ++ [Sched SetThreadMode]
     else [Complain name efd]) ++
    (if 0 <=? cpu_affinity c then [Sched (SetAffinity (cpu_affinity c))] else [])),
    (if 0 <=? efd then [DetachSelf] else []).
  split; [cbn; by rewrite <- !(assoc_L (++))|].
  split; repeat case_match; set_solver.
Qed.

(** Two threads on EVL, the first not attached; the second creation fails. *)
Lemma thread_life_witness :
  let platform := evl_platform (fun i _ => if decide (i = 0%nat) then -1 else 5) (fun _ => 0) (fun i => 100 + Z.of_nat i) in
  let calls := [Op Start; Op Start; Op Detach; Op Start; Op (StartWith (mkTC "rx" IDLE FIFO 2 0)); Join] in
  let schedule := [None; None; None; Some 0%nat; None; None; None; None; None; None; None; None; Some 0%nat; Some 1%nat; None; Some 1%nat] in
  let w := @life_run platform schedule (@life_start default_config calls [0; 11; 0]) in
  w_faults w = [] /\ (exists rest, life_over (@life_run platform rest w)) /\
  map ch_done (w_children w) = [[Attach "corerat-unnamed:100"]; [Attach "corerat-rx:101"]].
Proof.
  intros platform calls schedule w.
  pose proof (@thread_life platform (evl_platform_spec _ _ _) default_config calls [0; 11; 0] schedule) as Hlife.
  destruct Hlife as (H1&_&_&H2). split; [exact H1|]. split; [exact H2|]. vm_compute. reflexivity.
Defined.
End ThreadLife.
