(* ===== verification/IpcTypes.v ===== *)
(** * Types shared by the two IPC backends

    Models include/corerat/ipc/ipc_types.hpp, the metadata of a received
    message (the same struct in both backends) and the [WireHeader] of
    include/corerat/messaging/wire_message.hpp as bytes. *)

From Stdlib Require Import ZArith Lia.
From stdpp Require Import base list numbers.
From S2P Require Import Prelude.

#[local] Open Scope Z_scope.

Inductive IpcResult :=
  | SUCCESS | ERROR_INIT | ERROR_SEND | ERROR_RECEIVE | ERROR_TIMEOUT
  | ERROR_INVALID_MSG | ERROR_NOT_INIT.

#[export] Instance IpcResult_eq_dec : EqDecision IpcResult.
Proof. solve_decision. Defined.

Record IpcConfig := mkConfig {
  mailbox_name : bytes;
  cfg_mailbox_id : Z;
  cfg_max_msg_size : Z;
  cfg_priority : Z;
  cfg_realtime : bool;
  cfg_max_remote_handles : Z
}.

Definition ETIMEDOUT : Z := 110.
Definition EMSGSIZE : Z := 90.
Definition sizeof_WireHeader : Z := 32.

Record TimsMetadata := mkMeta {
  m_src : Z;
  m_dest : Z;
  m_seq_nr : Z;
  m_priority : Z;
  m_flags : Z
}.

(** Fields of a serialised [WireHeader]. *)
Definition wire_seq_number (buf : bytes) : Z := field 16 4 buf.
Definition wire_dest (buf : bytes) : Z := field 20 4 buf.
Definition wire_src (buf : bytes) : Z := field 24 4 buf.
Definition wire_flags (buf : bytes) : Z := field 28 4 buf.
