(* ===== verification/TimsMailbox.v ===== *)
(** * TimsMailbox: the TCP client of the routers

    Models include/corerat/ipc/tims/tims_backend.hpp and src/tims_backend.cpp.

    The kernel's part is in arguments: [conn] is the stream a [connect] yields,
    [poll] the answers of [::poll] (by iteration and timeout).  The byte swap of
    the WireHeader of a big-endian sender is a third-party routine
    ([sertial::swap_endianness_from]) and a parameter, [swap]. *)

From Stdlib Require Import ZArith Lia.
From stdpp Require Import base list gmap numbers.
From S2P Require Import Prelude Protocol TcpSocket IpcTypes.

#[local] Open Scope Z_scope.

Record TimsMailbox := mkTims {
  config_ : IpcConfig;
  socket_ : TcpSocket;
  is_initialized_ : bool;
  messages_sent_ : Z;
  messages_received_ : Z;
  sequence_number_ : Z
}.

Definition new_mailbox (config : IpcConfig) : TimsMailbox :=
  mkTims config sock_closed false 0 0 0.

Definition set_socket (s : TcpSocket) (t : TimsMailbox) : TimsMailbox :=
  mkTims (config_ t) s (is_initialized_ t) (messages_sent_ t) (messages_received_ t)
    (sequence_number_ t).
Definition set_initialized (b : bool) (t : TimsMailbox) : TimsMailbox :=
  mkTims (config_ t) (socket_ t) b (messages_sent_ t) (messages_received_ t) (sequence_number_ t).
Definition count_sent (t : TimsMailbox) : TimsMailbox :=
  mkTims (config_ t) (socket_ t) (is_initialized_ t) (u64 (messages_sent_ t + 1))
    (messages_received_ t) (sequence_number_ t).
Definition count_received (t : TimsMailbox) : TimsMailbox :=
  mkTims (config_ t) (socket_ t) (is_initialized_ t) (messages_sent_ t)
    (u64 (messages_received_ t + 1)) (sequence_number_ t).
Definition next_sequence (t : TimsMailbox) : TimsMailbox :=
  mkTims (config_ t) (socket_ t) (is_initialized_ t) (messages_sent_ t)
    (messages_received_ t) (u32 (sequence_number_ t + 1)).

(** ** Lifecycle *)

Definition shutdown : state TimsMailbox unit :=
  modify (fun t =>
    if is_initialized_ t then set_initialized false (set_socket (sock_close (socket_ t)) t) else t).

(** [socket_.send_all], [socket_.recv_all], [socket_.close] *)
Definition sock_send (bs : bytes) : state TimsMailbox bool :=
  fun t => let '(ok, s) := send_all (socket_ t) bs in (ok, set_socket s t).
Definition sock_recv (len : Z) : state TimsMailbox (option bytes) :=
  fun t =>
    let '(ok, bs, s) := recv_all (socket_ t) len in
    (if (ok : bool) then Some bs else None, set_socket s t).
Definition close_socket : state TimsMailbox unit :=
  modify (fun t => set_socket (sock_close (socket_ t)) t).

Definition watchdog_frame (config : IpcConfig) : FrameHeader :=
  make_frame MSG_ROUTER_DISABLE_WATCHDOG 0 (cfg_mailbox_id config) (u8 (cfg_priority config)) 0 0.
Definition register_frame (config : IpcConfig) : FrameHeader :=
  make_frame MSG_ROUTER_MBX_INIT_WITH_REPLY 0 (cfg_mailbox_id config) (u8 (cfg_priority config)) 0
    sizeof_MbxInitPayload.

Definition fail_init : state TimsMailbox IpcResult := _ ← close_socket; mret ERROR_INIT.

Definition initialize (conn : option TcpSocket) : state TimsMailbox IpcResult :=
  t ← get_state;
  if is_initialized_ t then mret SUCCESS
  else match conn with
  | None => _ ← modify (set_socket sock_closed); mret ERROR_INIT
  | Some s =>
      _ ← modify (set_socket s);
      ok ← sock_send (encode_frame (watchdog_frame (config_ t)));
      if negb ok then fail_init
      else
        ok ← sock_send (encode_frame (register_frame (config_ t)) ++ encode_mbx (cfg_mailbox_id (config_ t)));
        if negb ok then fail_init
        else
          reply ← sock_recv sizeof_FrameHeader;
          match reply with
          | None => fail_init
          | Some bs =>
              if f_type (decode_frame bs) =? MSG_OK then
                _ ← modify (set_initialized true);
                mret SUCCESS
              else fail_init
          end
  end.

(** ** Send *)

(** [data] is [None] for a null pointer. *)
Definition send_raw (data : option bytes) (dest : Z) : state TimsMailbox IpcResult :=
  t ← get_state;
  if negb (is_initialized_ t) || negb (sock_is_open (socket_ t)) then mret ERROR_NOT_INIT
  else match data with
  | None => mret ERROR_INVALID_MSG
  | Some data =>
      let size := zlen data in
      if (size =? 0) || (cfg_max_msg_size (config_ t) <? size) then mret ERROR_INVALID_MSG
      else
        let h := make_frame 0 dest (cfg_mailbox_id (config_ t)) (u8 (cfg_priority (config_ t)))
                   (u8 (sequence_number_ t)) (u32 size) in
        _ ← modify next_sequence;
        ok ← sock_send (encode_frame h);
        if negb ok then mret ERROR_SEND
        else
          ok ← sock_send data;
          if negb ok then mret ERROR_SEND
          else
            _ ← modify count_sent;
            mret SUCCESS
  end.

(** ** Receive *)

Section receive.
Context (swap : bytes -> bytes).

(** [sertial::swap_endianness_from<WireHeader>(span(buffer, 32), sender)] on a
    little-endian host. *)
Definition convert_header (flags : Z) (body : bytes) : bytes :=
  if sizeof_WireHeader <=? zlen body then
    if Z.land flags FRAME_LE_FLAG =? 0
    then swap (take 32 body) ++ drop 32 body
    else body
  else body.

Definition metadata_of (frame : FrameHeader) : TimsMetadata :=
  mkMeta (f_src frame) (f_dest frame) (f_seq_nr frame) (f_priority frame) (f_flags frame).

(** The value returned, what the buffer holds, the metadata. *)
Definition received : Type := Z * bytes * option TimsMetadata.

Definition receive_error (code : Z) : state TimsMailbox received := mret (code, [], None).

(** [(timeout.is_negative()) ? -1 : static_cast<int>(timeout.count_ns() / 1'000'000LL)] *)
Definition poll_timeout (timeout_ns : Z) : Z :=
  if timeout_ns <? 0 then -1 else s32 (Z.quot timeout_ns 1000000).

(** The [for (;;)]; [None]: out of fuel. *)
Fixpoint receive_loop (fuel : nat) (poll : nat -> Z -> Z) (buffer_size timeout_ms : Z)
    (t : TimsMailbox) : option (received * TimsMailbox) :=
  match fuel with
  | O => None
  | S fuel =>
      if poll_in (socket_ t) (poll fuel timeout_ms) <=? 0
      then Some (receive_error (- ETIMEDOUT) t)
      else
        let '(hdr, t) := sock_recv sizeof_FrameHeader t in
        match hdr with
        | None => Some (receive_error (-1) t)
        | Some hdr =>
            let frame := decode_frame hdr in
            if f_type frame =? MSG_ROUTER_GET_STATUS then
              let reply := make_frame MSG_OK (f_src frame) (cfg_mailbox_id (config_ t)) 0 0 0 in
              let '(_, t) := sock_send (encode_frame reply) t in
              receive_loop fuel poll buffer_size timeout_ms t
            else if f_msglen frame <=? sizeof_FrameHeader then
              receive_loop fuel poll buffer_size timeout_ms t
            else
              let body_len := f_msglen frame - sizeof_FrameHeader in
              if buffer_size <? body_len then Some (receive_error (- EMSGSIZE) t)
              else
                let '(body, t) := sock_recv body_len t in
                match body with
                | None => Some (receive_error (-1) t)
                | Some body =>
                    Some ((body_len, convert_header (f_flags frame) body,
                           Some (metadata_of frame)), count_received t)
                end
        end
  end.

(** Each iteration that goes on has read 16 bytes, so the bytes in the stream
    bound the iterations ([receive_loop_total]). *)
Definition receive_fuel (t : TimsMailbox) : nat := S (length (sk_rx (socket_ t))).

Definition receive_raw (poll : nat -> Z -> Z) (buffer_size timeout_ns : Z)
    : state TimsMailbox received :=
  fun t =>
    if negb (is_initialized_ t) || negb (sock_is_open (socket_ t)) then receive_error (-1) t
    else default (receive_error (-1) t)
           (receive_loop (receive_fuel t) poll buffer_size (poll_timeout timeout_ns) t).

Definition has_message (answer : Z) (t : TimsMailbox) : bool :=
  if negb (is_initialized_ t) || negb (sock_is_open (socket_ t)) then false
  else 0 <? poll_in (socket_ t) answer.
End receive.

(** ** Lemmas *)

Section receive_lemmas.
Context (swap : bytes -> bytes) (poll : nat -> Z -> Z).
Implicit Types (t : TimsMailbox) (s : TcpSocket).

Lemma sock_recv_rx len t :
  exists k, sk_rx (socket_ (sock_recv (Z.of_nat len) t).2) = drop k (sk_rx (socket_ t)) /\
    (k <= length (sk_rx (socket_ t)))%nat /\
    (is_Some (sock_recv (Z.of_nat len) t).1 -> k = len).
Proof.
  unfold sock_recv. destruct (recv_all_spec (socket_ t) len) as (k&(_&Hrx&Hk&_)&Hle&_&Hok&_).
  destruct (recv_all _ _) as [[ok bs] s]. cbn in *. exists k. split_and!; [done|done|].
  destruct ok; [|by intros []]. intros _. symmetry in Hok. apply bool_decide_eq_true in Hok. lia.
Qed.

Lemma sock_send_rx bs t : sk_rx (socket_ (sock_send bs t).2) = sk_rx (socket_ t).
Proof. unfold sock_send. pose proof (send_all_rx (socket_ t) bs). by destruct (send_all _ _). Qed.

Lemma sock_send_eq bs t :
  sock_send bs t = ((send_all (socket_ t) bs).1, set_socket (send_all (socket_ t) bs).2 t).
Proof. unfold sock_send. by destruct (send_all _ _). Qed.

Lemma sock_send_ok bs t :
  no_send_error (socket_ t) ->
  exists s, sock_send bs t = (true, set_socket s t) /\ sent_on (socket_ t) s bs /\ no_send_error s.
Proof.
  intros Hs. destruct (send_all_ok _ bs Hs) as (s&E&H1&H2). exists s. unfold sock_send.
  by rewrite E.
Qed.

Lemma sock_recv_ok bs rest len t :
  len = zlen bs -> no_recv_error (socket_ t) -> sk_rx (socket_ t) = bs ++ rest ->
  exists s, sock_recv len t = (Some bs, set_socket s t) /\ sk_rx s = rest /\ no_recv_error s /\
    received_on (socket_ t) s (length bs).
Proof.
  intros Hl Hs Hrx. destruct (recv_all_ok _ bs rest len Hl Hs Hrx) as (s&E&H). exists s.
  unfold sock_recv. by rewrite E.
Qed.

(** The loop ends, whatever the stream holds and the kernel answers. *)
Lemma receive_loop_total fuel size ms t :
  (length (sk_rx (socket_ t)) < fuel)%nat ->
  is_Some (receive_loop swap fuel poll size ms t).
Proof.
  revert t. induction fuel as [|fuel IH]; intros t Hf; [lia|]. cbn [receive_loop].
  destruct (poll_in _ _ <=? 0); [by eexists|].
  destruct (sock_recv_rx 16 t) as (k&Hrx&Hk&Hok). change (Z.of_nat 16) with sizeof_FrameHeader in *.
  destruct (sock_recv sizeof_FrameHeader t) as [[hdr|] t1]; [|by eexists]. cbn [fst snd] in *.
  specialize (Hok ltac:(by eexists)). subst k.
  assert (length (sk_rx (socket_ t1)) < fuel)%nat as Hlt.
  { rewrite Hrx, length_drop. lia. }
  destruct (_ =? _).
  { pose proof (sock_send_rx (encode_frame (make_frame MSG_OK (f_src (decode_frame hdr))
      (cfg_mailbox_id (config_ t1)) 0 0 0)) t1) as E.
    destruct (sock_send _ t1) as [ok t2]. cbn in E. apply IH. by rewrite E. }
  destruct (f_msglen _ <=? _); [by apply IH|].
  destruct (size <? _); [by eexists|]. destruct (sock_recv _ t1) as [[body|] t2]; by eexists.
Qed.

(** What the loop skips: status requests (the header alone) and headers
    without a body. *)
Definition skipped (hdr : FrameHeader) : Prop :=
  wf_frame hdr /\ (f_type hdr = MSG_ROUTER_GET_STATUS \/ f_msglen hdr <= sizeof_FrameHeader).

Definition status_reply (id : Z) (hdr : FrameHeader) : bytes :=
  if f_type hdr =? MSG_ROUTER_GET_STATUS
  then encode_frame (make_frame MSG_OK (f_src hdr) id 0 0 0) else [].

Definition working (s : TcpSocket) : Prop := no_recv_error s /\ no_send_error s.

Lemma receive_loop_skip fuel size ms t hdr rest :
  working (socket_ t) -> 0 < poll fuel ms -> skipped hdr ->
  sk_rx (socket_ t) = encode_frame hdr ++ rest ->
  exists s, receive_loop swap (S fuel) poll size ms t
      = receive_loop swap fuel poll size ms (set_socket s t) /\
    working s /\ sk_rx s = rest /\
    sk_tx s = sk_tx (socket_ t) ++ status_reply (cfg_mailbox_id (config_ t)) hdr.
Proof.
  intros [Hr Hs] Hp [Hwf Hsk] Hrx. cbn [receive_loop]. unfold poll_in.
  pose proof Hr as [Hfd _]. destruct (Z.ltb_spec (sk_fd (socket_ t)) 0); [lia|].
  destruct (Z.leb_spec (poll fuel ms) 0); [lia|].
  destruct (sock_recv_ok (encode_frame hdr) rest sizeof_FrameHeader t) as (s1&E1&Hrx1&Hr1&(Hfd1&_&_&Htx1&Hsp1)); auto.
  rewrite E1, decode_encode_frame by done. unfold status_reply.
  destruct (Z.eqb_spec (f_type hdr) MSG_ROUTER_GET_STATUS) as [Et|Et].
  - cbn [config_ set_socket].
    destruct (sock_send_ok (encode_frame (make_frame MSG_OK (f_src hdr) (cfg_mailbox_id (config_ t)) 0 0 0))
      (set_socket s1 t)) as (s2&E2&(Hfd2&Htx2&Hrx2&Hrp2)&Hs2).
    { cbn. unfold no_send_error. by rewrite Hfd1, Hsp1. }
    rewrite E2. exists s2. cbn in *. split_and!; [done| |congruence|congruence].
    split; [|done]. unfold no_recv_error. rewrite Hfd2, Hrp2. exact Hr1.
  - destruct Hsk as [?|Hm]; [done|]. destruct (Z.leb_spec (f_msglen hdr) sizeof_FrameHeader); [|lia].
    exists s1. split_and!; [done| |done|by rewrite app_nil_r]. split; [done|].
    unfold no_send_error. by rewrite Hfd1, Hsp1.
Qed.

Lemma set_socket_id t : set_socket (socket_ t) t = t.
Proof. by destruct t. Qed.

Lemma receive_loop_skips hdrs fuel size ms t rest :
  working (socket_ t) -> (forall n, 0 < poll n ms) -> Forall skipped hdrs ->
  sk_rx (socket_ t) = concat (map encode_frame hdrs) ++ rest ->
  (length hdrs <= fuel)%nat ->
  exists s, receive_loop swap fuel poll size ms t
      = receive_loop swap (fuel - length hdrs) poll size ms (set_socket s t) /\
    working s /\ sk_rx s = rest /\
    sk_tx s = sk_tx (socket_ t) ++ concat (map (status_reply (cfg_mailbox_id (config_ t))) hdrs).
Proof.
  intros Hw Hp Hh. revert fuel t Hw. induction Hh as [|hdr hdrs Hhd _ IH]; intros fuel t Hw Hrx Hf.
  - exists (socket_ t). cbn in *. rewrite set_socket_id, Nat.sub_0_r, app_nil_r. done.
  - cbn [map concat] in Hrx. rewrite <- app_assoc in Hrx. cbn [length] in *.
    destruct fuel as [|fuel]; [lia|].
    destruct (receive_loop_skip fuel size ms t hdr _ Hw (Hp fuel) Hhd Hrx) as (s1&E1&Hw1&Hrx1&Htx1).
    destruct (IH fuel (set_socket s1 t) Hw1 Hrx1 ltac:(lia)) as (s2&E2&Hw2&Hrx2&Htx2).
    exists s2. rewrite E1, E2. cbn [config_ set_socket socket_ map concat Nat.sub] in *.
    split_and!; auto. by rewrite Htx2, Htx1, <- app_assoc.
Qed.

Lemma receive_loop_body fuel size ms t hdr body rest :
  working (socket_ t) -> 0 < poll fuel ms -> wf_frame hdr ->
  f_type hdr <> MSG_ROUTER_GET_STATUS -> f_msglen hdr = sizeof_FrameHeader + zlen body ->
  0 < zlen body <= size -> sk_rx (socket_ t) = encode_frame hdr ++ body ++ rest ->
  exists s, receive_loop swap (S fuel) poll size ms t
      = Some ((zlen body, convert_header swap (f_flags hdr) body, Some (metadata_of hdr)),
              count_received (set_socket s t)) /\
    working s /\ sk_rx s = rest /\ sk_tx s = sk_tx (socket_ t).
Proof.
  intros [Hr Hs] Hp Hwf Ht Hl Hb Hrx. cbn [receive_loop]. unfold poll_in.
  pose proof Hr as [Hfd _]. destruct (Z.ltb_spec (sk_fd (socket_ t)) 0); [lia|].
  destruct (Z.leb_spec (poll fuel ms) 0); [lia|].
  destruct (sock_recv_ok (encode_frame hdr) (body ++ rest) sizeof_FrameHeader t) as (s1&E1&Hrx1&Hr1&(Hfd1&_&_&Htx1&Hsp1)); auto.
  rewrite E1, decode_encode_frame by done.
  destruct (Z.eqb_spec (f_type hdr) MSG_ROUTER_GET_STATUS); [done|].
  destruct (Z.leb_spec (f_msglen hdr) sizeof_FrameHeader); [lia|].
  replace (f_msglen hdr - sizeof_FrameHeader) with (zlen body) by lia.
  destruct (Z.ltb_spec size (zlen body)); [lia|].
  destruct (sock_recv_ok body rest (zlen body) (set_socket s1 t)) as (s2&E2&Hrx2&Hr2&(Hfd2&_&_&Htx2&Hsp2)); auto.
  rewrite E2. exists s2. cbn in *. split_and!; [done| |done|congruence].
  split; [done|]. unfold no_send_error. by rewrite Hfd2, Hfd1, Hsp2, Hsp1.
Qed.
End receive_lemmas.

(** [receive_raw] always returns: its loop reads at least a header per
    iteration, so for every stream, kernel behaviour and answer of [poll] the fuel
    (the length of the stream) is enough and the default is never used. *)
Theorem receive_raw_total swap poll size ms (t : TimsMailbox) :
  is_Some (receive_loop swap (receive_fuel t) poll size ms t).
Proof. apply receive_loop_total. unfold receive_fuel. lia. Qed.

Lemma receive_raw_first_frame swap poll size timeout (t : TimsMailbox) hdrs hdr body rest :
  is_initialized_ t = true -> working (socket_ t) -> (forall n ms, 0 < poll n ms) ->
  Forall skipped hdrs -> wf_frame hdr -> f_type hdr <> MSG_ROUTER_GET_STATUS ->
  f_msglen hdr = sizeof_FrameHeader + zlen body -> 0 < zlen body <= size ->
  sk_rx (socket_ t) = concat (map encode_frame hdrs) ++ encode_frame hdr ++ body ++ rest ->
  exists s, receive_raw swap poll size timeout t
      = ((zlen body, convert_header swap (f_flags hdr) body, Some (metadata_of hdr)),
         count_received (set_socket s t)) /\
    working s /\ sk_rx s = rest /\
    sk_tx s = sk_tx (socket_ t) ++ concat (map (status_reply (cfg_mailbox_id (config_ t))) hdrs).
Proof.
  intros Hi Hw Hp Hh Hwf Ht Hl Hb Hrx. unfold receive_raw, sock_is_open. rewrite Hi.
  pose proof Hw as [[Hfd _] _]. destruct (Z.leb_spec 0 (sk_fd (socket_ t))); [|lia]. cbn [negb orb].
  assert (length hdrs < receive_fuel t)%nat as Hf.
  { unfold receive_fuel. rewrite Hrx, length_app.
    assert (length hdrs <= length (concat (map encode_frame hdrs)))%nat; [|lia].
    clear. induction hdrs as [|h hdrs IH]; [done|]. cbn [map concat].
    rewrite length_app, length_encode_frame. cbn [length]. lia. }
  destruct (receive_loop_skips swap poll hdrs (receive_fuel t) size (poll_timeout timeout) t
    (encode_frame hdr ++ body ++ rest)) as (s1&E1&Hw1&Hrx1&Htx1); auto; [lia|].
  rewrite E1. destruct (receive_fuel t - length hdrs)%nat as [|fuel] eqn:Ef; [lia|].
  destruct (receive_loop_body swap poll fuel size (poll_timeout timeout) (set_socket s1 t) hdr body rest)
    as (s2&E2&Hw2&Hrx2&Htx2); auto.
  rewrite E2. exists s2. cbn in *. split_and!; try done. by rewrite Htx2.
Qed.

(** [receive_raw] returns the first data frame of the stream: it answers
    each status request before it with one MSG_OK frame, skips empty frames,
    delivers exactly the body of the data frame with its metadata, counts it once
    and leaves the stream at the next frame. *)
Theorem receive_raw_delivers swap poll size timeout (t : TimsMailbox) hdrs hdr body rest :
  is_initialized_ t = true -> working (socket_ t) -> (forall n ms, 0 < poll n ms) ->
  Forall skipped hdrs -> wf_frame hdr -> f_type hdr <> MSG_ROUTER_GET_STATUS ->
  f_msglen hdr = sizeof_FrameHeader + zlen body -> 0 < zlen body <= size ->
  sk_rx (socket_ t) = concat (map encode_frame hdrs) ++ encode_frame hdr ++ body ++ rest ->
  exists s, receive_raw swap poll size timeout t
      = ((zlen body, convert_header swap (f_flags hdr) body, Some (metadata_of hdr)),
         count_received (set_socket s t)) /\
    working s /\ sk_rx s = rest /\
    sk_tx s = sk_tx (socket_ t) ++ concat (map (status_reply (cfg_mailbox_id (config_ t))) hdrs).
Proof. apply receive_raw_first_frame. Qed.

(** A message that is too large for the caller's buffer is refused with
    -EMSGSIZE, but only its header is taken from the stream: the next call takes
    the first 16 bytes of the rejected body for a frame header. *)
Theorem oversized_message_desynchronises swap poll size timeout (t : TimsMailbox) hdr body rest :
  is_initialized_ t = true -> working (socket_ t) -> (forall n ms, 0 < poll n ms) ->
  wf_frame hdr -> f_type hdr <> MSG_ROUTER_GET_STATUS ->
  f_msglen hdr = sizeof_FrameHeader + zlen body -> 0 <= size < zlen body ->
  sk_rx (socket_ t) = encode_frame hdr ++ body ++ rest ->
  exists s, receive_raw swap poll size timeout t = ((- EMSGSIZE, [], None), set_socket s t) /\
    working s /\ sk_rx s = body ++ rest.
Proof.
  intros Hi [Hr Hs] Hp Hwf Ht Hl Hb Hrx. unfold receive_raw, sock_is_open. rewrite Hi.
  pose proof Hr as [Hfd _]. destruct (Z.leb_spec 0 (sk_fd (socket_ t))); [|lia]. cbn [negb orb].
  unfold receive_fuel. cbn [receive_loop]. unfold poll_in.
  destruct (Z.ltb_spec (sk_fd (socket_ t)) 0); [lia|].
  match goal with |- context [?p <=? 0] => destruct (Z.leb_spec p 0) as [Hle|_] end.
  { specialize (Hp (length (sk_rx (socket_ t))) (poll_timeout timeout)). lia. }
  destruct (sock_recv_ok (encode_frame hdr) (body ++ rest) sizeof_FrameHeader t) as (s1&E1&Hrx1&Hr1&(Hfd1&_&_&Htx1&Hsp1)); auto.
  rewrite E1, decode_encode_frame by done.
  destruct (Z.eqb_spec (f_type hdr) MSG_ROUTER_GET_STATUS); [done|].
  destruct (Z.leb_spec (f_msglen hdr) sizeof_FrameHeader); [lia|].
  destruct (Z.ltb_spec size (f_msglen hdr - sizeof_FrameHeader)); [|lia].
  exists s1. split_and!; [done| |done]. split; [done|]. unfold no_send_error. by rewrite Hfd1, Hsp1.
Qed.

(** ** Sending *)

Definition data_frame (t : TimsMailbox) (dest size : Z) : FrameHeader :=
  make_frame 0 dest (cfg_mailbox_id (config_ t)) (u8 (cfg_priority (config_ t)))
    (u8 (sequence_number_ t)) (u32 size).

Definition sendable (t : TimsMailbox) (data : bytes) : Prop :=
  is_initialized_ t = true /\ 0 <= sk_fd (socket_ t) /\ 0 < zlen data <= cfg_max_msg_size (config_ t).

Lemma send_raw_sendable t data dest :
  sendable t data ->
  exists k s, sent_on (socket_ t) s (take k (encode_frame (data_frame t dest (zlen data)) ++ data)) /\
    (k <= 16 + length data)%nat /\
    (no_send_error (socket_ t) -> k = (16 + length data)%nat) /\
    send_raw (Some data) dest t =
      (if decide (k = 16 + length data)%nat
       then (SUCCESS, count_sent (set_socket s (next_sequence t)))
       else (ERROR_SEND, set_socket s (next_sequence t))).
Proof.
  intros (Hi&Hfd&Hlen). unfold send_raw. rewrite bind_eq. cbn [get_state fst snd]. rewrite Hi.
  unfold sock_is_open. destruct (Z.leb_spec 0 (sk_fd (socket_ t))); [|lia]. cbn [negb orb].
  destruct (Z.eqb_spec (zlen data) 0); [lia|].
  destruct (Z.ltb_spec (cfg_max_msg_size (config_ t)) (zlen data)); [lia|]. cbn [orb].
  fold (data_frame t dest (zlen data)). set (h := encode_frame (data_frame t dest (zlen data))).
  assert (length h = 16%nat) as Hh by apply length_encode_frame.
  rewrite bind_eq. cbn [modify fst snd]. rewrite bind_eq, sock_send_eq. cbn [socket_ next_sequence fst snd].
  destruct (send_all_spec (socket_ t) h) as (k1&Hs1&Hk1&Hok1&Hne1).
  destruct (send_all (socket_ t) h) as [ok1 s1]. cbn [fst snd] in *.
  case_bool_decide as Hd1; subst ok1; cbn [negb].
  2:{ exists k1, s1. rewrite take_app_le by lia. split_and!; [done|lia| |].
      - intros Hs. by destruct (Hne1 Hs).
      - rewrite decide_False by lia. done. }
  assert (k1 = 16%nat) as -> by lia. rewrite bind_eq, sock_send_eq. cbn [socket_ set_socket fst snd].
  destruct (send_all_spec s1 data) as (k2&Hs2&Hk2&Hok2&Hne2).
  destruct (send_all s1 data) as [ok2 s2]. cbn [fst snd] in *.
  exists (16 + k2)%nat, s2. rewrite take_ge in Hs1 by lia. split_and!.
  - rewrite take_app_ge, Hh by lia. replace (16 + k2 - 16)%nat with k2 by lia.
    by apply (sent_on_trans _ s1).
  - lia.
  - intros Hs. destruct (Hne1 Hs) as [_ Hs1']. destruct (Hne2 Hs1') as [Ht _].
    rewrite Hok2, bool_decide_eq_true in Ht. lia.
  - case_bool_decide as Hd2; subst ok2; cbn [negb].
    + rewrite decide_True by lia. rewrite bind_eq. done.
    + rewrite decide_False by lia. done.
Qed.

(** C31. [send_raw] on every branch: without a connection or with an unusable
    message nothing changes; otherwise one sequence number is used up, and the
    result is SUCCESS, with the message counted, exactly when header and data have
    gone out completely and in order, which a working kernel always achieves, and
    ERROR_SEND after a proper prefix. *)
Theorem send_raw_spec (t : TimsMailbox) data dest :
  (~ (is_initialized_ t = true /\ 0 <= sk_fd (socket_ t)) ->
     send_raw data dest t = (ERROR_NOT_INIT, t)) /\
  (is_initialized_ t = true -> 0 <= sk_fd (socket_ t) ->
   (data = None \/ data = Some [] \/
    exists d, data = Some d /\ cfg_max_msg_size (config_ t) < zlen d) ->
     send_raw data dest t = (ERROR_INVALID_MSG, t)) /\
  (forall d, data = Some d -> sendable t d ->
     exists k s, sent_on (socket_ t) s (take k (encode_frame (data_frame t dest (zlen d)) ++ d)) /\
       (k <= 16 + length d)%nat /\
       (no_send_error (socket_ t) -> k = (16 + length d)%nat) /\
       send_raw data dest t =
         (if decide (k = 16 + length d)%nat
          then (SUCCESS, count_sent (set_socket s (next_sequence t)))
          else (ERROR_SEND, set_socket s (next_sequence t)))).
Proof.
  split_and!.
  - intros Hn. unfold send_raw. rewrite bind_eq. cbn [get_state fst snd]. unfold sock_is_open.
    destruct (is_initialized_ t); [|done].
    destruct (Z.leb_spec 0 (sk_fd (socket_ t))); [|done]. by destruct Hn.
  - intros Hi Hfd Hd. unfold send_raw. rewrite bind_eq. cbn [get_state fst snd]. unfold sock_is_open.
    rewrite Hi. destruct (Z.leb_spec 0 (sk_fd (socket_ t))); [|lia]. cbn [negb orb].
    destruct Hd as [->|[->|(d&->&Hd)]]; [done|done|].
    destruct (Z.ltb_spec (cfg_max_msg_size (config_ t)) (zlen d)); [|lia]. by rewrite orb_true_r.
  - intros d ->. apply send_raw_sendable.
Qed.

Lemma data_frame_ok (t : TimsMailbox) dest n :
  in_u 32 dest -> in_u 32 (cfg_mailbox_id (config_ t)) -> 0 <= n < 2 ^ 32 - 16 ->
  wf_frame (data_frame t dest n) /\ f_msglen (data_frame t dest n) = sizeof_FrameHeader + n.
Proof.
  intros Hd Hid Hn. assert (u32 n = n) as Hu by (apply wrapu_id; unfold in_u; lia). split.
  - apply make_frame_wf; auto; try (by apply (wrapu_range 8)). unfold in_s. lia.
  - unfold data_frame, make_frame. cbn [f_msglen]. rewrite Hu. unfold sizeof_FrameHeader.
    apply wrapu_id. unfold in_u. lia.
Qed.

(** What a successful [send_raw] puts on the wire. *)
Lemma send_raw_wire t data dest :
  sendable t data -> no_send_error (socket_ t) ->
  exists t', send_raw (Some data) dest t = (SUCCESS, t') /\
    sk_tx (socket_ t') = sk_tx (socket_ t) ++ encode_frame (data_frame t dest (zlen data)) ++ data.
Proof.
  intros Ht Hs. destruct (send_raw_sendable t data dest Ht) as (k&s&(_&Htx&_)&_&Hk&->).
  specialize (Hk Hs). rewrite decide_True by done. eexists. split; [done|].
  cbn [socket_ count_sent set_socket]. rewrite Htx, take_ge; [done|].
  rewrite length_app, length_encode_frame. lia.
Qed.

(** C11. End to end: what a successful [send_raw] puts on the wire is, relayed
    unchanged, delivered by the [receive_raw] of the destination: the same bytes,
    with the sender's id, the destination and the 8-bit sequence number in the
    metadata, whatever status requests and empty frames came first. *)
Theorem send_receive_roundtrip swap poll size timeout (a b : TimsMailbox) data dest hdrs rest :
  sendable a data -> no_send_error (socket_ a) -> zlen data < 2 ^ 32 - 16 -> zlen data <= size ->
  in_u 32 dest -> in_u 32 (cfg_mailbox_id (config_ a)) ->
  is_initialized_ b = true -> working (socket_ b) -> (forall n ms, 0 < poll n ms) ->
  Forall skipped hdrs ->
  forall wire, sk_tx (socket_ (send_raw (Some data) dest a).2) = sk_tx (socket_ a) ++ wire ->
  sk_rx (socket_ b) = concat (map encode_frame hdrs) ++ wire ++ rest ->
  exists meta b', receive_raw swap poll size timeout b = ((zlen data, data, Some meta), b') /\
    m_src meta = cfg_mailbox_id (config_ a) /\ m_dest meta = dest /\
    m_seq_nr meta = u8 (sequence_number_ a) /\ sk_rx (socket_ b') = rest.
Proof.
  intros Ha Hse Hl Hsz Hd Hid Hib Hw Hp Hh wire Htx Hrx.
  destruct (send_raw_wire a data dest Ha Hse) as (a'&E&Ea). rewrite E in Htx. cbn [snd] in Htx.
  rewrite Ea in Htx. apply app_inv_head in Htx. rewrite <- Htx, <- app_assoc in Hrx. pose proof Ha as (_&_&Hlen).
  destruct (data_frame_ok a dest (zlen data)) as [Hwf Hml]; [done|done|lia|].
  destruct (receive_raw_first_frame swap poll size timeout b hdrs
    (data_frame a dest (zlen data)) data rest) as (s'&E'&_&Hrest&_); auto; [lia|].
  exists (metadata_of (data_frame a dest (zlen data))), (count_received (set_socket s' b)).
  split_and!; try done. rewrite E'. unfold convert_header. by destruct (_ <=? _).
Qed.

(** ** Witnesses *)

Definition sample_config (id : Z) : IpcConfig := mkConfig [] id 4096 10 false 16.

Definition sample_mailbox (id : Z) (rx : bytes) : TimsMailbox :=
  mkTims (sample_config id) (sock_of_fd 5 rx [] []) true 0 0 0.

Definition sample_status : FrameHeader := make_frame MSG_ROUTER_GET_STATUS 66 1 0 0 0.
Definition sample_data : FrameHeader := make_frame 0 66 70 10 3 2.

Lemma sample_status_skipped : skipped sample_status.
Proof. split; [by_compute|by left]. Qed.

Lemma receive_raw_delivers_witness :
  (receive_raw id (fun _ _ => 1) 4096 1000000000
     (sample_mailbox 66 (encode_frame sample_status ++ encode_frame sample_data ++ [8; 9] ++ [1]))).1
  = (2, [8; 9], Some (metadata_of sample_data)).
Proof.
  destruct (receive_raw_delivers id (fun _ _ => 1) 4096 1000000000
    (sample_mailbox 66 (encode_frame sample_status ++ encode_frame sample_data ++ [8; 9] ++ [1]))
    [sample_status] sample_data [8; 9] [1]) as (s&E&_).
  - reflexivity.
  - split; by_compute.
  - intros. lia.
  - constructor; [apply sample_status_skipped|constructor].
  - by_compute.
  - discriminate.
  - reflexivity.
  - by_compute.
  - reflexivity.
  - rewrite E. reflexivity.
Defined.

Lemma oversized_message_desynchronises_witness :
  sk_rx (socket_ (receive_raw id (fun _ _ => 1) 1 0
    (sample_mailbox 66 (encode_frame sample_data ++ [8; 9] ++ [1]))).2) = [8; 9; 1].
Proof.
  destruct (oversized_message_desynchronises id (fun _ _ => 1) 1 0
    (sample_mailbox 66 (encode_frame sample_data ++ [8; 9] ++ [1])) sample_data [8; 9] [1])
    as (s&E&_&Hrx).
  - reflexivity.
  - split; by_compute.
  - intros. lia.
  - by_compute.
  - discriminate.
  - reflexivity.
  - by_compute.
  - reflexivity.
  - rewrite E. exact Hrx.
Defined.

Lemma send_receive_roundtrip_witness :
  exists meta b',
    receive_raw id (fun _ _ => 1) 64 0
      (sample_mailbox 66 (encode_frame (data_frame (sample_mailbox 70 []) 66 3) ++ [1; 2; 3]))
    = ((3, [1; 2; 3], Some meta), b') /\ m_src meta = 70.
Proof.
  destruct (send_receive_roundtrip id (fun _ _ => 1) 64 0 (sample_mailbox 70 [])
    (sample_mailbox 66 (encode_frame (data_frame (sample_mailbox 70 []) 66 3) ++ [1; 2; 3]))
    [1; 2; 3] 66 [] [])
    with (wire := encode_frame (data_frame (sample_mailbox 70 []) 66 3) ++ [1; 2; 3])
    as (meta&b'&E&Hsrc&_).
  - split_and!; by_compute.
  - by_compute.
  - by_compute.
  - by_compute.
  - by_compute.
  - by_compute.
  - reflexivity.
  - split; by_compute.
  - intros. lia.
  - constructor.
  - reflexivity.
  - reflexivity.
  - exists meta, b'. split; [exact E|exact Hsrc].
Defined.
