(* ===== verification/TimsHandshake.v ===== *)
(** * The registration handshake between TimsMailbox and corerat-router-tcp

    Puts the client of TimsMailbox.v and the router of TcpRouter.v together:
    [TimsMailbox::initialize] on one end of a connection, the loop of
    [Connection::run] on the other.  What the router reads is what [initialize]
    wrote to its socket. *)

From Stdlib Require Import ZArith Lia.
From stdpp Require Import base list gmap sets numbers.
From S2P Require Import Prelude Protocol TcpSocket RouterCore TcpRouter TcpDelivery IpcTypes TimsMailbox.

#[local] Open Scope Z_scope.

Import Tcp.


Section client.
Implicit Types (t : TimsMailbox) (s : TcpSocket).

Lemma initialize_reply t s reply rest :
  is_initialized_ t = false -> working s -> wf_frame reply ->
  sk_rx s = encode_frame reply ++ rest ->
  exists s', sk_rx s' = rest /\ working s' /\
    initialize (Some s) t =
      (if decide (f_type reply = MSG_OK)
       then (SUCCESS, set_initialized true (set_socket s' t))
       else (ERROR_INIT, set_socket (sock_close s') t)).
Proof.
  intros Hi [Hr Hs] Hwf Hrx. unfold initialize. rewrite bind_eq. cbn [get_state fst snd]. rewrite Hi.
  rewrite bind_eq. cbn [modify fst snd]. rewrite bind_eq.
  destruct (sock_send_ok (encode_frame (watchdog_frame (config_ t))) (set_socket s t) Hs)
    as (s1&->&(Hfd1&Htx1&Hrx1&Hrp1)&Hs1). cbn [fst snd negb].
  rewrite bind_eq.
  destruct (sock_send_ok (encode_frame (register_frame (config_ t)) ++ encode_mbx (cfg_mailbox_id (config_ t)))
    (set_socket s1 (set_socket s t)) Hs1) as (s2&->&(Hfd2&Htx2&Hrx2&Hrp2)&Hs2). cbn [fst snd negb].
  cbn [socket_ set_socket] in *. rewrite bind_eq.
  destruct (sock_recv_ok (encode_frame reply) rest sizeof_FrameHeader
    (set_socket s2 (set_socket s1 (set_socket s t)))) as (s3&->&Hrx3&Hr3&(Hfd3&_&_&Htx3&Hsp3)); auto.
  { cbn [socket_ set_socket]. unfold no_recv_error. by rewrite Hfd2, Hrp2, Hfd1, Hrp1. }
  { cbn [socket_ set_socket]. congruence. }
  cbn [fst snd]. rewrite decode_encode_frame by done. exists s3. cbn in Htx3, Hfd3, Hsp3. split_and!.
  - done.
  - split; [done|]. unfold no_send_error. by rewrite Hfd3, Hsp3.
  - case_decide as Hd; [rewrite Hd; done|].
    destruct (Z.eqb_spec (f_type reply) MSG_OK); [done|]. done.
Qed.

End client.

Section router.
Implicit Types (st : TcpRouter) (c : nat) (con : Connection).







End router.



(** [initialize] trusts the type of the next frame, whatever it is, and data
    frames have the type of MSG_OK: a message routed to the new mailbox before the
    router has written its reply completes the handshake, and the body of the
    message and the true reply are left to be read as frame headers. *)
Theorem early_message_taken_for_reply swap poll size timeout t s hdr body reply rest :
  is_initialized_ t = false -> working s -> (forall n ms, 0 < poll n ms) ->
  wf_frame hdr -> f_type hdr = 0 -> f_msglen hdr = sizeof_FrameHeader + zlen body ->
  length body = 16%nat -> Forall is_byte body -> f_type (decode_frame body) <> MSG_ROUTER_GET_STATUS ->
  0 <= size < f_msglen (decode_frame body) - sizeof_FrameHeader ->
  sk_rx s = encode_frame hdr ++ body ++ encode_frame reply ++ rest ->
  exists t', initialize (Some s) t = (SUCCESS, t') /\
    sk_rx (socket_ t') = body ++ encode_frame reply ++ rest /\
    (receive_raw swap poll size timeout t').1.1.1 = - EMSGSIZE.
Proof.
  intros Hi Hw Hp Hwf Hty Hlen Hb Hbytes Hbt Hbl Hrx.
  destruct (initialize_reply t s hdr (body ++ encode_frame reply ++ rest) Hi Hw Hwf Hrx)
    as (s'&Hrx'&[Hr' Hs']&E).
  rewrite decide_True in E by by rewrite Hty. eexists. split; [exact E|]. split; [exact Hrx'|].
  set (t' := set_initialized true (set_socket s' t)).
  unfold receive_raw, sock_is_open. change (is_initialized_ t') with true.
  change (socket_ t') with s'. pose proof Hr' as [Hfd _].
  destruct (Z.leb_spec 0 (sk_fd s')); [|lia]. cbn [negb orb].
  unfold receive_fuel. cbn [receive_loop]. unfold poll_in. change (socket_ t') with s'.
  destruct (Z.ltb_spec (sk_fd s') 0); [lia|].
  match goal with |- context [?p <=? 0] => destruct (Z.leb_spec p 0) as [Hle|_] end.
  { specialize (Hp (length (sk_rx s')) (poll_timeout timeout)). lia. }
  destruct (sock_recv_ok body (encode_frame reply ++ rest) sizeof_FrameHeader t')
    as (s2&E2&_); auto; [by unfold zlen; rewrite Hb|].
  rewrite E2. destruct (Z.eqb_spec (f_type (decode_frame body)) MSG_ROUTER_GET_STATUS); [done|].
  destruct (Z.leb_spec (f_msglen (decode_frame body)) sizeof_FrameHeader); [lia|].
  destruct (Z.ltb_spec size (f_msglen (decode_frame body) - sizeof_FrameHeader)); [done|lia].
Qed.

(** ** Witnesses *)






Lemma early_message_taken_for_reply_witness :
  let body := [1; 0; 0; 0; 32; 0; 0; 0; 0; 0; 0; 0; 255; 255; 255; 255] in
  let rx := encode_frame (make_frame 0 67 70 10 1 16) ++ body
    ++ encode_frame (make_frame MSG_OK 67 0 0 0 0) ++ [] in
  exists t', initialize (Some (sock_of_fd 3 rx [] [])) (new_mailbox (sample_config 67)) = (SUCCESS, t').
Proof.
  intros body rx.
  destruct (early_message_taken_for_reply id (fun _ _ => 1) 4096 0 (new_mailbox (sample_config 67))
    (sock_of_fd 3 rx [] []) (make_frame 0 67 70 10 1 16) body (make_frame MSG_OK 67 0 0 0 0) [])
    as (t'&E&_).
  - reflexivity.
  - split; by_compute.
  - intros. lia.
  - by_compute.
  - reflexivity.
  - reflexivity.
  - reflexivity.
  - by_compute.
  - discriminate.
  - split; [by_compute|vm_compute; reflexivity].
  - reflexivity.
  - exists t'. exact E.
Defined.
