(* ===== verification/EvlRegistry.v ===== *)
(** * The process-local mailbox registry of the EVL backend

    Models [evl_detail::registry_*] of include/corerat/ipc/evl/evl_backend.hpp:
    an open-addressing hash table of 512 entries with tombstones, and proves
    that it implements a finite map as long as it is not full.  An
    [EvlMailbox*] is a [nat]; [None] is [nullptr]. *)

From Stdlib Require Import ZArith Lia.
From stdpp Require Import base list gmap sets numbers.
From S2P Require Import Prelude.

#[local] Open Scope Z_scope.

Module Registry.

Definition kMaxMailboxes : Z := 256.
Definition kRegistryCapacity : Z := 512.

(** The number of slots, as the bound of the loops. *)
Definition cap : nat := Z.to_nat kRegistryCapacity.

Record RegistryEntry := mkRE { re_id : Z; re_ptr : option nat }.

#[export] Instance RegistryEntry_eq_dec : EqDecision RegistryEntry.
Proof. solve_decision. Defined.

Abbreviation table := (list RegistryEntry).

Definition registry_table : table := replicate (cap) (mkRE 0 None).

(** [(id * 2654435761u) >> (32u - 9u)] *)
Definition registry_hash (id : Z) : Z := Z.shiftr (u32 (id * 2654435761)) (32 - 9).

(** [(h + i) & (kRegistryCapacity - 1u)], as an index. *)
Definition probe (h i : Z) : nat := Z.to_nat (Z.land (u32 (h + i)) (kRegistryCapacity - 1)).

(** [tbl[slot].id] *)
Definition id_at (tbl : table) (slot : nat) : Z :=
  match tbl !! slot with Some e => re_id e | None => 0 end.

(** The loops [for (uint32_t i = 0; i < kRegistryCapacity; ++i)], with [n]
    iterations left. *)
Fixpoint insert_loop (n : nat) (h i : Z) (id : Z) (ptr : option nat) (tbl : table) : table :=
  match n with
  | O => tbl
  | S n =>
      let slot := probe h i in
      if (id_at tbl slot =? 0) || (id_at tbl slot =? id) then <[slot := mkRE id ptr]> tbl
      else insert_loop n h (i + 1) id ptr tbl
  end.

Definition registry_insert (id : Z) (ptr : option nat) (tbl : table) : table :=
  insert_loop (cap) (registry_hash id) 0 id ptr tbl.

Fixpoint remove_loop (n : nat) (h i : Z) (id : Z) (tbl : table) : table :=
  match n with
  | O => tbl
  | S n =>
      let slot := probe h i in
      if id_at tbl slot =? 0 then tbl
      else if id_at tbl slot =? id then alter (fun e => mkRE (re_id e) None) slot tbl
      else remove_loop n h (i + 1) id tbl
  end.

Definition registry_remove (id : Z) (tbl : table) : table :=
  remove_loop (cap) (registry_hash id) 0 id tbl.

Fixpoint find_loop (n : nat) (h i : Z) (id : Z) (tbl : table) : option nat :=
  match n with
  | O => None
  | S n =>
      let slot := probe h i in
      if id_at tbl slot =? 0 then None
      else if id_at tbl slot =? id then tbl !! slot ≫= re_ptr
      else find_loop n h (i + 1) id tbl
  end.

Definition registry_find (id : Z) (tbl : table) : option nat :=
  find_loop (cap) (registry_hash id) 0 id tbl.

(** ** Probing *)

Lemma cap_512 : Z.of_nat cap = 512.
Proof. reflexivity. Qed.

#[global] Opaque cap.

Ltac clia := pose proof cap_512; lia.

Lemma registry_hash_range id : 0 <= registry_hash id < 512.
Proof.
  unfold registry_hash. pose proof (wrapu_range 32 (id * 2654435761)) as Hr.
  unfold in_u in Hr. rewrite Z.shiftr_div_pow2 by clia. change (2 ^ (32 - 9)) with 8388608.
  split; [apply Z.div_pos; clia|]. apply Z.div_lt_upper_bound; clia.
Qed.

Lemma probe_mod h (i : nat) :
  0 <= h < 512 -> (i < cap)%nat -> probe h (Z.of_nat i) = Z.to_nat ((h + Z.of_nat i) mod 512).
Proof.
  intros. unfold probe, kRegistryCapacity. rewrite wrapu_id by (unfold in_u; clia).
  change (512 - 1) with (Z.ones 9). by rewrite Z.land_ones.
Qed.

Lemma probe_lt h (i : nat) : 0 <= h < 512 -> (i < cap)%nat -> (probe h (Z.of_nat i) < cap)%nat.
Proof. intros. rewrite probe_mod by done. pose proof (Z.mod_pos_bound (h + Z.of_nat i) 512). clia. Qed.

Lemma probe_inj h (i j : nat) :
  0 <= h < 512 -> (i < cap)%nat -> (j < cap)%nat ->
  probe h (Z.of_nat i) = probe h (Z.of_nat j) -> i = j.
Proof.
  intros. rewrite !probe_mod in * by done.
  pose proof (Z.mod_pos_bound (h + Z.of_nat i) 512). pose proof (Z.mod_pos_bound (h + Z.of_nat j) 512).
  assert ((h + Z.of_nat i) mod 512 = (h + Z.of_nat j) mod 512) as E by clia.
  Z.div_mod_to_equations. clia.
Qed.

Lemma probe_surj h s :
  0 <= h < 512 -> (s < cap)%nat -> exists i, (i < cap)%nat /\ probe h (Z.of_nat i) = s.
Proof.
  intros Hh Hs. exists (Z.to_nat ((Z.of_nat s - h) mod 512)).
  pose proof (Z.mod_pos_bound (Z.of_nat s - h) 512). split; [clia|].
  rewrite probe_mod by clia. rewrite Z2Nat.id by clia. Z.div_mod_to_equations. clia.
Qed.

(** The slot where a loop stops: the first that is empty or holds [id]. *)
Definition stops (tbl : table) (id : Z) (slot : nat) : Prop := id_at tbl slot = 0 \/ id_at tbl slot = id.

Fixpoint scan (n : nat) (h i : Z) (id : Z) (tbl : table) : option nat :=
  match n with
  | O => None
  | S n =>
      if (id_at tbl (probe h i) =? 0) || (id_at tbl (probe h i) =? id) then Some (probe h i)
      else scan n h (i + 1) id tbl
  end.

Lemma insert_loop_scan n h i id ptr tbl :
  insert_loop n h i id ptr tbl
  = match scan n h i id tbl with Some s => <[s := mkRE id ptr]> tbl | None => tbl end.
Proof. revert i. induction n as [|n IH]; intros i; cbn; [done|]. by destruct (_ || _). Qed.

Lemma remove_loop_scan n h i id tbl :
  remove_loop n h i id tbl
  = match scan n h i id tbl with
    | Some s => if id_at tbl s =? 0 then tbl else alter (fun e => mkRE (re_id e) None) s tbl
    | None => tbl
    end.
Proof.
  revert i. induction n as [|n IH]; intros i; cbn; [done|].
  destruct (id_at tbl (probe h i) =? 0) eqn:E0; cbn; [by rewrite E0|].
  destruct (id_at tbl (probe h i) =? id); [by rewrite E0|done].
Qed.

Lemma find_loop_scan n h i id tbl :
  find_loop n h i id tbl
  = match scan n h i id tbl with
    | Some s => if id_at tbl s =? 0 then None else tbl !! s ≫= re_ptr
    | None => None
    end.
Proof.
  revert i. induction n as [|n IH]; intros i; cbn; [done|].
  destruct (id_at tbl (probe h i) =? 0) eqn:E0; cbn; [by rewrite E0|].
  destruct (id_at tbl (probe h i) =? id); [by rewrite E0|done].
Qed.

Lemma scan_some n h (i0 i : nat) id tbl :
  (i0 <= i < i0 + n)%nat -> stops tbl id (probe h (Z.of_nat i)) ->
  (forall j, (i0 <= j < i)%nat -> ~ stops tbl id (probe h (Z.of_nat j))) ->
  scan n h (Z.of_nat i0) id tbl = Some (probe h (Z.of_nat i)).
Proof.
  revert i0. induction n as [|n IH]; intros i0 Hi Hs Hj; [clia|]. cbn [scan].
  destruct (decide (i0 = i)) as [->|Hne].
  - destruct Hs as [->| ->]; cbn; [done|]. by rewrite Z.eqb_refl, orb_true_r.
  - assert (~ stops tbl id (probe h (Z.of_nat i0))) as Hn by (apply Hj; clia). unfold stops in Hn.
    destruct (Z.eqb_spec (id_at tbl (probe h (Z.of_nat i0))) 0); [tauto|].
    destruct (Z.eqb_spec (id_at tbl (probe h (Z.of_nat i0))) id); [tauto|]. cbn [orb].
    replace (Z.of_nat i0 + 1) with (Z.of_nat (S i0)) by clia. apply IH; [clia|done|].
    intros j Hj'. apply Hj. clia.
Qed.

Lemma scan_inv n h (i0 : nat) id tbl :
  match scan n h (Z.of_nat i0) id tbl with
  | Some s => exists i, (i0 <= i < i0 + n)%nat /\ s = probe h (Z.of_nat i) /\ stops tbl id s /\
      forall j, (i0 <= j < i)%nat -> ~ stops tbl id (probe h (Z.of_nat j))
  | None => forall j, (i0 <= j < i0 + n)%nat -> ~ stops tbl id (probe h (Z.of_nat j))
  end.
Proof.
  revert i0. induction n as [|n IH]; intros i0; cbn [scan]; [clia|].
  assert (stops tbl id (probe h (Z.of_nat i0)) <->
    (id_at tbl (probe h (Z.of_nat i0)) =? 0) || (id_at tbl (probe h (Z.of_nat i0)) =? id) = true) as Hst.
  { unfold stops. rewrite orb_true_iff, !Z.eqb_eq. done. }
  destruct (_ || _).
  - exists i0. split_and!; [clia|clia|done|by apply Hst|clia].
  - specialize (IH (S i0)). replace (Z.of_nat i0 + 1) with (Z.of_nat (S i0)) by clia.
    assert (~ stops tbl id (probe h (Z.of_nat i0))) as Hn by by intros ?%Hst.
    destruct (scan n h (Z.of_nat (S i0)) id tbl).
    + destruct IH as (i&Hi&E&Hs&Hj). exists i. split_and!; [clia|clia|done|done|].
      intros j Hj'. destruct (decide (j = i0)) as [->|]; [done|]. apply Hj. clia.
    + intros j Hj. destruct (decide (j = i0)) as [->|]; [done|]. apply IH. clia.
Qed.

(** ** The invariant: every id is where its probe sequence finds it *)

Record table_inv (tbl : table) : Prop := mkTI {
  ti_length : length tbl = cap;
  ti_reach s : (s < cap)%nat -> id_at tbl s <> 0 ->
    exists i, (i < cap)%nat /\ s = probe (registry_hash (id_at tbl s)) (Z.of_nat i) /\
      forall j, (j < i)%nat -> ~ stops tbl (id_at tbl s) (probe (registry_hash (id_at tbl s)) (Z.of_nat j))
}.

Definition scan_id (id : Z) (tbl : table) : option nat := scan cap (registry_hash id) 0 id tbl.

Lemma registry_insert_scan id ptr tbl :
  registry_insert id ptr tbl
  = match scan_id id tbl with Some s => <[s := mkRE id ptr]> tbl | None => tbl end.
Proof. unfold registry_insert, scan_id. by rewrite insert_loop_scan. Qed.

Lemma registry_remove_scan id tbl :
  registry_remove id tbl
  = match scan_id id tbl with
    | Some s => if id_at tbl s =? 0 then tbl else alter (fun e => mkRE (re_id e) None) s tbl
    | None => tbl
    end.
Proof. unfold registry_remove, scan_id. by rewrite remove_loop_scan. Qed.

Lemma registry_find_scan id tbl :
  registry_find id tbl
  = match scan_id id tbl with
    | Some s => if id_at tbl s =? 0 then None else tbl !! s ≫= re_ptr
    | None => None
    end.
Proof. unfold registry_find, scan_id. by rewrite find_loop_scan. Qed.

(** Where a scan ends. *)
Lemma scan_id_cases id tbl :
  match scan_id id tbl with
  | Some s => (s < cap)%nat /\ exists i, (i < cap)%nat /\ s = probe (registry_hash id) (Z.of_nat i) /\
      stops tbl id s /\ forall j, (j < i)%nat -> ~ stops tbl id (probe (registry_hash id) (Z.of_nat j))
  | None => forall s, (s < cap)%nat -> ~ stops tbl id s
  end.
Proof.
  pose proof (scan_inv cap (registry_hash id) 0 id tbl) as Hs. unfold scan_id.
  change (Z.of_nat 0) with 0 in Hs. destruct (scan cap (registry_hash id) 0 id tbl) as [s|].
  - destruct Hs as (i&Hi&->&Hs&Hj). split; [apply probe_lt; [apply registry_hash_range|clia]|].
    exists i. split_and!; [clia|done|done|]. intros. apply Hj. clia.
  - intros s Hlt. destruct (probe_surj (registry_hash id) s (registry_hash_range id) Hlt) as (i&Hi&<-).
    apply Hs. clia.
Qed.

Lemma scan_present id tbl s :
  table_inv tbl -> id <> 0 -> (s < cap)%nat -> id_at tbl s = id -> scan_id id tbl = Some s.
Proof.
  intros [_ Hr] Hid Hs <-. destruct (Hr s Hs Hid) as (i&Hi&Es&Hj). rewrite Es at 2.
  pose proof (scan_some cap (registry_hash (id_at tbl s)) 0 i (id_at tbl s) tbl) as Hscan.
  change (Z.of_nat 0) with 0 in Hscan. unfold scan_id. apply Hscan; [clia| |].
  - right. by rewrite <- Es.
  - intros j Hj'. apply Hj. clia.
Qed.

(** No id is in two slots. *)
Lemma id_unique tbl s1 s2 :
  table_inv tbl -> (s1 < cap)%nat -> (s2 < cap)%nat -> id_at tbl s1 <> 0 ->
  id_at tbl s1 = id_at tbl s2 -> s1 = s2.
Proof.
  intros Hi H1 H2 Hne E. pose proof (scan_present _ tbl s1 Hi Hne H1 eq_refl) as E1.
  pose proof (scan_present _ tbl s2 Hi Hne H2 (eq_sym E)) as E2. congruence.
Qed.

(** A change of one slot that keeps the ids of the others, and does not empty
    it, keeps the invariant if the slot was where the scan of its id ends. *)
Lemma id_at_insert_ne tbl s s' e : s <> s' -> id_at (<[s := e]> tbl) s' = id_at tbl s'.
Proof. intros. unfold id_at. by rewrite list_lookup_insert_ne. Qed.

Lemma id_at_insert_eq tbl s e : (s < length tbl)%nat -> id_at (<[s := e]> tbl) s = re_id e.
Proof. intros. unfold id_at. by rewrite list_lookup_insert_eq. Qed.

Lemma table_inv_insert tbl id ptr s :
  table_inv tbl -> id <> 0 -> scan_id id tbl = Some s -> table_inv (<[s := mkRE id ptr]> tbl).
Proof.
  intros Hi Hid Hscan. pose proof (scan_id_cases id tbl) as Hc. rewrite Hscan in Hc.
  destruct Hc as (Hs&i&Hlt&Es&Hst&Hj). pose proof Hi as [Hl Hr].
  assert (forall s', s' <> s -> forall k, ~ stops tbl k s' -> ~ stops (<[s := mkRE id ptr]> tbl) k s') as Hkeep.
  { intros s' Hne k. unfold stops. by rewrite id_at_insert_ne. }
  split; [by rewrite length_insert|]. intros s' Hs'.
  destruct (decide (s' = s)) as [->|Hne].
  - rewrite id_at_insert_eq by clia. cbn. intros _. exists i. split_and!; [done|done|].
    intros j Hji. apply Hkeep; [|by apply Hj]. intros Ep. rewrite Es in Ep.
    apply probe_inj in Ep; [clia|apply registry_hash_range|clia|clia].
  - rewrite id_at_insert_ne by done. intros Hne0. destruct (Hr s' Hs' Hne0) as (i'&Hi'&Es'&Hj').
    exists i'. split_and!; [done|done|]. intros j Hji.
    destruct (decide (probe (registry_hash (id_at tbl s')) (Z.of_nat j) = s)) as [Ep|Ep].
    + rewrite Ep. unfold stops. rewrite id_at_insert_eq by clia. cbn. intros [?|E]; [done|].
      assert (scan_id id tbl = Some s') as E2 by (apply scan_present; auto). congruence.
    + apply Hkeep; [done|by apply Hj'].
Qed.

Lemma alter_insert (tbl : table) (s : nat) e :
  tbl !! s = Some e -> alter (fun e => mkRE (re_id e) None) s tbl = <[s := mkRE (re_id e) None]> tbl.
Proof.
  intros E. apply list_eq; intros i; destruct (decide (i = s)) as [->|]; [rewrite list_lookup_alter_eq, E, list_lookup_insert_eq; [done|by eapply lookup_lt_Some]|by rewrite list_lookup_alter_ne, list_lookup_insert_ne].
Qed.

Lemma registry_insert_inv id ptr tbl :
  id <> 0 -> table_inv tbl -> table_inv (registry_insert id ptr tbl).
Proof.
  intros Hid Hi. rewrite registry_insert_scan. destruct (scan_id id tbl) eqn:E; [|done].
  by apply table_inv_insert.
Qed.

(** A removal is an update of the entry in place. *)
Lemma registry_remove_insert id tbl :
  id <> 0 ->
  registry_remove id tbl
  = match scan_id id tbl with
    | Some s => if id_at tbl s =? 0 then tbl else <[s := mkRE id None]> tbl
    | None => tbl
    end.
Proof.
  intros Hid. rewrite registry_remove_scan. pose proof (scan_id_cases id tbl) as Hc.
  destruct (scan_id id tbl) as [s|]; [|done]. destruct Hc as (_&i&_&_&Hst&_).
  destruct (Z.eqb_spec (id_at tbl s) 0) as [|Hne]; [done|]. destruct Hst as [?|E]; [done|].
  unfold id_at in *. destruct (tbl !! s) as [e|] eqn:He; [|done]. by rewrite (alter_insert _ _ e He), E.
Qed.

Lemma registry_remove_inv id tbl : id <> 0 -> table_inv tbl -> table_inv (registry_remove id tbl).
Proof.
  intros Hid Hi. rewrite registry_remove_insert by done.
  destruct (scan_id id tbl) as [s|] eqn:E; [|done]. destruct (_ =? 0); [done|]. by apply table_inv_insert.
Qed.

Lemma empty_inv : table_inv registry_table.
Proof.
  split; [done|]. intros s _ Hne. exfalso. apply Hne. unfold id_at, registry_table.
  destruct (replicate _ _ !! s) as [e|] eqn:E; [|done]. apply lookup_replicate in E as [-> _]. done.
Qed.

(** ** Lookups after updates *)

Definition room (tbl : table) (id : Z) : Prop := exists s, (s < cap)%nat /\ stops tbl id s.

Lemma room_scan tbl id : room tbl id -> exists s, scan_id id tbl = Some s.
Proof.
  intros (s&Hs&Hst). pose proof (scan_id_cases id tbl) as Hc.
  destruct (scan_id id tbl) as [s'|]; [by exists s'|]. by destruct (Hc s Hs).
Qed.

Lemma find_at id tbl s :
  table_inv tbl -> id <> 0 -> (s < cap)%nat -> id_at tbl s = id ->
  registry_find id tbl = tbl !! s ≫= re_ptr.
Proof.
  intros Hi Hid Hs E. rewrite registry_find_scan, (scan_present id tbl s) by done.
  rewrite E. by destruct (Z.eqb_spec id 0).
Qed.

Lemma find_absent id tbl :
  (forall s, (s < cap)%nat -> id_at tbl s <> id) -> registry_find id tbl = None.
Proof.
  intros Hn. rewrite registry_find_scan. pose proof (scan_id_cases id tbl) as Hc.
  destruct (scan_id id tbl) as [s|]; [|done]. destruct Hc as (Hs&_&_&_&Hst&_).
  destruct Hst as [->|E]; [done|]. by destruct (Hn s Hs).
Qed.

Lemma id_absent_dec id tbl :
  {s | (s < cap)%nat /\ id_at tbl s = id} + {forall s, (s < cap)%nat -> id_at tbl s <> id}.
Proof.
  destruct (decide (Exists (fun s => id_at tbl s = id) (seq 0 cap))) as [He|He].
  - left. destruct (list_find (fun s => id_at tbl s = id) (seq 0 cap)) as [[i s]|] eqn:E.
    + exists s. apply list_find_Some in E as (E&?&_). apply lookup_seq in E. split; [clia|done].
    + exfalso. apply list_find_None in E. apply Exists_exists in He as (x&Hx&Ex).
      by apply (proj1 (Forall_forall _ _) E x Hx).
  - right. intros s Hs E. apply He, Exists_exists. exists s. split; [|done].
    apply list_elem_of_In, elem_of_seq. clia.
Qed.

Lemma find_insert_slot id id' ptr tbl s :
  table_inv tbl -> id <> 0 -> id' <> 0 -> scan_id id tbl = Some s ->
  registry_find id' (<[s := mkRE id ptr]> tbl) = if decide (id' = id) then ptr else registry_find id' tbl.
Proof.
  intros Hi Hid Hid' Hscan. pose proof (table_inv_insert tbl id ptr s Hi Hid Hscan) as Hi'.
  pose proof (scan_id_cases id tbl) as Hc. rewrite Hscan in Hc. destruct Hc as (Hs&_&_&_&Hst&_).
  pose proof (ti_length _ Hi) as Hl. case_decide as Hd.
  - subst id'. rewrite (find_at id _ s) by (auto; by rewrite id_at_insert_eq by clia).
    by rewrite list_lookup_insert_eq by clia.
  - destruct (id_absent_dec id' tbl) as [(s'&Hs'&E)|Hn].
    + assert (s' <> s) as Hne. { intros ->. destruct Hst; congruence. }
      rewrite (find_at id' _ s') by (auto; by rewrite id_at_insert_ne).
      rewrite (find_at id' tbl s') by done. by rewrite list_lookup_insert_ne.
    + rewrite (find_absent id' tbl) by done. apply find_absent. intros s' Hs'.
      destruct (decide (s' = s)) as [->|Hne]; [rewrite id_at_insert_eq by clia; cbn; congruence|].
      rewrite id_at_insert_ne by done. by apply Hn.
Qed.

Lemma find_insert id id' ptr tbl :
  table_inv tbl -> id <> 0 -> id' <> 0 -> room tbl id ->
  registry_find id' (registry_insert id ptr tbl)
  = if decide (id' = id) then ptr else registry_find id' tbl.
Proof.
  intros Hi Hid Hid' [s Hs]%room_scan. rewrite registry_insert_scan, Hs. by apply find_insert_slot.
Qed.

Lemma find_remove id id' tbl :
  table_inv tbl -> id <> 0 -> id' <> 0 ->
  registry_find id' (registry_remove id tbl)
  = if decide (id' = id) then None else registry_find id' tbl.
Proof.
  intros Hi Hid Hid'. rewrite registry_remove_insert by done.
  assert (scan_id id tbl = None \/ (exists s, scan_id id tbl = Some s /\ id_at tbl s = 0) ->
    registry_find id tbl = None) as Hnone.
  { rewrite registry_find_scan. intros [->|(s&->&->)]; done. }
  destruct (scan_id id tbl) as [s|] eqn:E; [destruct (Z.eqb_spec (id_at tbl s) 0) as [E0|]|].
  - case_decide; [subst|done]. apply Hnone. eauto.
  - by apply find_insert_slot.
  - case_decide; [subst|done]. apply Hnone. eauto.
Qed.

(** ** Any id, with or without room *)

Lemma registry_find_0 tbl : registry_find 0 tbl = None.
Proof.
  rewrite registry_find_scan. pose proof (scan_id_cases 0 tbl) as Hc.
  destruct (scan_id 0 tbl) as [s|]; [|done]. destruct Hc as (_&i&_&_&Hst&_).
  by destruct Hst as [->| ->].
Qed.

Lemma find_absent_empty id : registry_find id registry_table = None.
Proof.
  destruct (decide (id = 0)) as [->|Hid]; [apply registry_find_0|]. apply find_absent.
  intros s Hs. unfold id_at, registry_table. destruct (replicate _ _ !! s) as [e|] eqn:E; [|cbn; congruence].
  apply lookup_replicate in E as [-> _]. cbn. congruence.
Qed.

(** Inserting id 0 leaves an entry that still counts as empty. *)
Lemma insert_0_ids ptr tbl s : (s < length tbl)%nat ->
  id_at (registry_insert 0 ptr tbl) s = id_at tbl s.
Proof.
  intros Hs. rewrite registry_insert_scan. pose proof (scan_id_cases 0 tbl) as Hc.
  destruct (scan_id 0 tbl) as [s'|]; [|done]. destruct Hc as (_&i&_&_&Hst&_).
  assert (id_at tbl s' = 0) as E by by destruct Hst.
  destruct (decide (s' = s)) as [->|]; [|by rewrite id_at_insert_ne].
  by rewrite id_at_insert_eq.
Qed.

Lemma insert_0_length ptr tbl : length (registry_insert 0 ptr tbl) = length tbl.
Proof. rewrite registry_insert_scan. destruct (scan_id 0 tbl); [apply length_insert|done]. Qed.

Lemma insert_0_inv ptr tbl : table_inv tbl -> table_inv (registry_insert 0 ptr tbl).
Proof.
  intros [Hl Hr]. split; [by rewrite insert_0_length|]. intros s Hs.
  rewrite insert_0_ids by clia. intros Hne. destruct (Hr s Hs Hne) as (i&Hi&Es&Hj).
  exists i. split_and!; [done|done|]. intros j Hji. unfold stops.
  rewrite insert_0_ids; [by apply Hj|]. rewrite Hl. apply probe_lt; [apply registry_hash_range|lia].
Qed.

Lemma insert_inv id ptr tbl : table_inv tbl -> table_inv (registry_insert id ptr tbl).
Proof.
  destruct (decide (id = 0)) as [->|]; [apply insert_0_inv|by apply registry_insert_inv].
Qed.

Lemma remove_inv id tbl : table_inv tbl -> table_inv (registry_remove id tbl).
Proof.
  destruct (decide (id = 0)) as [->|]; [|by apply registry_remove_inv].
  rewrite registry_remove_scan. pose proof (scan_id_cases 0 tbl) as Hc.
  destruct (scan_id 0 tbl) as [s|]; [|done]. destruct Hc as (_&i&_&_&Hst&_). by destruct Hst as [->| ->].
Qed.

(** What a lookup can answer after an update. *)
Lemma find_insert_cases id id' ptr tbl q :
  table_inv tbl -> registry_find id' (registry_insert id ptr tbl) = Some q ->
  (id' = id /\ ptr = Some q) \/ registry_find id' tbl = Some q.
Proof.
  intros Hi Hf. destruct (decide (id' = 0)) as [->|Hid']; [by rewrite registry_find_0 in Hf|].
  destruct (decide (id = 0)) as [->|Hid].
  - right. pose proof (insert_0_inv ptr tbl Hi) as Hi'. pose proof (ti_length _ Hi) as Hl.
    destruct (id_absent_dec id' tbl) as [(s&Hs&E)|Hn].
    + rewrite (find_at id' tbl s) by done.
      rewrite (find_at id' _ s) in Hf by (auto; by rewrite insert_0_ids by clia).
      rewrite <- Hf. f_equal. rewrite registry_insert_scan. pose proof (scan_id_cases 0 tbl) as Hc.
      destruct (scan_id 0 tbl) as [s'|]; [|done]. destruct Hc as (_&i&_&_&Hst&_).
      rewrite list_lookup_insert_ne; [done|]. intros ->. destruct Hst; congruence.
    + rewrite find_absent in Hf; [done|]. intros s Hs. rewrite insert_0_ids by clia. by apply Hn.
  - rewrite registry_insert_scan in Hf. destruct (scan_id id tbl) as [s|] eqn:Hs; [|by right].
    rewrite (find_insert_slot id id' ptr tbl s) in Hf by done. case_decide; [by left|by right].
Qed.

Lemma find_remove_cases id id' tbl q :
  table_inv tbl -> registry_find id' (registry_remove id tbl) = Some q ->
  id' <> id /\ registry_find id' tbl = Some q.
Proof.
  intros Hi Hf. destruct (decide (id' = 0)) as [->|Hid']; [by rewrite registry_find_0 in Hf|].
  destruct (decide (id = 0)) as [->|Hid].
  - split; [done|]. rewrite registry_remove_scan in Hf. pose proof (scan_id_cases 0 tbl) as Hc.
    destruct (scan_id 0 tbl) as [s|]; [|done]. destruct Hc as (_&i&_&_&Hst&_).
    by destruct Hst as [E|E]; rewrite E in Hf.
  - rewrite find_remove in Hf by done. by case_decide.
Qed.

(** ** Refinement of a finite map *)

Inductive registry_op :=
  | OpInsert (id : Z) (ptr : nat)
  | OpRemove (id : Z).

Definition op_id (o : registry_op) : Z := match o with OpInsert id _ => id | OpRemove id => id end.

Definition run_op (tbl : table) (o : registry_op) : table :=
  match o with
  | OpInsert id ptr => registry_insert id (Some ptr) tbl
  | OpRemove id => registry_remove id tbl
  end.

Definition spec_op (m : gmap Z nat) (o : registry_op) : gmap Z nat :=
  match o with OpInsert id ptr => <[id := ptr]> m | OpRemove id => delete id m end.

Definition ids (tbl : table) : list Z := map re_id tbl.

Lemma id_at_ids tbl s : (s < length tbl)%nat -> ids tbl !! s = Some (id_at tbl s).
Proof.
  intros Hs. unfold ids, id_at. rewrite list_lookup_fmap.
  destruct (lookup_lt_is_Some_2 tbl s Hs) as [e ->]. done.
Qed.

(** Without room for [id], the table holds 512 other ids. *)
Lemma no_room_count tbl id :
  table_inv tbl -> ~ room tbl id -> NoDup (ids tbl) /\ id ∉ ids tbl.
Proof.
  intros Hi Hn. pose proof (ti_length _ Hi) as Hl.
  assert (forall s, (s < cap)%nat -> id_at tbl s <> 0 /\ id_at tbl s <> id) as Hne.
  { intros s Hs. split; intros E; apply Hn; exists s; (split; [done|]); [by left|by right]. }
  split.
  - apply NoDup_alt. intros i j x Hx Hy.
    assert (i < length tbl)%nat as Hi' by (apply lookup_lt_Some in Hx; unfold ids in Hx; by rewrite length_map in Hx).
    assert (j < length tbl)%nat as Hj' by (apply lookup_lt_Some in Hy; unfold ids in Hy; by rewrite length_map in Hy).
    rewrite id_at_ids in Hx, Hy by done. injection Hx as Hx. injection Hy as Hy.
    apply (id_unique tbl); [done|clia|clia|apply Hne; clia|congruence].
  - intros (i&Hx)%list_elem_of_lookup.
    assert (i < length tbl)%nat as Hi' by (apply lookup_lt_Some in Hx; unfold ids in Hx; by rewrite length_map in Hx).
    rewrite id_at_ids in Hx by done. injection Hx as Hx. by apply (Hne i); [clia|].
Qed.

(** The ids in the table are among those ever used. *)
Lemma ids_insert tbl s id ptr k : k ∈ ids (<[s := mkRE id ptr]> tbl) -> k = id \/ k ∈ ids tbl.
Proof.
  unfold ids. intros (e&->&He)%list_elem_of_fmap.
  apply list_elem_of_lookup in He as (i&Hi). destruct (decide (i = s)) as [->|Hne].
  - destruct (decide (s < length tbl)%nat).
    + rewrite list_lookup_insert_eq in Hi by done. injection Hi as <-. by left.
    + rewrite list_insert_ge in Hi by lia. right. apply list_elem_of_fmap. exists e. split; [done|].
      by eapply list_elem_of_lookup_2.
  - rewrite list_lookup_insert_ne in Hi by done. right. apply list_elem_of_fmap. exists e.
    split; [done|]. by eapply list_elem_of_lookup_2.
Qed.

Lemma ids_run_op tbl o k : op_id o <> 0 -> k ∈ ids (run_op tbl o) -> k = op_id o \/ k ∈ ids tbl.
Proof.
  intros Ho. destruct o as [id ptr|id]; cbn [run_op op_id] in *.
  - rewrite registry_insert_scan. destruct (scan_id id tbl); [|by right]. apply ids_insert.
  - rewrite registry_remove_insert by done. destruct (scan_id id tbl); [|by right].
    destruct (_ =? 0); [by right|]. apply ids_insert.
Qed.

Lemma room_bound tbl id (used : gset Z) :
  table_inv tbl -> (forall k, k ∈ ids tbl -> k <> 0 -> k ∈ used) -> id ∈ used -> id <> 0 ->
  (size used <= cap)%nat -> room tbl id.
Proof.
  intros Hi Hsub Hid Hid0 Hsize. destruct (id_absent_dec id tbl) as [(s&Hs&E)|Hna].
  { exists s. split; [done|by right]. }
  destruct (id_absent_dec 0 tbl) as [(s&Hs&E)|Hn0]. { exists s. split; [done|by left]. }
  exfalso. assert (~ room tbl id) as Hn.
  { intros (s&Hs&[E|E]); [by apply (Hn0 s)|by apply (Hna s)]. }
  destruct (no_room_count tbl id Hi Hn) as [Hnd Hnin]. pose proof (ti_length _ Hi) as Hl.
  assert (list_to_set (ids tbl) ⊆ used ∖ {[id]}) as Hss.
  { intros k Hk. apply elem_of_list_to_set in Hk. apply elem_of_difference. split; [|set_solver].
    apply Hsub; [done|]. intros ->. apply list_elem_of_lookup in Hk as (i&Hx).
    assert (i < length tbl)%nat as Hi' by (apply lookup_lt_Some in Hx; unfold ids in Hx; by rewrite length_map in Hx).
    rewrite id_at_ids in Hx by done. injection Hx as Hx. by apply (Hn0 i); [clia|]. }
  apply subseteq_size in Hss. rewrite size_list_to_set in Hss by done.
  unfold ids in Hss. rewrite length_map, Hl in Hss.
  rewrite size_difference, size_singleton in Hss by set_solver.
  pose proof (subseteq_size {[id]} used ltac:(set_solver)) as Hp. rewrite size_singleton in Hp. lia.
Qed.

(** C12. The hash table implements a finite map: after any sequence of insertions
    and removals that uses at most 512 different non-zero ids, each lookup of a
    non-zero id answers what the map holds, whatever the hash collisions, and the
    probing loops never run past a slot that matters. *)
Theorem registry_refines_map (ops : list registry_op) :
  Forall (fun o => op_id o <> 0) ops ->
  (size (list_to_set (map op_id ops) : gset Z) <= cap)%nat ->
  forall id, id <> 0 ->
    registry_find id (fold_left run_op ops registry_table) = fold_left spec_op ops ∅ !! id.
Proof.
  intros Hnz Hsize.
  assert (forall (used : gset Z) tbl (m : gmap Z nat), (size used <= cap)%nat -> table_inv tbl ->
    list_to_set (map op_id ops) ⊆ used -> (forall k, k ∈ ids tbl -> k <> 0 -> k ∈ used) ->
    (forall id, id <> 0 -> registry_find id tbl = m !! id) ->
    forall id, id <> 0 -> registry_find id (fold_left run_op ops tbl) = fold_left spec_op ops m !! id) as Hgen.
  { clear Hsize. induction Hnz as [|o ops Ho _ IH]; intros used tbl m Hsz Hi Hsub Hids Hf id Hid;
      cbn [fold_left]; [by apply Hf|].
    cbn [map list_to_set] in Hsub.
    assert (op_id o ∈ used) as Hou by set_solver.
    assert (room tbl (op_id o)) as Hroom by by eapply room_bound.
    apply (IH used); auto; [|set_solver| |].
    - destruct o; [by apply registry_insert_inv|by apply registry_remove_inv].
    - intros k [->|Hk]%ids_run_op Hk0; [done|by apply Hids|done].
    - intros id' Hid'. destruct o as [i p|i]; cbn [run_op spec_op op_id] in *.
      + rewrite find_insert by done. rewrite lookup_insert, Hf by done.
        repeat case_decide; congruence.
      + rewrite find_remove by done. rewrite lookup_delete, Hf by done. repeat case_decide; congruence. }
  apply (Hgen (list_to_set (map op_id ops))); auto using empty_inv.
  - intros k Hk. unfold ids, registry_table in Hk.
    apply list_elem_of_fmap in Hk as (e&->&He). apply elem_of_replicate in He as [-> _]. done.
  - intros id Hid. rewrite lookup_empty. apply find_absent_empty.
Qed.

(** Mailboxes 1 to [n], created and destroyed one after the other. *)
Definition churn (n : nat) : list registry_op :=
  flat_map (fun i => [OpInsert (Z.of_nat i) i; OpRemove (Z.of_nat i)]) (seq 1 n).

Definition all_gone (tbl : table) : bool :=
  forallb (fun id => match registry_find id tbl with None => true | Some _ => false end)
    (map Z.of_nat (seq 1 512)).

(** Tombstones are never reclaimed: after 512 mailboxes have come and gone,
    no more than one of them alive at a time, the table is full and the next
    insertion is dropped without a sign; and id 0, whose entry looks empty, can
    be inserted but never found. *)
Theorem registry_exhausted :
  (let tbl := fold_left run_op (churn 512) registry_table in
   (forall id, 1 <= id <= 512 -> registry_find id tbl = None) /\
   registry_insert 513 (Some 9%nat) tbl = tbl /\ registry_find 513 (registry_insert 513 (Some 9%nat) tbl) = None) /\
  forall ptr, registry_find 0 (registry_insert 0 (Some ptr) registry_table) = None.
Proof.
  split; [cbv zeta; split_and!|].
  - intros id Hid.
    assert (all_gone (fold_left run_op (churn 512) registry_table) = true) as Hall
      by (vm_compute; reflexivity).
    unfold all_gone in Hall. rewrite forallb_forall in Hall.
    specialize (Hall id). cbv beta in Hall.
    destruct (registry_find id _); [|done]. exfalso. discriminate Hall.
    apply in_map_iff. exists (Z.to_nat id). split; [lia|]. apply in_seq. lia.
  - by_compute.
  - by_compute.
  - intros ptr. vm_compute. reflexivity.
Qed.

(** ** Concurrent registrations

    The table has no lock.  [registry_insert] in steps, one access to the table
    each; [Probing i] is the loop at iteration [i]. *)

Inductive insert_pc := Probing (i : Z) | Writing (slot : nat) | Inserted.

Definition insert_step (id : Z) (ptr : option nat) (pt : insert_pc * table) : insert_pc * table :=
  let '(pc, tbl) := pt in
  match pc with
  | Probing i =>
      if i <? kRegistryCapacity then
        let slot := probe (registry_hash id) i in
        if (id_at tbl slot =? 0) || (id_at tbl slot =? id) then (Writing slot, tbl)
        else (Probing (i + 1), tbl)
      else (Inserted, tbl)
  | Writing slot => (Inserted, <[slot := mkRE id ptr]> tbl)
  | Inserted => (Inserted, tbl)
  end.

Definition insert_steps (n : nat) (id : Z) (ptr : option nat) (pt : insert_pc * table) : insert_pc * table :=
  Nat.iter n (insert_step id ptr) pt.

Lemma insert_steps_S n id ptr pt :
  insert_steps (S n) id ptr pt = insert_steps n id ptr (insert_step id ptr pt).
Proof. apply Nat.iter_succ_r. Qed.

Lemma insert_steps_done n id ptr tbl : insert_steps n id ptr (Inserted, tbl) = (Inserted, tbl).
Proof. induction n; [done|]. by rewrite insert_steps_S. Qed.

(** Alone, the steps are [registry_insert]. *)
Lemma insert_alone_loop n i id ptr tbl :
  i + Z.of_nat n = kRegistryCapacity ->
  insert_steps (2 + n) id ptr (Probing i, tbl) = (Inserted, insert_loop n (registry_hash id) i id ptr tbl).
Proof.
  revert i. induction n as [|n IH]; intros i Hi.
  - change (2 + 0)%nat with 2%nat. rewrite insert_steps_S. cbn [insert_step].
    destruct (Z.ltb_spec i kRegistryCapacity); [lia|].
    apply insert_steps_done.
  - change (2 + S n)%nat with (S (2 + n)). rewrite insert_steps_S. cbn [insert_step insert_loop].
    destruct (Z.ltb_spec i kRegistryCapacity); [|lia]. destruct (_ || _).
    + change (2 + n)%nat with (S (S n)). rewrite insert_steps_S. apply insert_steps_done.
    + apply IH. lia.
Qed.

Lemma insert_alone id ptr tbl :
  insert_steps (2 + cap) id ptr (Probing 0, tbl) = (Inserted, registry_insert id ptr tbl).
Proof.
  unfold registry_insert. apply (insert_alone_loop cap 0 id ptr tbl). vm_compute. reflexivity.
Qed.

(** Two threads register mailboxes whose ids have the same hash: both find the
    same slot free, both write it, and one mailbox cannot be found. *)
Lemma insert_race_loses :
  let a := 16777246 in   (* 0x0100001e *)
  let b := 16777479 in   (* 0x01000107 *)
  let '(pa, t1) := insert_steps 1 a (Some 1%nat) (Probing 0, registry_table) in
  let '(pb, t2) := insert_steps 2 b (Some 2%nat) (Probing 0, t1) in
  let '(pa', t3) := insert_steps 1 a (Some 1%nat) (pa, t2) in
  pb = Inserted /\ pa' = Inserted /\ registry_find b t2 = Some 2%nat /\
  registry_find a t3 = Some 1%nat /\ registry_find b t3 = None.
Proof. vm_compute. auto 10. Qed.

Lemma registry_refines_map_witness :
  registry_find 7 (fold_left run_op [OpInsert 5 0; OpInsert 7 1; OpRemove 5] registry_table) = Some 1%nat.
Proof.
  etrans; [apply (registry_refines_map [OpInsert 5 0; OpInsert 7 1; OpRemove 5])|vm_compute; reflexivity].
  - repeat constructor; discriminate.
  - by_compute.
  - discriminate.
Defined.

End Registry.
