(* ===== verification/EvlRing.v ===== *)
(** * The slot ring of an EVL mailbox

    Models the ring of include/corerat/ipc/evl/evl_backend.hpp ([SlotMeta], the
    payload area, [find_free_slot], [find_highest_priority_slot],
    [evict_lowest], [post] and the ring read of [receive_impl]) and proves that
    it implements a bounded bag of messages from which a message of the highest
    priority is taken.

    The payload area is a list of bytes; a [memcpy] that would leave it is
    undefined behaviour and yields [None].  All ring operations run under
    [ring_mutex_], so they are atomic here. *)

From Stdlib Require Import ZArith Lia.
From stdpp Require Import base list gmap numbers.
From S2P Require Import Prelude.

#[local] Open Scope Z_scope.

Module Ring.

Definition INT8_MIN : Z := -128.
Definition INT8_MAX : Z := 127.

Record SlotMeta := mkSlot {
  sm_priority : Z;
  sm_in_use : bool;
  sm_src : Z;
  sm_size : Z
}.

Record Ring := mkRing {
  slot_meta : list SlotMeta;     (* capacity_ entries *)
  slot_data : bytes;
  slot_size : Z
}.

Definition capacity (r : Ring) : nat := length (slot_meta r).

Definition set_meta (i : nat) (m : SlotMeta) (r : Ring) : Ring :=
  mkRing (<[i := m]> (slot_meta r)) (slot_data r) (slot_size r).

(** [allocate_ring]: zeroed meta data and payload. *)
Definition allocate_ring (slots : nat) (size : Z) : Ring :=
  mkRing (replicate slots (mkSlot 0 false 0 0)) (replicate (slots * Z.to_nat size) 0) size.

(** ** Memory *)

Definition mem_write (off : nat) (bs mem : bytes) : option bytes :=
  if decide (off + length bs <= length mem)%nat
  then Some (take off mem ++ bs ++ drop (off + length bs) mem)
  else None.

Definition mem_read (off n : nat) (mem : bytes) : option bytes :=
  if decide (off + n <= length mem)%nat then Some (take n (drop off mem)) else None.

(** [slot_ptr(idx)]: a 32-bit product. *)
Definition slot_ptr (r : Ring) (i : nat) : nat := Z.to_nat (u32 (Z.of_nat i * slot_size r)).

(** ** Slot helpers

    The loops run over the meta data in order; [None] is the index -1. *)

Fixpoint find_free_loop (i : nat) (ms : list SlotMeta) : option nat :=
  match ms with
  | [] => None
  | m :: ms => if negb (sm_in_use m) then Some i else find_free_loop (S i) ms
  end.

Definition find_free_slot (r : Ring) : option nat := find_free_loop 0 (slot_meta r).

Definition has_in_use_slot (r : Ring) : bool := existsb sm_in_use (slot_meta r).

Fixpoint highest_loop (i : nat) (best : option nat) (prio : Z) (ms : list SlotMeta) : option nat :=
  match ms with
  | [] => best
  | m :: ms =>
      if sm_in_use m && (prio <? sm_priority m)
      then highest_loop (S i) (Some i) (sm_priority m) ms
      else highest_loop (S i) best prio ms
  end.

Definition find_highest_priority_slot (r : Ring) : option nat :=
  highest_loop 0 None INT8_MIN (slot_meta r).

Fixpoint lowest_loop (i : nat) (worst : option nat) (prio : Z) (ms : list SlotMeta) : option nat * Z :=
  match ms with
  | [] => (worst, prio)
  | m :: ms =>
      if sm_in_use m && (sm_priority m <? prio)
      then lowest_loop (S i) (Some i) (sm_priority m) ms
      else lowest_loop (S i) worst prio ms
  end.

Definition release (i : nat) (r : Ring) : Ring :=
  mkRing (alter (fun m => mkSlot (sm_priority m) false (sm_src m) (sm_size m)) i (slot_meta r))
    (slot_data r) (slot_size r).

Definition evict_lowest (prio_new : Z) (r : Ring) : option nat * Ring :=
  match lowest_loop 0 None INT8_MAX (slot_meta r) with
  | (Some worst, prio) => if prio <=? prio_new then (Some worst, release worst r) else (None, r)
  | (None, _) => (None, r)
  end.

(** ** post and the ring read *)

Definition post (data : bytes) (priority src : Z) (r : Ring) : option (bool * Ring) :=
  let '(idx, r) :=
    match find_free_slot r with
    | Some i => (Some i, r)
    | None => evict_lowest priority r
    end in
  match idx with
  | None => Some (false, r)
  | Some i =>
      match mem_write (slot_ptr r i) data (slot_data r) with
      | None => None
      | Some mem =>
          Some (true, mkRing (<[i := mkSlot priority true src (u32 (zlen data))]> (slot_meta r)) mem (slot_size r))
      end
  end.

Inductive ring_result :=
  | RingEmpty                                  (* would wait *)
  | RingTooBig                                 (* -EMSGSIZE *)
  | RingMessage (sm : SlotMeta) (data : bytes).

(** The read below [evl_lock_mutex]: [None] is an access outside the ring,
    [slot_meta_at(-1)] included. *)
Definition ring_read (buffer_size : Z) (r : Ring) : option (ring_result * Ring) :=
  if negb (has_in_use_slot r) then Some (RingEmpty, r)
  else
    match find_highest_priority_slot r with
    | None => None
    | Some i =>
        match slot_meta r !! i with
        | None => None
        | Some sm =>
            if buffer_size <? sm_size sm then Some (RingTooBig, r)
            else
              match mem_read (slot_ptr r i) (Z.to_nat (sm_size sm)) (slot_data r) with
              | None => None
              | Some data => Some (RingMessage sm data, release i r)
              end
        end
    end.

(** ** Memory lemmas *)

Lemma mem_write_lookup off bs mem mem' i :
  mem_write off bs mem = Some mem' ->
  mem' !! i = if decide (off <= i < off + length bs)%nat then bs !! (i - off)%nat else mem !! i.
Proof.
  unfold mem_write. case_decide as Hl; [|done]. intros [= <-].
  assert (length (take off mem) = off) as Ht by (rewrite length_take; lia).
  case_decide as Hi.
  - rewrite lookup_app_r by lia. rewrite Ht, lookup_app_l by lia. done.
  - destruct (decide (i < off)%nat).
    + rewrite lookup_app_l by lia. by rewrite lookup_take_lt by lia.
    + rewrite lookup_app_r, Ht, lookup_app_r, lookup_drop by lia. f_equal. lia.
Qed.

Lemma mem_write_length off bs mem mem' : mem_write off bs mem = Some mem' -> length mem' = length mem.
Proof.
  unfold mem_write. case_decide; [|done]. intros [= <-].
  rewrite !length_app, length_take, length_drop. lia.
Qed.

Lemma slice_lookup off n (mem : bytes) i :
  take n (drop off mem) !! i = if decide (i < n)%nat then mem !! (off + i)%nat else None.
Proof.
  case_decide.
  - rewrite lookup_take_lt by done. by rewrite lookup_drop.
  - apply lookup_take_ge. lia.
Qed.

Lemma mem_write_same off bs mem mem' :
  mem_write off bs mem = Some mem' -> take (length bs) (drop off mem') = bs.
Proof.
  intros Hw. apply list_eq. intros i. rewrite slice_lookup. case_decide.
  - rewrite (mem_write_lookup _ _ _ _ _ Hw), decide_True by lia. f_equal. lia.
  - symmetry. apply lookup_ge_None. lia.
Qed.

Lemma mem_write_other off bs mem mem' off' n :
  mem_write off bs mem = Some mem' -> (off' + n <= off \/ off + length bs <= off')%nat ->
  take n (drop off' mem') = take n (drop off' mem).
Proof.
  intros Hw Hd. apply list_eq. intros i. rewrite !slice_lookup. case_decide; [|done].
  rewrite (mem_write_lookup _ _ _ _ _ Hw), decide_False by lia. done.
Qed.

(** ** The loops *)

Lemma find_free_loop_spec i ms :
  match find_free_loop i ms with
  | Some k => exists j m, k = (i + j)%nat /\ ms !! j = Some m /\ sm_in_use m = false
  | None => Forall (fun m => sm_in_use m = true) ms
  end.
Proof.
  revert i. induction ms as [|m ms IH]; intros i; cbn; [constructor|].
  destruct (sm_in_use m) eqn:E; cbn.
  - specialize (IH (S i)). destruct (find_free_loop (S i) ms).
    + destruct IH as (j&m'&->&?&?). exists (S j), m'. split_and!; [lia|done|done].
    + by constructor.
  - exists 0%nat, m. split_and!; [lia|done|done].
Qed.

Lemma highest_loop_spec i best prio ms :
  let r := highest_loop i best prio ms in
  (r = best /\ Forall (fun m => sm_in_use m = true -> sm_priority m <= prio) ms) \/
  exists j m, r = Some (i + j)%nat /\ ms !! j = Some m /\ sm_in_use m = true /\ prio < sm_priority m /\
    Forall (fun m' => sm_in_use m' = true -> sm_priority m' <= sm_priority m) ms.
Proof.
  revert i best prio. induction ms as [|m ms IH]; intros i best prio; cbn; [by left|].
  destruct (sm_in_use m) eqn:E; cbn; [destruct (Z.ltb_spec prio (sm_priority m))|].
  - right. destruct (IH (S i) (Some i) (sm_priority m)) as [[-> Hall]|(j&m'&->&Hm'&Hu&Hp&Hall)].
    + exists 0%nat, m. rewrite Nat.add_0_r. split_and!; try done. constructor; [lia|done].
    + exists (S j), m'. rewrite Nat.add_succ_comm. split_and!; try done; [lia|]. constructor; [lia|done].
  - destruct (IH (S i) best prio) as [[-> Hall]|(j&m'&->&Hm'&Hu&Hp&Hall)].
    + left. split; [done|]. by constructor.
    + right. exists (S j), m'. rewrite Nat.add_succ_comm. split_and!; try done. constructor; [lia|done].
  - destruct (IH (S i) best prio) as [[-> Hall]|(j&m'&->&Hm'&Hu&Hp&Hall)].
    + left. split; [done|]. constructor; [congruence|done].
    + right. exists (S j), m'. rewrite Nat.add_succ_comm. split_and!; try done. constructor; [congruence|done].
Qed.

Lemma lowest_loop_spec i worst prio ms :
  let r := lowest_loop i worst prio ms in
  (r = (worst, prio) /\ Forall (fun m => sm_in_use m = true -> prio <= sm_priority m) ms) \/
  exists j m, r = (Some (i + j)%nat, sm_priority m) /\ ms !! j = Some m /\ sm_in_use m = true /\
    sm_priority m < prio /\
    Forall (fun m' => sm_in_use m' = true -> sm_priority m <= sm_priority m') ms.
Proof.
  revert i worst prio. induction ms as [|m ms IH]; intros i worst prio; cbn; [by left|].
  destruct (sm_in_use m) eqn:E; cbn; [destruct (Z.ltb_spec (sm_priority m) prio)|].
  - right. destruct (IH (S i) (Some i) (sm_priority m)) as [[-> Hall]|(j&m'&->&Hm'&Hu&Hp&Hall)].
    + exists 0%nat, m. rewrite Nat.add_0_r. split_and!; try done. constructor; [lia|done].
    + exists (S j), m'. rewrite Nat.add_succ_comm. split_and!; try done; [lia|]. constructor; [lia|done].
  - destruct (IH (S i) worst prio) as [[-> Hall]|(j&m'&->&Hm'&Hu&Hp&Hall)].
    + left. split; [done|]. by constructor.
    + right. exists (S j), m'. rewrite Nat.add_succ_comm. split_and!; try done. constructor; [lia|done].
  - destruct (IH (S i) worst prio) as [[-> Hall]|(j&m'&->&Hm'&Hu&Hp&Hall)].
    + left. split; [done|]. constructor; [congruence|done].
    + right. exists (S j), m'. rewrite Nat.add_succ_comm. split_and!; try done. constructor; [congruence|done].
Qed.

(** ** The bag of messages a ring holds *)

Record message := mkMsg { msg_priority : Z; msg_src : Z; msg_data : bytes }.

Definition slot_message (r : Ring) (i : nat) : option message :=
  match slot_meta r !! i with
  | Some m =>
      if sm_in_use m
      then Some (mkMsg (sm_priority m) (sm_src m)
             (take (Z.to_nat (sm_size m)) (drop (i * Z.to_nat (slot_size r)) (slot_data r))))
      else None
  | None => None
  end.

Definition messages (r : Ring) : list message := omap (slot_message r) (seq 0 (capacity r)).

Record ring_wf (r : Ring) : Prop := mkWf {
  wf_size : 0 <= slot_size r;
  wf_data : length (slot_data r) = (capacity r * Z.to_nat (slot_size r))%nat;
  wf_32 : Z.of_nat (capacity r) * slot_size r < 2 ^ 32;
  wf_meta : Forall (fun m => in_s 8 (sm_priority m) /\ 0 <= sm_size m <= slot_size r) (slot_meta r)
}.

Definition others (r : Ring) (i : nat) : list message :=
  omap (slot_message r) (List.filter (fun j => negb (j =? i)%nat) (seq 0 (capacity r))).

Lemma omap_split {A} (f : nat -> option A) i l :
  NoDup l -> i ∈ l ->
  omap f l ≡ₚ option_list (f i) ++ omap f (List.filter (fun j => negb (j =? i)%nat) l).
Proof.
  induction 1 as [|j l Hj Hl IH]; intros Hi; [by apply elem_of_nil in Hi|].
  cbn [List.filter]. destruct (Nat.eqb_spec j i) as [->|Hne]; cbn [negb].
  - assert (List.filter (fun j => negb (j =? i)%nat) l = l) as ->.
    { clear IH Hi Hl. induction l as [|k l IH]; [done|]. cbn [List.filter].
      rewrite not_elem_of_cons in Hj. destruct Hj as [Hk Hj].
      destruct (Nat.eqb_spec k i); [congruence|]. cbn. by rewrite IH. }
    cbn. by destruct (f i).
  - assert (i ∈ l) as Hi' by (apply elem_of_cons in Hi as [|]; [congruence|done]).
    cbn. destruct (f j); [|by apply IH]. rewrite (IH Hi').
    by rewrite Permutation_middle.
Qed.

Lemma messages_split r i :
  (i < capacity r)%nat -> messages r ≡ₚ option_list (slot_message r i) ++ others r i.
Proof.
  intros Hi. apply omap_split; [apply NoDup_seq|]. apply elem_of_seq. lia.
Qed.

Lemma others_ext r r' i :
  capacity r' = capacity r -> (forall j, (j < capacity r)%nat -> j <> i -> slot_message r' j = slot_message r j) ->
  others r' i = others r i.
Proof.
  intros Hc He. unfold others. rewrite Hc. assert (forall l, Forall (fun j => (j < capacity r)%nat) l ->
    omap (slot_message r') (List.filter (fun j => negb (j =? i)%nat) l)
    = omap (slot_message r) (List.filter (fun j => negb (j =? i)%nat) l)) as Hl.
  { induction 1 as [|j l Hj _ IH]; [done|]. cbn [List.filter].
    destruct (Nat.eqb_spec j i); cbn [negb]; [done|]. cbn. rewrite He by done.
    destruct (slot_message r j); by rewrite ?IH. }
  apply Hl. apply Forall_forall. intros j Hj. apply list_elem_of_In, elem_of_seq in Hj. lia.
Qed.

Lemma slot_ptr_wf r i : ring_wf r -> (i < capacity r)%nat -> slot_ptr r i = (i * Z.to_nat (slot_size r))%nat.
Proof.
  intros [Hs Hd H32 _] Hi. unfold slot_ptr. rewrite wrapu_id by (unfold in_u; nia). nia.
Qed.

Lemma lookup_meta r i m : slot_meta r !! i = Some m -> (i < capacity r)%nat.
Proof. apply lookup_lt_Some. Qed.

Lemma message_in r i m :
  slot_meta r !! i = Some m -> sm_in_use m = true ->
  exists msg, slot_message r i = Some msg /\ msg_priority msg = sm_priority m /\ msg_src msg = sm_src m.
Proof. intros Hm Hu. unfold slot_message. rewrite Hm, Hu. eauto. Qed.

(** A bound on the used slots is a bound on the messages. *)
Lemma messages_forall r (P : Z -> Prop) :
  Forall (fun m => sm_in_use m = true -> P (sm_priority m)) (slot_meta r) ->
  Forall (fun msg => P (msg_priority msg)) (messages r).
Proof.
  intros Hall. unfold messages. apply Forall_forall. intros msg Hin.
  apply list_elem_of_In, list_elem_of_omap in Hin as (i&_&Hm). unfold slot_message in Hm.
  destruct (slot_meta r !! i) as [m|] eqn:E; [|done]. destruct (sm_in_use m) eqn:Hu; [|done].
  injection Hm as <-. cbn. rewrite Forall_lookup in Hall. by apply (Hall i).
Qed.

Lemma release_lookup i j r :
  slot_meta (release i r) !! j
  = if decide (i = j) then (fun m => mkSlot (sm_priority m) false (sm_src m) (sm_size m)) <$> slot_meta r !! j
    else slot_meta r !! j.
Proof.
  cbn. case_decide; subst; [by rewrite list_lookup_alter_eq|by rewrite list_lookup_alter_ne].
Qed.

Lemma release_capacity i r : capacity (release i r) = capacity r.
Proof. unfold capacity. cbn. apply length_alter. Qed.

Lemma release_message_ne i j r : i <> j -> slot_message (release i r) j = slot_message r j.
Proof. intros. unfold slot_message. rewrite release_lookup, decide_False by done. done. Qed.

Lemma release_messages i r msg :
  slot_message r i = Some msg -> messages r ≡ₚ msg :: messages (release i r).
Proof.
  intros Hm. assert (i < capacity r)%nat as Hi.
  { unfold slot_message in Hm. destruct (slot_meta r !! i) eqn:E; [|done]. by eapply lookup_meta. }
  rewrite (messages_split r i Hi), Hm.
  rewrite (messages_split (release i r) i) by by rewrite release_capacity.
  assert (slot_message (release i r) i = None) as ->.
  { unfold slot_message. rewrite release_lookup, decide_True by done. by destruct (slot_meta r !! i). }
  rewrite (others_ext r (release i r)); [done|apply release_capacity|].
  intros j _ Hne. by apply release_message_ne.
Qed.

Lemma release_wf i r : ring_wf r -> ring_wf (release i r).
Proof.
  intros [Hs Hd H32 Hm]. split; rewrite ?release_capacity; [done..|].
  rewrite Forall_lookup in *. intros j m. rewrite release_lookup. case_decide; [|apply Hm].
  destruct (slot_meta r !! j) as [m'|] eqn:E; [|done]. cbn. intros [= <-]. exact (Hm j m' E).
Qed.

(** Writing a message into a slot that is not in use. *)
Lemma fill_slot r i m data priority src :
  ring_wf r -> slot_meta r !! i = Some m -> sm_in_use m = false ->
  zlen data <= slot_size r -> in_s 8 priority ->
  exists mem, mem_write (slot_ptr r i) data (slot_data r) = Some mem /\
    let r' := mkRing (<[i := mkSlot priority true src (u32 (zlen data))]> (slot_meta r)) mem (slot_size r) in
    ring_wf r' /\ capacity r' = capacity r /\ messages r' ≡ₚ mkMsg priority src data :: messages r.
Proof.
  intros Hwf Hm Hu Hlen Hp. pose proof Hwf as [Hs Hd H32 Hmeta]. pose proof (lookup_meta _ _ _ Hm) as Hi.
  rewrite (slot_ptr_wf r i Hwf Hi). set (off := (i * Z.to_nat (slot_size r))%nat).
  pose proof (zlen_nonneg data) as Hnn.
  assert (length data <= Z.to_nat (slot_size r))%nat as Hln by (unfold zlen in *; lia).
  assert (off + length data <= length (slot_data r))%nat as Hfit by (rewrite Hd; unfold off; nia).
  destruct (mem_write off data (slot_data r)) as [mem|] eqn:Hw;
    [|exfalso; unfold mem_write in Hw; case_decide; [discriminate Hw|lia]]. exists mem. split; [done|].
  set (m' := mkSlot priority true src (u32 (zlen data))). set (r' := mkRing _ mem (slot_size r)).
  assert (u32 (zlen data) = zlen data) as Hu32 by (apply wrapu_id; unfold in_u; nia).
  assert (capacity r' = capacity r) as Hc by (unfold capacity, r'; cbn; by rewrite length_insert).
  assert (slot_message r' i = Some (mkMsg priority src data)) as Hmsg.
  { unfold slot_message, r'. cbn. rewrite list_lookup_insert_eq by done. cbn. rewrite Hu32.
    unfold zlen. rewrite Nat2Z.id. fold off. by rewrite (mem_write_same _ _ _ _ Hw). }
  split_and!; [|done|].
  - split; rewrite ?Hc; cbn [slot_size slot_data slot_meta r']; [done| |done|].
    + by rewrite (mem_write_length _ _ _ _ Hw).
    + apply Forall_insert; [done|]. cbn. rewrite Hu32. done.
  - rewrite (messages_split r' i) by by rewrite Hc.
    rewrite Hmsg, (messages_split r i) by done.
    assert (slot_message r i = None) as -> by (unfold slot_message; by rewrite Hm, Hu).
    rewrite (others_ext r r'); [done|done|]. intros j Hj Hne. unfold slot_message, r'. cbn.
    rewrite list_lookup_insert_ne by done. destruct (slot_meta r !! j) as [mj|] eqn:Ej; [|done].
    destruct (sm_in_use mj); [|done]. do 2 f_equal. apply (mem_write_other off data _ _ _ _ Hw).
    rewrite Forall_lookup in Hmeta. destruct (Hmeta j mj Ej) as [_ Hsz]. unfold off.
    destruct (decide (j < i)%nat); [left|right]; nia.
Qed.

Lemma length_messages r : (length (messages r) <= capacity r)%nat.
Proof.
  unfold messages. assert (forall l, (length (omap (slot_message r) l) <= length l)%nat) as H.
  { induction l as [|i l IH]; [done|]. cbn. destruct (slot_message r i); cbn; lia. }
  specialize (H (seq 0 (capacity r))). by rewrite length_seq in H.
Qed.

Lemma all_used_length r :
  Forall (fun m => sm_in_use m = true) (slot_meta r) -> length (messages r) = capacity r.
Proof.
  intros Hall. unfold messages.
  assert (forall l, Forall (fun i => (i < capacity r)%nat) l ->
    length (omap (slot_message r) l) = length l) as H.
  { induction 1 as [|i l Hi _ IH]; [done|]. cbn.
    destruct (lookup_lt_is_Some_2 (slot_meta r) i Hi) as [m Hm].
    destruct (message_in r i m Hm) as (msg&->&_); [by rewrite Forall_lookup in Hall; apply (Hall i)|].
    cbn. by rewrite IH. }
  rewrite H, length_seq; [done|]. apply Forall_forall. intros j Hj.
  apply list_elem_of_In, elem_of_seq in Hj. lia.
Qed.

(** The outcomes of [post] on the bag. *)
Inductive posted (cap : nat) (new : message) (ms : list message) : bool -> list message -> Prop :=
  | posted_free ms' :
      (length ms < cap)%nat -> ms' ≡ₚ new :: ms -> posted cap new ms true ms'
  | posted_evicting victim rest ms' :
      length ms = cap -> ms ≡ₚ victim :: rest ->
      Forall (fun m => msg_priority victim <= msg_priority m) ms ->
      msg_priority victim < INT8_MAX -> msg_priority victim <= msg_priority new ->
      ms' ≡ₚ new :: rest -> posted cap new ms true ms'
  | posted_refused :
      length ms = cap ->
      (Forall (fun m => msg_priority new < msg_priority m) ms \/
       Forall (fun m => msg_priority m = INT8_MAX) ms) ->
      posted cap new ms false ms.

Lemma post_free data priority src r i m :
  ring_wf r -> slot_meta r !! i = Some m -> sm_in_use m = false ->
  zlen data <= slot_size r -> in_s 8 priority ->
  exists r', match mem_write (slot_ptr r i) data (slot_data r) with
      | None => None
      | Some mem =>
          Some (true, mkRing (<[i := mkSlot priority true src (u32 (zlen data))]> (slot_meta r)) mem (slot_size r))
      end = Some (true, r') /\
    ring_wf r' /\ capacity r' = capacity r /\ messages r' ≡ₚ mkMsg priority src data :: messages r.
Proof.
  intros Hwf Hm Hu Hl Hp. destruct (fill_slot r i m data priority src) as (mem&->&H); auto.
  eexists. split; [done|]. exact H.
Qed.

Lemma post_outcome data priority src r :
  ring_wf r -> zlen data <= slot_size r -> in_s 8 priority ->
  exists ok r', post data priority src r = Some (ok, r') /\ ring_wf r' /\ capacity r' = capacity r /\
    posted (capacity r) (mkMsg priority src data) (messages r) ok (messages r').
Proof.
  intros Hwf Hl Hp. unfold post, find_free_slot.
  pose proof (find_free_loop_spec 0 (slot_meta r)) as Hfree.
  destruct (find_free_loop 0 (slot_meta r)) as [k|].
  - destruct Hfree as (j&m&->&Hm&Hu). cbn [Nat.add].
    destruct (post_free data priority src r j m) as (r'&E&Hwf'&Hc&Hms); auto.
    exists true, r'. split_and!; auto. apply posted_free; [|done].
    pose proof (length_messages r') as Hlen. rewrite Hms, Hc in Hlen. cbn in Hlen. lia.
  - unfold evict_lowest. pose proof (all_used_length r Hfree) as Hlen.
    destruct (lowest_loop_spec 0 None INT8_MAX (slot_meta r)) as [[E Hall]|(j&m&E&Hm&Hu&Hlt&Hall)]; rewrite E.
    + exists false, r. split_and!; auto. apply posted_refused; [done|]. right.
      apply (messages_forall r (fun p => p = INT8_MAX)). destruct Hwf as [_ _ _ Hmeta].
      rewrite Forall_lookup in *. intros i mi Hi Hui. specialize (Hall i mi Hi Hui).
      destruct (Hmeta i mi Hi) as [Hr _]. unfold in_s, INT8_MAX in *. lia.
    + cbn [Nat.add]. destruct (message_in r j m Hm Hu) as (victim&Hv&Hvp&_).
      assert (Forall (fun msg => sm_priority m <= msg_priority msg) (messages r)) as Hmin
        by by apply (messages_forall r (fun p => sm_priority m <= p)).
      destruct (Z.leb_spec (sm_priority m) priority).
      * destruct (post_free data priority src (release j r) j
          (mkSlot (sm_priority m) false (sm_src m) (sm_size m))) as (r'&E'&Hwf'&Hc&Hms);
          auto using release_wf; [by rewrite release_lookup, decide_True, Hm by done|].
        exists true, r'. rewrite release_capacity in Hc. split_and!; auto.
        eapply posted_evicting; rewrite ?Hvp; [done|by apply release_messages|done|done|done|done].
      * exists false, r. split_and!; auto. apply posted_refused; [done|]. left. cbn.
        eapply List.Forall_impl; [|exact Hmin]. cbn. lia.
Qed.

(** C14. [post] implements the insertion into a bounded bag of messages: with a
    free slot the message is added; on a full ring it replaces a message of the
    lowest priority if that is not higher than its own and below 127, and is
    refused otherwise.  No other message is changed, moved or lost, the ring stays
    well formed and no access leaves it, for data that fits a slot. *)
Theorem post_refines data priority src r :
  ring_wf r -> zlen data <= slot_size r -> in_s 8 priority ->
  exists ok r', post data priority src r = Some (ok, r') /\ ring_wf r' /\ capacity r' = capacity r /\
    posted (capacity r) (mkMsg priority src data) (messages r) ok (messages r').
Proof. apply post_outcome. Qed.

(** The outcomes of the read on the bag. *)
Inductive taken (buffer_size : Z) (ms : list message) : ring_result -> list message -> Prop :=
  | taken_none : ms = [] -> taken buffer_size ms RingEmpty ms
  | taken_too_big msg rest :
      ms ≡ₚ msg :: rest -> Forall (fun m => msg_priority m <= msg_priority msg) ms ->
      buffer_size < zlen (msg_data msg) -> taken buffer_size ms RingTooBig ms
  | taken_message msg sm ms' :
      ms ≡ₚ msg :: ms' -> Forall (fun m => msg_priority m <= msg_priority msg) ms ->
      zlen (msg_data msg) <= buffer_size ->
      sm_priority sm = msg_priority msg -> sm_src sm = msg_src msg ->
      taken buffer_size ms (RingMessage sm (msg_data msg)) ms'.

Lemma no_used_messages r : has_in_use_slot r = false -> messages r = [].
Proof.
  unfold has_in_use_slot. intros He.
  assert (forall i, slot_message r i = None) as Hn.
  { intros i. unfold slot_message. destruct (slot_meta r !! i) as [m|] eqn:Hm; [|done].
    destruct (sm_in_use m) eqn:Hu; [|done]. exfalso.
    assert (existsb sm_in_use (slot_meta r) = true); [|congruence].
    apply existsb_exists. exists m. split; [|done]. apply list_elem_of_In. by eapply list_elem_of_lookup_2. }
  unfold messages. induction (seq 0 (capacity r)) as [|i l IH]; [done|]. cbn. by rewrite Hn.
Qed.

Lemma slot_data_length r i m :
  ring_wf r -> slot_meta r !! i = Some m ->
  mem_read (slot_ptr r i) (Z.to_nat (sm_size m)) (slot_data r)
  = Some (take (Z.to_nat (sm_size m)) (drop (i * Z.to_nat (slot_size r)) (slot_data r))) /\
  length (take (Z.to_nat (sm_size m)) (drop (i * Z.to_nat (slot_size r)) (slot_data r))) = Z.to_nat (sm_size m).
Proof.
  intros Hwf Hm. pose proof (lookup_meta _ _ _ Hm) as Hi. rewrite (slot_ptr_wf r i Hwf Hi).
  destruct Hwf as [Hs Hd _ Hmeta]. rewrite Forall_lookup in Hmeta. destruct (Hmeta i m Hm) as [_ Hsz].
  assert (i * Z.to_nat (slot_size r) + Z.to_nat (sm_size m) <= length (slot_data r))%nat as Hle
    by (rewrite Hd; nia).
  unfold mem_read. rewrite decide_True by done. split; [done|].
  rewrite length_take, length_drop. lia.
Qed.

Lemma ring_read_outcome buffer_size r :
  ring_wf r ->
  (messages r = [] \/ exists m, m ∈ messages r /\ INT8_MIN < msg_priority m) ->
  exists res r', ring_read buffer_size r = Some (res, r') /\ ring_wf r' /\ capacity r' = capacity r /\
    taken buffer_size (messages r) res (messages r').
Proof.
  intros Hwf Hprio. unfold ring_read. destruct (has_in_use_slot r) eqn:Hu; cbn [negb].
  2:{ exists RingEmpty, r. split_and!; auto. apply taken_none. by apply no_used_messages. }
  unfold find_highest_priority_slot.
  destruct (highest_loop_spec 0 None INT8_MIN (slot_meta r)) as [[-> Hall]|(j&m&->&Hm&Hum&_&Hall)].
  { exfalso. pose proof (messages_forall r (fun p => p <= INT8_MIN) Hall) as Hms.
    destruct Hprio as [E|(m&Hin&Hp)].
    - unfold has_in_use_slot in Hu. apply existsb_exists in Hu as (m&Hin&Hum).
      apply list_elem_of_In, list_elem_of_lookup in Hin as [i Hi].
      destruct (message_in r i m Hi Hum) as (msg&Hmsg&_). apply release_messages in Hmsg.
      rewrite E in Hmsg. by apply Permutation_nil_cons in Hmsg.
    - apply list_elem_of_In in Hin. rewrite List.Forall_forall in Hms. specialize (Hms m Hin). cbn in Hms. lia. }
  cbn [Nat.add]. rewrite Hm. destruct (message_in r j m Hm Hum) as (msg&Hmsg&Hmp&Hmsrc).
  pose proof (messages_forall r (fun p => p <= sm_priority m) Hall) as Hmax. rewrite <- Hmp in Hmax.
  destruct (slot_data_length r j m Hwf Hm) as [Hrd Hdl].
  assert (msg_data msg = take (Z.to_nat (sm_size m)) (drop (j * Z.to_nat (slot_size r)) (slot_data r))) as Hdata.
  { unfold slot_message in Hmsg. rewrite Hm, Hum in Hmsg. by injection Hmsg as <-. }
  assert (zlen (msg_data msg) = sm_size m) as Hz.
  { unfold zlen. rewrite Hdata, Hdl. destruct Hwf as [_ _ _ Hmeta]. rewrite Forall_lookup in Hmeta.
    destruct (Hmeta j m Hm). lia. }
  destruct (Z.ltb_spec buffer_size (sm_size m)).
  - exists RingTooBig, r. split_and!; auto. eapply taken_too_big; [by apply release_messages|done|lia].
  - rewrite Hrd, <- Hdata. exists (RingMessage m (msg_data msg)), (release j r).
    split_and!; auto using release_wf, release_capacity.
    apply taken_message; auto; [by apply release_messages|lia].
Qed.

Lemma ring_read_message_size buffer_size r sm data r' :
  ring_wf r -> ring_read buffer_size r = Some (RingMessage sm data, r') -> sm_size sm = zlen data.
Proof.
  intros Hwf. unfold ring_read. destruct (has_in_use_slot r); [|done]. cbn [negb].
  destruct (find_highest_priority_slot r) as [i|]; [|done].
  destruct (slot_meta r !! i) as [m|] eqn:Hm; [|done]. destruct (_ <? _); [done|].
  destruct (slot_data_length r i m Hwf Hm) as [-> Hl]. intros [= <- <- _].
  unfold zlen. rewrite Hl. destruct Hwf as [_ _ _ Hmeta]. rewrite Forall_lookup in Hmeta.
  destruct (Hmeta i m Hm). lia.
Qed.

(** A ring that holds no message takes one, and a ring that holds one gives it. *)
Lemma post_empty data priority src r :
  ring_wf r -> messages r = [] -> (0 < capacity r)%nat -> in_s 8 priority -> zlen data <= slot_size r ->
  exists r', post data priority src r = Some (true, r') /\ ring_wf r' /\
    messages r' = [mkMsg priority src data].
Proof.
  intros Hwf Hm Hcap Hp Hfit. destruct (post_outcome data priority src r Hwf Hfit Hp) as (ok&r'&E&Hwf'&_&Hpost).
  exists r'. rewrite Hm in Hpost. inversion Hpost as [ms' _ Hms| |Hl Hor Heq]; subst; cbn in *; try lia.
  split_and!; [done..|]. symmetry in Hms. by apply Permutation_singleton_l in Hms.
Qed.

Lemma ring_read_single buffer_size r msg :
  ring_wf r -> messages r = [msg] -> INT8_MIN < msg_priority msg -> zlen (msg_data msg) <= buffer_size ->
  exists sm r', ring_read buffer_size r = Some (RingMessage sm (msg_data msg), r') /\ ring_wf r' /\
    messages r' = [] /\ sm_size sm = zlen (msg_data msg) /\ sm_src sm = msg_src msg.
Proof.
  intros Hwf Hm Hp Hbuf. destruct (ring_read_outcome buffer_size r Hwf) as (res&r'&E&Hwf'&_&Ht).
  { right. exists msg. rewrite Hm. split; [left|done]. }
  rewrite Hm in Ht. inversion Ht as [E'|msg' rest Hperm _ Hbig|msg' sm ms' Hperm _ Hsz Hsp Hss]; subst; [done| |].
  - symmetry in Hperm. apply Permutation_singleton_r in Hperm. injection Hperm as -> ->. lia.
  - symmetry in Hperm. apply Permutation_singleton_r in Hperm. injection Hperm as -> Hr'.
    exists sm, r'. split_and!; [done|done|done| |done]. exact (ring_read_message_size _ _ _ _ _ Hwf E).
Qed.

(** C15. The ring read implements taking a message of the highest priority from
    the bag: it waits exactly when the bag is empty, leaves a message that is too
    large for the buffer in place, and otherwise removes that one message and
    returns its bytes, source and priority unchanged.  It needs a message above
    priority -128. *)
Theorem ring_read_refines buffer_size r :
  ring_wf r ->
  (messages r = [] \/ exists m, m ∈ messages r /\ INT8_MIN < msg_priority m) ->
  exists res r', ring_read buffer_size r = Some (res, r') /\ ring_wf r' /\ capacity r' = capacity r /\
    taken buffer_size (messages r) res (messages r').
Proof. apply ring_read_outcome. Qed.

(** ** Limits of the ring *)

Definition ring3 : Ring :=
  mkRing [mkSlot 5 false 0 0; mkSlot 4 true 70 4; mkSlot 0 false 0 0] [0; 0; 0; 0; 1; 2; 3; 4; 0; 0; 0; 0] 4.

(** What [post] and the read do not check: data larger than a slot of the
    receiving ring overwrites the message in the next slot, or leaves the ring
    when it goes into the last one; and if every waiting message has priority
    -128, which [send_priority] 128 becomes in an int8_t, the read indexes slot -1.  *)
Theorem ring_unchecked_inputs :
  ring_wf ring3 /\ messages ring3 = [mkMsg 4 70 [1; 2; 3; 4]] /\
  (exists r', post [9; 9; 9; 9; 9; 9] 5 71 ring3 = Some (true, r') /\
     messages r' = [mkMsg 5 71 [9; 9; 9; 9; 9; 9]; mkMsg 4 70 [9; 9; 3; 4]]) /\
  post [9; 9; 9; 9; 9] 5 71 (mkRing [mkSlot 0 false 0 0] [0; 0; 0; 0] 4) = None /\
  s8 128 = INT8_MIN /\
  exists r', post [1] (s8 128) 70 (allocate_ring 2 4) = Some (true, r') /\ ring_wf r' /\
    ring_read 4 r' = None.
Proof.
  split_and!.
  - split; [done|done|done|]. by_compute.
  - vm_compute. reflexivity.
  - eexists. split; vm_compute; reflexivity.
  - vm_compute. reflexivity.
  - vm_compute. reflexivity.
  - eexists. split_and!; [vm_compute; reflexivity| |vm_compute; reflexivity].
    split; [done|done|done|]. by_compute.
Qed.

(** ** Witnesses *)

Lemma ring3_wf : ring_wf ring3.
Proof. split; [done|done|done|]. by_compute. Qed.

Lemma post_refines_witness :
  exists ok r', post [7; 8] 3 71 ring3 = Some (ok, r') /\ ring_wf r'.
Proof.
  destruct (post_refines [7; 8] 3 71 ring3) as (ok&r'&E&Hwf&_).
  - exact ring3_wf.
  - by_compute.
  - by_compute.
  - exists ok, r'. split; [exact E|exact Hwf].
Defined.

Lemma ring_read_refines_witness :
  exists res r', ring_read 64 ring3 = Some (res, r') /\ taken 64 (messages ring3) res (messages r').
Proof.
  destruct (ring_read_refines 64 ring3) as (res&r'&E&_&_&Ht).
  - exact ring3_wf.
  - right. exists (mkMsg 4 70 [1; 2; 3; 4]). split; [vm_compute; left|by_compute].
  - exists res, r'. split; [exact E|exact Ht].
Defined.

End Ring.
