(* ===== verification/EvlMailbox.v ===== *)
(** * EvlMailbox: mailboxes of one process

    Models the class [EvlMailbox] of include/corerat/ipc/evl/evl_backend.hpp on
    top of its registry (EvlRegistry.v) and ring (EvlRing.v): the lifecycle,
    [send_raw] and [receive_impl] of the three modes as far as they stay in the
    process, and the routing of [Mode::Network].

    A process is a heap of mailbox objects and the registry table that the
    static functions share.  Answers of the kernel are arguments: whether the
    EVL objects or the socket could be created, what a wait returned, which
    datagram arrived.  In [Mode::Public] the ring of another process is a
    [Ring] in shared memory, reached through a cached handle (EvlRemote.v). *)

From Stdlib Require Import ZArith Lia.
From stdpp Require Import base list gmap sets numbers.
From S2P Require Import Prelude IpcTypes EvlRegistry EvlRing.

#[local] Open Scope Z_scope.

Import Registry Ring.

Module EvlBox.

(** ** EvlNetworkConfig *)

Definition kOobBasePort : Z := 42000.
Definition kMaxRoutes : Z := 8.

Record Route := mkRoute { rt_system_id : Z; rt_ip : bytes }.

Record EvlNetworkConfig := mkNet {
  local_system_id : Z;
  routes : list Route;          (* std::array<Route, 8> *)
  route_count : Z
}.

Definition port_for (mailbox_id : Z) : Z := u16 (kOobBasePort + Z.land mailbox_id 32767).

Definition system_id_of (mailbox_id : Z) : Z := u8 (Z.land (Z.shiftr mailbox_id 24) 255).

Record NetworkRouteEntry := mkNR { nr_system_id : Z; nr_ip_addr : Z; nr_valid : bool }.

(** ** The object *)

Inductive Mode := Local | Public | Network.

#[export] Instance Mode_eq_dec : EqDecision Mode.
Proof. solve_decision. Defined.

Record EvlMailbox := mkBox {
  b_config : IpcConfig;
  b_mode : Mode;
  b_created : bool;
  b_sent : Z;
  b_received : Z;
  b_ring : option Ring;              (* slot_meta_ / heap_data_; None: no storage *)
  b_oob_sock : Z;
  b_net_config : EvlNetworkConfig;
  b_net_routes : list NetworkRouteEntry
}.

Definition empty_routes : list NetworkRouteEntry := replicate (Z.to_nat kMaxRoutes) (mkNR 0 0 false).

Definition new_box (config : IpcConfig) (mode : Mode) (net : EvlNetworkConfig) : EvlMailbox :=
  mkBox config mode false 0 0 None (-1) net empty_routes.

Definition box_id (b : EvlMailbox) : Z := cfg_mailbox_id (b_config b).

Definition set_created (c : bool) (b : EvlMailbox) : EvlMailbox :=
  mkBox (b_config b) (b_mode b) c (b_sent b) (b_received b) (b_ring b) (b_oob_sock b)
    (b_net_config b) (b_net_routes b).
Definition set_ring (r : option Ring) (b : EvlMailbox) : EvlMailbox :=
  mkBox (b_config b) (b_mode b) (b_created b) (b_sent b) (b_received b) r (b_oob_sock b)
    (b_net_config b) (b_net_routes b).
Definition set_sock (s : Z) (rs : list NetworkRouteEntry) (b : EvlMailbox) : EvlMailbox :=
  mkBox (b_config b) (b_mode b) (b_created b) (b_sent b) (b_received b) (b_ring b) s
    (b_net_config b) rs.
Definition count_sent (b : EvlMailbox) : EvlMailbox :=
  mkBox (b_config b) (b_mode b) (b_created b) (u64 (b_sent b + 1)) (b_received b) (b_ring b)
    (b_oob_sock b) (b_net_config b) (b_net_routes b).
Definition count_received (b : EvlMailbox) : EvlMailbox :=
  mkBox (b_config b) (b_mode b) (b_created b) (b_sent b) (u64 (b_received b + 1)) (b_ring b)
    (b_oob_sock b) (b_net_config b) (b_net_routes b).

Record Process := mkProc {
  p_boxes : gmap nat EvlMailbox;
  p_table : table
}.

Definition update_box (p : nat) (f : EvlMailbox -> EvlMailbox) (w : Process) : Process :=
  mkProc (alter f p (p_boxes w)) (p_table w).

(** ** Mode::Network: route table and datagrams *)

Section network.
Context (inet_pton : bytes -> option Z).

(** The loop over [net_config_.routes]: an address that does not parse leaves
    its entry as it was. *)
Fixpoint fill_routes (n : nat) (rs : list Route) (es : list NetworkRouteEntry) : list NetworkRouteEntry :=
  match n, rs, es with
  | S n, r :: rs, e :: es =>
      match inet_pton (rt_ip r) with
      | Some a => mkNR (rt_system_id r) a true
      | None => e
      end :: fill_routes n rs es
  | _, _, _ => es
  end.

(** [create_oob_socket]: [sock] is the descriptor of a bound socket, if both
    [socket] and [bind] succeed. *)
Definition create_oob_socket (sock : option Z) (b : EvlMailbox) : bool * EvlMailbox :=
  match sock with
  | None => (false, set_sock (-1) (b_net_routes b) b)
  | Some fd =>
      let count := Z.min (route_count (b_net_config b)) kMaxRoutes in
      (true, set_sock fd (fill_routes (Z.to_nat count) (routes (b_net_config b)) (b_net_routes b)) b)
  end.

(** The first valid entry for the system id of [dest]. *)
Definition find_route (dest : Z) (rs : list NetworkRouteEntry) : option NetworkRouteEntry :=
  List.find (fun r => nr_valid r && (nr_system_id r =? system_id_of dest)) rs.

(** [send_oob_udp]: the address and port a datagram goes to, and the result;
    [sendmsg] is the kernel's answer. *)
Definition send_oob_udp (dest : Z) (sendmsg : Z) (b : EvlMailbox)
    : IpcResult * option (Z * Z) * EvlMailbox :=
  match find_route dest (b_net_routes b) with
  | None => (ERROR_SEND, None, b)
  | Some r =>
      let addr := (nr_ip_addr r, port_for dest) in
      if sendmsg <? 0 then (ERROR_SEND, Some addr, b) else (SUCCESS, Some addr, count_sent b)
  end.

(** [receive_oob_udp]: [ret] and [data] are what [oob_recvmsg] returned. *)
Definition receive_oob_udp (ret : Z) (data : bytes) (b : EvlMailbox)
    : Z * option TimsMetadata * EvlMailbox :=
  if ret <=? 0 then (ret, None, b)
  else
    let hdr := if sizeof_WireHeader <=? ret then data else replicate 32 0 in
    (ret, Some (mkMeta (wire_src hdr) (wire_dest hdr) (wire_seq_number hdr) 0 (u8 (wire_flags hdr))),
     count_received b).

End network.

(** ** Lifecycle

    [objects_ok] tells whether the EVL objects, and in [Mode::Public] the shared
    ring (EvlRemote.v), could be created; [xbuf_ok] whether the xbuf could. *)

Definition kSlots : nat := 10.

Definition initialize (inet_pton : bytes -> option Z) (p : nat) (objects_ok xbuf_ok : bool)
    (sock : option Z) (w : Process) : IpcResult * Process :=
  match p_boxes w !! p with
  | None => (ERROR_INIT, w)
  | Some b =>
      if b_created b then (SUCCESS, w)
      else match b_mode b with
      | Network =>
          let '(ok, b) := create_oob_socket inet_pton sock b in
          if ok then (SUCCESS, mkProc (<[p := set_created true b]> (p_boxes w)) (p_table w))
          else (ERROR_INIT, mkProc (<[p := b]> (p_boxes w)) (p_table w))
      | mode =>
          let b := if decide (mode = Local)
                   then set_ring (Some (allocate_ring kSlots (u32 (cfg_max_msg_size (b_config b))))) b
                   else b in
          if negb objects_ok then (ERROR_INIT, mkProc (<[p := b]> (p_boxes w)) (p_table w))
          else
            let table :=
              if decide (mode = Local) then registry_insert (box_id b) (Some p) (p_table w)
              else p_table w in
            if decide (mode = Public /\ xbuf_ok = false)
            then (ERROR_INIT, mkProc (<[p := b]> (p_boxes w)) table)
            else (SUCCESS, mkProc (<[p := set_created true b]> (p_boxes w)) table)
      end
  end.

Definition shutdown (p : nat) (w : Process) : Process :=
  match p_boxes w !! p with
  | None => w
  | Some b =>
      if negb (b_created b) then w
      else match b_mode b with
      | Network =>
          mkProc (<[p := set_created false (set_sock (-1) (b_net_routes b) b)]> (p_boxes w)) (p_table w)
      | mode =>
          let table :=
            if decide (mode = Local /\ registry_find (box_id b) (p_table w) = Some p)
            then registry_remove (box_id b) (p_table w) else p_table w in
          mkProc (<[p := set_created false (set_ring None b)]> (p_boxes w)) table
      end
  end.

(** [~EvlMailbox]: [shutdown], then the object is gone. *)
Definition destroy (p : nat) (w : Process) : Process :=
  let w := shutdown p w in mkProc (delete p (p_boxes w)) (p_table w).

(** ** Send and receive *)

(** [target->post(...)]: [None] is undefined behaviour in the ring, or a
    pointer to a destroyed object. *)
Definition post_to (target : nat) (data : bytes) (priority src : Z) (w : Process)
    : option (bool * Process) :=
  match p_boxes w !! target ≫= b_ring with
  | None => None
  | Some r =>
      match post data priority src r with
      | None => None
      | Some (ok, r) => Some (ok, update_box target (set_ring (Some r)) w)
      end
  end.

(** The end of [send_raw]: the count, or [ERROR_SEND]. *)
Definition sent (p : nat) (r : option (bool * Process)) : option (IpcResult * Process) :=
  match r with
  | None => None
  | Some (ok, w) =>
      if (ok : bool) then Some (SUCCESS, update_box p count_sent w) else Some (ERROR_SEND, w)
  end.

(** [send_raw]; [data] is [None] for a null pointer.  [sendmsg] is the kernel's
    answer in [Mode::Network]; [remote] tells whether the path out of the process
    took the message in [Mode::Public] (the ring of another process, EvlRemote.v,
    or the xbuf). *)
Definition send_raw (p : nat) (data : option bytes) (dest priority sendmsg : Z) (remote : bool) (w : Process)
    : option (IpcResult * Process) :=
  match p_boxes w !! p, data with
  | None, _ => None
  | Some _, None => Some (ERROR_INVALID_MSG, w)
  | Some b, Some data =>
      if (zlen data =? 0) || (cfg_max_msg_size (b_config b) <? zlen data)
      then Some (ERROR_INVALID_MSG, w)
      else
        match b_mode b with
        | Network =>
            let '(res, _, b') := send_oob_udp dest sendmsg b in
            Some (res, update_box p (fun _ => b') w)
        | mode =>
            match registry_find dest (p_table w) with
            | None => if decide (mode = Public) then sent p (Some (remote, w)) else Some (ERROR_SEND, w)
            | Some target =>
                match p_boxes w !! target with
                | None => None                    (* the registry points to a destroyed object *)
                | Some t =>
                    if negb (box_id t =? dest) || negb (b_created t)
                    then if decide (mode = Public) then sent p (Some (remote, w)) else Some (ERROR_SEND, w)
                    else sent p (post_to target data priority (box_id b) w)
                end
            end
        end
  end.

(** [send<T>]: the priority of the configuration as an [int8_t]. *)
Definition send (p : nat) (data : bytes) (dest sendmsg : Z) (remote : bool) (w : Process)
    : option (IpcResult * Process) :=
  match p_boxes w !! p with
  | None => None
  | Some b =>
      if negb (b_created b) then Some (ERROR_NOT_INIT, w)
      else send_raw p (Some data) dest (s8 (cfg_priority (b_config b))) sendmsg remote w
  end.

(** The deadline of a timed wait: seconds and nanoseconds. *)
Definition abs_deadline (now_sec now_nsec timeout_ns : Z) : Z * Z :=
  let deadline := now_sec * 1000000000 + now_nsec + timeout_ns in
  (Z.quot deadline 1000000000, Z.rem deadline 1000000000).

(** The answer of [receive_impl] for what the ring gave: size, bytes, metadata. *)
Definition received (id timeout_ns wait : Z) (res : ring_result) : Z * bytes * option TimsMetadata :=
  match res with
  | RingEmpty => (if timeout_ns <? 0 then -1 else if wait =? - ETIMEDOUT then - ETIMEDOUT else wait, [], None)
  | RingTooBig => (- EMSGSIZE, [], None)
  | RingMessage sm data =>
      let hdr := if sizeof_WireHeader <=? sm_size sm then data else replicate 32 0 in
      (sm_size sm, data,
        Some (mkMeta (sm_src sm) id (wire_seq_number hdr) (u8 (sm_priority sm)) (u8 (wire_flags hdr))))
  end.

(** [receive_impl] on the ring of the object; [wait] is the negative answer of
    the wait that ends an empty-handed call (a call that is woken up again is
    another call of this function). *)
Definition receive_local (p : nat) (buffer_size timeout_ns wait : Z) (w : Process)
    : option (Z * bytes * option TimsMetadata * Process) :=
  match p_boxes w !! p with
  | None => None
  | Some b =>
      if negb (b_created b) then Some (-1, [], None, w)
      else match b_ring b with
      | None => None
      | Some r =>
          match ring_read buffer_size r with
          | None => None
          | Some (res, r) =>
              let '(ret, data, meta) := received (box_id b) timeout_ns wait res in
              Some (ret, data, meta,
                match res with
                | RingMessage _ _ => update_box p (fun b => count_received (set_ring (Some r) b)) w
                | _ => w
                end)
          end
      end
  end.

(** [receive_impl] in [Mode::Network]; [ret] and [data] are the answer of
    [oob_recvmsg]. *)
Definition receive_network (p : nat) (ret : Z) (data : bytes) (w : Process)
    : option (Z * bytes * option TimsMetadata * Process) :=
  match p_boxes w !! p with
  | None => None
  | Some b =>
      if negb (b_created b) then Some (-1, [], None, w)
      else
        let '(ret, meta, b) := receive_oob_udp ret data b in
        Some (ret, data, meta, update_box p (fun _ => b) w)
  end.

End EvlBox.
