(* ===== verification/EvlProcess.v ===== *)
(** * Runs of a process with EVL mailboxes

    The life of a process as a sequence of events on EvlMailbox.v: objects are
    created (possibly at a reused address), initialised, used, shut down and
    destroyed in any order; the shared memory of [Mode::Public] is EvlRemote.v.
    The registry never points to anything but a live, created [Mode::Local]
    mailbox of that id, and a message sent in the process is the message
    received. *)

From Stdlib Require Import ZArith Lia.
From stdpp Require Import base list gmap sets numbers.
From S2P Require Import Prelude IpcTypes EvlRegistry EvlRing EvlMailbox.

#[local] Open Scope Z_scope.

Import Registry Ring EvlBox.

Section process.
Context (inet_pton : bytes -> option Z).

Inductive proc_event :=
  | PNew (p : nat) (config : IpcConfig) (mode : Mode) (net : EvlNetworkConfig)
  | PInitialize (p : nat) (objects_ok xbuf_ok : bool) (sock : option Z)
  | PShutdown (p : nat)
  | PDestroy (p : nat)
  | PSend (p : nat) (data : bytes) (dest sendmsg : Z) (remote : bool)
  | PReceive (p : nat) (buffer_size timeout_ns wait : Z)
  | PReceiveOob (p : nat) (ret : Z) (data : bytes).

(** [None]: undefined behaviour. *)
Definition proc_step (e : proc_event) (w : Process) : option Process :=
  match e with
  | PNew p config mode net =>
      Some (match p_boxes w !! p with
            | Some _ => w
            | None => mkProc (<[p := new_box config mode net]> (p_boxes w)) (p_table w)
            end)
  | PInitialize p o x s => Some (initialize inet_pton p o x s w).2
  | PShutdown p => Some (shutdown p w)
  | PDestroy p => Some (destroy p w)
  | PSend p data dest sendmsg remote => snd <$> send p data dest sendmsg remote w
  | PReceive p size timeout wait =>
      match b_mode <$> p_boxes w !! p with
      | Some Local => snd <$> receive_local p size timeout wait w
      | _ => Some w
      end
  | PReceiveOob p ret data =>
      match b_mode <$> p_boxes w !! p with
      | Some Network => snd <$> receive_network p ret data w
      | _ => Some w
      end
  end.

Fixpoint proc_run (es : list proc_event) (w : Process) : option Process :=
  match es with
  | [] => Some w
  | e :: es => w ← proc_step e w; proc_run es w
  end.

Definition proc_initial : Process := mkProc ∅ registry_table.

Record process_inv (w : Process) : Prop := mkPI {
  pi_table : table_inv (p_table w);
  pi_live id q : registry_find id (p_table w) = Some q ->
    exists b, p_boxes w !! q = Some b /\ b_created b = true /\ b_mode b = Local /\ box_id b = id
}.

(** Events that keep the registry and, of every created local mailbox, what the
    registry relies on. *)
Lemma process_inv_keep w w' :
  p_table w' = p_table w ->
  (forall q b, p_boxes w !! q = Some b -> b_created b = true -> b_mode b = Local ->
    exists b', p_boxes w' !! q = Some b' /\ b_created b' = true /\ b_mode b' = Local /\ box_id b' = box_id b) ->
  process_inv w -> process_inv w'.
Proof.
  intros Ht Hb [Htab Hl]. split; rewrite Ht; [done|]. intros id q Hf.
  destruct (Hl id q Hf) as (b&Hq&Hc&Hm&Hid). destruct (Hb q b Hq Hc Hm) as (b'&?&?&?&?).
  exists b'. split_and!; congruence.
Qed.

Lemma update_box_keep p f w :
  (forall b, b_created (f b) = b_created b /\ b_mode (f b) = b_mode b /\ box_id (f b) = box_id b) ->
  process_inv w -> process_inv (update_box p f w).
Proof.
  intros Hf. apply process_inv_keep; [done|]. intros q b Hq Hc Hm. cbn. rewrite lookup_alter.
  case_decide; [|eauto]. subst. rewrite Hq. destruct (Hf b) as (?&?&?). exists (f b).
  split_and!; [done|congruence..].
Qed.

Lemma replace_box_keep p b b' w :
  p_boxes w !! p = Some b -> b_created b' = b_created b -> b_mode b' = b_mode b -> box_id b' = box_id b ->
  process_inv w -> process_inv (update_box p (fun _ => b') w).
Proof.
  intros Hp Ec Em Eid. apply process_inv_keep; [done|]. intros q bq Hq Hcq Hm. cbn. rewrite lookup_alter.
  case_decide; [|eauto]. subst. rewrite Hq. rewrite Hq in Hp. injection Hp as ->.
  exists b'. split_and!; [done|congruence..].
Qed.

Lemma insert_box_keep p b b' w :
  p_boxes w !! p = Some b -> b_created b = false -> process_inv w ->
  process_inv (mkProc (<[p := b']> (p_boxes w)) (p_table w)).
Proof.
  intros Hp Hc. apply process_inv_keep; [done|]. intros q bq Hq Hcq Hm. cbn.
  rewrite lookup_insert_ne; [eauto|]. intros ->. congruence.
Qed.

Lemma initialize_inv p o x s w : process_inv w -> process_inv (initialize inet_pton p o x s w).2.
Proof.
  intros Hi. unfold initialize. destruct (p_boxes w !! p) as [b|] eqn:Hp; [|done].
  destruct (b_created b) eqn:Hc; [done|]. destruct (b_mode b) eqn:Hm.
  - destruct o; cbn [negb snd]; [|by eapply insert_box_keep].
    destruct (decide (Local = Local)); [|done].
    destruct (decide (Local = Public /\ x = false)) as [[? _]|_]; [done|].
    cbn [snd]. destruct Hi as [Htab Hl]. split; cbn [p_table p_boxes]; [by apply insert_inv|].
    intros id q Hf. destruct (find_insert_cases _ _ _ _ _ Htab Hf) as [[-> [= <-]]|Hf'].
    + eexists. rewrite lookup_insert_eq. split_and!; [done|done|done|done].
    + destruct (Hl id q Hf') as (bq&Hq&Hcq&?). exists bq. rewrite lookup_insert_ne; [done|].
      intros ->. congruence.
  - destruct o; cbn [negb snd]; [|by eapply insert_box_keep].
    destruct (decide (Public = Local)); [done|].
    case_decide; by eapply insert_box_keep.
  - destruct (create_oob_socket inet_pton s b) as [[] b']; by eapply insert_box_keep.
Qed.

Lemma shutdown_inv p w :
  process_inv w -> process_inv (shutdown p w) /\
  (forall id, registry_find id (p_table (shutdown p w)) <> Some p).
Proof.
  intros Hi. pose proof Hi as [Htab Hl].
  assert (forall id q, registry_find id (p_table w) = Some q ->
    (forall b, p_boxes w !! p = Some b -> b_created b = true -> b_mode b <> Local) -> q <> p) as Hne.
  { intros id q Hf Hb ->. destruct (Hl id p Hf) as (b&Hq&Hc&Hm&_). by apply (Hb b). }
  unfold shutdown. destruct (p_boxes w !! p) as [b|] eqn:Hp.
  2:{ split; [done|]. intros id Hf. eapply Hne; [done| |done]. by intros. }
  destruct (b_created b) eqn:Hc; cbn [negb].
  2:{ split; [done|]. intros id Hf. eapply Hne; [done| |done]. intros ? [= <-]. congruence. }
  destruct (b_mode b) eqn:Hm.
  - set (tbl := if decide _ then _ else _).
    assert (table_inv tbl) as Htab' by (unfold tbl; case_decide; [by apply remove_inv|done]).
    assert (forall id q, registry_find id tbl = Some q -> registry_find id (p_table w) = Some q /\ q <> p) as Hsub.
    { unfold tbl. intros id q. case_decide as Hd; intros Hf; [destruct Hd as [_ Hd]|].
      - apply find_remove_cases in Hf as [Hne' Hf]; [|done]. split; [done|]. intros ->.
        destruct (Hl id p Hf) as (bq&Hq&_&_&Hid). congruence.
      - split; [done|]. intros ->. destruct (Hl id p Hf) as (bq&Hq&_&_&Hid). apply Hd. split; congruence. }
    split; [split|]; cbn [p_table p_boxes]; [done| |].
    + intros id q [Hf Hqp]%Hsub. rewrite lookup_insert_ne by done. by apply Hl.
    + by intros id [_ ?]%Hsub.
  - destruct (decide (Public = Local /\ registry_find (box_id b) (p_table w) = Some p)) as [[? _]|_]; [done|].
    split; [split|]; cbn [p_table p_boxes]; [done| |].
    + intros id q Hf. rewrite lookup_insert_ne; [by apply Hl|]. symmetry.
      eapply Hne; [done|]. intros ? [= <-] _. by rewrite Hm.
    + intros id Hf. eapply Hne; [done| |done]. intros ? [= <-] _. by rewrite Hm.
  - split; [split|]; cbn [p_table p_boxes]; [done| |].
    + intros id q Hf. rewrite lookup_insert_ne; [by apply Hl|]. symmetry.
      eapply Hne; [done|]. intros ? [= <-] _. by rewrite Hm.
    + intros id Hf. eapply Hne; [done| |done]. intros ? [= <-] _. by rewrite Hm.
Qed.

Lemma post_to_inv q data prio src w ok w' :
  post_to q data prio src w = Some (ok, w') -> process_inv w -> process_inv w'.
Proof.
  unfold post_to. destruct (p_boxes w !! q ≫= b_ring); [|done].
  destruct (post _ _ _ _) as [[ok' r']|]; [|done]. intros [= <- <-]. by apply update_box_keep.
Qed.

Lemma sent_inv p r res w' :
  sent p r = Some (res, w') -> (forall ok w1, r = Some (ok, w1) -> process_inv w1) -> process_inv w'.
Proof.
  destruct r as [[ok w1]|]; [|done]. intros Hs Hi. specialize (Hi ok w1 eq_refl).
  destruct ok; injection Hs as <- <-; [by apply update_box_keep|done].
Qed.

Lemma send_oob_udp_keep dest sendmsg b res a b' :
  send_oob_udp dest sendmsg b = (res, a, b') ->
  b_created b' = b_created b /\ b_mode b' = b_mode b /\ box_id b' = box_id b.
Proof. unfold send_oob_udp. destruct (find_route _ _); [destruct (_ <? _)|]; by intros [= <- <- <-]. Qed.

Lemma receive_oob_udp_keep ret data b ret' meta b' :
  receive_oob_udp ret data b = (ret', meta, b') ->
  b_created b' = b_created b /\ b_mode b' = b_mode b /\ box_id b' = box_id b.
Proof. unfold receive_oob_udp. destruct (_ <=? _); by intros [= <- <- <-]. Qed.

Lemma send_inv p data dest sendmsg remote w res w' :
  send p data dest sendmsg remote w = Some (res, w') -> process_inv w -> process_inv w'.
Proof.
  unfold send, send_raw. destruct (p_boxes w !! p) as [b|] eqn:Hp; [|done].
  destruct (b_created b) eqn:Hc; cbn [negb]; [|by intros [= <- <-]].
  destruct (_ || _); [by intros [= <- <-]|]. intros Hs Hi.
  assert (forall m : Mode,
    match registry_find dest (p_table w) with
    | Some target =>
        match p_boxes w !! target with
        | Some t =>
            if negb (box_id t =? dest) || negb (b_created t)
            then if decide (m = Public) then sent p (Some (remote, w)) else Some (ERROR_SEND, w)
            else sent p (post_to target data (s8 (cfg_priority (b_config b))) (box_id b) w)
        | None => None
        end
    | None => if decide (m = Public) then sent p (Some (remote, w)) else Some (ERROR_SEND, w)
    end = Some (res, w') -> process_inv w') as Hlocal.
  { intros m. assert ((if decide (m = Public) then sent p (Some (remote, w)) else Some (ERROR_SEND, w))
      = Some (res, w') -> process_inv w') as Hout.
    { destruct (decide (m = Public)); [|intros E; by injection E as _ <-]. intros Hs'. apply (sent_inv _ _ _ _ Hs'). intros ? ? E. by injection E as _ <-. }
    destruct (registry_find dest (p_table w)) as [q|]; [|done]. destruct (p_boxes w !! q); [|done].
    destruct (_ || _); [done|]. intros Hs'. apply (sent_inv _ _ _ _ Hs'). intros ok w1 E.
    by apply (post_to_inv _ _ _ _ _ _ _ E). }
  destruct (b_mode b); [by apply (Hlocal Local)|by apply (Hlocal Public)|].
  destruct (send_oob_udp dest sendmsg b) as [[r a] b'] eqn:E. injection Hs as <- <-.
  apply send_oob_udp_keep in E as (Ec&Em&Eid). by apply (replace_box_keep p b).
Qed.

Lemma receive_inv p size timeout wait w out w' :
  receive_local p size timeout wait w = Some (out, w') -> process_inv w -> process_inv w'.
Proof.
  unfold receive_local. destruct (p_boxes w !! p) as [b|]; [|done].
  destruct (b_created b); cbn [negb]; [|by intros [= <- <-]].
  destruct (b_ring b) as [r|]; [|done]. destruct (ring_read size r) as [[[] r']|]; cbn; [| | |done].
  1,2: by intros [= <- <-].
  intros [= <- <-]. by apply update_box_keep.
Qed.

Lemma proc_step_inv e w w' : proc_step e w = Some w' -> process_inv w -> process_inv w'.
Proof.
  destruct e; cbn [proc_step]; intros Hs Hi.
  - injection Hs as <-. destruct (p_boxes w !! p) eqn:Hp; [done|].
    revert Hi. apply process_inv_keep; [done|]. intros q b Hq Hc Hm. cbn.
    rewrite lookup_insert_ne; [eauto|]. intros ->. congruence.
  - injection Hs as <-. by apply initialize_inv.
  - injection Hs as <-. by apply shutdown_inv.
  - injection Hs as <-. unfold destroy. destruct (shutdown_inv p w Hi) as [[Htab Hl] Hne].
    split; cbn; [done|]. intros id q Hf. destruct (Hl id q Hf) as (b&Hq&?). exists b.
    rewrite lookup_delete_ne; [done|]. intros <-. by apply (Hne id).
  - destruct (send p data dest sendmsg remote w) as [[res w1]|] eqn:E; [|done]. injection Hs as <-.
    by apply (send_inv _ _ _ _ _ _ _ _ E).
  - destruct (b_mode <$> p_boxes w !! p) as [[]|]; try by injection Hs as <-.
    destruct (receive_local p buffer_size timeout_ns wait w) as [[out w1]|] eqn:E; [|done].
    injection Hs as <-. by apply (receive_inv _ _ _ _ _ _ _ E).
  - destruct (b_mode <$> p_boxes w !! p) as [[]|]; try by injection Hs as <-.
    unfold receive_network in Hs. destruct (p_boxes w !! p) as [b|] eqn:Hp; [|done].
    destruct (negb (b_created b)); [by injection Hs as <-|].
    destruct (receive_oob_udp ret data b) as [[r m] b'] eqn:E. injection Hs as <-.
    apply receive_oob_udp_keep in E as (Ec&Em&Eid). by apply (replace_box_keep p b).
Qed.

Lemma proc_run_inv es w w' : proc_run es w = Some w' -> process_inv w -> process_inv w'.
Proof.
  revert w. induction es as [|e es IH]; cbn; intros w Hr Hi; [by injection Hr as <-|].
  destruct (proc_step e w) as [w1|] eqn:E; [|done]. eapply IH; [done|]. by eapply proc_step_inv.
Qed.

Lemma proc_initial_inv : process_inv proc_initial.
Proof.
  split; [apply empty_inv|]. intros id q Hf. exfalso. cbn in Hf. rewrite find_absent_empty in Hf. done.
Qed.
End process.

(** C22. However mailboxes are created, initialised, shut down and destroyed, at
    reused addresses and with duplicate ids included, a registry entry never
    points to a destroyed or shut-down object: what a lookup answers is a live,
    created [Mode::Local] mailbox with exactly that id. *)
Theorem registry_never_dangles inet_pton es w :
  proc_run inet_pton es proc_initial = Some w ->
  forall id q, registry_find id (p_table w) = Some q ->
    exists b, p_boxes w !! q = Some b /\ b_created b = true /\ b_mode b = Local /\ box_id b = id.
Proof.
  intros Hr. by apply (proc_run_inv inet_pton es _ _ Hr proc_initial_inv).
Qed.

Section local_messages.
Implicit Types (w : Process) (p q : nat) (b t : EvlMailbox).

Definition local_pair w p q b t (r : Ring) (dest : Z) : Prop :=
  p_boxes w !! p = Some b /\ b_created b = true /\ b_mode b = Local /\
  registry_find dest (p_table w) = Some q /\
  p_boxes w !! q = Some t /\ b_created t = true /\ box_id t = dest /\ b_ring t = Some r /\ ring_wf r.

End local_messages.

(** A message sent in the process arrives: sent to a mailbox that waits with
    an empty ring, it is accepted, and the next read of that mailbox returns the
    same bytes with the sender's id as source and its own id as destination; for
    data that fits the sender's limit, the receiver's slots and the buffer, and a
    priority above -128. *)
Lemma local_send_receive w p q b t r dest data buffer_size timeout wait :
  local_pair w p q b t r dest -> messages r = [] -> (0 < capacity r)%nat ->
  0 < zlen data <= cfg_max_msg_size (b_config b) -> zlen data <= slot_size r ->
  zlen data <= buffer_size -> INT8_MIN < s8 (cfg_priority (b_config b)) ->
  exists w1 w2 meta,
    send p data dest (-1) false w = Some (SUCCESS, w1) /\
    receive_local q buffer_size timeout wait w1 = Some (zlen data, data, Some meta, w2) /\
    m_src meta = box_id b /\ m_dest meta = dest /\
    (exists t', p_boxes w2 !! q = Some t' /\ exists r', b_ring t' = Some r' /\ messages r' = []).
Proof.
  intros (Hb&Hc&Hm&Hf&Ht&Htc&Hid&Hr&Hwf) Hempty Hcap Hlen Hfit Hbuf Hprio.
  destruct (post_empty data (s8 (cfg_priority (b_config b))) (box_id b) r) as (r1&Ep&Hwf1&Hm1);
    [done..|by apply (wraps_range 8)|done|].
  set (w1 := update_box p EvlBox.count_sent (update_box q (set_ring (Some r1)) w)).
  assert (send p data dest (-1) false w = Some (SUCCESS, w1)) as Es.
  { unfold send, send_raw. rewrite Hb, Hc, Hm. cbn [negb].
    destruct (Z.eqb_spec (zlen data) 0); [lia|].
    destruct (Z.ltb_spec (cfg_max_msg_size (b_config b)) (zlen data)); [lia|]. cbn [orb].
    rewrite Hf, Ht, Hid, Z.eqb_refl, Htc. cbn [negb orb]. unfold post_to. rewrite Ht. cbn [mbind option_bind].
    by rewrite Hr, Ep. }
  assert (exists t1, p_boxes w1 !! q = Some t1 /\ b_created t1 = true /\ b_ring t1 = Some r1 /\ box_id t1 = dest)
    as (t1&Ht1&Htc1&Hr1&Hid1).
  { unfold w1. cbn. rewrite lookup_alter.
    destruct (decide (p = q)) as [->|]; rewrite lookup_alter_eq, Ht; cbn; eexists;
      (split; [reflexivity|]); by split_and!. }
  clearbody w1.
  destruct (ring_read_single buffer_size r1 _ Hwf1 Hm1 Hprio Hbuf) as (sm&r2&Er&_&Hm2&Hsize&Hsrc).
  cbn [msg_data msg_src] in *. exists w1. unfold receive_local. rewrite Ht1, Htc1. cbn [negb].
  rewrite Hr1, Er. cbn [received].
  eexists _, _. split_and!; [exact Es|rewrite Hsize; reflexivity|done|done|].
  cbn. rewrite lookup_alter_eq, Ht1. eexists. split; [done|]. eexists. split; [done|]. exact Hm2.
Qed.

(** Addresses of [Mode::Network]: a datagram goes to the first valid route
    whose system id is the top byte of the destination, and to none if there is
    no such route; the port is in the documented range 42000.. only for the low
    ids, the others wrap around past 65535 to ports from 0 on. *)
Theorem network_addressing dest rs :
  match find_route dest rs with
  | Some r => exists i, rs !! i = Some r /\ nr_valid r = true /\ nr_system_id r = system_id_of dest /\
      forall j r', (j < i)%nat -> rs !! j = Some r' ->
        nr_valid r' = false \/ nr_system_id r' <> system_id_of dest
  | None => forall j r', rs !! j = Some r' -> nr_valid r' = false \/ nr_system_id r' <> system_id_of dest
  end /\
  (Z.land dest 32767 <= 23535 -> port_for dest = 42000 + Z.land dest 32767) /\
  (23535 < Z.land dest 32767 -> port_for dest = Z.land dest 32767 - 23536).
Proof.
  assert (0 <= Z.land dest 32767 < 32768) as Hl.
  { change 32767 with (Z.ones 15). rewrite Z.land_ones by lia. apply Z.mod_pos_bound. lia. }
  split_and!.
  - unfold find_route. induction rs as [|r rs IH]; cbn; [intros ? ?; by rewrite lookup_nil|].
    assert ((nr_valid r && (nr_system_id r =? system_id_of dest)) = false ->
      nr_valid r = false \/ nr_system_id r <> system_id_of dest) as Hr.
    { destruct (nr_valid r); [|by left]. cbn. intros E%Z.eqb_neq. by right. }
    destruct (nr_valid r && (nr_system_id r =? system_id_of dest)) eqn:E.
    + exists 0%nat. apply andb_true_iff in E as [-> E%Z.eqb_eq]. split_and!; try done. intros j r'. lia.
    + specialize (Hr eq_refl). destruct (List.find _ rs) as [r0|].
      * destruct IH as (i&Hi&Hv&Hs&Hj). exists (S i). split_and!; try done.
        intros [|j] r' Hlt; cbn; [by intros [= <-]|]. apply Hj. lia.
      * intros [|j] r'; cbn; [by intros [= <-]|apply IH].
  - intros H. unfold port_for, kOobBasePort. apply wrapu_id. unfold in_u. lia.
  - intros H. unfold port_for, kOobBasePort, wrapu. change (2 ^ 16) with 65536.
    rewrite (Z.mod_eq _ 65536) by lia. assert ((42000 + Z.land dest 32767) / 65536 = 1) as ->; [|lia].
    symmetry. apply (Z.div_unique _ _ _ (Z.land dest 32767 - 23536)); lia.
Qed.

(** ** Witnesses *)

Definition no_pton (_ : bytes) : option Z := None.
Definition config_of (id : Z) : IpcConfig := mkConfig [] id 64 5 true 4.

(** Two mailboxes; the first is replaced at its address by one with another id. *)
Definition sample_events : list proc_event :=
  [PNew 1 (config_of 10) Local (mkNet 0 [] 0); PInitialize 1 true true None;
   PNew 2 (config_of 20) Local (mkNet 0 [] 0); PInitialize 2 true true None;
   PDestroy 1; PNew 1 (config_of 30) Local (mkNet 0 [] 0); PInitialize 1 true true None].

Definition sample_process : Process := default proc_initial (proc_run no_pton sample_events proc_initial).

Lemma registry_never_dangles_witness :
  registry_find 10 (p_table sample_process) = None /\
  registry_find 30 (p_table sample_process) = Some 1%nat /\
  exists b, p_boxes sample_process !! 1%nat = Some b /\ b_created b = true /\ b_mode b = Local /\ box_id b = 30.
Proof.
  split; [vm_compute; reflexivity|]. split; [vm_compute; reflexivity|].
  apply (registry_never_dangles no_pton sample_events sample_process).
  - vm_compute. reflexivity.
  - vm_compute. reflexivity.
Defined.

Lemma local_send_receive_witness :
  exists w1 w2 meta,
    send 2 [1; 2; 3] 30 (-1) false sample_process = Some (SUCCESS, w1) /\
    receive_local 1 64 0 (-110) w1 = Some (3, [1; 2; 3], Some meta, w2) /\ m_src meta = 20.
Proof.
  destruct (local_send_receive sample_process 2 1 (set_created true (set_ring (Some (allocate_ring kSlots 64)) (new_box (config_of 20) Local (mkNet 0 [] 0))))
    (set_created true (set_ring (Some (allocate_ring kSlots 64)) (new_box (config_of 30) Local (mkNet 0 [] 0))))
    (allocate_ring kSlots 64) 30 [1; 2; 3] 64 0 (-110)) as (w1&w2&meta&Es&Er&Hsrc&_&_).
  - split_and!; [vm_compute; reflexivity..|]. split; [by_compute..].
  - vm_compute. reflexivity.
  - by_compute.
  - by_compute.
  - by_compute.
  - by_compute.
  - by_compute.
  - exists w1, w2, meta. split; [exact Es|]. split; [exact Er|exact Hsrc].
Defined.
