(* ===== verification/EvlRemote.v ===== *)
(** * Mode::Public: shared rings and the cache of remote handles

    Models the parts of include/corerat/ipc/evl/evl_backend.hpp that leave the
    process: the shared-memory ring of a [Mode::Public] mailbox
    ([allocate_ring], [free_ring]), the least-recently-used cache of handles to
    the rings of other processes ([get_or_open_remote], [open_remote],
    [close_remote]), and [post_to_remote] with the [send_raw] around it.

    The names of shared memory map mailbox ids to segments; a segment is the ring
    laid out in it and outlives its name as long as somebody maps it. *)

From Stdlib Require Import ZArith Lia Sorting.Sorted.
From stdpp Require Import base list gmap sets fin_maps numbers sorting.
From S2P Require Import Prelude TcpSocket IpcTypes EvlRegistry EvlRing EvlMailbox.

#[local] Open Scope Z_scope.

Import Registry Ring EvlBox.

Module Remote.

(** ** Shared memory *)

Record Shm := mkShm {
  shm_names : gmap Z nat;         (* /corerat_mbx_<id> *)
  shm_segs : gmap nat Ring
}.

(** What the kernel answers in [allocate_ring]: [shm_open] fails, [ftruncate]
    fails, [mmap] fails, or none does. *)
Inductive ring_answer := NoSegment | NoSize | NoMapping | Mapped.

(** The zeros of a segment for which no layout header was written: a ring without
    slots.  [size]: of the payload area. *)
Definition unformatted (size : nat) : Ring := mkRing [] (replicate size 0) 0.

(** The meta data that a segment of zeros has once its header says [kSlots]. *)
Definition meta_found (old : Ring) : list SlotMeta :=
  match slot_meta old with [] => slot_meta (allocate_ring kSlots 0) | meta => meta end.

(** [allocate_ring] in [Mode::Public]: [shm_open] with [O_CREAT] finds the
    segment of that name or makes a new one, [ftruncate] sets its size and fills it
    with zeros, and when it is mapped the layout header is written.  Every ring has
    [kSlots] slots, so the meta data of a segment that is found stays where it is.
    [None]: it fails.  The name is not taken back then; a name without bytes is as
    good as none ([open_remote] cannot read its header, the next [allocate_ring]
    finds zeros), but one whose mapping failed stands for a segment of zeros. *)
Definition allocate_shared (answer : ring_answer) (id size : Z) (shm : Shm) : option nat * Shm :=
  let len := (kSlots * Z.to_nat size)%nat in
  match answer with
  | NoSegment | NoSize => (None, shm)
  | NoMapping =>
      (None,
       match shm_names shm !! id with
       | Some seg =>
           let old := default (unformatted len) (shm_segs shm !! seg) in
           let ring := mkRing (slot_meta old) (resize len 0 (slot_data old)) (slot_size old) in
           mkShm (shm_names shm) (<[seg := ring]> (shm_segs shm))
       | None =>
           let seg := fresh (dom (shm_segs shm)) in
           mkShm (<[id := seg]> (shm_names shm)) (<[seg := unformatted len]> (shm_segs shm))
       end)
  | Mapped =>
      match shm_names shm !! id with
      | Some seg =>
          let old := default (allocate_ring kSlots size) (shm_segs shm !! seg) in
          let ring := mkRing (meta_found old) (resize len 0 (slot_data old)) size in
          (Some seg, mkShm (shm_names shm) (<[seg := ring]> (shm_segs shm)))
      | None =>
          let seg := fresh (dom (shm_segs shm)) in
          (Some seg, mkShm (<[id := seg]> (shm_names shm)) (<[seg := allocate_ring kSlots size]> (shm_segs shm)))
      end
  end.

(** [free_ring]: the name goes, the segment stays for those that mapped it. *)
Definition free_shared (id : Z) (shm : Shm) : Shm := mkShm (delete id (shm_names shm)) (shm_segs shm).

(** ** The handle cache *)

Record RemoteHandle := mkRH {
  rh_dest_id : Z;
  rh_shm_base : nat;          (* the segment *)
  rh_shm_size : nat;          (* how many of its payload bytes are mapped *)
  rh_valid : bool;
  rh_last_used : Z            (* uint64_t *)
}.

Definition empty_handle : RemoteHandle := mkRH 0 0 0 false 0.

Record Cache := mkCache {
  remote_handles : list RemoteHandle;
  lru_counter : Z
}.

(** The constructor of [EvlMailbox]: the size of the cache is fixed. *)
Definition new_cache (max_remote_handles : Z) : Cache :=
  mkCache (replicate (Z.to_nat (if 0 <? max_remote_handles then max_remote_handles else 16)) empty_handle) 0.

Definition close_remote (h : RemoteHandle) : RemoteHandle := if negb (rh_valid h) then h else empty_handle.

(** The size that [open_remote] computes from the layout header. *)
Definition mapped_size (shm : Shm) (seg : nat) : nat :=
  match shm_segs shm !! seg with Some r => (capacity r * Z.to_nat (slot_size r))%nat | None => 0%nat end.

(** [open_remote]: [evl_open] tells for a destination whether the switch to
    in-band mode and the opening of its mutex and event succeed. *)
Definition open_remote (evl_open : Z -> bool) (shm : Shm) (dest : Z) (h : RemoteHandle)
    : option RemoteHandle :=
  match shm_names shm !! dest with
  | None => None
  | Some seg => if evl_open dest then Some (mkRH dest seg (mapped_size shm seg) true (rh_last_used h)) else None
  end.

(** The three loops of [get_or_open_remote]. *)
Fixpoint find_handle (p : RemoteHandle -> bool) (i : nat) (hs : list RemoteHandle) : option nat :=
  match hs with
  | [] => None
  | h :: hs => if p h then Some i else find_handle p (S i) hs
  end.

Fixpoint lru_loop (i lru : nat) (used : Z) (hs : list RemoteHandle) : nat :=
  match hs with
  | [] => lru
  | h :: hs => if rh_last_used h <? used then lru_loop (S i) i (rh_last_used h) hs else lru_loop (S i) lru used hs
  end.

Definition touch (i : nat) (c : Cache) : Cache :=
  let n := u64 (lru_counter c + 1) in
  mkCache (alter (fun h => mkRH (rh_dest_id h) (rh_shm_base h) (rh_shm_size h) (rh_valid h) n) i (remote_handles c)) n.

Definition open_at (evl_open : Z -> bool) (shm : Shm) (dest : Z) (i : nat) (c : Cache) : option nat * Cache :=
  match remote_handles c !! i ≫= open_remote evl_open shm dest with
  | None => (None, c)
  | Some h => (Some i, touch i (mkCache (<[i := h]> (remote_handles c)) (lru_counter c)))
  end.

(** The answer is the index of the handle, [None] for [nullptr]. *)
Definition get_or_open_remote (evl_open : Z -> bool) (shm : Shm) (dest : Z) (c : Cache) : option nat * Cache :=
  let hs := remote_handles c in
  match find_handle (fun h => rh_valid h && (rh_dest_id h =? dest)) 0 hs with
  | Some i => (Some i, touch i c)
  | None =>
      match find_handle (fun h => negb (rh_valid h)) 0 hs with
      | Some i => open_at evl_open shm dest i c
      | None =>
          let used := match hs with h :: _ => rh_last_used h | [] => 0 end in
          let lru := lru_loop 0 0 used hs in
          open_at evl_open shm dest lru (mkCache (alter close_remote lru hs) (lru_counter c))
      end
  end.

Definition close_all_remotes (c : Cache) : Cache :=
  mkCache (close_remote <$> remote_handles c) (lru_counter c).

(** ** post_to_remote *)

(** The ring of another process: as [post], but the size is cut to a slot. *)
Definition post_ring (data : bytes) (priority src : Z) (r : Ring) : option (bool * Ring) :=
  let '(idx, r) :=
    match find_free_loop 0 (slot_meta r) with
    | Some i => (Some i, r)
    | None =>
        match lowest_loop 0 None INT8_MAX (slot_meta r) with
        | (Some worst, wprio) => if wprio <=? priority then (Some worst, release worst r) else (None, r)
        | (None, _) => (None, r)
        end
    end in
  match idx with
  | None => Some (false, r)
  | Some i =>
      let sz := Z.min (zlen data) (slot_size r) in
      match mem_write (Z.to_nat (u32 (Z.of_nat i * slot_size r))) (take (Z.to_nat sz) data) (slot_data r) with
      | None => None
      | Some mem =>
          Some (true, mkRing (<[i := mkSlot priority true src (u32 sz)]> (slot_meta r)) mem (slot_size r))
      end
  end.

(** A ring through a mapping of its first [size] payload bytes: an access past
    them is outside of the memory.  What lies behind stays as it is. *)
Definition mapped (size : nat) (r : Ring) : Ring := mkRing (slot_meta r) (take size (slot_data r)) (slot_size r).

Definition unmapped (size : nat) (r r' : Ring) : Ring :=
  mkRing (slot_meta r') (slot_data r' ++ drop size (slot_data r)) (slot_size r).

Definition post_to_remote (h : RemoteHandle) (data : bytes) (priority src : Z) (shm : Shm) : option (bool * Shm) :=
  match shm_segs shm !! rh_shm_base h with
  | None => None
  | Some r =>
      match post_ring data priority src (mapped (rh_shm_size h) r) with
      | None => None
      | Some (ok, r') =>
          Some (ok, mkShm (shm_names shm) (<[rh_shm_base h := unmapped (rh_shm_size h) r r']> (shm_segs shm)))
      end
  end.

(** ** A Mode::Public mailbox

    As in EvlRouter.v a side of an xbuf is a byte stream in each direction: its
    descriptor, the bytes written, the bytes still to be read and the answers of
    [oob_write] and [oob_read] are a [TcpSocket] value. *)

Record PublicMailbox := mkPM {
  pm_config : IpcConfig;
  pm_created : bool;
  pm_shm_base : option nat;
  pm_xbuf : TcpSocket;             (* xbuf_fd_ *)
  pm_poll_setup_done : bool;
  pm_sent : Z;
  pm_received : Z;
  pm_cache : Cache
}.

Definition new_public (config : IpcConfig) : PublicMailbox :=
  mkPM config false None sock_closed false 0 0 (new_cache (cfg_max_remote_handles config)).

Definition pm_id (b : PublicMailbox) : Z := cfg_mailbox_id (pm_config b).

Definition set_cache (c : Cache) (b : PublicMailbox) : PublicMailbox :=
  mkPM (pm_config b) (pm_created b) (pm_shm_base b) (pm_xbuf b) (pm_poll_setup_done b) (pm_sent b) (pm_received b) c.

Definition set_xbuf (s : TcpSocket) (b : PublicMailbox) : PublicMailbox :=
  mkPM (pm_config b) (pm_created b) (pm_shm_base b) s (pm_poll_setup_done b) (pm_sent b) (pm_received b) (pm_cache b).

Definition set_poll_setup (d : bool) (b : PublicMailbox) : PublicMailbox :=
  mkPM (pm_config b) (pm_created b) (pm_shm_base b) (pm_xbuf b) d (pm_sent b) (pm_received b) (pm_cache b).

Definition count_public_sent (b : PublicMailbox) : PublicMailbox :=
  mkPM (pm_config b) (pm_created b) (pm_shm_base b) (pm_xbuf b) (pm_poll_setup_done b)
    (u64 (pm_sent b + 1)) (pm_received b) (pm_cache b).

Definition count_public_received (b : PublicMailbox) : PublicMailbox :=
  mkPM (pm_config b) (pm_created b) (pm_shm_base b) (pm_xbuf b) (pm_poll_setup_done b)
    (pm_sent b) (u64 (pm_received b + 1)) (pm_cache b).

(** [slot_size_] while there is a ring, and the ring as the object sees it: in its
    own mapping of [kSlots] slots of this size. *)
Definition pm_slot_size (b : PublicMailbox) : Z := u32 (cfg_max_msg_size (pm_config b)).

Definition own_view (b : PublicMailbox) (r : Ring) : Ring :=
  mkRing (slot_meta r) (take (kSlots * Z.to_nat (pm_slot_size b)) (slot_data r)) (pm_slot_size b).

(** [initialize] and [shutdown] where the mode is [Public]: [answer] is what
    [allocate_ring] meets, [objects_ok] the answer of [create_evl_objects], [xbuf]
    what [create_xbuf] made, if it made one. *)
Definition initialize_public (answer : ring_answer) (objects_ok : bool) (xbuf : option TcpSocket) (b : PublicMailbox) (shm : Shm)
    : IpcResult * PublicMailbox * Shm :=
  if pm_created b then (SUCCESS, b, shm)
  else
    match allocate_shared answer (pm_id b) (pm_slot_size b) shm with
    | (None, shm) => (ERROR_INIT, b, shm)
    | (Some seg, shm) =>
        let xbuf := default sock_closed (if objects_ok then xbuf else None) in
        let ok := sock_is_open xbuf in
        (if ok then SUCCESS else ERROR_INIT,
         mkPM (pm_config b) ok (Some seg) xbuf (pm_poll_setup_done b) (pm_sent b) (pm_received b) (pm_cache b),
         shm)
    end.

Definition shutdown_public (b : PublicMailbox) (shm : Shm) : PublicMailbox * Shm :=
  if negb (pm_created b) then (b, shm)
  else
    (mkPM (pm_config b) false None (sock_close (pm_xbuf b)) false (pm_sent b) (pm_received b)
       (close_all_remotes (pm_cache b)),
     match pm_shm_base b with Some _ => free_shared (pm_id b) shm | None => shm end).

(** [send_raw] in [Mode::Public] past the shortcut of the registry. *)
Definition send_public (evl_open : Z -> bool) (data : bytes) (dest priority : Z)
    (b : PublicMailbox) (shm : Shm) : option (IpcResult * PublicMailbox * Shm) :=
  if (zlen data =? 0) || (cfg_max_msg_size (pm_config b) <? zlen data)
  then Some (ERROR_INVALID_MSG, b, shm)
  else
    let '(rh, c) := get_or_open_remote evl_open shm dest (pm_cache b) in
    let b := set_cache c b in
    match rh ≫= (remote_handles c !!.) with
    | Some h =>
        match post_to_remote h data priority (pm_id b) shm with
        | None => None
        | Some (ok, shm) =>
            Some (if (ok : bool) then (SUCCESS, count_public_sent b, shm) else (ERROR_SEND, b, shm))
        end
    | None =>
        if sock_is_open (pm_xbuf b) then
          let '(w, s) := sys_send (pm_xbuf b) data in
          let b := set_xbuf s b in
          Some (if w =? zlen data then (SUCCESS, count_public_sent b, shm) else (ERROR_SEND, b, shm))
        else Some (ERROR_SEND, b, shm)
    end.

(** [receive_impl] in [Mode::Public].  The answers: [n] of the poll, the sources
    of its events, [wait] of the wait on the ring. *)
Inductive poll_source := FromXbuf | FromRing.

(** The loop over the events: what [oob_read] gave, if the message is from the
    xbuf, and the xbuf. *)
Fixpoint serve_events (events : list poll_source) (buffer_size : Z) (xbuf : TcpSocket)
    : option (Z * bytes) * TcpSocket :=
  match events with
  | FromXbuf :: events =>
      let '(r, data, xbuf) := sys_recv xbuf buffer_size in
      if r <=? 0 then serve_events events buffer_size xbuf else (Some (r, data), xbuf)
  | _ => (None, xbuf)
  end.

Definition xbuf_metadata (read : Z * bytes) : option TimsMetadata :=
  if sizeof_WireHeader <=? read.1
  then Some (mkMeta (wire_src read.2) (wire_dest read.2) (wire_seq_number read.2) 0 (u8 (wire_flags read.2)))
  else None.

Definition receive_public (n : Z) (events : list poll_source)
    (buffer_size timeout_ns wait : Z) (b : PublicMailbox) (shm : Shm)
    : option (Z * bytes * option TimsMetadata * PublicMailbox * Shm) :=
  if negb (pm_created b) then Some (-1, [], None, b, shm)
  else
    let b := set_poll_setup (pm_poll_setup_done b || sock_is_open (pm_xbuf b)) b in
    let polled := sock_is_open (pm_xbuf b) && pm_poll_setup_done b in
    if polled && (n <=? 0)
    then Some (if (n =? 0) || (n =? - ETIMEDOUT) then - ETIMEDOUT else n, [], None, b, shm)
    else
      let '(from_xbuf, xbuf) := if polled then serve_events events buffer_size (pm_xbuf b) else (None, pm_xbuf b) in
      let b := set_xbuf xbuf b in
      match from_xbuf with
      | Some (ret, data) => Some (ret, data, xbuf_metadata (ret, data), count_public_received b, shm)
      | None =>
          match pm_shm_base b with
          | None => None
          | Some seg =>
              match shm_segs shm !! seg with
              | None => None
              | Some r =>
                  match ring_read buffer_size (own_view b r) with
                  | None => None
                  | Some (res, r') =>
                      let '(ret, data, meta) := received (pm_id b) timeout_ns wait res in
                      Some (ret, data, meta,
                        match res with RingMessage _ _ => count_public_received b | _ => b end,
                        mkShm (shm_names shm)
                          (<[seg := mkRing (slot_meta r') (slot_data r) (slot_size r)]> (shm_segs shm)))
                  end
              end
          end
      end.

(** ** The cache is an LRU cache *)

(** The specification: destinations with their rings, the most recently used
    first, at most [n]; a miss makes room first, whether the ring can be opened
    or not. *)
Notation lru := (list (Z * nat)) (only parsing).

Fixpoint lru_find (dest : Z) (l : lru) : option nat :=
  match l with
  | [] => None
  | (d, seg) :: l => if d =? dest then Some seg else lru_find dest l
  end.

Definition lru_drop (dest : Z) (l : lru) : lru := filter (fun e => e.1 <> dest) l.

Definition lru_get (n : nat) (open : option nat) (dest : Z) (l : lru) : option nat * lru :=
  match lru_find dest l with
  | Some seg => (Some seg, (dest, seg) :: lru_drop dest l)
  | None =>
      let l := take (n - 1) l in
      match open with
      | Some seg => (Some seg, (dest, seg) :: l)
      | None => (None, l)
      end
  end.

Definition can_open (evl_open : Z -> bool) (shm : Shm) (dest : Z) : option nat :=
  if evl_open dest then shm_names shm !! dest else None.

Definition entry (h : RemoteHandle) : Z * nat := (rh_dest_id h, rh_shm_base h).

Definition live (hs : list RemoteHandle) : list RemoteHandle := filter (fun h => rh_valid h = true) hs.

(** [hs] lists the valid handles, the most recently used first. *)
Record recency (c : Cache) (hs : list RemoteHandle) : Prop := mkRec {
  rc_perm : hs ≡ₚ live (remote_handles c);
  rc_sorted : StronglySorted (fun a b => rh_last_used b < rh_last_used a) hs;
  rc_bound : Forall (fun h => rh_last_used h <= lru_counter c) hs;
  rc_dests : NoDup (rh_dest_id <$> hs);
  rc_counter : 0 <= lru_counter c
}.

Definition cache_rep (c : Cache) (l : lru) : Prop := exists hs, recency c hs /\ l = entry <$> hs.

Lemma recency_live c hs h : recency c hs -> h ∈ hs <-> rh_valid h = true /\ h ∈ remote_handles c.
Proof. intros [Hp _ _ _ _]. rewrite Hp. unfold live. by rewrite list_elem_of_filter. Qed.

Lemma find_handle_some p i hs j :
  find_handle p i hs = Some j ->
  exists k h, j = (i + k)%nat /\ hs !! k = Some h /\ p h = true.
Proof.
  revert i. induction hs as [|h hs IH]; cbn; intros i; [done|]. destruct (p h) eqn:E.
  - intros [= <-]. exists 0%nat, h. split_and!; [lia|done|done].
  - intros (k&h'&->&?&?)%IH. exists (S k), h'. split_and!; [lia|done|done].
Qed.

Lemma find_handle_none p i hs : find_handle p i hs = None -> Forall (fun h => p h = false) hs.
Proof.
  revert i. induction hs as [|h hs IH]; cbn; intros i; [by constructor|].
  destruct (p h) eqn:E; [done|]. intros ?%IH. by constructor.
Qed.

Lemma lru_loop_spec hs i lru used h0 (hs0 : list RemoteHandle) :
  hs0 !! lru = Some h0 -> rh_last_used h0 = used ->
  (forall k h, hs !! k = Some h -> hs0 !! (i + k)%nat = Some h) ->
  exists h, hs0 !! lru_loop i lru used hs = Some h /\ rh_last_used h <= used /\
    Forall (fun h' => rh_last_used h <= rh_last_used h') hs.
Proof.
  revert i lru used h0. induction hs as [|h hs IH]; cbn; intros i lru used h0 Hl Hu Hs.
  - exists h0. split_and!; [done|lia|by constructor].
  - assert (hs0 !! i = Some h) as Hi by (rewrite <- (Nat.add_0_r i); by apply Hs).
    assert (forall k h', hs !! k = Some h' -> hs0 !! (S i + k)%nat = Some h') as Hs'.
    { intros k h' Hk. rewrite <- (Hs (S k) h' Hk). f_equal. lia. }
    destruct (Z.ltb_spec (rh_last_used h) used).
    + destruct (IH (S i) i (rh_last_used h) h Hi eq_refl Hs') as (h1&?&?&?).
      exists h1. split_and!; [done|lia|by constructor].
    + destruct (IH (S i) lru used h0 Hl Hu Hs') as (h1&?&?&?).
      exists h1. split_and!; [done|done|constructor; [lia|done]].
Qed.

(** Replacing a handle on the list of valid ones. *)
Lemma live_split hs i h :
  hs !! i = Some h -> live hs ≡ₚ live [h] ++ live (delete i hs).
Proof. intros H. unfold live. rewrite <- filter_app. apply filter_Permutation. by apply delete_Permutation. Qed.

Lemma live_valid h : rh_valid h = true -> live [h] = [h].
Proof. intros H. unfold live. by rewrite filter_cons_True. Qed.

Lemma live_invalid h : rh_valid h = false -> live [h] = [].
Proof. intros H. unfold live. rewrite filter_cons_False by congruence. done. Qed.

Lemma delete_insert_list {A} (hs : list A) i h : delete i (<[i:=h]> hs) = delete i hs.
Proof. revert i. induction hs as [|x hs IH]; intros [|i]; cbn; [done..|]. by f_equal. Qed.

Lemma live_insert hs i h' :
  (i < length hs)%nat -> live (<[i := h']> hs) ≡ₚ live [h'] ++ live (delete i hs).
Proof.
  intros Hi. rewrite (live_split _ i h'); [|by rewrite list_lookup_insert_eq].
  by rewrite delete_insert_list.
Qed.

Lemma alter_as_insert {A} (f : A -> A) (hs : list A) i h : hs !! i = Some h -> alter f i hs = <[i := f h]> hs.
Proof. revert i. induction hs as [|x hs IH]; intros [|i]; cbn; [done..|congruence|]. intros ?. f_equal. by apply IH. Qed.

Lemma sorted_without {A} (R : A -> A -> Prop) l1 h l2 :
  StronglySorted R (l1 ++ h :: l2) ->
  StronglySorted R (l1 ++ l2) /\ Forall (fun x => R x h) l1 /\ Forall (R h) l2.
Proof.
  induction l1 as [|x l1 IH]; cbn; intros Hs; apply StronglySorted_inv in Hs as [Hs Hx]; [by auto|].
  destruct (IH Hs) as (Hs'&H1&H2). apply Forall_app in Hx as [Hx1 Hx2].
  apply Forall_cons in Hx2 as [Hxh Hx2]. split_and!; [constructor; [done|]|by constructor|done].
  apply Forall_app. by split.
Qed.

Lemma recency_front c hs' i h0 d seg size u :
  remote_handles c !! i = Some h0 -> lru_counter c + 1 < 2 ^ 64 -> 0 <= lru_counter c ->
  hs' ≡ₚ live (delete i (remote_handles c)) ->
  StronglySorted (fun a b => rh_last_used b < rh_last_used a) hs' ->
  Forall (fun h => rh_last_used h <= lru_counter c) hs' ->
  NoDup (d :: (rh_dest_id <$> hs')) ->
  recency (touch i (mkCache (<[i := mkRH d seg size true u]> (remote_handles c)) (lru_counter c)))
    (mkRH d seg size true (lru_counter c + 1) :: hs').
Proof.
  intros Hi Hlt H0 Hp Hs Hb Hd. pose proof (lookup_lt_Some _ _ _ Hi) as Hlen.
  assert (u64 (lru_counter c + 1) = lru_counter c + 1) as Hu by (apply wrapu_id; unfold in_u; lia).
  unfold touch. cbn [remote_handles lru_counter]. rewrite Hu.
  rewrite (alter_as_insert _ _ i (mkRH d seg size true u)) by (by rewrite list_lookup_insert_eq).
  rewrite list_insert_insert_eq. cbn [rh_dest_id rh_shm_base rh_shm_size rh_valid].
  split; cbn [remote_handles lru_counter].
  - rewrite live_insert by done. unfold live at 1. rewrite filter_cons_True by done. cbn. by rewrite Hp.
  - constructor; [done|]. revert Hb. apply List.Forall_impl. cbn. lia.
  - constructor; [cbn; lia|]. revert Hb. apply List.Forall_impl. lia.
  - done.
  - lia.
Qed.

Lemma lru_find_entries dest hs :
  match lru_find dest (entry <$> hs) with
  | Some seg => exists l1 h l2, hs = l1 ++ h :: l2 /\ rh_dest_id h = dest /\ rh_shm_base h = seg /\
      Forall (fun x => rh_dest_id x <> dest) l1
  | None => Forall (fun x => rh_dest_id x <> dest) hs
  end.
Proof.
  induction hs as [|h hs IH]; cbn; [constructor|]. destruct (Z.eqb_spec (rh_dest_id h) dest).
  - exists [], h, hs. split_and!; [done|done|done|constructor].
  - destruct (lru_find dest (entry <$> hs)) as [seg|].
    + destruct IH as (l1&h'&l2&->&?&?&?). exists (h :: l1), h', l2. split_and!; [done|done|done|by constructor].
    + by constructor.
Qed.

Lemma lru_drop_absent dest hs :
  Forall (fun x => rh_dest_id x <> dest) hs -> lru_drop dest (entry <$> hs) = entry <$> hs.
Proof.
  induction 1 as [|h hs Hh _ IH]; [done|]. unfold lru_drop in *. rewrite fmap_cons, filter_cons_True by done. by rewrite IH.
Qed.

(** A hit. *)
Lemma cache_hit c hs i h :
  recency c hs -> lru_counter c + 1 < 2 ^ 64 ->
  remote_handles c !! i = Some h -> rh_valid h = true ->
  lru_find (rh_dest_id h) (entry <$> hs) = Some (rh_shm_base h) /\
  cache_rep (touch i c) (entry h :: lru_drop (rh_dest_id h) (entry <$> hs)).
Proof.
  intros Hr Hlt Hi Hv. pose proof Hr as [Hp Hs Hb Hd H0].
  assert (h ∈ hs) as (l1&l2&->)%list_elem_of_split.
  { apply (recency_live c hs h Hr). split; [done|]. by eapply list_elem_of_lookup_2. }
  apply sorted_without in Hs as (Hs&_&_).
  rewrite fmap_app, fmap_cons in Hd. rewrite <- Permutation_middle in Hd.
  assert (Forall (fun x => rh_dest_id x <> rh_dest_id h) (l1 ++ l2)) as Hne.
  { apply NoDup_cons in Hd as [Hnin _]. rewrite List.Forall_forall. intros x Hx%list_elem_of_In E.
    apply Hnin. rewrite <- E, <- fmap_app. by apply list_elem_of_fmap_2. }
  split.
  - pose proof (lru_find_entries (rh_dest_id h) (l1 ++ h :: l2)) as Hf.
    apply Forall_app in Hne as [Hne1 Hne2]. clear -Hne1. induction Hne1 as [|x l1 Hx _ IH]; cbn.
    + by rewrite Z.eqb_refl.
    + destruct (Z.eqb_spec (rh_dest_id x) (rh_dest_id h)); [done|]. exact IH.
  - exists (mkRH (rh_dest_id h) (rh_shm_base h) (rh_shm_size h) true (lru_counter c + 1) :: l1 ++ l2). split.
    + replace (touch i c) with
        (touch i (mkCache (<[i := mkRH (rh_dest_id h) (rh_shm_base h) (rh_shm_size h) true (rh_last_used h)]> (remote_handles c)) (lru_counter c))).
      2:{ f_equal. destruct c as [hs0 n]. cbn in *. f_equal. apply list_insert_id. destruct h; cbn in *. congruence. }
      apply (recency_front c _ i h); [done|done|done| |done| |].
      * apply (Permutation_cons_inv (a := h)). rewrite Permutation_middle, Hp.
        by rewrite (live_split _ i h Hi), live_valid.
      * rewrite Forall_app, Forall_cons in Hb. rewrite Forall_app. naive_solver.
      * by rewrite fmap_app.
    + rewrite fmap_cons. f_equal. unfold lru_drop. rewrite !fmap_app, fmap_cons, filter_app, filter_cons_False by (cbn; auto).
      rewrite <- filter_app, <- fmap_app. by apply lru_drop_absent.
Qed.

(** A miss, once there is a free handle. *)
Lemma open_at_spec evl_open shm dest c hs i h0 :
  recency c hs -> remote_handles c !! i = Some h0 -> rh_valid h0 = false ->
  lru_counter c + 1 < 2 ^ 64 -> Forall (fun x => rh_dest_id x <> dest) hs ->
  match can_open evl_open shm dest with
  | Some seg => exists c' h, open_at evl_open shm dest i c = (Some i, c') /\
      cache_rep c' ((dest, seg) :: (entry <$> hs)) /\ lru_counter c' = lru_counter c + 1 /\
      length (remote_handles c') = length (remote_handles c) /\
      remote_handles c' !! i = Some h /\ rh_valid h = true /\ entry h = (dest, seg)
  | None => open_at evl_open shm dest i c = (None, c)
  end.
Proof.
  intros Hr Hi Hv Hlt Hne. unfold open_at, open_remote, can_open. rewrite Hi. cbn [mbind option_bind].
  destruct (shm_names shm !! dest) as [seg|]; [|by destruct (evl_open dest)].
  destruct (evl_open dest); [|done]. pose proof Hr as [Hp Hs Hb Hd H0]. eexists _, _. split; [done|].
  assert (u64 (lru_counter c + 1) = lru_counter c + 1) as Hu by (apply wrapu_id; unfold in_u; lia).
  split_and!.
  - exists (mkRH dest seg (mapped_size shm seg) true (lru_counter c + 1) :: hs). split; [|done].
    apply (recency_front c hs i h0); try done.
    + by rewrite Hp, (live_split _ i h0 Hi), live_invalid.
    + apply NoDup_cons. split; [|done]. intros (x&->&Hx)%list_elem_of_fmap.
      rewrite List.Forall_forall in Hne. by apply (Hne x); [apply list_elem_of_In|].
  - cbn. by rewrite Hu.
  - cbn. by rewrite length_alter, length_insert.
  - cbn. rewrite list_lookup_alter_eq, list_lookup_insert_eq; [done|]. by eapply lookup_lt_Some.
  - done.
  - done.
Qed.

(** The free handle of a miss: an empty one, or the least recently used. *)
Lemma cache_room c hs :
  recency c hs -> (0 < length (remote_handles c))%nat ->
  let n := length (remote_handles c) in
  match find_handle (fun h => negb (rh_valid h)) 0 (remote_handles c) with
  | Some i => exists h0, remote_handles c !! i = Some h0 /\ rh_valid h0 = false /\ take (n - 1) hs = hs
  | None =>
      let used := match remote_handles c with h :: _ => rh_last_used h | [] => 0 end in
      let i := lru_loop 0 0 used (remote_handles c) in
      let c1 := mkCache (alter close_remote i (remote_handles c)) (lru_counter c) in
      exists h0, remote_handles c1 !! i = Some h0 /\ rh_valid h0 = false /\ recency c1 (take (n - 1) hs)
  end.
Proof.
  intros Hr Hn n. pose proof Hr as [Hp Hs Hb Hd H0].
  destruct (find_handle _ 0 (remote_handles c)) as [i|] eqn:E.
  - apply find_handle_some in E as (k&h&->&Hk&Hv%negb_true_iff). exists h. split_and!; [done..|].
    apply take_ge. rewrite Hp, (live_split _ _ h Hk), live_invalid by done. cbn.
    pose proof (length_delete (remote_handles c) k (mk_is_Some _ _ Hk)).
    pose proof (length_filter (fun h => rh_valid h = true) (delete k (remote_handles c))). unfold live, n. cbn. lia.
  - apply find_handle_none in E. cbn [remote_handles].
    assert (live (remote_handles c) = remote_handles c) as Hall.
    { unfold live. clear -E. induction E as [|h hs Hh _ IH]; [done|]. apply negb_false_iff in Hh.
      rewrite filter_cons_True by done. by rewrite IH. }
    set (used := match remote_handles c with h :: _ => _ | [] => _ end).
    assert (exists h, remote_handles c !! lru_loop 0 0 used (remote_handles c) = Some h /\
      Forall (fun h' => rh_last_used h <= rh_last_used h') (remote_handles c)) as (h&Hi&Hmin).
    { destruct (remote_handles c) as [|h0 hs0] eqn:Hc; [cbn in Hn; lia|]. rewrite <- Hc.
      destruct (lru_loop_spec (remote_handles c) 0 0 used h0 (remote_handles c)) as (h&?&_&?); eauto; by rewrite Hc. }
    set (i := lru_loop 0 0 used (remote_handles c)) in *. exists empty_handle.
    assert (rh_valid h = true) as Hv.
    { apply (recency_live c hs h Hr). rewrite Hp, Hall. by eapply list_elem_of_lookup_2. }
    assert (alter close_remote i (remote_handles c) = <[i := empty_handle]> (remote_handles c)) as Ha.
    { rewrite (alter_as_insert _ _ i h Hi). unfold close_remote. by rewrite Hv. }
    pose proof (lookup_lt_Some _ _ _ Hi) as Hlen. rewrite Ha, list_lookup_insert_eq by done. split_and!; [done..|].
    assert (h ∈ hs) as (l1&l2&->)%list_elem_of_split.
    { rewrite Hp, Hall. by eapply list_elem_of_lookup_2. }
    apply sorted_without in Hs as (Hs&_&Hlast).
    assert (l2 = []) as ->.
    { destruct l2 as [|h2 l2]; [done|]. apply Forall_cons in Hlast as [Hlt _].
      assert (h2 ∈ remote_handles c) as Hin.
      { rewrite <- Hall, <- Hp, elem_of_app, !elem_of_cons. auto. }
      rewrite List.Forall_forall in Hmin. apply list_elem_of_In, Hmin in Hin. lia. }
    rewrite app_nil_r in Hs.
    assert (n - 1 = length l1)%nat as Hn1.
    { rewrite Hall in Hp. apply Permutation_length in Hp. rewrite length_app in Hp. cbn in Hp. unfold n. lia. }
    rewrite Hn1, take_app_length. split; cbn [remote_handles lru_counter]; [|done| | |done].
    + rewrite live_insert, live_invalid by done. apply (Permutation_cons_inv (a := h)).
      rewrite <- (app_nil_r l1) at 1. rewrite Permutation_middle, Hp, (live_split _ i h Hi). by rewrite live_valid.
    + by apply Forall_app in Hb as [? _].
    + rewrite fmap_app in Hd. by apply NoDup_app in Hd as [? _].
Qed.

(** The segment behind the handle at an index. *)
Definition handle_seg (c : Cache) (r : option nat) : option nat :=
  r ≫= (fun i => rh_shm_base <$> remote_handles c !! i).

Lemma length_touch i c : length (remote_handles (touch i c)) = length (remote_handles c).
Proof. apply length_alter. Qed.

Lemma get_or_open_step evl_open shm dest c l n :
  cache_rep c l -> length (remote_handles c) = n -> (0 < n)%nat -> lru_counter c + 1 < 2 ^ 64 ->
  let '(r, c') := get_or_open_remote evl_open shm dest c in
  let '(s, l') := lru_get n (can_open evl_open shm dest) dest l in
  cache_rep c' l' /\ length (remote_handles c') = n /\ lru_counter c' <= lru_counter c + 1 /\
  handle_seg c' r = s /\ (s = None -> r = None) /\
  (forall i, r = Some i -> exists h, remote_handles c' !! i = Some h /\ rh_valid h = true /\ rh_dest_id h = dest).
Proof.
  intros (hs&Hr&->) Hn H0 Hlt. unfold get_or_open_remote, lru_get.
  destruct (find_handle (fun h => rh_valid h && _) 0 _) as [i|] eqn:E.
  - apply find_handle_some in E as (k&h&->&Hk&[Hv Hd%Z.eqb_eq]%andb_true_iff). cbn [Nat.add]. subst dest.
    destruct (cache_hit c hs k h Hr Hlt Hk Hv) as [-> Hc'].
    assert (remote_handles (touch k c) !! k
      = Some (mkRH (rh_dest_id h) (rh_shm_base h) (rh_shm_size h) (rh_valid h) (u64 (lru_counter c + 1)))) as Hk'.
    { cbn. by rewrite list_lookup_alter_eq, Hk. }
    split_and!; [done|by rewrite length_touch| | |done|].
    + cbn. rewrite wrapu_id by (unfold in_u; destruct Hr; lia). lia.
    + unfold handle_seg. cbn [mbind option_bind]. by rewrite Hk'.
    + intros ? [= <-]. eauto.
  - apply find_handle_none in E.
    assert (Forall (fun x => rh_dest_id x <> dest) hs) as Hne.
    { rewrite List.Forall_forall in *. intros x Hx Hxd.
      apply list_elem_of_In, (recency_live c hs x Hr) in Hx as [Hv Hin%list_elem_of_In].
      specialize (E x Hin). cbn in E. rewrite Hv, Hxd, Z.eqb_refl in E. done. }
    pose proof (lru_find_entries dest hs) as Hf. destruct (lru_find dest (entry <$> hs)) as [seg|].
    { destruct Hf as (l1&h&l2&->&Hd&_). apply Forall_app in Hne as [_ Hne]. by apply Forall_cons in Hne as [? _]. }
    rewrite <- fmap_take.
    assert (forall c1 i h0 hs1, lru_counter c1 = lru_counter c -> length (remote_handles c1) = n ->
      remote_handles c1 !! i = Some h0 -> rh_valid h0 = false -> recency c1 hs1 ->
      Forall (fun x => rh_dest_id x <> dest) hs1 ->
      let '(r, c') := open_at evl_open shm dest i c1 in
      let '(s, l') := match can_open evl_open shm dest with
        | Some seg => (Some seg, (dest, seg) :: (entry <$> hs1)) | None => (None, entry <$> hs1) end in
      cache_rep c' l' /\ length (remote_handles c') = n /\ lru_counter c' <= lru_counter c + 1 /\
      handle_seg c' r = s /\ (s = None -> r = None) /\
      (forall i, r = Some i -> exists h, remote_handles c' !! i = Some h /\ rh_valid h = true /\ rh_dest_id h = dest))
      as Hopen.
    { intros c1 i h0 hs1 Hct Hlen Hi Hv Hr1 Hne1. rewrite <- Hct in Hlt.
      pose proof (open_at_spec evl_open shm dest c1 hs1 i h0 Hr1 Hi Hv Hlt Hne1) as Ho.
      destruct (can_open evl_open shm dest) as [seg|].
      - destruct Ho as (c'&h&->&?&?&?&Hh&?&[= He1 He2]). split_and!; [done|lia|lia| |done|].
        + unfold handle_seg. cbn [mbind option_bind]. rewrite Hh. cbn. by f_equal.
        + intros ? [= <-]. eauto.
      - rewrite Ho. split_and!; [by exists hs1|done|lia|done|done|done]. }
    pose proof (cache_room c hs Hr) as Hroom. rewrite Hn in Hroom. specialize (Hroom H0). cbn zeta in Hroom |- *.
    destruct (find_handle (fun h => negb (rh_valid h)) 0 _) as [i|].
    + destruct Hroom as (h0&Hi&Hv&->). by apply (Hopen c i h0 hs).
    + destruct Hroom as (h0&Hi&Hv&Hr1). eapply Hopen; try done; [cbn [remote_handles]; by rewrite length_alter|].
      apply List.Forall_forall. intros x Hx. rewrite List.Forall_forall in Hne. apply Hne.
      rewrite <- (take_drop (n - 1) hs). apply in_or_app. by left.
Qed.

(** A sequence of requests, each with the names and answers of its time. *)
Record request := mkReq { rq_dest : Z; rq_open : Z -> bool; rq_shm : Shm }.

Fixpoint cache_run (rs : list request) (c : Cache) : list (option nat) * Cache :=
  match rs with
  | [] => ([], c)
  | rq :: rs =>
      let '(r, c) := get_or_open_remote (rq_open rq) (rq_shm rq) (rq_dest rq) c in
      let '(out, c') := cache_run rs c in (handle_seg c r :: out, c')
  end.

Fixpoint lru_run (n : nat) (rs : list request) (l : lru) : list (option nat) * lru :=
  match rs with
  | [] => ([], l)
  | rq :: rs =>
      let '(s, l) := lru_get n (can_open (rq_open rq) (rq_shm rq) (rq_dest rq)) (rq_dest rq) l in
      let '(out, l') := lru_run n rs l in (s :: out, l')
  end.

Lemma cache_run_lru n rs c l :
  cache_rep c l -> length (remote_handles c) = n -> (0 < n)%nat -> lru_counter c + zlen rs < 2 ^ 64 ->
  (cache_run rs c).1 = (lru_run n rs l).1 /\ cache_rep (cache_run rs c).2 (lru_run n rs l).2.
Proof.
  revert c l. induction rs as [|rq rs IH]; cbn; intros c l Hc Hn H0 Hlt; [done|].
  unfold zlen in Hlt. cbn [length] in Hlt.
  pose proof (get_or_open_step (rq_open rq) (rq_shm rq) (rq_dest rq) c l n Hc Hn H0 ltac:(lia)) as Hstep.
  destruct (get_or_open_remote _ _ _ _) as [r c1]. destruct (lru_get _ _ _ _) as [s l1].
  destruct Hstep as (Hc1&Hn1&Hct&<-&_&_). destruct (IH c1 l1 Hc1 Hn1 H0) as [IH1 IH2]; [unfold zlen; lia|].
  destruct (cache_run rs c1), (lru_run n rs l1). cbn in *. split; [by f_equal|done].
Qed.

Lemma new_cache_rep max : cache_rep (new_cache max) [].
Proof.
  exists []. split; [|done]. split; [|constructor..|done]. unfold new_cache. cbn [remote_handles].
  generalize (Z.to_nat (if 0 <? max then max else 16)). induction n as [|n IH]; [done|].
  unfold live in *. cbn [replicate]. rewrite filter_cons_False; [done|by cbn].
Qed.

(** C19. The handle cache is an LRU cache: for every sequence of requests, with
    every outcome of opening, [get_or_open_remote] answers handles to the same
    rings as the specification that keeps at most [max_remote_handles] (16 if
    that is 0) destinations in order of use and forgets the oldest. *)
Theorem remote_cache_is_lru max rs :
  zlen rs < 2 ^ 64 ->
  let n := Z.to_nat (if 0 <? max then max else 16) in
  (cache_run rs (new_cache max)).1 = (lru_run n rs []).1 /\
  cache_rep (cache_run rs (new_cache max)).2 (lru_run n rs []).2.
Proof.
  intros Hlt n. apply cache_run_lru; [apply new_cache_rep|apply length_replicate| |done].
  unfold n. destruct (Z.ltb_spec 0 max); lia.
Qed.

(** ** Messages through a shared ring *)

(** The remote post is the local one, of the message cut to a slot. *)
Lemma post_ring_post data priority src r :
  0 <= slot_size r -> post_ring data priority src r = post (take (Z.to_nat (slot_size r)) data) priority src r.
Proof.
  intros H0. unfold post_ring, post, find_free_slot, evict_lowest, slot_ptr.
  assert (forall r' : Ring, slot_size r' = slot_size r ->
    take (Z.to_nat (Z.min (zlen data) (slot_size r'))) data = take (Z.to_nat (slot_size r)) data /\
    zlen (take (Z.to_nat (slot_size r)) data) = Z.min (zlen data) (slot_size r')) as Hcut.
  { intros r' ->. unfold zlen. rewrite length_take. split; [|lia].
    destruct (Z.min_spec (Z.of_nat (length data)) (slot_size r)) as [[? ->]|[? ->]]; [|done].
    by rewrite !take_ge by lia. }
  destruct (find_free_loop 0 (slot_meta r)) as [i|].
  - destruct (Hcut r eq_refl) as [-> ->]. done.
  - destruct (lowest_loop 0 None INT8_MAX (slot_meta r)) as [[worst|] wprio]; [|done].
    destruct (wprio <=? priority); [|done]. destruct (Hcut (release worst r) eq_refl) as [-> ->]. done.
Qed.

Lemma mapped_all size r : (length (slot_data r) <= size)%nat -> mapped size r = r.
Proof. intros H. unfold mapped. rewrite take_ge by done. by destruct r. Qed.

Lemma unmapped_all size r r' :
  (length (slot_data r) <= size)%nat -> slot_size r' = slot_size r -> unmapped size r r' = r'.
Proof. intros H E. unfold unmapped. rewrite drop_ge, app_nil_r, <- E by done. by destruct r'. Qed.

Lemma post_slot_size data priority src r ok r' :
  post data priority src r = Some (ok, r') -> slot_size r' = slot_size r.
Proof.
  unfold post, evict_lowest. destruct (find_free_slot r) as [i|].
  - destruct (mem_write _ _ _); [|done]. by intros [= _ <-].
  - destruct (lowest_loop _ _ _ _) as [[worst|] prio]; [|by intros [= _ <-]].
    destruct (prio <=? priority); [|by intros [= _ <-]].
    destruct (mem_write _ _ _); [|done]. by intros [= _ <-].
Qed.

Lemma ring_read_keeps buffer_size r res r' :
  ring_read buffer_size r = Some (res, r') -> slot_data r' = slot_data r /\ slot_size r' = slot_size r.
Proof.
  unfold ring_read. destruct (negb _); [by intros [= _ <-]|].
  destruct (find_highest_priority_slot r) as [i|]; [|done]. destruct (slot_meta r !! i) as [sm|]; [|done].
  destruct (_ <? _); [by intros [= _ <-]|]. destruct (mem_read _ _ _); [|done]. by intros [= _ <-].
Qed.

(** Where the sizes agree, an object sees the ring itself. *)
Lemma own_view_same b r :
  ring_wf r -> capacity r = kSlots -> slot_size r = pm_slot_size b -> own_view b r = r.
Proof.
  intros [_ Hd _ _] Hc Hs. unfold own_view. rewrite <- Hs, take_ge by (rewrite Hd, Hc; lia). by destruct r.
Qed.

(** A post through a handle that maps the whole ring is the local one, of the
    message cut to a slot. *)
Lemma post_to_remote_whole h data priority src shm r :
  shm_segs shm !! rh_shm_base h = Some r -> ring_wf r -> rh_shm_size h = mapped_size shm (rh_shm_base h) ->
  in_s 8 priority ->
  exists ok r', post_to_remote h data priority src shm
      = Some (ok, mkShm (shm_names shm) (<[rh_shm_base h := r']> (shm_segs shm))) /\
    ring_wf r' /\ capacity r' = capacity r /\ slot_size r' = slot_size r /\
    posted (capacity r) (mkMsg priority src (take (Z.to_nat (slot_size r)) data)) (messages r) ok (messages r').
Proof.
  intros Hr Hwf Hsize Hp. pose proof (wf_size r Hwf) as H0.
  assert (length (slot_data r) <= rh_shm_size h)%nat as Hl
    by (rewrite Hsize; unfold mapped_size; rewrite Hr, (wf_data r Hwf); lia).
  destruct (post_outcome (take (Z.to_nat (slot_size r)) data) priority src r Hwf) as (ok&r'&E&Hwf'&Hc&Hpost); [|done|].
  { unfold zlen. rewrite length_take. lia. }
  exists ok, r'. unfold post_to_remote. rewrite Hr, mapped_all, post_ring_post, E by done.
  pose proof (post_slot_size _ _ _ _ _ _ E) as Hss. rewrite unmapped_all by done. done.
Qed.

(** Every valid handle satisfies [P], the ones that are opened included: so does
    the handle that is answered, and it is for the destination. *)
Lemma get_or_open_valid (P : RemoteHandle -> Prop) evl_open shm dest c :
  (forall h u, P h -> P (mkRH (rh_dest_id h) (rh_shm_base h) (rh_shm_size h) (rh_valid h) u)) ->
  (forall seg u, shm_names shm !! dest = Some seg -> P (mkRH dest seg (mapped_size shm seg) true u)) ->
  Forall (fun h => rh_valid h = true -> P h) (remote_handles c) ->
  let '(r, c') := get_or_open_remote evl_open shm dest c in
  length (remote_handles c') = length (remote_handles c) /\
  Forall (fun h => rh_valid h = true -> P h) (remote_handles c') /\
  forall i, r = Some i -> exists h, remote_handles c' !! i = Some h /\ rh_valid h = true /\ rh_dest_id h = dest /\ P h.
Proof.
  intros Htouch Hnew Hall.
  assert (forall i c1, Forall (fun h => rh_valid h = true -> P h) (remote_handles c1) ->
    Forall (fun h => rh_valid h = true -> P h) (remote_handles (touch i c1))) as Ht.
  { intros i c1 H1. apply Forall_alter; [done|]. intros h _ Hh Hv. exact (Htouch h _ (Hh Hv)). }
  assert (forall i c1, Forall (fun h => rh_valid h = true -> P h) (remote_handles c1) ->
    length (remote_handles c1) = length (remote_handles c) ->
    let '(r, c') := open_at evl_open shm dest i c1 in
    length (remote_handles c') = length (remote_handles c) /\
    Forall (fun h => rh_valid h = true -> P h) (remote_handles c') /\
    forall i, r = Some i -> exists h, remote_handles c' !! i = Some h /\ rh_valid h = true /\ rh_dest_id h = dest /\ P h)
    as Hopen.
  { intros i c1 H1 Hl. unfold open_at, open_remote. destruct (remote_handles c1 !! i) as [h|] eqn:Hi; [|done].
    cbn [mbind option_bind]. destruct (shm_names shm !! dest) as [seg|] eqn:En; [|done]. destruct (evl_open dest); [|done].
    split_and!.
    - cbn. by rewrite length_alter, length_insert.
    - apply Ht. cbn. apply Forall_insert; [done|]. intros _. by apply Hnew.
    - intros ? [= <-]. cbn. rewrite list_lookup_alter_eq, list_lookup_insert_eq by (by eapply lookup_lt_Some).
      eexists. split_and!; [done..|]. by apply Hnew. }
  unfold get_or_open_remote. destruct (find_handle _ 0 _) as [i|] eqn:E1.
  - apply find_handle_some in E1 as (k&h&->&Hk&[Hv Hd%Z.eqb_eq]%andb_true_iff). cbn [Nat.add].
    split_and!; [apply length_touch|by apply Ht|]. intros ? [= <-]. cbn. rewrite list_lookup_alter_eq, Hk.
    eexists. split_and!; [done..|]. apply Htouch. rewrite Forall_lookup in Hall. by apply (Hall k).
  - clear E1. destruct (find_handle (fun h => negb (rh_valid h)) 0 _) as [i|]; [exact (Hopen i c Hall eq_refl)|]. cbn zeta.
    refine (Hopen _ (mkCache _ (lru_counter c)) _ _); [|cbn; apply length_alter].
    apply Forall_alter; [done|]. intros h _ Hh. unfold close_remote. by destruct (rh_valid h) eqn:Ev; cbn; rewrite ?Ev.
Qed.

(** A destination that is there is reached. *)
Lemma get_or_open_reaches evl_open shm dest c :
  is_Some (shm_names shm !! dest) -> evl_open dest = true -> remote_handles c <> [] ->
  is_Some (get_or_open_remote evl_open shm dest c).1.
Proof.
  intros [seg Hseg] Hopen Hne.
  assert (forall i c1, (i < length (remote_handles c1))%nat -> is_Some (open_at evl_open shm dest i c1).1) as Hat.
  { intros i c1 [h Hi]%lookup_lt_is_Some_2. unfold open_at, open_remote. rewrite Hi. cbn [mbind option_bind].
    rewrite Hseg, Hopen. cbn. eauto. }
  unfold get_or_open_remote. destruct (find_handle _ 0 _) as [i|]; [cbn; eauto|].
  destruct (find_handle _ 0 _) as [i|] eqn:E.
  - apply find_handle_some in E as (k&h&->&Hk&_). by eapply Hat, lookup_lt_Some.
  - destruct (remote_handles c) as [|h0 hs] eqn:Ec; [done|].
    destruct (lru_loop_spec (h0 :: hs) 0 0 (rh_last_used h0) h0 (h0 :: hs)) as (h&Hh&_); [done..|].
    apply Hat. cbn [remote_handles]. rewrite length_alter. by eapply lookup_lt_Some.
Qed.

(** ** Restarting a receiver *)

Definition yes (_ : Z) : bool := true.
Definition public_config (id : Z) : IpcConfig := mkConfig [] id 64 5 true 2.
Definition alice : PublicMailbox := new_public (public_config 10).
Definition bob : PublicMailbox := new_public (public_config 20).
Definition no_shm : Shm := mkShm ∅ ∅.
Definition sample_xbuf : TcpSocket := sock_of_fd 9 [] [] [].

(** Whether a read of the ring of this mailbox would wait. *)
Definition ring_empty (b : PublicMailbox) (shm : Shm) : bool :=
  match pm_shm_base b ≫= (shm_segs shm !!.) with
  | Some r => negb (has_in_use_slot r)
  | None => true
  end.

(** What a restart of a receiver does to its ring.  After [shutdown] and
    [initialize] the receiver has a new segment, but a sender that has cached its
    handle goes on posting to the old one: [send_raw] reports [SUCCESS] and the
    message is in no ring that anybody reads.  After a crash the name is still
    there: the new instance finds the old segment and serves the messages of its
    predecessor, the ring is not zeroed. *)
Theorem restart_hazards :
  exists b1 b2 a1 a2 s1 s2 s3 s4 s5,
    initialize_public Mapped true (Some sample_xbuf) bob no_shm = (SUCCESS, b1, s1) /\
    send_public yes [1; 2; 3] 20 5 alice s1 = Some (SUCCESS, a1, s2) /\
    ring_empty b1 s2 = false /\
    (* a clean restart *)
    shutdown_public b1 s2 = (bob, s3) /\ initialize_public Mapped true (Some sample_xbuf) bob s3 = (SUCCESS, b2, s4) /\
    send_public yes [4; 5; 6] 20 5 a1 s4 = Some (SUCCESS, a2, s5) /\ ring_empty b2 s5 = true /\
    (* a crash before the shutdown *)
    exists b3 s6, initialize_public Mapped true (Some sample_xbuf) bob s2 = (SUCCESS, b3, s6) /\ ring_empty b3 s6 = false.
Proof.
  do 9 eexists. split_and!; [vm_compute; reflexivity..|]. do 2 eexists. split; vm_compute; reflexivity.
Qed.

(** ** Witnesses *)

Definition two_rings : Shm := mkShm {[ 20 := 1%nat; 30 := 2%nat; 40 := 3%nat ]} {[ 1%nat := allocate_ring 10 4 ]}.

(** A cache of two: 20, 30, 20 again, 40 evicts 30, and 50 cannot be opened. *)
Definition sample_requests : list request := (fun d => mkReq d yes two_rings) <$> [20; 30; 20; 40; 50; 20].

Lemma remote_cache_is_lru_witness :
  (cache_run sample_requests (new_cache 2)).1
  = [Some 1%nat; Some 2%nat; Some 1%nat; Some 3%nat; None; Some 1%nat] /\
  cache_rep (cache_run sample_requests (new_cache 2)).2 [(20, 1%nat); (40, 3%nat)].
Proof.
  destruct (remote_cache_is_lru 2 sample_requests) as [Hout Hrep]; [by_compute|].
  split; [rewrite Hout; vm_compute; reflexivity|]. exact Hrep.
Defined.

End Remote.
