(* ===== verification/EvlMachine.v ===== *)
(** * A machine of public mailboxes

    Runs of the [Mode::Public] mailboxes of all processes of a machine over
    their shared memory (EvlRemote.v): mailboxes are constructed, initialised,
    shut down, or lost with their process, and send and receive in any order.
    The calls on a ring are atomic, they hold its mutex.  A run also keeps a log:
    of the sends that posted to a ring and reported success, of the messages taken
    from rings, and of what each mailbox has read from its xbuf. *)

From Stdlib Require Import ZArith Lia.
From stdpp Require Import base list gmap sets fin_maps numbers.
From S2P Require Import Prelude TcpSocket IpcTypes EvlRegistry EvlRing EvlMailbox EvlRemote.

#[local] Open Scope Z_scope.

Import Ring EvlBox Remote.

Module Machine.

(** What the log says of a message: destination, sender, bytes. *)
Record note := mkNote { n_dest : Z; n_src : Z; n_data : bytes }.

#[export] Instance note_eq_dec : EqDecision note.
Proof. solve_decision. Defined.

(** [m_streams]: for each object that was initialised, the bytes that its xbuf was
    to deliver and those that its receives returned from it. *)
Record Machine := mkMachine {
  m_shm : Shm;
  m_boxes : gmap nat PublicMailbox;
  m_sent : list note;
  m_got : list note;
  m_streams : gmap nat (bytes * bytes)
}.

Inductive event :=
  | Create (k : nat) (config : IpcConfig)
  | Initialize (k : nat) (answer : ring_answer) (objects_ok : bool) (xbuf : option TcpSocket)
  | Stop (k : nat)
  | Crash (k : nat)                     (* the object goes without its destructor *)
  | Send (k : nat) (evl_open : Z -> bool) (data : bytes) (dest priority : Z)
  | Receive (k : nat) (poll : Z) (events : list poll_source) (buffer_size timeout_ns wait : Z).

(** Whether [receive_impl] serves the xbuf. *)
Definition from_xbuf (events : list poll_source) (buffer_size : Z) (b : PublicMailbox) : bool :=
  sock_is_open (pm_xbuf b) &&
  match (serve_events events buffer_size (pm_xbuf b)).1 with Some _ => true | None => false end.

Definition log_sent (res : IpcResult) (n : note) (l : list note) : list note :=
  if decide (res = SUCCESS) then n :: l else l.

(** Whether [send_raw] posts to the ring of the destination; if not, it writes to
    the xbuf or fails. *)
Definition to_ring (evl_open : Z -> bool) (dest : Z) (b : PublicMailbox) (shm : Shm) : bool :=
  bool_decide (is_Some (get_or_open_remote evl_open shm dest (pm_cache b)).1).

Definition log_read (xbuf : bool) (k : nat) (data : bytes) (streams : gmap nat (bytes * bytes)) : gmap nat (bytes * bytes) :=
  if xbuf then alter (fun s => (s.1, s.2 ++ data)) k streams else streams.

Definition log_got (ring : bool) (ret id : Z) (data : bytes) (meta : option TimsMetadata) (l : list note) : list note :=
  match meta with
  | Some meta => if ring && (0 <? ret) then mkNote id (m_src meta) data :: l else l
  | None => l
  end.

(** [None]: an access outside of a ring. *)
Definition step (e : event) (m : Machine) : option Machine :=
  let '(mkMachine shm boxes sent got streams) := m in
  match e with
  | Create k config =>
      match boxes !! k with
      | None => Some (mkMachine shm (<[k := new_public config]> boxes) sent got streams)
      | Some _ => Some m
      end
  | Initialize k answer objects_ok xbuf =>
      match boxes !! k with
      | None => Some m
      | Some b =>
          let '(res, b', shm) := initialize_public answer objects_ok xbuf b shm in
          Some (mkMachine shm (<[k := b']> boxes) sent got
                  (if decide (res = SUCCESS /\ pm_created b = false)
                   then <[k := (sk_rx (pm_xbuf b'), [])]> streams else streams))
      end
  | Stop k =>
      match boxes !! k with
      | None => Some m
      | Some b => let '(b, shm) := shutdown_public b shm in Some (mkMachine shm (<[k := b]> boxes) sent got streams)
      end
  | Crash k => Some (mkMachine shm (delete k boxes) sent got streams)
  | Send k evl_open data dest priority =>
      match boxes !! k with
      | None => Some m
      | Some b =>
          match send_public evl_open data dest priority b shm with
          | None => None
          | Some (res, b', shm') =>
              Some (mkMachine shm' (<[k := b']> boxes)
                      (if to_ring evl_open dest b shm then log_sent res (mkNote dest (pm_id b) data) sent else sent)
                      got streams)
          end
      end
  | Receive k poll events buffer_size timeout_ns wait =>
      match boxes !! k with
      | None => Some m
      | Some b =>
          match receive_public poll events buffer_size timeout_ns wait b shm with
          | None => None
          | Some (ret, data, meta, b', shm) =>
              Some (mkMachine shm (<[k := b']> boxes) sent
                      (log_got (negb (from_xbuf events buffer_size b)) ret (pm_id b) data meta got)
                      (log_read (from_xbuf events buffer_size b) k data streams))
          end
      end
  end.

Fixpoint run (es : list event) (m : Machine) : option Machine :=
  match es with
  | [] => Some m
  | e :: es => step e m ≫= run es
  end.

Definition no_machine : Machine := mkMachine (mkShm ∅ ∅) ∅ [] [] ∅.

(** ** What the mailboxes read from their xbufs

    Each stream that was opened has been returned up to some point, in order and
    nothing else; while the object has its xbuf open, the rest waits there. *)
Record streams_ok (m : Machine) : Prop := mkStreamsOk {
  st_prefix k all got : m_streams m !! k = Some (all, got) -> exists rest, all = got ++ rest;
  st_open k b : m_boxes m !! k = Some b -> sock_is_open (pm_xbuf b) = true ->
    exists got, m_streams m !! k = Some (got ++ sk_rx (pm_xbuf b), got)
}.

Lemma serve_events_reads events buffer_size x :
  let '(served, x') := serve_events events buffer_size x in
  sk_fd x' = sk_fd x /\ sk_rx x = match served with Some (_, data) => data | None => [] end ++ sk_rx x'.
Proof.
  revert x. induction events as [|[|] events IH]; intros x; cbn [serve_events]; [done| |done].
  pose proof (IH (sys_recv x buffer_size).2) as IH'. clear IH.
  assert (let '(n, data, x') := sys_recv x buffer_size in
    sk_fd x' = sk_fd x /\ sk_rx x = data ++ sk_rx x' /\ (n <= 0 -> data = [])) as H.
  { unfold sys_recv. destruct (sk_fd x <? 0); [done|].
    assert (forall n, n <= 0 -> take (Z.to_nat n) (sk_rx x) = []) as Hnone by by intros [| |] ?.
    destruct (sk_recv_plan x) as [|n plan]; [|destruct (n <=? 0)]; cbn [sk_fd sk_rx];
      rewrite ?take_drop; auto. }
  destruct (sys_recv x buffer_size) as [[n data] x1]. destruct H as (Hfd&Hrx&Hnil). cbn [snd] in IH'.
  destruct (Z.leb_spec n 0); [|done]. destruct (serve_events events buffer_size x1) as [served x'].
  destruct IH' as [Hfd' Hrx']. split; [congruence|]. by rewrite Hrx, Hnil, Hrx'.
Qed.

(** An object changes, and perhaps reads [data] from its xbuf. *)
Lemma streams_logged shm shm' boxes sent sent' got got' streams k b b' (xbuf : bool) data :
  streams_ok (mkMachine shm boxes sent got streams) -> boxes !! k = Some b ->
  (sock_is_open (pm_xbuf b') = true -> sock_is_open (pm_xbuf b) = true /\
    sk_rx (pm_xbuf b) = (if xbuf then data else []) ++ sk_rx (pm_xbuf b')) ->
  (xbuf = true -> data = [] \/ sock_is_open (pm_xbuf b') = true) ->
  streams_ok (mkMachine shm' (<[k := b']> boxes) sent' got' (log_read xbuf k data streams)).
Proof.
  intros [Hp Ho] Hk Hopen Hdata. destruct xbuf; cbn in *; split; cbn; [|clear Hdata|done|].
  - intros k' all taken. rewrite lookup_alter. case_decide as E; [subst k'|apply Hp].
    destruct (streams !! k) as [[all0 got0]|] eqn:Es; [|done]. cbn. intros [= -> <-].
    destruct (Hdata eq_refl) as [->|Hx']; [rewrite app_nil_r; by eapply Hp|].
    destruct (Hopen Hx') as [Hx Hrx]. destruct (Ho k b Hk Hx) as (g&Eg). rewrite Es in Eg.
    injection Eg as -> ->. rewrite Hrx. eexists. by rewrite (assoc_L (++)).
  - intros k' bk [[<- <-]|[Hne Hk']]%lookup_insert_Some Hx; [|rewrite lookup_alter_ne by done; by eapply Ho].
    destruct (Hopen Hx) as [Hx' Hrx]. destruct (Ho k b Hk Hx') as (g&Eg). exists (g ++ data).
    rewrite lookup_alter_eq, Eg. cbn. by rewrite Hrx, <- (assoc_L (++)).
  - intros k' bk [[<- <-]|[Hne Hk']]%lookup_insert_Some Hx; [|by eapply Ho].
    destruct (Hopen Hx) as [Hx' <-]. by apply (Ho k b).
Qed.

(** An object changes, but not what its xbuf has to deliver. *)
Lemma streams_kept shm shm' boxes sent sent' got got' streams k b b' :
  streams_ok (mkMachine shm boxes sent got streams) -> boxes !! k = Some b ->
  (sock_is_open (pm_xbuf b') = true -> sock_is_open (pm_xbuf b) = true /\ sk_rx (pm_xbuf b) = sk_rx (pm_xbuf b')) ->
  streams_ok (mkMachine shm' (<[k := b']> boxes) sent' got' streams).
Proof. intros Hm Hk Hopen. by eapply (streams_logged _ _ _ _ _ _ _ _ _ _ _ false []). Qed.

Lemma initialize_streams k answer objects_ok xbuf m m' :
  streams_ok m -> step (Initialize k answer objects_ok xbuf) m = Some m' -> streams_ok m'.
Proof.
  intros Hm. destruct m as [shm boxes sent got streams]. cbn. destruct (boxes !! k) as [b|] eqn:Hk; [|by intros [= <-]].
  unfold initialize_public. destruct (pm_created b) eqn:Hc.
  { intros [= <-]. by eapply streams_kept. }
  destruct (allocate_shared _ _ _ _) as [[seg|] shm'].
  2:{ intros [= <-]. by eapply streams_kept. }
  cbn [pm_xbuf]. set (x := default sock_closed _). destruct (sock_is_open x) eqn:Hx; intros [= <-].
  - destruct Hm as [Hp Ho]. split; cbn in *.
    + intros k' all taken [[<- [= <- <-]]|[_ H]]%lookup_insert_Some; [by exists (sk_rx x)|by eapply Hp].
    + intros k' bk [[<- <-]|[Hne Hk']]%lookup_insert_Some Hxk; [exists []; by rewrite lookup_insert_eq|].
      rewrite lookup_insert_ne by done. by eapply Ho.
  - eapply streams_kept; [done..|]. cbn. congruence.
Qed.

Lemma send_streams k evl_open data dest priority m m' :
  streams_ok m -> step (Send k evl_open data dest priority) m = Some m' -> streams_ok m'.
Proof.
  intros Hm. destruct m as [shm boxes sent got streams]. cbn. destruct (boxes !! k) as [b|] eqn:Hk; [|by intros [= <-]].
  unfold send_public. destruct (_ || _); [intros [= <-]; by eapply streams_kept|].
  destruct (get_or_open_remote _ _ _ _) as [rh c]. destruct (rh ≫= _) as [h|].
  - destruct (post_to_remote _ _ _ _ _) as [[[] shm']|]; intros [= <-]; by eapply streams_kept.
  - destruct (sock_is_open (pm_xbuf (set_cache c b))) eqn:Hx; [|intros [= <-]; by eapply streams_kept].
    assert (let s := (sys_send (pm_xbuf b) data).2 in sk_rx s = sk_rx (pm_xbuf b) /\ sk_fd s = sk_fd (pm_xbuf b)) as [Hrx Hfd].
    { unfold sys_send. destruct (sk_fd _ <? 0); [done|]. destruct (sk_send_plan _) as [|n plan]; [done|]. by destruct (n <=? 0). }
    change (pm_xbuf (set_cache c b)) with (pm_xbuf b) in *. destruct (sys_send _ _) as [w s]. cbn [snd] in *.
    destruct (w =? _); intros [= <-]; (eapply streams_kept; [done..|]); cbn; unfold sock_is_open; rewrite Hfd; by split.
Qed.

Lemma receive_streams k poll events buffer_size timeout_ns wait m m' :
  streams_ok m -> step (Receive k poll events buffer_size timeout_ns wait) m = Some m' -> streams_ok m'.
Proof.
  intros Hm. destruct m as [shm boxes sent got streams]. cbn. destruct (boxes !! k) as [b|] eqn:Hk; [|by intros [= <-]].
  assert (forall fl b' shm' got', pm_xbuf b' = pm_xbuf b ->
    streams_ok (mkMachine shm' (<[k := b']> boxes) sent got' (log_read fl k [] streams))) as Hsame.
  { intros fl b' shm' got' Eb. eapply streams_logged; [done..| |by left]. rewrite Eb. by destruct fl. }
  assert (forall b' shm' got' data, sk_fd (pm_xbuf b') = sk_fd (pm_xbuf b) -> sk_rx (pm_xbuf b) = sk_rx (pm_xbuf b') ->
    streams_ok (mkMachine shm' (<[k := b']> boxes) sent got' (log_read false k data streams))) as Hring.
  { intros b' shm' got' data Ef Er. eapply streams_kept; [done..|]. unfold sock_is_open. by rewrite Ef, Er. }
  unfold receive_public, from_xbuf. destruct (pm_created b); cbn [negb]; [|intros [= <-]; by apply Hsame].
  cbn [pm_xbuf set_poll_setup pm_poll_setup_done]. set (d := pm_poll_setup_done b || sock_is_open (pm_xbuf b)).
  assert (sock_is_open (pm_xbuf b) && d = sock_is_open (pm_xbuf b)) as ->
    by (unfold d; destruct (sock_is_open (pm_xbuf b)); [by rewrite orb_true_r|done]).
  destruct (_ && (poll <=? 0)); [intros [= <-]; by apply Hsame|].
  pose proof (serve_events_reads events buffer_size (pm_xbuf b)) as Hread.
  destruct (serve_events events buffer_size (pm_xbuf b)) as [served x']. destruct Hread as [Hfd Hrx].
  assert (exists x, (if sock_is_open (pm_xbuf b) then (served, x') else (None, pm_xbuf b)) =
      (if sock_is_open (pm_xbuf b) then served else None, x) /\ sk_fd x = sk_fd (pm_xbuf b) /\
      (sk_rx (pm_xbuf b) = match (if sock_is_open (pm_xbuf b) then served else None) with Some (_, data) => data | None => [] end ++ sk_rx x))
    as (x&->&Hfd'&Hrx') by (destruct (sock_is_open (pm_xbuf b)); eauto).
  cbn [fst]. clear x' Hfd Hrx. destruct (sock_is_open (pm_xbuf b)) eqn:Hx; [destruct served as [[ret data]|]|]; cbn [andb].
  2-3: cbn [pm_shm_base set_xbuf set_poll_setup]; destruct (pm_shm_base b) as [seg|]; [|done];
    destruct (shm_segs shm !! seg) as [r|]; [|done]; destruct (ring_read _ _) as [[res r']|]; [|done];
    destruct (received _ _ _ _) as [[ret data] meta]; intros [= <-]; destruct res; by apply (Hring _ _ _ data).
  intros [= <-]. apply (streams_logged shm shm boxes sent sent got _ streams k b _ true data); [done..| |].
  - intros _. split; [done|exact Hrx'].
  - intros _. right. cbn. unfold sock_is_open in *. by rewrite Hfd'.
Qed.

Lemma step_streams m m' e : streams_ok m -> step e m = Some m' -> streams_ok m'.
Proof.
  intros Hm E. destruct e as [k c|k a o x|k|k|k o data dest p|k n evs bsz t w].
  - destruct m as [shm boxes sent got streams]. cbn in E. destruct (boxes !! k) eqn:Hk; injection E as <-; [done|].
    destruct Hm as [Hp Ho]. split; cbn in *; [done|]. intros k' b [[<- <-]|[_ Hk']]%lookup_insert_Some; [done|by apply Ho].
  - by eapply initialize_streams.
  - destruct m as [shm boxes sent got streams]. cbn in E. destruct (boxes !! k) as [b|] eqn:Hk; [|by injection E as <-].
    unfold shutdown_public in E. destruct (pm_created b); injection E as <-; eapply streams_kept; try done.
    cbn. unfold sock_close, sock_is_open. destruct (0 <=? sk_fd (pm_xbuf b)) eqn:E; cbn; [done|]. by rewrite E.
  - destruct m as [shm boxes sent got streams]. injection E as <-. destruct Hm as [Hp Ho]. split; cbn in *; [done|].
    intros k' b [_ Hk']%lookup_delete_Some. by apply Ho.
  - by eapply send_streams.
  - by eapply receive_streams.
Qed.

Lemma run_streams es m m' : streams_ok m -> run es m = Some m' -> streams_ok m'.
Proof.
  revert m. induction es as [|e es IH]; intros m Hm; cbn; [by intros [= <-]|].
  destruct (step e m) as [m1|] eqn:E; [|done]. cbn. apply IH. by eapply step_streams.
Qed.

Lemma no_machine_streams : streams_ok no_machine.
Proof. by split. Qed.

(** ** Machines on which a mailbox always has the same size

    [size id] is the [max_msg_size] of every configuration of mailbox [id]; every
    send has a priority above -128, the value from which the search of
    [ring_read] for the highest priority starts; and no [mmap] of a ring fails
    after its segment was sized ([unformatted_segment] shows why). *)
Section sizes.
Context (size : Z -> Z).

Definition sizes_ok : Prop := forall id, 0 < size id /\ Z.of_nat kSlots * size id < 2 ^ 32.

Definition consistent (e : event) : Prop :=
  match e with
  | Create _ config => cfg_max_msg_size config = size (cfg_mailbox_id config)
  | Initialize _ answer _ _ => answer <> NoMapping
  | Send _ _ _ _ priority => in_s 8 priority /\ INT8_MIN < priority
  | _ => True
  end.

(** A message as it is in a ring of its destination. *)
Definition cut (n : note) : note := mkNote (n_dest n) (n_src n) (take (Z.to_nat (size (n_dest n))) (n_data n)).

(** [ids] names the mailbox for which each segment was made. *)
Definition notes (id : Z) (r : Ring) : list note :=
  (fun msg => mkNote id (msg_src msg) (msg_data msg)) <$> messages r.

Definition pending (ids : gmap nat Z) (segs : gmap nat Ring) : list note :=
  map_to_list segs ≫= (fun sr => notes (default 0 (ids !! sr.1)) sr.2).

Record ring_ok (id : Z) (r : Ring) : Prop := mkRingOk {
  ro_wf : ring_wf r;
  ro_capacity : capacity r = kSlots;
  ro_size : slot_size r = size id;
  ro_priorities : Forall (fun msg => INT8_MIN < msg_priority msg) (messages r)
}.

Definition handle_ok (ids : gmap nat Z) (h : RemoteHandle) : Prop :=
  ids !! rh_shm_base h = Some (rh_dest_id h) /\ rh_shm_size h = (kSlots * Z.to_nat (size (rh_dest_id h)))%nat.

Record box_ok (ids : gmap nat Z) (b : PublicMailbox) : Prop := mkBoxOk {
  bo_size : cfg_max_msg_size (pm_config b) = size (pm_id b);
  bo_base : pm_created b = true -> exists seg, pm_shm_base b = Some seg /\ ids !! seg = Some (pm_id b);
  bo_handles : Forall (fun h => rh_valid h = true -> handle_ok ids h) (remote_handles (pm_cache b));
  bo_cache : remote_handles (pm_cache b) <> []
}.

Record machine_ok (ids : gmap nat Z) (m : Machine) : Prop := mkMachineOk {
  mo_names id seg : shm_names (m_shm m) !! id = Some seg -> ids !! seg = Some id;
  mo_segs seg r : shm_segs (m_shm m) !! seg = Some r -> exists id, ids !! seg = Some id /\ ring_ok id r;
  mo_ids seg id : ids !! seg = Some id -> is_Some (shm_segs (m_shm m) !! seg);
  mo_boxes k b : m_boxes m !! k = Some b -> box_ok ids b;
  mo_log : m_got m ++ pending ids (shm_segs (m_shm m)) ⊆+ cut <$> m_sent m
}.

(** ** The messages of all rings *)

Lemma pending_lookup ids segs seg r id :
  segs !! seg = Some r -> ids !! seg = Some id -> pending ids segs ≡ₚ notes id r ++ pending ids (delete seg segs).
Proof.
  intros Hs Hi. unfold pending. rewrite <- (map_to_list_delete segs seg r Hs). cbn. by rewrite Hi.
Qed.

Lemma pending_insert ids segs seg r id :
  ids !! seg = Some id -> pending ids (<[seg := r]> segs) ≡ₚ notes id r ++ pending ids (delete seg segs).
Proof.
  intros Hi. rewrite <- insert_delete_eq. unfold pending. rewrite map_to_list_insert by apply lookup_delete_eq.
  cbn. by rewrite Hi.
Qed.

Lemma pending_ext ids ids' segs :
  (forall seg r, segs !! seg = Some r -> ids' !! seg = ids !! seg) -> pending ids' segs = pending ids segs.
Proof.
  intros H. unfold pending.
  assert (forall sr, sr ∈ map_to_list segs -> ids' !! sr.1 = ids !! sr.1) as Hl.
  { intros [seg r] Hin%elem_of_map_to_list. by apply (H seg r). }
  clear H. induction (map_to_list segs) as [|sr l IH]; [done|]. cbn.
  rewrite (Hl sr) by (by left). f_equal. apply IH. intros sr' Hin. apply Hl. by right.
Qed.

Lemma allocate_ring_messages slots n : messages (allocate_ring slots n) = [].
Proof.
  apply no_used_messages. unfold allocate_ring, has_in_use_slot. cbn.
  by induction slots as [|slots IH].
Qed.

Lemma allocate_ring_ok id : sizes_ok -> ring_ok id (allocate_ring kSlots (size id)).
Proof.
  intros Hs. destruct (Hs id) as [H0 Hlt].
  assert (Z.of_nat (capacity (allocate_ring kSlots (size id))) = Z.of_nat kSlots) as Hc
    by (unfold capacity, allocate_ring; cbn [slot_meta]; by rewrite length_replicate).
  split.
  - split.
    + cbn. lia.
    + unfold allocate_ring, capacity. cbn [slot_data slot_meta slot_size]. by rewrite !length_replicate.
    + rewrite Hc. exact Hlt.
    + cbn. repeat constructor; cbn; try lia; unfold in_s; cbn; lia.
  - lia.
  - done.
  - rewrite allocate_ring_messages. constructor.
Qed.

Lemma pm_slot_size_ok b : sizes_ok -> cfg_max_msg_size (pm_config b) = size (pm_id b) -> pm_slot_size b = size (pm_id b).
Proof.
  intros Hs Hb. unfold pm_slot_size. rewrite Hb. destruct (Hs (pm_id b)). apply wrapu_id. unfold in_u.
  assert (1 <= Z.of_nat kSlots) by done. nia.
Qed.

(** ** Each operation keeps the machine in order *)

Lemma box_ok_mono ids ids' b : ids ⊆ ids' -> box_ok ids b -> box_ok ids' b.
Proof.
  intros Hsub [H1 H2 H3 H4]. split; [done| | |done].
  - intros Hc. destruct (H2 Hc) as (seg&Hb&Hi). exists seg. split; [done|]. by eapply lookup_weaken.
  - eapply List.Forall_impl; [|exact H3]. intros h Hh Hv. destruct (Hh Hv) as [Hd Hm]. split; [by eapply lookup_weaken|done].
Qed.

Lemma boxes_insert ids ids' (boxes : gmap nat PublicMailbox) k b :
  ids ⊆ ids' -> (forall k b, boxes !! k = Some b -> box_ok ids b) -> box_ok ids' b ->
  forall k' b', <[k := b]> boxes !! k' = Some b' -> box_ok ids' b'.
Proof.
  intros Hsub Hall Hb k' b' [[_ <-]|[_ Hk]]%lookup_insert_Some; [done|]. eapply box_ok_mono; [done|]. by eapply Hall.
Qed.

Lemma create_ok ids m k config :
  cfg_max_msg_size config = size (cfg_mailbox_id config) -> machine_ok ids m ->
  exists m', step (Create k config) m = Some m' /\ machine_ok ids m'.
Proof.
  intros Hc [Hn Hs Hi Hb Hl]. destruct m as [shm boxes sent got streams]. cbn in *.
  destruct (boxes !! k); [by eexists|]. eexists. split; [done|]. split; cbn; try done.
  eapply boxes_insert; [done|done|]. split; cbn; [done|done| |].
  - apply Forall_replicate. done.
  - unfold new_cache. cbn. destruct (0 <? cfg_max_remote_handles config) eqn:E; [|done].
    destruct (Z.to_nat (cfg_max_remote_handles config)) eqn:E'; [lia|done].
Qed.

Lemma crash_ok ids m k : machine_ok ids m -> exists m', step (Crash k) m = Some m' /\ machine_ok ids m'.
Proof.
  intros [Hn Hs Hi Hb Hl]. destruct m as [shm boxes sent got streams]. cbn in *. eexists. split; [done|]. split; cbn; try done.
  intros k' b [_ Hk]%lookup_delete_Some. by eapply Hb.
Qed.

Lemma stop_ok ids m k : machine_ok ids m -> exists m', step (Stop k) m = Some m' /\ machine_ok ids m'.
Proof.
  intros Hm. pose proof Hm as [Hn Hs Hi Hb Hl]. destruct m as [shm boxes sent got streams]. cbn in *.
  destruct (boxes !! k) as [b|] eqn:Hk; [|by eexists]. destruct (Hb k b Hk) as [H1 H2 H3 H4].
  unfold shutdown_public. destruct (pm_created b) eqn:Hc; cbn [negb].
  - eexists. split; [done|]. split; cbn.
    + intros id seg. destruct (pm_shm_base b); cbn; [|apply Hn]. intros [_ Hd]%lookup_delete_Some. by apply Hn.
    + by destruct (pm_shm_base b).
    + by destruct (pm_shm_base b).
    + eapply boxes_insert; [done|done|]. split; cbn; [done|done| |].
      * apply Forall_fmap, Forall_true. intros h. unfold close_remote. cbn. by destruct (rh_valid h) eqn:Ev; cbn; rewrite ?Ev.
      * by destruct (remote_handles (pm_cache b)).
    + by destruct (pm_shm_base b).
  - eexists. split; [done|]. split; cbn; try done. eapply boxes_insert; [done|done|].
    split; [done|by rewrite Hc|done..].
Qed.

(** [allocate_ring] finds the ring as it was left, or makes a new one. *)
Lemma allocate_shared_ok ids shm id :
  sizes_ok ->
  (forall id seg, shm_names shm !! id = Some seg -> ids !! seg = Some id) ->
  (forall seg r, shm_segs shm !! seg = Some r -> exists id, ids !! seg = Some id /\ ring_ok id r) ->
  (forall seg id, ids !! seg = Some id -> is_Some (shm_segs shm !! seg)) ->
  let '(seg, shm') := allocate_shared Mapped id (size id) shm in
  exists ids' s, seg = Some s /\ ids ⊆ ids' /\ ids' !! s = Some id /\
    (forall id seg, shm_names shm' !! id = Some seg -> ids' !! seg = Some id) /\
    (forall seg r, shm_segs shm' !! seg = Some r -> exists id, ids' !! seg = Some id /\ ring_ok id r) /\
    (forall seg id, ids' !! seg = Some id -> is_Some (shm_segs shm' !! seg)) /\
    pending ids' (shm_segs shm') ≡ₚ pending ids (shm_segs shm).
Proof.
  intros Hsz Hn Hs Hi. unfold allocate_shared. destruct (shm_names shm !! id) as [seg|] eqn:En.
  - pose proof (Hn _ _ En) as Hid. destruct (Hi _ _ Hid) as [r Hr]. destruct (Hs _ _ Hr) as (id'&Hid'&Hok). simplify_eq.
    rewrite Hr. cbn [default from_option]. unfold Datatypes.id.
    assert (mkRing (meta_found r) (resize (kSlots * Z.to_nat (size id)) 0 (slot_data r)) (size id) = r) as ->.
    { destruct Hok as [Hwf Hc Hsize _]. rewrite <- Hsize, <- Hc, <- (wf_data r Hwf), resize_all.
      unfold meta_found, capacity in *. by destruct r as [[|? ?] ? ?]. }
    rewrite insert_id by done. by exists ids, seg.
  - set (seg := fresh (dom (shm_segs shm))).
    assert (shm_segs shm !! seg = None) as Hseg by apply not_elem_of_dom, is_fresh.
    assert (ids !! seg = None) as Hid.
    { destruct (ids !! seg) as [id'|] eqn:E; [|done]. destruct (Hi _ _ E) as [r Hr]. congruence. }
    exists (<[seg := id]> ids), seg. cbn [shm_names shm_segs]. split; [done|]. split; [by apply insert_subseteq|]. split; [apply lookup_insert_eq|].
    split_and!.
    + intros id' seg' [[<- <-]|[Hne Hx]]%lookup_insert_Some; [apply lookup_insert_eq|].
      pose proof (Hn _ _ Hx) as Hx'. rewrite lookup_insert_ne by congruence. done.
    + intros seg' r [[<- <-]|[Hne Hx]]%lookup_insert_Some.
      * exists id. split; [apply lookup_insert_eq|by apply allocate_ring_ok].
      * destruct (Hs _ _ Hx) as (id'&?&?). exists id'. by rewrite lookup_insert_ne.
    + intros seg' id' [[<- <-]|[Hne Hx]]%lookup_insert_Some; [rewrite lookup_insert_eq; eauto|].
      rewrite lookup_insert_ne by done. by eapply Hi.
    + rewrite (pending_insert _ _ seg _ id) by apply lookup_insert_eq. unfold notes. rewrite allocate_ring_messages.
      cbn [fmap list_fmap app]. rewrite delete_id by done. rewrite (pending_ext ids); [done|].
      intros seg' r Hx. rewrite lookup_insert_ne by congruence. done.
Qed.

Lemma initialize_ok ids m k answer objects_ok xbuf :
  sizes_ok -> answer <> NoMapping -> machine_ok ids m ->
  exists ids' m', step (Initialize k answer objects_ok xbuf) m = Some m' /\ machine_ok ids' m'.
Proof.
  intros Hsz Hans Hm. pose proof Hm as [Hn Hs Hi Hb Hl]. destruct m as [shm boxes sent got streams]. cbn in *.
  destruct (boxes !! k) as [b|] eqn:Hk; [|by exists ids; eexists]. destruct (Hb k b Hk) as [H1 H2 H3 H4].
  unfold initialize_public. destruct (pm_created b) eqn:Hc.
  - exists ids. eexists. split; [done|]. split; cbn; try done. eapply boxes_insert; [done|done|].
    split; [done|by rewrite Hc|done..].
  - assert (forall streams, machine_ok ids (mkMachine shm (<[k := b]> boxes) sent got streams)) as Hfail.
    { intros streams'. split; cbn; try done. eapply boxes_insert; [done|done|]. split; [done|by rewrite Hc|done..]. }
    destruct answer; [exists ids; eexists; split; [reflexivity|apply Hfail]..|done|]. clear Hfail.
    rewrite (pm_slot_size_ok b Hsz H1). pose proof (allocate_shared_ok ids shm (pm_id b) Hsz Hn Hs Hi) as Ha.
    destruct (allocate_shared _ _ _) as [seg0 shm']. destruct Ha as (ids'&seg&->&Hsub&Hseg&Hn'&Hs'&Hi'&Hp).
    exists ids'. eexists. split; [done|]. split; cbn; try done.
    + eapply boxes_insert; [done|done|]. split; cbn; [done| | |done].
      * intros _. by exists seg.
      * apply (bo_handles ids' b), (box_ok_mono ids); [done|]. split; [done|by rewrite Hc|done..].
    + by rewrite Hp.
Qed.

(** The ring of a segment is replaced. *)
Lemma ring_replaced ids m k b seg id r sent got streams :
  machine_ok ids m -> box_ok ids b -> ids !! seg = Some id -> ring_ok id r ->
  got ++ notes id r ++ pending ids (delete seg (shm_segs (m_shm m))) ⊆+ cut <$> sent ->
  machine_ok ids (mkMachine (mkShm (shm_names (m_shm m)) (<[seg := r]> (shm_segs (m_shm m)))) (<[k := b]> (m_boxes m)) sent got streams).
Proof.
  intros [Hn Hs Hi Hb Hl] Hbox Hid Hr Hlog. split; cbn; try done.
  - intros seg' r' [[<- <-]|[_ Hx]]%lookup_insert_Some; [eauto|by apply Hs].
  - intros seg' id' Hx. destruct (Hi _ _ Hx). rewrite lookup_insert. case_decide; eauto.
  - by eapply boxes_insert.
  - by rewrite (pending_insert _ _ seg _ id).
Qed.

(** A box is replaced, and perhaps something is added to the log of sends. *)
Lemma box_replaced ids m k b (ring : bool) res n streams :
  machine_ok ids m -> box_ok ids b ->
  machine_ok ids (mkMachine (m_shm m) (<[k := b]> (m_boxes m)) (if ring then log_sent res n (m_sent m) else m_sent m) (m_got m) streams).
Proof.
  intros [Hn Hs Hi Hb Hl] Hbox. split; cbn; try done; [by eapply boxes_insert|].
  unfold log_sent. destruct ring; [|done]. case_decide; [|done]. cbn. by apply submseteq_cons.
Qed.

(** What a post leaves in the ring comes from the ring and the message. *)
Lemma posted_notes id cap new ms ok ms' priority :
  posted cap new ms ok ms' -> INT8_MIN < priority -> msg_priority new = priority ->
  Forall (fun msg => INT8_MIN < msg_priority msg) ms ->
  Forall (fun msg => INT8_MIN < msg_priority msg) ms' /\
  let f msg := mkNote id (msg_src msg) (msg_data msg) in
  (f <$> ms') ⊆+ (if (ok : bool) then f new :: (f <$> ms) else f <$> ms).
Proof.
  intros Hp Hpos <- Hall. destruct Hp as [ms' _ E|victim rest ms' _ E _ _ _ E'|_ _]; cbn zeta.
  - split; [rewrite E; by constructor|]. rewrite E. cbn. done.
  - rewrite E in Hall. apply list.Forall_cons in Hall as [_ Hall]. split; [rewrite E'; by constructor|].
    rewrite E', E. cbn. by apply submseteq_skip, submseteq_cons.
  - by split.
Qed.

Lemma count_sent_ok ids b : box_ok ids b -> box_ok ids (count_public_sent b).
Proof. by intros []. Qed.

Lemma set_xbuf_ok ids b x : box_ok ids b -> box_ok ids (set_xbuf x b).
Proof. by intros []. Qed.

Lemma set_poll_setup_ok ids b d : box_ok ids b -> box_ok ids (set_poll_setup d b).
Proof. by intros []. Qed.

Lemma count_received_ok ids b : box_ok ids b -> box_ok ids (count_public_received b).
Proof. by intros []. Qed.

(** The handle that a send uses leads to the ring of the destination, whole. *)
Lemma handles_kept ids m b evl_open dest :
  sizes_ok -> machine_ok ids m -> box_ok ids b ->
  let '(r, c) := get_or_open_remote evl_open (m_shm m) dest (pm_cache b) in
  box_ok ids (set_cache c b) /\
  forall h, r ≫= (remote_handles c !!.) = Some h ->
    exists ring, shm_segs (m_shm m) !! rh_shm_base h = Some ring /\ ids !! rh_shm_base h = Some dest /\ ring_ok dest ring /\
      rh_shm_size h = mapped_size (m_shm m) (rh_shm_base h).
Proof.
  intros Hsz [Hn Hs Hi Hb Hl] [H1 H2 H3 H4].
  assert (forall seg id r, shm_segs (m_shm m) !! seg = Some r -> ring_ok id r ->
    mapped_size (m_shm m) seg = (kSlots * Z.to_nat (size id))%nat) as Hmap.
  { intros seg id r Hr [_ Hc Hsize _]. unfold mapped_size. by rewrite Hr, Hc, Hsize. }
  pose proof (get_or_open_valid (handle_ok ids) evl_open (m_shm m) dest (pm_cache b)) as Hg.
  destruct (get_or_open_remote evl_open (m_shm m) dest (pm_cache b)) as [r c]. destruct Hg as (Hlen&Hall&Hr).
  - intros h u [? ?]. done.
  - intros seg u Hx. pose proof (Hn _ _ Hx) as Hid. destruct (Hi _ _ Hid) as [ring Hring].
    destruct (Hs _ _ Hring) as (id&Hid'&Hok). simplify_eq. split; [done|]. cbn. by eapply Hmap.
  - done.
  - split.
    + split; cbn; [done..|]. intros E. rewrite E in Hlen. cbn in Hlen. by destruct (remote_handles (pm_cache b)).
    + intros h Hh. destruct r as [i|]; [|done]. cbn in Hh. destruct (Hr i eq_refl) as (h'&Hh'&_&Hd&Hid&Hsize). simplify_eq.
      destruct (Hi _ _ Hid) as [ring Hring]. destruct (Hs _ _ Hring) as (id&Hid'&Hok). simplify_eq.
      exists ring. split_and!; [done..|]. rewrite Hsize. symmetry. by eapply Hmap.
Qed.

Lemma send_ok ids m k evl_open data dest priority :
  sizes_ok -> in_s 8 priority -> INT8_MIN < priority -> machine_ok ids m ->
  exists m', step (Send k evl_open data dest priority) m = Some m' /\ machine_ok ids m'.
Proof.
  intros Hsz Hp8 Hp Hm. pose proof Hm as [Hn Hs Hi Hb Hl]. destruct m as [shm boxes sent got streams]. cbn in *.
  destruct (boxes !! k) as [b|] eqn:Hk; [|by eexists]. pose proof (Hb k b Hk) as Hbox.
  unfold send_public, to_ring. destruct (_ || _).
  { eexists. split; [done|]. by apply (box_replaced ids (mkMachine shm boxes sent got streams)). }
  pose proof (handles_kept ids _ b evl_open dest Hsz Hm Hbox) as Hh. cbn in Hh.
  destruct (get_or_open_remote evl_open shm dest (pm_cache b)) as [rh c]. destruct Hh as [Hbox' Hh]. cbn [fst].
  destruct (rh ≫= (remote_handles c !!.)) as [h|] eqn:Eh.
  - rewrite (bool_decide_eq_true_2 (is_Some rh)) by (destruct rh; [eauto|done]). destruct (Hh h eq_refl) as (ring&Hr&Hid&[Hwf Hcap Hsize Hprio]&Hms).
    destruct (post_to_remote_whole h data priority (pm_id b) shm ring Hr Hwf Hms Hp8) as (ok&r'&E&Hwf'&Hcap'&Hsize'&Hpost).
    change (pm_id (set_cache c b)) with (pm_id b). rewrite E.
    destruct (posted_notes dest _ _ _ _ _ priority Hpost Hp eq_refl Hprio) as [Hprio' Hsub]. cbn zeta in Hsub. cbn in Hsub.
    assert (ring_ok dest r') as Hr' by (split; [done|congruence|congruence|done]).
    rewrite (pending_lookup _ _ _ ring dest) in Hl by done.
    assert (forall sent', (got ++ (if ok then [cut (mkNote dest (pm_id b) data)] else []) ++ notes dest ring ++
        pending ids (delete (rh_shm_base h) shm.(shm_segs)) ⊆+ cut <$> sent') ->
      got ++ notes dest r' ++ pending ids (delete (rh_shm_base h) shm.(shm_segs)) ⊆+ cut <$> sent') as Hlog.
    { intros sent' <-. apply submseteq_app; [done|]. rewrite (assoc_L (++)). apply submseteq_app; [|done].
      unfold notes, cut. cbn [n_dest n_src n_data]. rewrite <- Hsize. by destruct ok. }
    destruct ok; (eexists; split; [done|]).
    + apply (ring_replaced ids (mkMachine shm boxes sent got streams) k _ _ dest); [done|by apply count_sent_ok|done|done|].
      apply Hlog. unfold log_sent. rewrite decide_True by done. cbn. rewrite <- Permutation_middle. by apply submseteq_skip.
    + apply (ring_replaced ids (mkMachine shm boxes sent got streams) k _ _ dest); [done..|]. by apply Hlog.
  - destruct (sock_is_open _).
    + destruct (sys_send _ _) as [w x]. destruct (w =? zlen data); (eexists; split; [done|]);
        apply (box_replaced ids (mkMachine shm boxes sent got streams)); try done;
        [by apply count_sent_ok, set_xbuf_ok|by apply set_xbuf_ok].
    + eexists. split; [done|]. by apply (box_replaced ids (mkMachine shm boxes sent got streams)).
Qed.

(** A read of the ring by its owner takes one message from it, or none. *)
Lemma owner_reads b id r buffer_size :
  pm_slot_size b = size id -> ring_ok id r ->
  exists res r', ring_read buffer_size (own_view b r) = Some (res, r') /\
    mkRing (slot_meta r') (slot_data r) (slot_size r) = r' /\ ring_ok id r' /\
    match res with
    | RingMessage sm data => notes id r ≡ₚ mkNote id (sm_src sm) data :: notes id r'
    | _ => notes id r = notes id r'
    end.
Proof.
  intros Hs [Hwf Hc Hsize Hprio]. rewrite own_view_same by (done || congruence).
  destruct (ring_read_outcome buffer_size r Hwf) as (res&r'&E&Hwf'&Hc'&Ht).
  { destruct (messages r) as [|msg l]; [by left|right]. exists msg. apply list.Forall_cons in Hprio as [? _].
    split; [left|done]. }
  exists res, r'. destruct (ring_read_keeps _ _ _ _ E) as [Hd Hss].
  split; [done|]. split; [rewrite <- Hd, <- Hss; by destruct r'|].
  unfold notes. remember (messages r) as ms eqn:Ems. remember (messages r') as ms' eqn:Ems'.
  destruct Ht as [->|msg rest _ _ _|msg sm ms' Hms _ _ _ Hsrc].
  - split; [split; [done|congruence|congruence|by rewrite <- Ems']|done].
  - split; [split; [done|congruence|congruence|by rewrite <- Ems']|done].
  - rewrite Hms in Hprio. apply list.Forall_cons in Hprio as [_ Hprio].
    split; [split; [done|congruence|congruence|by rewrite <- Ems']|]. rewrite Hms. cbn. by rewrite Hsrc.
Qed.

Lemma receive_ok ids m k poll events buffer_size timeout_ns wait :
  sizes_ok -> machine_ok ids m ->
  exists m', step (Receive k poll events buffer_size timeout_ns wait) m = Some m' /\ machine_ok ids m'.
Proof.
  intros Hsz Hm. pose proof Hm as [Hn Hs Hi Hb Hl]. destruct m as [shm boxes sent got streams]. cbn in *.
  destruct (boxes !! k) as [b|] eqn:Hk; [|by eexists]. pose proof (Hb k b Hk) as Hbox.
  assert (forall b' streams, box_ok ids b' -> machine_ok ids (mkMachine shm (<[k := b']> boxes) sent got streams)) as Hsame.
  { intros b' streams' Hb'. by apply (box_replaced ids (mkMachine shm boxes sent got streams) k b' false ERROR_INIT (mkNote 0 0 [])). }
  unfold receive_public. destruct (pm_created b) eqn:Hc; cbn [negb].
  2:{ eexists. split; [done|]. by apply Hsame. }
  set (d := pm_poll_setup_done b || sock_is_open (pm_xbuf b)).
  assert (sock_is_open (pm_xbuf b) && d = sock_is_open (pm_xbuf b)) as Hd
    by (unfold d; destruct (sock_is_open (pm_xbuf b)); [by rewrite orb_true_r|done]).
  cbn [pm_xbuf set_poll_setup pm_poll_setup_done]. rewrite Hd. destruct (_ && (poll <=? 0)).
  { eexists. split; [done|]. by apply Hsame, set_poll_setup_ok. }
  unfold from_xbuf. destruct (if sock_is_open (pm_xbuf b) then _ else _) as [served xbuf] eqn:Ev.
  assert (sock_is_open (pm_xbuf b) && match (serve_events events buffer_size (pm_xbuf b)).1 with Some _ => true | None => false end
    = match served with Some _ => true | None => false end) as ->.
  { destruct (sock_is_open (pm_xbuf b)); [by rewrite Ev|]. by injection Ev as <- _. }
  assert (box_ok ids (set_xbuf xbuf (set_poll_setup d b))) as Hbox' by by apply set_xbuf_ok, set_poll_setup_ok.
  set (b1 := set_xbuf xbuf (set_poll_setup d b)) in *.
  destruct served as [[ret data]|].
  { eexists. split; [done|]. unfold log_got. destruct (xbuf_metadata _); cbn; by apply Hsame, count_received_ok. }
  destruct (bo_base ids b1 Hbox' Hc) as (seg&Hbase&Hid). rewrite Hbase.
  destruct (Hi _ _ Hid) as [r Hr]. destruct (Hs _ _ Hr) as (id&Hid'&Hok). rewrite Hid in Hid'. injection Hid' as <-. rewrite Hr.
  destruct (owner_reads b1 (pm_id b1) r buffer_size) as (res&r'&E&Hr'&Hok'&Hnotes);
    [by apply pm_slot_size_ok, (bo_size ids)|done|]. rewrite E, Hr'.
  rewrite (pending_lookup _ _ _ r (pm_id b1)) in Hl by done.
  change (pm_id b) with (pm_id b1).
  destruct res as [| |sm data]; cbn [received].
  1-2: eexists; (split; [done|]); unfold log_got;
    apply (ring_replaced ids (mkMachine shm boxes sent got streams) k _ _ (pm_id b1)); [done..|by rewrite <- Hnotes].
  eexists. split; [done|].
  apply (ring_replaced ids (mkMachine shm boxes sent got streams) k _ _ (pm_id b1)); [done|by apply count_received_ok|done|done|].
  rewrite Hnotes in Hl. cbn [app] in Hl. rewrite <- Permutation_middle in Hl. unfold log_got. cbn [negb andb m_src].
  destruct (0 <? sm_size sm); cbn [app]; [done|]. etransitivity; [|done]. by apply submseteq_cons.
Qed.

Lemma step_ok ids m e :
  sizes_ok -> consistent e -> machine_ok ids m -> exists ids' m', step e m = Some m' /\ machine_ok ids' m'.
Proof.
  intros Hsz He Hm. destruct e as [k c|k o x|k|k|k o data dest p|k n evs bsz t w]; cbn [consistent] in He.
  - destruct (create_ok ids m k c He Hm) as (m'&?&?). eauto.
  - by apply (initialize_ok ids).
  - destruct (stop_ok ids m k Hm) as (m'&?&?). eauto.
  - destruct (crash_ok ids m k Hm) as (m'&?&?). eauto.
  - destruct He as [Hp8 Hp]. destruct (send_ok ids m k o data dest p Hsz Hp8 Hp Hm) as (m'&?&?). eauto.
  - destruct (receive_ok ids m k n evs bsz t w Hsz Hm) as (m'&?&?). eauto.
Qed.

Lemma run_ok ids m es :
  sizes_ok -> Forall consistent es -> machine_ok ids m -> exists ids' m', run es m = Some m' /\ machine_ok ids' m'.
Proof.
  intros Hsz. revert ids m. induction es as [|e es IH]; intros ids m Hes Hm; [by exists ids, m|].
  apply list.Forall_cons in Hes as [He Hes]. destruct (step_ok ids m e Hsz He Hm) as (ids1&m1&E&Hm1).
  cbn [run]. rewrite E. by apply (IH ids1).
Qed.

Lemma no_machine_ok : machine_ok ∅ no_machine.
Proof. split; cbn; try done; intros *; by rewrite lookup_empty. Qed.

(** ** Delivery

    The receiver reads a ring that bears its name and is empty, and the sender may
    open it. *)
Record can_reach (m : Machine) (evl_open : Z -> bool) (t : PublicMailbox) : Prop := mkReach {
  cr_created : pm_created t = true;
  cr_ring : exists seg r, pm_shm_base t = Some seg /\ shm_names (m_shm m) !! pm_id t = Some seg /\
    shm_segs (m_shm m) !! seg = Some r /\ messages r = [];
  cr_open : evl_open (pm_id t) = true
}.

(** The handles that [b] keeps for the id of [t]: of the ring that [t] reads, or of
    others, which is what [get_or_open_remote] does not find out. *)
Definition handles_for (b t : PublicMailbox) : list RemoteHandle :=
  filter (fun h => rh_valid h = true /\ rh_dest_id h = pm_id t) (remote_handles (pm_cache b)).

Definition no_stale_handle (b t : PublicMailbox) : Prop :=
  Forall (fun h => Some (rh_shm_base h) = pm_shm_base t) (handles_for b t).

Definition only_stale_handles (b t : PublicMailbox) : Prop :=
  handles_for b t <> [] /\ Forall (fun h => Some (rh_shm_base h) <> pm_shm_base t) (handles_for b t).

Lemma own_handles b t seg :
  pm_shm_base t = Some seg -> no_stale_handle b t ->
  Forall (fun h => rh_valid h = true -> rh_dest_id h = pm_id t -> rh_shm_base h = seg) (remote_handles (pm_cache b)).
Proof.
  unfold no_stale_handle, handles_for. intros Hbase. rewrite !list.Forall_forall. intros H h Hin Hv Hd.
  assert (Some (rh_shm_base h) = pm_shm_base t) as E; [|congruence]. apply H. by apply list_elem_of_filter.
Qed.

(** With a handle to a ring that is not that of the receiver, a send leaves the
    receiver's as it is, whatever it reports. *)
Lemma stale_send ids m k b t evl_open data priority :
  sizes_ok -> machine_ok ids m -> m_boxes m !! k = Some b -> only_stale_handles b t -> in_s 8 priority ->
  exists m', step (Send k evl_open data (pm_id t) priority) m = Some m' /\
    forall seg, pm_shm_base t = Some seg -> shm_segs (m_shm m') !! seg = shm_segs (m_shm m) !! seg.
Proof.
  intros Hsz Hm Hk [Hne Hstale] Hp. pose proof (mo_boxes _ _ Hm k b Hk) as Hb.
  pose proof (handles_kept ids m b evl_open (pm_id t) Hsz Hm Hb) as Hh.
  assert (exists i h, get_or_open_remote evl_open (m_shm m) (pm_id t) (pm_cache b) = (Some i, touch i (pm_cache b)) /\
    remote_handles (pm_cache b) !! i = Some h /\ Some (rh_shm_base h) <> pm_shm_base t) as (i&h&Eg&Hi&Hseg).
  { unfold get_or_open_remote. destruct (find_handle _ 0 _) as [i|] eqn:Ef.
    - destruct (find_handle_some _ _ _ _ Ef) as (j&h&->&Hj&[Hv Hd%Z.eqb_eq]%andb_true_iff). cbn [Nat.add] in *.
      exists j, h. split_and!; [done|done|]. rewrite list.Forall_forall in Hstale. apply Hstale.
      apply list_elem_of_filter. split; [done|]. by eapply list_elem_of_lookup_2.
    - destruct Hne. unfold handles_for. apply find_handle_none in Ef. rewrite list.Forall_forall in Ef.
      apply elem_of_nil_inv. intros h [[Hv Hd] Hin]%list_elem_of_filter. apply Ef in Hin. rewrite Hv, Hd, Z.eqb_refl in Hin. done. }
  destruct m as [shm boxes sent got streams]. cbn in *. rewrite Hk. unfold send_public, to_ring. rewrite Eg in *. cbn [fst].
  destruct Hh as [_ Hh]. destruct (_ || _); [eexists; by split|]. cbn [mbind option_bind touch remote_handles] in *.
  rewrite list_lookup_alter_eq, Hi in *. cbn [fmap option_fmap option_map] in *. destruct (Hh _ eq_refl) as (ring&Hr&_&[Hwf _ _ _]&Hms).
  destruct (post_to_remote_whole _ data priority (pm_id (set_cache (touch i (pm_cache b)) b)) shm ring Hr Hwf Hms Hp)
    as (ok&r'&E&_). rewrite E.
  destruct ok; (eexists; split; [done|]); intros seg Hbase; cbn; apply lookup_insert_ne; congruence.
Qed.

Lemma send_arrives ids m k b t evl_open data priority :
  sizes_ok -> machine_ok ids m -> m_boxes m !! k = Some b -> box_ok ids t ->
  can_reach m evl_open t -> no_stale_handle b t -> 0 < zlen data <= cfg_max_msg_size (pm_config b) -> in_s 8 priority ->
  exists b' seg r', pm_shm_base t = Some seg /\ ring_wf r' /\ capacity r' = kSlots /\ slot_size r' = size (pm_id t) /\
    messages r' = [mkMsg priority (pm_id b) (take (Z.to_nat (size (pm_id t))) data)] /\
    send_public evl_open data (pm_id t) priority b (m_shm m) =
      Some (SUCCESS, b', mkShm (shm_names (m_shm m)) (<[seg := r']> (shm_segs (m_shm m)))) /\
    step (Send k evl_open data (pm_id t) priority) m = Some
      (mkMachine (mkShm (shm_names (m_shm m)) (<[seg := r']> (shm_segs (m_shm m)))) (<[k := b']> (m_boxes m))
         (mkNote (pm_id t) (pm_id b) data :: m_sent m) (m_got m) (m_streams m)).
Proof.
  intros Hsz Hm Hk Ht [_ (seg&r&Hbase&Hname&Hr&Hempty) Hopen] Hstale Hlen Hp.
  pose proof (mo_boxes _ _ Hm k b Hk) as Hb. pose proof (handles_kept ids m b evl_open (pm_id t) Hsz Hm Hb) as Hh.
  pose proof (get_or_open_reaches evl_open (m_shm m) (pm_id t) (pm_cache b) (mk_is_Some _ _ Hname) Hopen (bo_cache _ _ Hb)) as Hreach.
  assert (to_ring evl_open (pm_id t) b (m_shm m) = true) as Hto by apply bool_decide_eq_true_2, Hreach.
  pose proof (get_or_open_valid (fun h => rh_dest_id h = pm_id t -> rh_shm_base h = seg) evl_open (m_shm m) (pm_id t) (pm_cache b)) as Hg.
  assert (send_public evl_open data (pm_id t) priority b (m_shm m) =
    let '(rh, c) := get_or_open_remote evl_open (m_shm m) (pm_id t) (pm_cache b) in
    match rh ≫= (remote_handles c !!.) with
    | Some h =>
        match post_to_remote h data priority (pm_id b) (m_shm m) with
        | None => None
        | Some (ok, shm) =>
            Some (if (ok : bool) then (SUCCESS, count_public_sent (set_cache c b), shm) else (ERROR_SEND, set_cache c b, shm))
        end
    | None =>
        if sock_is_open (pm_xbuf b) then
          let '(w, s) := sys_send (pm_xbuf b) data in
          Some (if w =? zlen data then (SUCCESS, count_public_sent (set_xbuf s (set_cache c b)), m_shm m)
                else (ERROR_SEND, set_xbuf s (set_cache c b), m_shm m))
        else Some (ERROR_SEND, set_cache c b, m_shm m)
    end) as Esend.
  { unfold send_public. destruct (Z.eqb_spec (zlen data) 0); [lia|].
    destruct (Z.ltb_spec (cfg_max_msg_size (pm_config b)) (zlen data)); [lia|]. cbn [orb]. done. }
  destruct (get_or_open_remote _ _ _ _) as [rh c]. destruct Hh as [_ Hh]. destruct Hreach as [i Ei]. cbn in Ei. subst rh.
  destruct Hg as (_&_&Hg); [done|intros seg' u Hx _; cbn; congruence|by apply own_handles|].
  destruct (Hg i eq_refl) as (h&Hi&_&Hd&Hseg). specialize (Hseg Hd). cbn [mbind option_bind] in *. rewrite Hi in Esend.
  destruct (Hh h Hi) as (ring&Hring&_&[Hwf Hcap Hsize _]&Hms). rewrite Hseg in Hring, Hms. simplify_eq.
  destruct (post_to_remote_whole h data priority (pm_id b) (m_shm m) r Hr Hwf Hms Hp) as (ok&r'&E&Hwf'&Hcap'&Hsize'&Hpost).
  rewrite Hempty in Hpost. inversion Hpost as [ms' _ Hms'| |Hl Hor Heq]; subst; cbn in *; rewrite ?Hcap in *; [|done..].
  rewrite E in Esend. eexists _, (rh_shm_base h), r'. split_and!; [done|done|congruence|congruence| |exact Esend|].
  - symmetry in Hms'. apply Permutation_singleton_l in Hms'. by rewrite <- Hms', Hsize.
  - destruct m as [shm boxes sent got streams]. cbn in *. rewrite Hk, Esend, Hto. unfold log_sent. by rewrite decide_True.
Qed.

Lemma idle_receive_public shm t seg r msg buffer_size timeout_ns wait :
  sizes_ok -> cfg_max_msg_size (pm_config t) = size (pm_id t) ->
  pm_created t = true -> pm_shm_base t = Some seg -> shm_segs shm !! seg = Some r ->
  ring_wf r -> capacity r = kSlots -> slot_size r = size (pm_id t) -> messages r = [msg] ->
  INT8_MIN < msg_priority msg -> 0 < zlen (msg_data msg) <= buffer_size ->
  exists meta t' shm', receive_public 1 [FromRing] buffer_size timeout_ns wait t shm =
      Some (zlen (msg_data msg), msg_data msg, Some meta, t', shm') /\
    m_src meta = msg_src msg /\ m_dest meta = pm_id t.
Proof.
  intros Hsz Hcfg Hc Hbase Hr Hwf Hcap Hsize Hms Hp Hlen. unfold receive_public. rewrite Hc.
  cbn [negb pm_xbuf set_poll_setup pm_poll_setup_done]. rewrite andb_false_r.
  destruct (ring_read_single buffer_size r msg Hwf Hms Hp) as (sm&r'&E&_&_&Hsm&Hsrc); [lia|].
  assert (forall b', pm_config b' = pm_config t -> own_view b' r = r) as Hview.
  { intros b' Eb. apply own_view_same; [done..|]. unfold pm_slot_size. rewrite Eb, Hsize. symmetry. by apply pm_slot_size_ok. }
  destruct (sock_is_open (pm_xbuf t) && _); cbn [serve_events pm_shm_base set_xbuf set_poll_setup]; rewrite Hbase, Hr;
    rewrite Hview, E by done; cbn [received]; rewrite Hsm; (eexists _, _, _; split; [reflexivity|by split]).
Qed.

Lemma idle_receives m k t seg r msg buffer_size timeout_ns wait :
  sizes_ok -> m_boxes m !! k = Some t -> cfg_max_msg_size (pm_config t) = size (pm_id t) ->
  pm_created t = true -> pm_shm_base t = Some seg -> shm_segs (m_shm m) !! seg = Some r ->
  ring_wf r -> capacity r = kSlots -> slot_size r = size (pm_id t) -> messages r = [msg] ->
  INT8_MIN < msg_priority msg -> 0 < zlen (msg_data msg) <= buffer_size ->
  exists m', step (Receive k 1 [FromRing] buffer_size timeout_ns wait) m = Some m' /\
    m_sent m' = m_sent m /\ m_got m' = mkNote (pm_id t) (msg_src msg) (msg_data msg) :: m_got m.
Proof.
  intros Hsz Hk Hcfg Hc Hbase Hr Hwf Hcap Hsize Hms Hp Hlen.
  destruct (idle_receive_public (m_shm m) t seg r msg buffer_size timeout_ns wait) as (meta&t'&shm'&E&Hsrc&_); [done..|].
  destruct m as [shm boxes sent got streams]. cbn in *. rewrite Hk, E.
  assert (from_xbuf [FromRing] buffer_size t = false) as -> by (unfold from_xbuf; cbn; apply andb_false_r).
  eexists. split; [done|]. split; [done|]. cbn. destruct (Z.ltb_spec 0 (zlen (msg_data msg))); [by rewrite Hsrc|lia].
Qed.
End sizes.

(** C29. Whatever the mailboxes of a machine do - starting, with the kernel failing
    anywhere but at a mapping, stopping, sending and receiving in any order, crashes
    and restarts, two mailboxes of one id - as long as the mailboxes of an id all
    have the same size and every send has a priority above -128: no access leaves a
    ring; the messages received from the rings are, each at most once, messages that
    were sent to this mailbox by the sender they name and reported as sent, cut to
    the size of the receiver; and what a mailbox receives from its xbuf is the bytes
    that the xbuf delivers, in order, with none left out.
    From every state that can be reached, a message to an idle receiver arrives
    ([send_raw] reports success and the next receive gives its bytes, up to the size
    of the receiver) if the sender can open its ring and has no handle to a former
    ring of the same id in its cache.  If all that it has there are handles to former
    rings, the ring of the receiver stays as it is, whatever [send_raw] reports. *)
Theorem public_messages size es :
  sizes_ok size -> Forall (consistent size) es ->
  exists m, run es no_machine = Some m /\
    m_got m ⊆+ cut size <$> m_sent m /\
    (forall k all got, m_streams m !! k = Some (all, got) -> exists rest, all = got ++ rest) /\
    (forall k b, m_boxes m !! k = Some b -> sock_is_open (pm_xbuf b) = true ->
       exists got, m_streams m !! k = Some (got ++ sk_rx (pm_xbuf b), got)) /\
    forall k b kt t evl_open data priority,
      m_boxes m !! k = Some b -> m_boxes m !! kt = Some t -> k <> kt -> in_s 8 priority -> INT8_MIN < priority ->
      (can_reach m evl_open t -> no_stale_handle b t -> 0 < zlen data <= cfg_max_msg_size (pm_config b) ->
       forall buffer_size timeout_ns wait, size (pm_id t) <= buffer_size ->
         exists m', run [Send k evl_open data (pm_id t) priority; Receive kt 1 [FromRing] buffer_size timeout_ns wait] m = Some m' /\
           m_sent m' = mkNote (pm_id t) (pm_id b) data :: m_sent m /\
           m_got m' = mkNote (pm_id t) (pm_id b) (take (Z.to_nat (size (pm_id t))) data) :: m_got m) /\
      (only_stale_handles b t ->
       exists m', step (Send k evl_open data (pm_id t) priority) m = Some m' /\
         forall seg, pm_shm_base t = Some seg -> shm_segs (m_shm m') !! seg = shm_segs (m_shm m) !! seg).
Proof.
  intros Hsz Hes. destruct (run_ok size ∅ no_machine es Hsz Hes (no_machine_ok size)) as (ids&m&Hrun&Hm).
  destruct (run_streams es no_machine m no_machine_streams Hrun) as [Hprefix Hopen].
  exists m. split; [done|]. split.
  { etransitivity; [|apply (mo_log _ _ _ Hm)]. apply submseteq_inserts_r. done. }
  split; [done|]. split; [done|]. intros k b kt t evl_open data priority Hk Hkt Hne Hp8 Hp.
  split; [|intros Hstale; by apply (stale_send size ids m k b t evl_open data priority)]. intros Hreach Hstale Hlen buffer_size timeout_ns wait Hbuf.
  pose proof (mo_boxes _ _ _ Hm kt t Hkt) as Ht. destruct (Hsz (pm_id t)) as [Hpos _].
  destruct (send_arrives size ids m k b t evl_open data priority) as (b'&seg&r'&Hbase&Hwf&Hcap&Hsize&Hms&_&Es); [done..|].
  cbn [run]. rewrite Es. cbn [mbind option_bind].
  match type of Es with _ = Some ?m1 => set (m1' := m1) in * end.
  destruct (idle_receives size m1' kt t seg r' (mkMsg priority (pm_id b) (take (Z.to_nat (size (pm_id t))) data))
    buffer_size timeout_ns wait Hsz) as (m'&Er&Hsent&Hgot);
    [cbn; by rewrite lookup_insert_ne|apply (bo_size _ _ _ Ht)|apply Hreach|done|apply lookup_insert_eq|done..| |].
  - cbn [msg_data]. unfold zlen in *. rewrite length_take. lia.
  - exists m'. rewrite Er. done.
Qed.

(** ** What the conditions are for

    The ring of a crashed mailbox is found again with its messages, and is resized
    in place.  If the new instance has a larger size, a sender that mapped the old
    ring writes past its mapping; if it has a smaller one, the new instance reads
    a message of its predecessor past its own.  (An access past the bytes that were
    mapped: the kernel maps whole pages, so that a short one may go unnoticed.) *)
Definition config_of (id size : Z) : IpcConfig := mkConfig [] id size 5 true 2.

Definition restart (old new : Z) (first : bytes) : list event :=
  [Create 0 (config_of 10 64); Create 1 (config_of 20 old); Initialize 1 Mapped true (Some sample_xbuf);
   Send 0 yes first 20 5; Crash 1; Create 1 (config_of 20 new); Initialize 1 Mapped true (Some sample_xbuf)].

Theorem resized_restart :
  is_Some (run (restart 4 64 [1]) no_machine) /\
  run (restart 4 64 [1] ++ [Send 0 yes (replicate 64 7) 20 5]) no_machine = None /\
  is_Some (run (restart 64 4 (replicate 64 7)) no_machine) /\
  run (restart 64 4 (replicate 64 7) ++ [Receive 1 1 [FromRing] 64 0 (-110)]) no_machine = None.
Proof. split_and!; [vm_compute; eauto|vm_compute; reflexivity|vm_compute; eauto|vm_compute; reflexivity]. Qed.

(** A segment that was sized but not mapped keeps its name: a sender maps it as a
    ring without slots, and posts past that mapping once the mailbox initialised
    again. *)
Lemma unformatted_segment :
  let failed := [Create 0 (config_of 10 64); Create 1 (config_of 20 64); Initialize 1 NoMapping true None;
                 Send 0 yes [1] 20 5; Initialize 1 Mapped true (Some sample_xbuf)] in
  (exists m, run failed no_machine = Some m /\ m_sent m = []) /\ run (failed ++ [Send 0 yes [1] 20 5]) no_machine = None.
Proof. split; [eexists; split; vm_compute; reflexivity|vm_compute; reflexivity]. Qed.

(** With the priority -128 in an otherwise empty ring, the receive looks at the slot
    before the first. *)
Lemma lowest_priority :
  run [Create 0 (config_of 10 64); Create 1 (config_of 20 64); Initialize 1 Mapped true (Some sample_xbuf);
       Send 0 yes [1] 20 (-128); Receive 1 1 [FromRing] 64 0 (-110)] no_machine = None.
Proof. vm_compute. reflexivity. Qed.

(** ** Witness: mailbox 20 with slots of 4 bytes, read once from its ring and once
    from its xbuf, and then sent to again; and the same after it restarted. *)

Definition sample_size (id : Z) : Z := if id =? 20 then 4 else 64.

Definition sample_run : list event :=
  [Create 0 (config_of 10 64); Create 1 (config_of 20 4); Initialize 1 Mapped true (Some (sock_of_fd 9 [51; 52; 53] [] [2]));
   Send 0 yes [1; 2; 3; 4; 5; 6] 20 5; Receive 1 1 [FromRing] 64 0 (-110); Receive 1 1 [FromXbuf] 64 0 (-110)].

Definition restarted_run : list event := sample_run ++ [Stop 1; Initialize 1 Mapped true (Some sample_xbuf)].

Definition machine_after (es : list event) : Machine := default no_machine (run es no_machine).
Definition box_after (es : list event) (k : nat) : PublicMailbox :=
  default (new_public (config_of 0 0)) (m_boxes (machine_after es) !! k).

Lemma public_messages_witness :
  (exists m m', run sample_run no_machine = Some m /\ m_got m = [mkNote 20 10 [1; 2; 3; 4]] /\
    m_got m ⊆+ cut sample_size <$> m_sent m /\ m_streams m !! 1%nat = Some ([51; 52; 53], [51; 52]) /\
    run [Send 0 yes [7; 8] 20 5; Receive 1 1 [FromRing] 64 0 (-110)] m = Some m' /\
    m_got m' = [mkNote 20 10 [7; 8]; mkNote 20 10 [1; 2; 3; 4]]) /\
  exists m m', run restarted_run no_machine = Some m /\ step (Send 0 yes [7; 8] 20 5) m = Some m' /\
    shm_segs (m_shm m') !! 1%nat = shm_segs (m_shm m) !! 1%nat /\ m_sent m' = mkNote 20 10 [7; 8] :: m_sent m.
Proof.
  assert (sizes_ok sample_size) as Hsz.
  { intros id. unfold sample_size. destruct (id =? 20); done. }
  assert (Forall (consistent sample_size) sample_run /\ Forall (consistent sample_size) restarted_run) as [Hes Hes'].
  { split; repeat constructor; cbn; unfold in_s, INT8_MIN; cbn; (lia || done). }
  split.
  - destruct (public_messages sample_size sample_run Hsz Hes) as (m&Hrun&Hlog&_&Hopen&Hsend).
    assert (m = machine_after sample_run) as -> by (unfold machine_after; by rewrite Hrun).
    assert (m_got (machine_after sample_run) = [mkNote 20 10 [1; 2; 3; 4]]) as Hgot by (vm_compute; reflexivity).
    assert (m_streams (machine_after sample_run) !! 1%nat = Some ([51; 52; 53], [51; 52])) as Hstream by (vm_compute; reflexivity).
    destruct (Hsend 0%nat (box_after sample_run 0) 1%nat (box_after sample_run 1) yes [7; 8] 5) as [Harrives _];
      [vm_compute; reflexivity|vm_compute; reflexivity|done|by_compute..|].
    destruct Harrives with (buffer_size := 64) (timeout_ns := 0) (wait := -110) as (m'&Hrun'&_&Hgot'); [| |by_compute|by_compute|].
    + split; [vm_compute; reflexivity| |vm_compute; reflexivity].
      exists (default 0%nat (pm_shm_base (box_after sample_run 1))), (default (allocate_ring 0 0)
        (shm_segs (m_shm (machine_after sample_run)) !! default 0%nat (pm_shm_base (box_after sample_run 1)))).
      split_and!; vm_compute; reflexivity.
    + repeat constructor.
    + exists (machine_after sample_run), m'. split; [exact Hrun|]. split; [exact Hgot|]. split; [exact Hlog|].
      split; [exact Hstream|]. split; [exact Hrun'|]. rewrite Hgot', Hgot. vm_compute. reflexivity.
  - destruct (public_messages sample_size restarted_run Hsz Hes') as (m&Hrun&_&_&_&Hsend).
    assert (m = machine_after restarted_run) as -> by (unfold machine_after; by rewrite Hrun).
    destruct (Hsend 0%nat (box_after restarted_run 0) 1%nat (box_after restarted_run 1) yes [7; 8] 5) as [_ Hstale];
      [vm_compute; reflexivity|vm_compute; reflexivity|done|by_compute..|].
    destruct Hstale as (m'&Hstep&Hkept).
    + split; [vm_compute; discriminate|]. repeat constructor. vm_compute. discriminate.
    + exists (machine_after restarted_run), m'. split; [exact Hrun|]. split; [exact Hstep|].
      split; [apply Hkept; vm_compute; reflexivity|]. revert Hstep. vm_compute. by intros [= <-].
Defined.
End Machine.

(** ** A public mailbox beside local ones

    The whole of [send_raw] in [Mode::Public]: the mailboxes that the process has
    registered, which are the local ones, come first. *)
Module Shortcut.

Definition send_raw (evl_open : Z -> bool) (data : bytes) (dest priority : Z) (b : PublicMailbox) (p : Process) (shm : Shm)
    : option (IpcResult * PublicMailbox * Process * Shm) :=
  let elsewhere :=
    match send_public evl_open data dest priority b shm with
    | None => None
    | Some (res, b, shm) => Some (res, b, p, shm)
    end in
  if (zlen data =? 0) || (cfg_max_msg_size (pm_config b) <? zlen data) then Some (ERROR_INVALID_MSG, b, p, shm)
  else
    match Registry.registry_find dest (p_table p) with
    | None => elsewhere
    | Some target =>
        match p_boxes p !! target with
        | None => None
        | Some t =>
            if negb ((box_id t =? dest) && b_created t) then elsewhere
            else
              match post_to target data priority (pm_id b) p with
              | None => None
              | Some (ok, p) => Some (if (ok : bool) then (SUCCESS, count_public_sent b, p, shm) else (ERROR_SEND, b, p, shm))
              end
        end
    end.

(** A message for an idle local mailbox of the process arrives there, whole, and
    never in the shared memory, even where a public mailbox of another process
    has the same id.  A message for nobody in the process goes the way of
    EvlRemote.v. *)
Theorem shortcut_first evl_open data dest priority b p shm :
  (forall target t r buffer_size timeout_ns wait,
     Registry.registry_find dest (p_table p) = Some target -> p_boxes p !! target = Some t ->
     box_id t = dest -> b_created t = true -> b_ring t = Some r -> ring_wf r -> messages r = [] -> (0 < capacity r)%nat ->
     0 < zlen data <= cfg_max_msg_size (pm_config b) -> zlen data <= slot_size r -> zlen data <= buffer_size ->
     in_s 8 priority -> INT8_MIN < priority ->
     exists p' p'' meta, send_raw evl_open data dest priority b p shm = Some (SUCCESS, count_public_sent b, p', shm) /\
       receive_local target buffer_size timeout_ns wait p' = Some (zlen data, data, Some meta, p'') /\
       m_src meta = pm_id b /\ m_dest meta = dest) /\
  (Registry.registry_find dest (p_table p) = None ->
     send_raw evl_open data dest priority b p shm =
     match send_public evl_open data dest priority b shm with
     | None => None
     | Some (res, b, shm) => Some (res, b, p, shm)
     end).
Proof.
  split.
  - intros target t r buffer_size timeout_ns wait Hf Ht Hid Hc Hr Hwf Hm Hcap Hlen Hfit Hbuf Hp8 Hp.
    destruct (post_empty data priority (pm_id b) r Hwf Hm Hcap Hp8 Hfit) as (r1&E&Hwf1&Hm1).
    destruct (ring_read_single buffer_size r1 _ Hwf1 Hm1) as (sm&r2&Er&_&_&Hsm&Hsrc); [done|cbn; lia|].
    unfold send_raw, post_to, receive_local. rewrite Hf, Ht. cbn [mbind option_bind]. rewrite Hr, E, Hid, Hc, Z.eqb_refl.
    destruct (Z.eqb_spec (zlen data) 0); [lia|]. destruct (Z.ltb_spec (cfg_max_msg_size (pm_config b)) (zlen data)); [lia|].
    cbn [orb andb negb]. eexists _, _, _. split; [done|]. unfold update_box. cbn [p_boxes].
    rewrite lookup_alter_eq, Ht. cbn [fmap option_fmap option_map set_ring b_created b_ring]. rewrite Hc. cbn [negb].
    rewrite Er. cbn [received]. rewrite Hsm. split; [reflexivity|]. by split.
  - intros Hf. unfold send_raw. rewrite Hf. unfold send_public. by destruct (_ || _).
Qed.

(** Mailbox 20 is local in the process of the sender, and public in another. *)
Lemma shortcut_first_witness :
  let t := set_ring (Some (allocate_ring 10 8)) (set_created true (new_box (Machine.config_of 20 8) Local (mkNet 0 [] 0))) in
  let p := mkProc {[ 5%nat := t ]} (Registry.registry_insert 20 (Some 5%nat) Registry.registry_table) in
  exists p' p'' meta, send_raw yes [1; 2; 3] 20 5 alice p two_rings = Some (SUCCESS, count_public_sent alice, p', two_rings) /\
    receive_local 5 64 0 (-110) p' = Some (3, [1; 2; 3], Some meta, p'') /\ m_src meta = 10 /\ m_dest meta = 20.
Proof.
  intros t p. destruct (shortcut_first yes [1; 2; 3] 20 5 alice p two_rings) as [Hlocal _].
  apply (Hlocal 5%nat t (allocate_ring 10 8) 64 0 (-110)); try by_compute; try (vm_compute; reflexivity).
  split; [done|done|done|]. by_compute.
Defined.
End Shortcut.
