(* ===== verification/EvlNetwork.v ===== *)
(** * Mailboxes of several hosts on a network

    Runs of [Mode::Network] mailboxes (EvlMailbox.v) on all hosts of a network.
    A process runs on a host; a mailbox binds its socket to a port of that host.
    A datagram that is sent stays in the network, which may hand it to the socket
    at its address now, later, several times or never.  Then: who can receive
    what was sent to whom, when a message arrives, and the way of a typed
    message. *)

From Stdlib Require Import ZArith Lia.
From stdpp Require Import base list gmap sets fin_maps numbers.
From S2P Require Import Prelude IpcTypes EvlRegistry EvlRing EvlMailbox EvlProcess.

#[local] Open Scope Z_scope.

Import Registry Ring EvlBox.

Module OobNet.

(** An address is that of a host and a port.  The sender and the destination that
    it asked for are not in the datagram; statements refer to them. *)
Record Datagram := mkDgram { dg_addr : Z * Z; dg_data : bytes; dg_src : Z; dg_dest : Z }.

(** What a call of [receive_impl] delivered, to which mailbox. *)
Record receipt := mkReceipt { rc_id : Z; rc_data : bytes; rc_meta : option TimsMetadata }.

Record NetState := mkNetState {
  processes : gmap nat Process;
  bound : gmap (Z * Z) (nat * nat);        (* the mailbox object whose socket has the address *)
  soup : list Datagram;
  receipts : list receipt
}.

Definition no_net : NetState := mkNetState ∅ ∅ [] [].

(** What the programs do.  The object [p] of process [i]; [Receive] has a buffer
    of [size] bytes. *)
Inductive action :=
  | Start (i : nat)
  | Crash (i : nat)
  | New (i p : nat) (config : IpcConfig) (net : EvlNetworkConfig)
  | Initialize (i p : nat)
  | Shutdown (i p : nat)
  | Destroy (i p : nat)
  | Send (i p : nat) (data : bytes) (dest : Z)
  | Receive (i p : nat) (size : Z).

(** The most that a datagram carries in IPv4. *)
Definition udp_max : Z := 65507.

Section net.
Context (inet_pton : bytes -> option Z) (address : nat -> Z).

(** [bind] to a port that is not in use; to port 0, the system chooses one. *)
Inductive binds (bs : gmap (Z * Z) (nat * nat)) (ip : Z) : Z -> Z -> Prop :=
  | bind_port want : want <> 0 -> bs !! (ip, want) = None -> binds bs ip want want
  | bind_any port : in_u 16 port -> port <> 0 -> bs !! (ip, port) = None -> binds bs ip 0 port.

Lemma binds_wanted bs ip want port : binds bs ip want port -> want <> 0 -> port = want /\ bs !! (ip, want) = None.
Proof. by destruct 1. Qed.

Definition set_process (i : nat) (w : Process) (n : NetState) : NetState :=
  mkNetState (<[i := w]> (processes n)) (bound n) (soup n) (receipts n).

Definition set_bound (bs : gmap (Z * Z) (nat * nat)) (n : NetState) : NetState :=
  mkNetState (processes n) bs (soup n) (receipts n).

Definition put_soup (d : Datagram) (n : NetState) : NetState :=
  mkNetState (processes n) (bound n) (d :: soup n) (receipts n).

Definition put_receipt (r : receipt) (n : NetState) : NetState :=
  mkNetState (processes n) (bound n) (soup n) (r :: receipts n).

(** The sockets that stay open when those of [P] are closed. *)
Definition close_where (P : nat * nat -> Prop) `{forall o, Decision (P o)} (bs : gmap (Z * Z) (nat * nat)) :
    gmap (Z * Z) (nat * nat) :=
  filter (fun kv => ~ P kv.2) bs.

(** [shutdown] closes the socket of a mailbox that was initialised. *)
Definition close_socket (i p : nat) (w : Process) (bs : gmap (Z * Z) (nat * nat)) : gmap (Z * Z) (nat * nat) :=
  match p_boxes w !! p with
  | Some b => if b_created b then close_where (fun o => o = (i, p)) bs else bs
  | None => bs
  end.

(** The answers of the system are chosen by the rules. *)
Inductive net_step : action -> NetState -> NetState -> Prop :=
  | step_start i n :
      processes n !! i = None ->
      net_step (Start i) n (set_process i proc_initial n)
  | step_crash i n :
      net_step (Crash i) n
        (mkNetState (delete i (processes n)) (close_where (fun o => o.1 = i) (bound n)) (soup n) (receipts n))
  | step_new i p config net n w :
      processes n !! i = Some w -> p_boxes w !! p = None ->
      net_step (New i p config net) n
        (set_process i (mkProc (<[p := new_box config Network net]> (p_boxes w)) (p_table w)) n)
  | step_bound i p n w b fd port :
      processes n !! i = Some w -> p_boxes w !! p = Some b -> b_created b = false ->
      0 <= fd -> binds (bound n) (address i) (port_for (box_id b)) port ->
      net_step (Initialize i p) n
        (set_bound (<[(address i, port) := (i, p)]> (bound n))
           (set_process i (initialize inet_pton p true true (Some fd) w).2 n))
  | step_unbound i p n w :
      processes n !! i = Some w ->
      net_step (Initialize i p) n (set_process i (initialize inet_pton p true true None w).2 n)
  | step_shutdown i p n w :
      processes n !! i = Some w ->
      net_step (Shutdown i p) n (set_bound (close_socket i p w (bound n)) (set_process i (shutdown p w) n))
  | step_destroy i p n w :
      processes n !! i = Some w ->
      net_step (Destroy i p) n (set_bound (close_socket i p w (bound n)) (set_process i (destroy p w) n))
  | step_sent i p data dest sendmsg addr n w b w' :
      processes n !! i = Some w -> p_boxes w !! p = Some b ->
      EvlBox.send p data dest sendmsg false w = Some (SUCCESS, w') ->
      (send_oob_udp dest sendmsg b).1.2 = Some addr -> zlen data <= udp_max ->
      net_step (Send i p data dest) n (put_soup (mkDgram addr data (box_id b) dest) (set_process i w' n))
  | step_refused i p data dest sendmsg n w res w' :
      processes n !! i = Some w ->
      EvlBox.send p data dest sendmsg false w = Some (res, w') -> res <> SUCCESS ->
      net_step (Send i p data dest) n (set_process i w' n)
  | step_received i p size d n w b ret data meta w' :
      processes n !! i = Some w -> p_boxes w !! p = Some b ->
      d ∈ soup n -> bound n !! dg_addr d = Some (i, p) ->
      data = take (Z.to_nat size) (dg_data d) ->
      receive_network p (zlen data) data w = Some (ret, data, meta, w') -> 0 < ret ->
      net_step (Receive i p size) n (put_receipt (mkReceipt (box_id b) data meta) (set_process i w' n))
  | step_nothing i p size ret n w ret' meta w' :
      processes n !! i = Some w -> ret <= 0 ->
      receive_network p ret [] w = Some (ret', [], meta, w') ->
      net_step (Receive i p size) n (set_process i w' n).

Inductive net_run : list action -> NetState -> NetState -> Prop :=
  | run_nil n : net_run [] n n
  | run_cons a l n n1 n2 : net_step a n n1 -> net_run l n1 n2 -> net_run (a :: l) n n2.

(** ** Execution

    The choices of the system as an argument: what a new socket is and its port,
    the answer of [oob_sendmsg], which datagram arrives. *)
Inductive choice := NoChoice | Sock (fd port : Z) | NoSock | Sendmsg (ret : Z) | Arrives (k : nat).

Definition net_exec (a : action) (c : choice) (n : NetState) : option NetState :=
  match a, c with
  | Start i, _ => guard (processes n !! i = None);; Some (set_process i proc_initial n)
  | Crash i, _ =>
      Some (mkNetState (delete i (processes n)) (close_where (fun o => o.1 = i) (bound n)) (soup n) (receipts n))
  | New i p config net, _ =>
      w ← processes n !! i; guard (p_boxes w !! p = None);;
      Some (set_process i (mkProc (<[p := new_box config Network net]> (p_boxes w)) (p_table w)) n)
  | Initialize i p, Sock fd port =>
      w ← processes n !! i; b ← p_boxes w !! p;
      guard (b_created b = false /\ 0 <= fd /\ port_for (box_id b) = port /\ port <> 0 /\ bound n !! (address i, port) = None);;
      Some (set_bound (<[(address i, port) := (i, p)]> (bound n))
              (set_process i (initialize inet_pton p true true (Some fd) w).2 n))
  | Initialize i p, _ => w ← processes n !! i; Some (set_process i (initialize inet_pton p true true None w).2 n)
  | Shutdown i p, _ =>
      w ← processes n !! i; Some (set_bound (close_socket i p w (bound n)) (set_process i (shutdown p w) n))
  | Destroy i p, _ =>
      w ← processes n !! i; Some (set_bound (close_socket i p w (bound n)) (set_process i (destroy p w) n))
  | Send i p data dest, Sendmsg ret =>
      w ← processes n !! i; b ← p_boxes w !! p;
      '(res, w') ← EvlBox.send p data dest ret false w; addr ← (send_oob_udp dest ret b).1.2;
      guard (res = SUCCESS /\ zlen data <= udp_max);;
      Some (put_soup (mkDgram addr data (box_id b) dest) (set_process i w' n))
  | Receive i p size, Arrives k =>
      w ← processes n !! i; b ← p_boxes w !! p; d ← soup n !! k; guard (bound n !! dg_addr d = Some (i, p));;
      let data := take (Z.to_nat size) (dg_data d) in
      '(ret, got, meta, w') ← receive_network p (zlen data) data w; guard (0 < ret /\ got = data);;
      Some (put_receipt (mkReceipt (box_id b) data meta) (set_process i w' n))
  | _, _ => None
  end.

Lemma net_exec_sound a c n n' : net_exec a c n = Some n' -> net_step a n n'.
Proof.
  intros H. destruct a, c; cbn in H; simplify_option_eq; try by econstructor.
  1: destruct_and!; subst; eapply step_bound; [done..|by apply bind_port].
  all: repeat case_match; simplify_option_eq; destruct_and?; subst;
    first [by eapply step_sent|eapply step_received; by eauto using list_elem_of_lookup_2].
Qed.

Fixpoint net_exec_run (l : list (action * choice)) (n : NetState) : option NetState :=
  match l with
  | [] => Some n
  | (a, c) :: l => net_exec a c n ≫= net_exec_run l
  end.

Lemma net_exec_run_sound l n n' : net_exec_run l n = Some n' -> net_run l.*1 n n'.
Proof.
  revert n. induction l as [|[a c] l IH]; intros n H; cbn in H; [injection H as <-; apply run_nil|].
  destruct (net_exec a c n) as [n1|] eqn:E; [|done]. eapply run_cons; [by eapply net_exec_sound|by apply IH].
Qed.

(** ** A network with a plan

    [host] gives the address of the host with a system id, [ids] are the mailbox
    ids that are used, as names of mailboxes or as destinations. *)
Context (host : Z -> Z) (ids : Z -> Prop).

(** No mailbox gets port 0, and the ids on a host differ in their low 15 bits. *)
Record plan : Prop := mkPlan {
  plan_port id : ids id -> Z.land id 32767 <> 23536;
  plan_distinct id id' : ids id -> ids id' ->
    host (system_id_of id) = host (system_id_of id') -> Z.land id 32767 = Z.land id' 32767 -> id = id'
}.

(** The routes that [create_oob_socket] looks at. *)
Definition route_used (net : EvlNetworkConfig) (k : nat) (r : Route) (ip : Z) : Prop :=
  Z.of_nat k < Z.min (route_count net) kMaxRoutes /\ routes net !! k = Some r /\ inet_pton (rt_ip r) = Some ip.

Definition net_right (net : EvlNetworkConfig) : Prop :=
  forall k r ip, route_used net k r ip -> ip = host (rt_system_id r).

Definition planned (a : action) : Prop :=
  match a with
  | New i _ config net =>
      ids (cfg_mailbox_id config) /\ address i = host (system_id_of (cfg_mailbox_id config)) /\ net_right net
  | Send _ _ _ dest => ids dest
  | _ => True
  end.

Lemma port_for_wraps id : port_for id = (42000 + Z.land id 32767) mod 65536 /\ 0 <= Z.land id 32767 < 32768.
Proof.
  split; [done|]. change 32767 with (Z.ones 15). rewrite Z.land_ones by lia. apply Z.mod_pos_bound. lia.
Qed.

Lemma port_for_zero id : port_for id = 0 <-> Z.land id 32767 = 23536.
Proof. destruct (port_for_wraps id) as [-> ?]. Z.to_euclidean_division_equations. lia. Qed.

Lemma port_for_inj id id' : port_for id = port_for id' -> Z.land id 32767 = Z.land id' 32767.
Proof.
  destruct (port_for_wraps id) as [-> ?], (port_for_wraps id') as [-> ?]. Z.to_euclidean_division_equations. lia.
Qed.

(** ** What holds in every state *)

Definition box_at (n : NetState) (o : nat * nat) : option EvlMailbox := processes n !! o.1 ≫= fun w => p_boxes w !! o.2.

Definition entry (r : Route) (ip : Z) : NetworkRouteEntry := mkNR (rt_system_id r) ip true.

Record box_ok (i : nat) (b : EvlMailbox) : Prop := mkBoxOk {
  bo_mode : b_mode b = Network;
  bo_id : ids (box_id b);
  bo_host : address i = host (system_id_of (box_id b));
  bo_net : net_right (b_net_config b);
  bo_routes : Forall (fun e => nr_valid e = true -> nr_ip_addr e = host (nr_system_id e)) (b_net_routes b);
  bo_size : length (b_net_routes b) = Z.to_nat kMaxRoutes;
  bo_filled : b_created b = true -> forall k r ip, route_used (b_net_config b) k r ip ->
    b_net_routes b !! k = Some (entry r ip)
}.

Record net_ok (n : NetState) : Prop := mkNetOk {
  no_boxes o b : box_at n o = Some b -> box_ok o.1 b;
  no_bound a o : bound n !! a = Some o <->
    exists b, box_at n o = Some b /\ b_created b = true /\ a = (address o.1, port_for (box_id b));
  no_soup : Forall (fun d => dg_addr d = (host (system_id_of (dg_dest d)), port_for (dg_dest d)) /\ ids (dg_dest d)) (soup n);
  no_receipts : Forall (fun r => exists d, d ∈ soup n /\ dg_dest d = rc_id r /\ rc_data r `prefix_of` dg_data d) (receipts n)
}.

Lemma box_at_process n i w p : processes n !! i = Some w -> box_at n (i, p) = p_boxes w !! p.
Proof. intros Hw. unfold box_at. cbn. by rewrite Hw. Qed.

Lemma box_at_set n i w w' p b' o :
  processes n !! i = Some w -> p_boxes w' = <[p := b']> (p_boxes w) ->
  box_at (set_process i w' n) o = if decide (o = (i, p)) then Some b' else box_at n o.
Proof.
  intros Hw Hb. destruct o as [j q]. unfold box_at. cbn [set_process processes fst snd]. rewrite lookup_insert.
  destruct (decide (i = j)) as [->|Hne].
  - cbn [mbind option_bind]. rewrite Hb, lookup_insert. repeat case_decide; simplify_eq; try done. by rewrite Hw.
  - rewrite decide_False by congruence. done.
Qed.

(** An object is replaced, and perhaps its socket opened or closed. *)
Lemma object_replaced n i p w w' b' bs :
  net_ok n -> processes n !! i = Some w -> p_boxes w' = <[p := b']> (p_boxes w) -> box_ok i b' ->
  (forall a o, o <> (i, p) -> bs !! a = Some o <-> bound n !! a = Some o) ->
  (forall a, bs !! a = Some (i, p) <-> b_created b' = true /\ a = (address i, port_for (box_id b'))) ->
  net_ok (set_bound bs (set_process i w' n)).
Proof.
  intros [H1 H2 H3 H4] Hw Hb Hok Hother Hself.
  assert (forall o, box_at (set_bound bs (set_process i w' n)) o = if decide (o = (i, p)) then Some b' else box_at n o)
    as Hat by (intros o; by apply (box_at_set n i w w')).
  split; [| |done|done].
  - intros o b. rewrite Hat. case_decide; [intros [= <-]; by subst|apply H1].
  - intros a o. rewrite Hat. case_decide as Ho; [subst o|].
    + cbn [set_bound bound fst]. rewrite Hself. split; [intros []; eauto|]. by intros (b&[= <-]&?&?).
    + cbn [set_bound bound]. rewrite Hother by done. apply H2.
Qed.

Lemma close_where_lookup P `{forall o, Decision (P o)} (bs : gmap (Z * Z) (nat * nat)) a o :
  close_where P bs !! a = Some o <-> bs !! a = Some o /\ ~ P o.
Proof. unfold close_where. rewrite map_lookup_filter_Some. done. Qed.

(** ** What the operations do to the object *)

Lemma alter_const (p : nat) (b b' : EvlMailbox) (boxes : gmap nat EvlMailbox) : boxes !! p = Some b -> alter (fun _ => b') p boxes = <[p := b']> boxes.
Proof.
  intros Hp. apply map_eq. intros q. destruct (decide (p = q)) as [->|].
  - by rewrite lookup_alter_eq, Hp, lookup_insert_eq.
  - by rewrite lookup_alter_ne, lookup_insert_ne.
Qed.

(** The object after [initialize]. *)
Definition initialized (sock : option Z) (b : EvlMailbox) : EvlMailbox :=
  if b_created b then b
  else
    let '(ok, b') := create_oob_socket inet_pton sock b in
    if ok then set_created true b' else b'.

Lemma initialize_network sock w p b :
  p_boxes w !! p = Some b -> b_mode b = Network ->
  p_boxes (initialize inet_pton p true true sock w).2 = <[p := initialized sock b]> (p_boxes w).
Proof.
  intros Hp Hm. unfold initialize, initialized. rewrite Hp. destruct (b_created b); [by rewrite insert_id|].
  rewrite Hm. by destruct (create_oob_socket _ _ _) as [[] ?].
Qed.

(** The object after [shutdown]. *)
Definition stopped (b : EvlMailbox) : EvlMailbox :=
  if b_created b then set_created false (set_sock (-1) (b_net_routes b) b) else b.

Lemma shutdown_network w p b :
  p_boxes w !! p = Some b -> b_mode b = Network -> p_boxes (shutdown p w) = <[p := stopped b]> (p_boxes w).
Proof.
  intros Hp Hm. unfold shutdown, stopped. rewrite Hp. destruct (b_created b); cbn [negb]; [by rewrite Hm|by rewrite insert_id].
Qed.

(** What sends and receives leave as it is. *)
Definition same_socket (b b' : EvlMailbox) : Prop :=
  b_config b' = b_config b /\ b_mode b' = b_mode b /\ b_created b' = b_created b /\
  b_net_config b' = b_net_config b /\ b_net_routes b' = b_net_routes b.

Lemma same_socket_refl b : same_socket b b.
Proof. done. Qed.

Lemma send_oob_udp_same dest sendmsg b : same_socket b (send_oob_udp dest sendmsg b).2.
Proof. unfold send_oob_udp. destruct (find_route _ _); [by destruct (_ <? _)|done]. Qed.

Lemma send_network p data dest sendmsg w b res w' :
  p_boxes w !! p = Some b -> b_mode b = Network ->
  EvlBox.send p data dest sendmsg false w = Some (res, w') ->
  exists b', p_boxes w' = <[p := b']> (p_boxes w) /\ same_socket b b'.
Proof.
  intros Hp Hm. unfold EvlBox.send, EvlBox.send_raw. rewrite Hp.
  assert (forall r, Some (r, w) = Some (res, w') -> exists b', p_boxes w' = <[p := b']> (p_boxes w) /\ same_socket b b') as Hsame.
  { intros r [= _ <-]. exists b. by rewrite insert_id. }
  destruct (negb _); [by apply Hsame|]. destruct (_ || _); [by apply Hsame|]. rewrite Hm.
  pose proof (send_oob_udp_same dest sendmsg b) as Hb'. destruct (send_oob_udp _ _ _) as [[r a] b'].
  intros [= _ <-]. exists b'. split; [by eapply alter_const|done].
Qed.

Lemma receive_oob_udp_same ret data b : same_socket b (receive_oob_udp ret data b).2.
Proof. unfold receive_oob_udp. by destruct (_ <=? _). Qed.

Lemma receive_network_same p ret data w b ret' data' meta w' :
  p_boxes w !! p = Some b -> receive_network p ret data w = Some (ret', data', meta, w') ->
  exists b', p_boxes w' = <[p := b']> (p_boxes w) /\ same_socket b b'.
Proof.
  intros Hp. unfold receive_network. rewrite Hp. destruct (negb _).
  { intros [= _ _ _ <-]. exists b. by rewrite insert_id. }
  pose proof (receive_oob_udp_same ret data b) as Hb'. destruct (receive_oob_udp _ _ _) as [[r m] b'].
  intros [= _ _ _ <-]. exists b'. split; [by eapply alter_const|done].
Qed.

(** ** The route table *)

Lemma fill_routes_length k rs es : length (fill_routes inet_pton k rs es) = length es.
Proof. revert rs es. induction k as [|k IH]; intros [|r rs] [|e es]; cbn; congruence. Qed.

Lemma fill_routes_lookup k rs es j r ip :
  (j < k)%nat -> (j < length es)%nat -> rs !! j = Some r -> inet_pton (rt_ip r) = Some ip ->
  fill_routes inet_pton k rs es !! j = Some (entry r ip).
Proof.
  revert rs es j. induction k as [|k IH]; intros [|r' rs] [|e es] [|j] Hk Hl Hr Hip; cbn in *; try lia; try done.
  - injection Hr as ->. by rewrite Hip.
  - apply IH; [lia|lia|done|done].
Qed.

(** Every entry is an old one or comes from a route. *)
Lemma fill_routes_from k rs es j e :
  fill_routes inet_pton k rs es !! j = Some e ->
  es !! j = Some e \/ exists r ip, (j < k)%nat /\ rs !! j = Some r /\ inet_pton (rt_ip r) = Some ip /\ e = entry r ip.
Proof.
  revert rs es j. induction k as [|k IH]; intros [|r rs] [|e' es] [|j] He; cbn in *; auto.
  - destruct (inet_pton (rt_ip r)) as [ip|] eqn:Hip; [|auto]. injection He as <-. right. exists r, ip. split; [lia|done].
  - destruct (IH _ _ _ He) as [?|(r'&ip&?&?&?&?)]; [auto|]. right. exists r', ip. split; [lia|done].
Qed.

(** ** Every step keeps the network in order *)

Lemma same_socket_ok i b b' : same_socket b b' -> box_ok i b -> box_ok i b'.
Proof.
  intros (E1&E2&E3&E4&E5) [H1 H2 H3 H4 H5 H6 H7].
  assert (box_id b' = box_id b) as Eid by (unfold box_id; congruence).
  split; rewrite ?E2, ?Eid, ?E4, ?E5; try done. by rewrite E3.
Qed.

Lemma initialized_ok i sock b : box_ok i b -> box_ok i (initialized sock b).
Proof.
  intros [H1 H2 H3 H4 H5 H6 H7]. unfold initialized. destruct (b_created b) eqn:Hc; [by split; rewrite ?Hc|].
  destruct sock as [fd|]; cbn [create_oob_socket]; [|by split; cbn; rewrite ?Hc].
  set (count := Z.min _ _). split; cbn; try done.
  - apply Forall_lookup. intros j e He Hv. apply fill_routes_from in He as [He|(r&ip&Hj&Hr&Hip&->)].
    + rewrite Forall_lookup in H5. by apply (H5 j).
    + apply (H4 j). split; [lia|done].
  - by rewrite fill_routes_length.
  - intros _ k r ip (Hk&Hr&Hip). unfold kMaxRoutes in *. apply fill_routes_lookup; [lia|lia|done|done].
Qed.

Lemma stopped_ok i b : box_ok i b -> box_ok i (stopped b).
Proof.
  intros H. unfold stopped. destruct (b_created b); [|done]. destruct H. by split.
Qed.

Lemma stopped_created b : b_created (stopped b) = false.
Proof. unfold stopped. by destruct (b_created b) eqn:E. Qed.

(** An object is replaced by one with the same socket. *)
Lemma same_socket_step n i p w w' b b' :
  net_ok n -> processes n !! i = Some w -> p_boxes w !! p = Some b ->
  p_boxes w' = <[p := b']> (p_boxes w) -> same_socket b b' -> net_ok (set_process i w' n).
Proof.
  intros Hn Hw Hp Hw' Hs. pose proof (no_boxes n Hn (i, p) b) as Hb. rewrite (box_at_process n i w p Hw) in Hb. specialize (Hb Hp).
  change (net_ok (set_bound (bound n) (set_process i w' n))).
  apply (object_replaced n i p w w' b'); try done; [by apply (same_socket_ok i b)|].
  intros a. rewrite (no_bound n Hn), (box_at_process n i w p Hw), Hp. destruct Hs as (E1&_&E3&_). unfold box_id. rewrite E1, E3.
  split; [by intros (?&[= <-]&?)|]. intros []. by exists b.
Qed.

(** Objects that hold no socket any more are gone. *)
Lemma objects_gone n ps bs (P : nat * nat -> Prop) `{forall o, Decision (P o)} :
  net_ok n ->
  (forall o, box_at (mkNetState ps bs (soup n) (receipts n)) o = if decide (P o) then None else box_at n o) ->
  (forall a o, bs !! a = Some o <-> bound n !! a = Some o /\ ~ P o) ->
  net_ok (mkNetState ps bs (soup n) (receipts n)).
Proof.
  intros [H1 H2 H3 H4] Hat Hbs. split; [| |done|done].
  - intros o b. rewrite Hat. case_decide; [done|apply H1].
  - intros a o. cbn [bound]. rewrite Hbs, H2, Hat. case_decide; [|naive_solver]. split; [by intros []|by intros (?&?&_)].
Qed.

(** A socket that is closed was that of the object. *)
Lemma close_socket_lookup n i p w b a o :
  net_ok n -> processes n !! i = Some w -> p_boxes w !! p = Some b ->
  close_socket i p w (bound n) !! a = Some o <-> bound n !! a = Some o /\ o <> (i, p).
Proof.
  intros Hn Hw Hp. unfold close_socket. rewrite Hp. destruct (b_created b) eqn:Hc.
  - apply (close_where_lookup (fun o => o = (i, p))).
  - split; [|by intros []]. intros Ha. split; [done|]. intros ->. apply (no_bound n Hn) in Ha as (b'&Hb'&Hc'&_).
    rewrite (box_at_process n i w p Hw) in Hb'. congruence.
Qed.

Lemma set_process_same n i w : processes n !! i = Some w -> set_process i w n = n.
Proof. intros Hw. unfold set_process. rewrite insert_id by done. by destruct n. Qed.

Lemma put_soup_ok n d :
  net_ok n -> dg_addr d = (host (system_id_of (dg_dest d)), port_for (dg_dest d)) -> ids (dg_dest d) -> net_ok (put_soup d n).
Proof.
  intros [H1 H2 H3 H4] Ha Hd. split; [done|done|by constructor|]. cbn. eapply List.Forall_impl; [|exact H4].
  intros r (d'&?&?). exists d'. by split; [right|].
Qed.

Lemma put_receipt_ok n r d :
  net_ok n -> d ∈ soup n -> dg_dest d = rc_id r -> rc_data r `prefix_of` dg_data d -> net_ok (put_receipt r n).
Proof. intros [H1 H2 H3 H4] Hd Hid Hpre. split; [done|done|done|]. constructor; [|done]. by exists d. Qed.

Lemma net_initialize_ok n i p w b sock bs :
  net_ok n -> processes n !! i = Some w -> p_boxes w !! p = Some b -> box_ok i b ->
  (forall a o, o <> (i, p) -> bs !! a = Some o <-> bound n !! a = Some o) ->
  (forall a, bs !! a = Some (i, p) <-> b_created (initialized sock b) = true /\ a = (address i, port_for (box_id b))) ->
  net_ok (set_bound bs (set_process i (initialize inet_pton p true true sock w).2 n)).
Proof.
  intros Hn Hw Hp Hb Ho Hs.
  assert (box_id (initialized sock b) = box_id b) as Eid.
  { unfold initialized, box_id. destruct (b_created b); [done|]. by destruct sock. }
  apply (object_replaced n i p w _ (initialized sock b)); [done|done| |by apply initialized_ok|done|by rewrite Eid].
  apply initialize_network; [done|apply (bo_mode i b Hb)].
Qed.

(** The part of [net_ok] about an object, as it stands in a process. *)
Lemma box_facts n i w p b :
  net_ok n -> processes n !! i = Some w -> p_boxes w !! p = Some b ->
  box_ok i b /\ forall a, bound n !! a = Some (i, p) <-> b_created b = true /\ a = (address i, port_for (box_id b)).
Proof.
  intros Hn Hw Hp. pose proof (box_at_process n i w p Hw) as Hat. rewrite Hp in Hat. split; [by apply (no_boxes n Hn (i, p))|].
  intros a. rewrite (no_bound n Hn), Hat. split; [by intros (?&[= <-]&?)|]. intros []. by exists b.
Qed.

Lemma net_new_ok n i p config net w :
  net_ok n -> processes n !! i = Some w -> p_boxes w !! p = None -> planned (New i p config net) ->
  net_ok (set_process i (mkProc (<[p := new_box config Network net]> (p_boxes w)) (p_table w)) n).
Proof.
  intros Hn Hw Hp (Hid&Hhost&Hnet).
  change (set_process i ?w n) with (set_bound (bound n) (set_process i w n)).
  apply (object_replaced n i p w _ (new_box config Network net)); try done.
  - split; cbn; try done. by repeat constructor.
  - intros a. rewrite (no_bound n Hn), (box_at_process n i w p Hw), Hp. split; [by intros (?&?&_)|by intros []].
Qed.

Lemma net_shutdown_ok n i p w :
  net_ok n -> processes n !! i = Some w ->
  net_ok (set_bound (close_socket i p w (bound n)) (set_process i (shutdown p w) n)).
Proof.
  intros Hn Hw. destruct (p_boxes w !! p) as [b|] eqn:Hp.
  - destruct (box_facts n i w p b Hn Hw Hp) as [Hb _].
    apply (object_replaced n i p w _ (stopped b)); [done|done| |by apply stopped_ok| |].
    + apply shutdown_network; [done|apply (bo_mode i b Hb)].
    + intros a o Ho. rewrite (close_socket_lookup n i p w b) by done. naive_solver.
    + intros a. rewrite (close_socket_lookup n i p w b) by done. rewrite stopped_created. naive_solver.
  - unfold close_socket, shutdown. rewrite Hp, set_process_same by done. by destruct n.
Qed.

Lemma net_destroy_ok n i p w :
  net_ok n -> processes n !! i = Some w ->
  net_ok (set_bound (close_socket i p w (bound n)) (set_process i (destroy p w) n)).
Proof.
  intros Hn Hw. apply (objects_gone n _ _ (fun o => o = (i, p))); [done| |].
  - intros [j q]. unfold box_at. cbn [processes fst snd set_process]. rewrite lookup_insert.
    destruct (decide (i = j)) as [->|]; [|by rewrite decide_False by congruence]. rewrite Hw.
    cbn [mbind option_bind]. unfold destroy. cbn [p_boxes]. rewrite lookup_delete.
    repeat case_decide; simplify_eq; try done.
    destruct (p_boxes w !! p) as [b|] eqn:Hp; [|unfold shutdown; by rewrite Hp].
    destruct (box_facts n j w p b Hn Hw Hp) as [Hb _]. rewrite (shutdown_network w p b Hp (bo_mode j b Hb)).
    rewrite lookup_insert_ne by congruence. done.
  - intros a o. destruct (p_boxes w !! p) as [b|] eqn:Hp; [by apply (close_socket_lookup n i p w b)|].
    unfold close_socket. rewrite Hp. split; [|by intros []]. intros Ha. split; [done|]. intros ->.
    apply (no_bound n Hn) in Ha as (b&Hb&_). rewrite (box_at_process n i w p Hw) in Hb. congruence.
Qed.

Lemma sent_to dest sendmsg b addr i :
  box_ok i b -> (send_oob_udp dest sendmsg b).1.2 = Some addr -> addr = (host (system_id_of dest), port_for dest).
Proof.
  intros Hb. unfold send_oob_udp. destruct (find_route dest (b_net_routes b)) as [r|] eqn:Hr; [|done].
  apply List.find_some in Hr as [Hin Hv]. apply andb_true_iff in Hv as [Hv Hs%Z.eqb_eq].
  pose proof (bo_routes i b Hb) as Hall. rewrite List.Forall_forall in Hall.
  rewrite <- Hs, <- (Hall r Hin Hv). by destruct (_ <? _); intros [= <-].
Qed.

Lemma net_start_ok n i : net_ok n -> processes n !! i = None -> net_ok (set_process i proc_initial n).
Proof.
  intros Hn Hi. apply (objects_gone n _ _ (fun o => o.1 = i)); [done| |].
  - intros [j q]. unfold box_at. cbn. rewrite lookup_insert. repeat case_decide; simplify_eq; try done.
  - intros a o. split; [|by intros []]. intros Ha. split; [done|]. intros <-.
    apply (no_bound n Hn) in Ha as (b&Hb&_). unfold box_at in Hb. by rewrite Hi in Hb.
Qed.

Lemma net_crash_ok n i :
  net_ok n -> net_ok (mkNetState (delete i (processes n)) (close_where (fun o => o.1 = i) (bound n)) (soup n) (receipts n)).
Proof.
  intros Hn. apply (objects_gone n _ _ (fun o => o.1 = i)); [done| |].
  - intros [j q]. unfold box_at. cbn. rewrite lookup_delete. repeat case_decide; simplify_eq; done.
  - intros a o. apply (close_where_lookup (fun o => o.1 = i)).
Qed.

(** A message reaches only mailboxes of the id to which it was sent. *)
Lemma right_mailbox n d i p w b :
  plan -> net_ok n -> d ∈ soup n -> bound n !! dg_addr d = Some (i, p) ->
  processes n !! i = Some w -> p_boxes w !! p = Some b -> dg_dest d = box_id b.
Proof.
  intros [_ Hdist] Hn Hd Ha Hw Hp. destruct (box_facts n i w p b Hn Hw Hp) as [Hb Hbound].
  apply Hbound in Ha as [_ Ha]. pose proof (no_soup n Hn) as Hs. rewrite list.Forall_forall in Hs.
  destruct (Hs d Hd) as [Hda Hdid]. rewrite Hda in Ha. injection Ha as Hip Hport.
  apply Hdist; [done|apply (bo_id i b Hb)|by rewrite Hip, (bo_host i b Hb)|by apply port_for_inj].
Qed.

Lemma bound_ok n i p w b fd port :
  plan -> net_ok n -> processes n !! i = Some w -> p_boxes w !! p = Some b -> b_created b = false ->
  binds (bound n) (address i) (port_for (box_id b)) port ->
  net_ok (set_bound (<[(address i, port) := (i, p)]> (bound n)) (set_process i (initialize inet_pton p true true (Some fd) w).2 n)).
Proof.
  intros [Hport _] Hn Hw Hp Hc Hbind. destruct (box_facts n i w p b Hn Hw Hp) as [Hb Hbound].
  pose proof (Hport _ (bo_id i b Hb)) as Hne. rewrite <- port_for_zero in Hne.
  destruct (binds_wanted _ _ _ _ Hbind Hne) as [-> Hfree].
  eapply net_initialize_ok; [done..| |].
  - intros a o Ho. rewrite lookup_insert_Some. split; [intros [[_ <-]|[_ ?]]; done|]. intros Ha. right. split; [|done].
    intros <-. congruence.
  - intros a. unfold initialized. rewrite Hc. cbn. rewrite lookup_insert_Some, Hbound, Hc. naive_solver.
Qed.

Lemma net_step_ok a n n' : plan -> planned a -> net_ok n -> net_step a n n' -> net_ok n'.
Proof.
  intros Hplan Ha Hn Hs. destruct Hs as [i n Hi|i n|i p config net n w Hw Hp|i p n w b fd port Hw Hp Hc _ Hbind|i p n w Hw
    |i p n w Hw|i p n w Hw|i p data dest sendmsg addr n w b w' Hw Hp Hsend Haddr _|i p data dest sendmsg n w res w' Hw Hsend _
    |i p size d n w b ret data meta w' Hw Hp Hd Hbd -> Hr _|i p size ret n w ret' meta w' Hw _ Hr].
  - by apply net_start_ok.
  - by apply net_crash_ok.
  - by apply net_new_ok.
  - by apply (bound_ok n i p w b).
  - destruct (p_boxes w !! p) as [b|] eqn:Hp.
    + destruct (box_facts n i w p b Hn Hw Hp) as [Hb Hbound].
      change (set_process i ?w n) with (set_bound (bound n) (set_process i w n)).
      apply (net_initialize_ok n i p w b); [done..|]. intros a. rewrite Hbound. unfold initialized.
      destruct (b_created b) eqn:Hc; [by rewrite Hc|]. cbn. by rewrite Hc.
    + unfold initialize. by rewrite Hp, set_process_same.
  - by apply net_shutdown_ok.
  - by apply net_destroy_ok.
  - destruct (box_facts n i w p b Hn Hw Hp) as [Hb _].
    destruct (send_network p data dest sendmsg w b SUCCESS w' Hp (bo_mode i b Hb) Hsend) as (b'&Hw'&Hsame).
    apply put_soup_ok; [by apply (same_socket_step n i p w w' b b')| |done]. cbn. by eapply sent_to.
  - destruct (p_boxes w !! p) as [b|] eqn:Hp; [|unfold EvlBox.send in Hsend; by rewrite Hp in Hsend].
    destruct (box_facts n i w p b Hn Hw Hp) as [Hb _].
    destruct (send_network p data dest sendmsg w b res w' Hp (bo_mode i b Hb) Hsend) as (b'&Hw'&Hsame).
    by apply (same_socket_step n i p w w' b b').
  - destruct (receive_network_same _ _ _ _ _ _ _ _ _ Hp Hr) as (b'&Hw'&Hsame).
    apply (put_receipt_ok _ _ d); [by apply (same_socket_step n i p w w' b b')|done|by eapply right_mailbox|].
    cbn. exists (drop (Z.to_nat size) (dg_data d)). by rewrite take_drop.
  - destruct (p_boxes w !! p) as [b|] eqn:Hp; [|unfold receive_network in Hr; by rewrite Hp in Hr].
    destruct (receive_network_same _ _ _ _ _ _ _ _ _ Hp Hr) as (b'&Hw'&Hsame).
    by apply (same_socket_step n i p w w' b b').
Qed.

Lemma no_net_ok : net_ok no_net.
Proof.
  split; cbn; [|intros a o|constructor|constructor].
  - intros o b. unfold box_at. cbn. by rewrite lookup_empty.
  - rewrite lookup_empty. split; [done|]. intros (b&Hb&_). unfold box_at in Hb. cbn in Hb. by rewrite lookup_empty in Hb.
Qed.

Lemma net_run_ok l n n' : plan -> Forall planned l -> net_ok n -> net_run l n n' -> net_ok n'.
Proof.
  intros Hplan Hl Hn Hrun. revert Hl Hn. induction Hrun as [|a l n n1 n2 Hs Hrun IH]; intros Hl Hn; [done|].
  apply list.Forall_cons in Hl as [Ha Hl]. apply IH; [done|]. by apply (net_step_ok a n).
Qed.

(** ** Delivery *)

(** One of the routes that a mailbox uses is for the host of [dest]. *)
Definition has_route (net : EvlNetworkConfig) (dest : Z) : Prop :=
  exists k r ip, route_used net k r ip /\ rt_system_id r = system_id_of dest.

Lemma route_found i b dest :
  box_ok i b -> b_created b = true -> has_route (b_net_config b) dest -> is_Some (find_route dest (b_net_routes b)).
Proof.
  intros Hb Hc (k&r&ip&Hu&Hs). pose proof (bo_filled i b Hb Hc k r ip Hu) as He.
  destruct (find_route dest (b_net_routes b)) eqn:E; [eauto|]. unfold find_route in E.
  apply list_elem_of_lookup_2, list_elem_of_In in He. eapply List.find_none in E; [|exact He].
  cbn in E. by rewrite Hs, Z.eqb_refl in E.
Qed.

Lemma send_accepted i w p b data dest sendmsg :
  box_ok i b -> p_boxes w !! p = Some b -> b_created b = true -> has_route (b_net_config b) dest ->
  0 < zlen data <= cfg_max_msg_size (b_config b) -> 0 <= sendmsg ->
  exists w', EvlBox.send p data dest sendmsg false w = Some (SUCCESS, w') /\
    (send_oob_udp dest sendmsg b).1.2 = Some (host (system_id_of dest), port_for dest).
Proof.
  intros Hb Hp Hc Hroute Hlen Hs. destruct (route_found i b dest Hb Hc Hroute) as [r Hr].
  assert ((send_oob_udp dest sendmsg b).1 = (SUCCESS, Some (nr_ip_addr r, port_for dest))) as E.
  { unfold send_oob_udp. rewrite Hr. destruct (Z.ltb_spec sendmsg 0); [lia|done]. }
  exists (update_box p (fun _ => (send_oob_udp dest sendmsg b).2) w). split.
  - unfold EvlBox.send, EvlBox.send_raw. rewrite Hp, Hc. cbn [negb]. destruct (Z.eqb_spec (zlen data) 0); [lia|].
    destruct (Z.ltb_spec (cfg_max_msg_size (b_config b)) (zlen data)); [lia|]. cbn [orb]. rewrite (bo_mode i b Hb).
    destruct (send_oob_udp dest sendmsg b) as [[res a] b']. cbn in E. by injection E as -> ->.
  - rewrite E. cbn. f_equal. apply (sent_to dest sendmsg b _ i Hb). by rewrite E.
Qed.

Lemma receive_accepted w p b data :
  p_boxes w !! p = Some b -> b_created b = true -> 0 < zlen data ->
  exists w', receive_network p (zlen data) data w =
    Some (zlen data, data, (receive_oob_udp (zlen data) data b).1.2, w').
Proof.
  intros Hp Hc Hd. unfold receive_network. rewrite Hp, Hc. cbn [negb]. unfold receive_oob_udp.
  destruct (Z.leb_spec (zlen data) 0); [lia|]. by eexists.
Qed.

(** The socket of a mailbox that is initialised has the address to which messages
    for it are sent. *)
Lemma bound_at n j q w t :
  net_ok n -> processes n !! j = Some w -> p_boxes w !! q = Some t -> b_created t = true ->
  bound n !! (host (system_id_of (box_id t)), port_for (box_id t)) = Some (j, q).
Proof.
  intros Hn Hw Hq Hc. destruct (box_facts n j w q t Hn Hw Hq) as [Ht Hbound]. apply Hbound. split; [done|].
  by rewrite (bo_host j t Ht).
Qed.

(** The network after the mailbox [b] of process [i], now [w1], has sent a message. *)
Definition after_send (i : nat) (w1 : Process) (b : EvlMailbox) (data : bytes) (dest : Z) (n : NetState) : NetState :=
  put_soup (mkDgram (host (system_id_of dest), port_for dest) data (box_id b) dest) (set_process i w1 n).

Lemma message_sent n i p w b data dest sendmsg :
  net_ok n -> processes n !! i = Some w -> p_boxes w !! p = Some b -> b_created b = true -> has_route (b_net_config b) dest ->
  0 < zlen data <= cfg_max_msg_size (b_config b) -> zlen data <= udp_max -> 0 <= sendmsg ->
  exists w1 b', EvlBox.send p data dest sendmsg false w = Some (SUCCESS, w1) /\
    p_boxes w1 = <[p := b']> (p_boxes w) /\ same_socket b b' /\
    net_step (Send i p data dest) n (after_send i w1 b data dest n).
Proof.
  intros Hn Hw Hp Hc Hroute Hlen Hudp Hs. destruct (box_facts n i w p b Hn Hw Hp) as [Hb _].
  destruct (send_accepted i w p b data dest sendmsg) as (w1&Hsend&Haddr); [done..|].
  destruct (send_network p data dest sendmsg w b SUCCESS w1 Hp (bo_mode i b Hb) Hsend) as (b'&Hw1&Hsame).
  exists w1, b'. split_and!; [done..|]. by eapply step_sent.
Qed.

(** A mailbox is there after a send as before. *)
Lemma after_send_box n i p w w1 b b' j q wt t data dest :
  processes n !! i = Some w -> p_boxes w !! p = Some b -> p_boxes w1 = <[p := b']> (p_boxes w) -> same_socket b b' ->
  processes n !! j = Some wt -> p_boxes wt !! q = Some t ->
  exists w2 t', processes (after_send i w1 b data dest n) !! j = Some w2 /\ p_boxes w2 !! q = Some t' /\ same_socket t t'.
Proof.
  intros Hw Hp Hw1 Hsame Hwt Hq. cbn. rewrite lookup_insert. case_decide as Hij.
  - subst j. exists w1. rewrite Hw1, lookup_insert. simplify_eq. case_decide as Hpq; [subst q; simplify_eq|].
    + by exists b'.
    + by exists t.
  - by exists wt, t.
Qed.

Lemma message_received n i w1 b j q wt t w2 t' data size :
  net_ok n -> processes n !! j = Some wt -> p_boxes wt !! q = Some t -> b_created t = true ->
  processes (after_send i w1 b data (box_id t) n) !! j = Some w2 -> p_boxes w2 !! q = Some t' -> same_socket t t' ->
  0 < zlen data -> 0 < size ->
  exists w3,
    let got := take (Z.to_nat size) data in
    let meta := (receive_oob_udp (zlen got) got t').1.2 in
    receive_network q (zlen got) got w2 = Some (zlen got, got, meta, w3) /\
    net_step (Receive j q size) (after_send i w1 b data (box_id t) n)
      (put_receipt (mkReceipt (box_id t) got meta) (set_process j w3 (after_send i w1 b data (box_id t) n))).
Proof.
  intros Hn Hwt Hq Htc Hw2 Hq' (Ecfg&_&Ecr&_) Hlen Hsize. set (got := take (Z.to_nat size) data).
  assert (0 < zlen got) as Hgot by (unfold got, zlen in *; rewrite length_take; lia).
  destruct (receive_accepted w2 q t' got Hq') as (w3&Hrecv); [congruence|done|].
  exists w3. split; [exact Hrecv|].
  replace (mkReceipt (box_id t)) with (mkReceipt (box_id t')) by (unfold box_id; congruence).
  eapply (step_received j q size (mkDgram (host (system_id_of (box_id t)), port_for (box_id t)) data (box_id b) (box_id t)));
    [exact Hw2|exact Hq'|by left| |reflexivity|exact Hrecv|done].
  by apply (bound_at n j q wt).
Qed.

End net.

(** C28. Whatever the mailboxes of a network do - processes on its hosts start,
    crash, and create, initialise, shut down and destroy mailboxes, which send and
    receive while the network loses, repeats, delays and swaps datagrams - as long
    as ids, addresses and routes follow a plan: what a mailbox receives is, up to
    the size of its buffer, a message that was sent to its id and reported as
    sent.  And from every state that can be reached, a message sent to an
    initialised mailbox over one of the sender's routes is accepted and arrives, if
    the network hands it over. *)
Theorem network_messages inet_pton address host ids l n :
  plan host ids -> Forall (planned inet_pton address host ids) l -> net_run inet_pton address l no_net n ->
  Forall (fun r => exists d, d ∈ soup n /\ dg_dest d = rc_id r /\ rc_data r `prefix_of` dg_data d) (receipts n) /\
  forall i p w b j q wt t data size,
    processes n !! i = Some w -> p_boxes w !! p = Some b -> b_created b = true ->
    processes n !! j = Some wt -> p_boxes wt !! q = Some t -> b_created t = true ->
    has_route inet_pton (b_net_config b) (box_id t) ->
    0 < zlen data <= cfg_max_msg_size (b_config b) -> zlen data <= udp_max -> 0 < size ->
    exists n1 n2 meta, net_run inet_pton address [Send i p data (box_id t); Receive j q size] n n2 /\
      net_step inet_pton address (Send i p data (box_id t)) n n1 /\
      soup n1 = mkDgram (host (system_id_of (box_id t)), port_for (box_id t)) data (box_id b) (box_id t) :: soup n /\
      receipts n2 = mkReceipt (box_id t) (take (Z.to_nat size) data) meta :: receipts n.
Proof.
  intros Hplan Hl Hrun. pose proof (net_run_ok inet_pton address host ids l no_net n Hplan Hl (no_net_ok _ _ _ _) Hrun) as Hn.
  split; [apply (no_receipts _ _ _ _ _ Hn)|].
  intros i p w b j q wt t data size Hw Hp Hc Hwt Hq Htc Hroute Hlen Hudp Hsize.
  destruct (message_sent inet_pton address host ids n i p w b data (box_id t) 0) as (w1&b'&_&Hw1&Hsame&Hstep); [done..|].
  destruct (after_send_box host n i p w w1 b b' j q wt t data (box_id t)) as (w2&t'&Hw2&Hq'&Hsame'); [done..|].
  destruct (message_received inet_pton address host ids n i w1 b j q wt t w2 t' data size) as (w3&_&Hstep'); [done..|lia|done|].
  eexists _, _, _. split; [|split; [exact Hstep|]].
  - eapply run_cons; [exact Hstep|]. eapply run_cons; [exact Hstep'|]. apply run_nil.
  - split; reflexivity.
Qed.
(** ** Ports

    The port of a mailbox has nothing of its class, and only a part of its
    instance.  A message to a mailbox that is not there goes to the one of another
    class with its port; and while this one is there, the other cannot start. *)
Definition sample_pton (ip : bytes) : option Z := match ip with [x] => Some x | _ => None end.
Definition sample_address (i : nat) : Z := if decide (i = 0%nat) then 10 else 11.
Definition to_one : EvlNetworkConfig := mkNet 0 [mkRoute 1 [11]] 1.
Definition config_of (id : Z) : IpcConfig := mkConfig [] id 64 5 true 0.

(** [0x00010001] on host 0; [0x01010034] and [0x01020034] on host 1. *)
Definition sender : Z := 65537.
Definition first_class : Z := 16842804.
Definition second_class : Z := 16908340.

Definition two_hosts (there : Z) : list (action * choice) :=
  [(Start 0, NoChoice); (Start 1, NoChoice); (New 0 0 (config_of sender) to_one, NoChoice);
   (New 1 0 (config_of there) to_one, NoChoice); (Initialize 0 0, Sock 3 42001); (Initialize 1 0, Sock 3 42052)].

Definition talk (dest : Z) (data : bytes) : list (action * choice) :=
  [(Send 0 0 data dest, Sendmsg 0); (Receive 1 0 64, Arrives 0)].

Theorem class_ignored :
  exists n, net_run sample_pton sample_address (two_hosts second_class ++ talk first_class [1; 2; 3]).*1 no_net n /\
    (exists meta, receipts n = [mkReceipt second_class [1; 2; 3] meta]) /\ (dg_dest <$> soup n) = [first_class] /\
    forall port, ~ binds (bound n) (sample_address 1) (port_for first_class) port.
Proof.
  destruct (net_exec_run sample_pton sample_address (two_hosts second_class ++ talk first_class [1; 2; 3]) no_net) as [n|] eqn:E.
  - exists n. split; [by apply net_exec_run_sound|]. vm_compute in E. injection E as <-. split_and!; [by eexists|done|].
    intros port [_ Hfree]%binds_wanted; [vm_compute in Hfree|]; discriminate.
  - vm_compute in E. discriminate.
Qed.

(** ** Witness: host 0 sends to [0x01010034] on host 1. *)

Definition sample_host (s : Z) : Z := 10 + s.
Definition sample_net : NetState :=
  default no_net (net_exec_run sample_pton sample_address (two_hosts first_class ++ talk first_class [1; 2; 3]) no_net).

Definition sample_ids (id : Z) : Prop := id = sender \/ id = first_class.

Lemma sample_plan : plan sample_host sample_ids.
Proof.
  split.
  - intros id [-> | ->]; vm_compute; discriminate.
  - intros id id' [-> | ->] [-> | ->]; vm_compute; congruence.
Qed.

Lemma sample_planned l :
  Forall (planned sample_pton sample_address sample_host sample_ids) l ->
  Forall (planned sample_pton sample_address sample_host sample_ids) ((two_hosts first_class).*1 ++ l).
Proof.
  intros Hl. assert (net_right sample_pton sample_host to_one) as Hnet.
  { intros k r ip (_&Hr&Hip). destruct k as [|k]; [|done]. injection Hr as <-. by injection Hip as <-. }
  cbn. repeat (apply list.Forall_cons; split); try exact I; try done; split_and!; by (left + right) || done.
Qed.

Lemma sample_route : has_route sample_pton to_one first_class.
Proof. exists 0%nat, (mkRoute 1 [11]), 11. split; [|vm_compute; reflexivity]. split_and!; vm_compute; reflexivity. Qed.

Lemma network_messages_witness :
  exists n2 meta, net_run sample_pton sample_address [Send 0 0 [4; 5; 6] first_class; Receive 1 0 2] sample_net n2 /\
    exists r, receipts n2 = [mkReceipt first_class [4; 5] meta; r] /\ rc_data r = [1; 2; 3].
Proof.
  destruct (network_messages sample_pton sample_address sample_host sample_ids
    ((two_hosts first_class).*1 ++ (talk first_class [1; 2; 3]).*1) sample_net) as [_ Hsend].
  - exact sample_plan.
  - apply sample_planned. cbn. repeat (apply list.Forall_cons; split); [by right|done|constructor].
  - rewrite <- fmap_app. apply net_exec_run_sound. vm_compute. reflexivity.
  - set (w0 := default proc_initial (processes sample_net !! 0%nat)). set (w1 := default proc_initial (processes sample_net !! 1%nat)).
    set (b0 := default (new_box (config_of 0) Local to_one) (p_boxes w0 !! 0%nat)).
    set (b1 := default (new_box (config_of 0) Local to_one) (p_boxes w1 !! 0%nat)).
    destruct (Hsend 0%nat 0%nat w0 b0 1%nat 0%nat w1 b1 [4; 5; 6] 2) as (n1&n2&meta&Hrun&_&_&Hr); try (vm_compute; reflexivity).
    + exact sample_route.
    + by_compute.
    + vm_compute. discriminate.
    + exists n2, meta. split; [exact Hrun|]. exists (List.hd (mkReceipt 0 [] None) (receipts sample_net)). rewrite Hr.
      split; vm_compute; reflexivity.
Defined.
End OobNet.
