(* ===== verification/EvlObjects.v ===== *)
(** * What an EvlMailbox owns

    Models the resource side of include/corerat/ipc/evl/evl_backend.hpp: the
    shared memory, mutex, event, xbuf, poll group, socket and remote handles an
    [EvlMailbox] acquires in [initialize] and [send_raw] and gives back in
    [shutdown], over the kernel and the ownership logic of Resources.v; and the
    guard [InbandScope] around the opening of remote handles.

    A mapping is a resource of the kernel as a descriptor is; -1 stands for a
    null pointer, and for an EVL object that is not open.  What the other calls
    answer ([ftruncate], [bind], [pread]) are arguments. *)

From Stdlib Require Import ZArith Lia.
From stdpp Require Import base list gmap sets numbers.
From S2P Require Import Prelude IpcTypes EvlRegistry EvlRing EvlMailbox Resources EvlRemote.

#[local] Open Scope Z_scope.

Import EvlBox Remote.

(** ** InbandScope

    [et_inband]: the thread runs on the in-band stage; [et_hmsig]: it has
    [EVL_T_HMSIG] set, so that the kernel signals it when a system call takes it
    off the out-of-band stage.  [et_demoted] counts such system calls: those
    made out of band. *)
Module Inband.

Record EvlThread := mkET { et_inband : bool; et_hmsig : bool; et_demoted : nat }.

(** Answers of [evl_get_self], [evl_clear_thread_mode] and [evl_switch_inband];
    whether [evl_switch_oob] and [evl_set_thread_mode] succeed. *)
Record answers := mkAnswers {
  ans_self : Z; ans_clear : Z; ans_inband : Z; ans_oob : bool; ans_set : bool
}.

Definition evl_clear_hmsig (r : Z) (t : EvlThread) : EvlThread :=
  if r =? 0 then mkET (et_inband t) false (et_demoted t) else t.
Definition evl_set_hmsig (ok : bool) (t : EvlThread) : EvlThread :=
  if ok then mkET (et_inband t) true (et_demoted t) else t.
Definition evl_switch_inband (r : Z) (t : EvlThread) : EvlThread :=
  if r =? 0 then mkET true (et_hmsig t) (et_demoted t) else t.
Definition evl_switch_oob (ok : bool) (t : EvlThread) : EvlThread :=
  if ok then mkET false (et_hmsig t) (et_demoted t) else t.

(** A system call of the in-band kernel. *)
Definition inband_syscall (t : EvlThread) : EvlThread :=
  if et_inband t then t else mkET true (et_hmsig t) (1 + et_demoted t).

(** [attach_this_thread]: [gettid] only on the in-band stage. *)
Definition attach_this_thread (t : EvlThread) : EvlThread :=
  if negb (et_inband t) then t else inband_syscall t.

Record InbandScope := mkScope {
  restore_oob_ : bool;
  self_fd_ : Z;
  restore_hmsig_ : bool;
  switched_ : bool
}.

Definition enter (a : answers) (t : EvlThread) : InbandScope * EvlThread :=
  let restore_oob := negb (et_inband t) in
  let self_fd := if restore_oob then ans_self a else -1 in
  let switched := negb restore_oob in
  if negb restore_oob || (self_fd <? 0) then (mkScope restore_oob self_fd false switched, t)
  else if negb (ans_clear a =? 0) then (mkScope restore_oob self_fd false switched, t)
  else
    let restore_hmsig := et_hmsig t in
    let t := evl_switch_inband (ans_inband a) (evl_clear_hmsig (ans_clear a) t) in
    let switched := ans_inband a =? 0 in
    (mkScope restore_oob self_fd restore_hmsig switched,
     if negb switched && restore_hmsig then evl_set_hmsig (ans_set a) t else t).

Definition leave (a : answers) (s : InbandScope) (t : EvlThread) : EvlThread :=
  let t := if restore_oob_ s && switched_ s then evl_switch_oob (ans_oob a) t else t in
  if restore_hmsig_ s then evl_set_hmsig (ans_set a) t else t.

Fixpoint syscalls (n : nat) (t : EvlThread) : EvlThread :=
  match n with
  | O => t
  | S n => syscalls n (inband_syscall t)
  end.

(** The body of a scope runs if the switch succeeded; it makes [n] system calls. *)
Definition scoped (a : answers) (n : nat) (t : EvlThread) : EvlThread :=
  let '(s, t1) := enter a t in
  if switched_ s then leave a s (syscalls n t1) else leave a s t1.

Lemma syscalls_inband n t : et_inband t = true -> syscalls n t = t.
Proof.
  intros Ht. induction n as [|n IH]; [done|]. cbn. unfold inband_syscall. by rewrite Ht.
Qed.

(** The body never makes a system call out of band; if the restoring calls
    succeed the thread is on the stage it came from, with its mode. *)
Lemma scoped_spec a n t :
  et_demoted (scoped a n t) = et_demoted t /\
  (switched_ (enter a t).1 = true -> et_inband (enter a t).2 = true) /\
  (ans_oob a = true -> ans_set a = true -> scoped a n t = t).
Proof.
  destruct t as [inband hmsig d]. unfold scoped, enter. cbn [et_inband et_hmsig et_demoted].
  destruct inband; cbn [negb orb].
  - cbn [switched_ fst snd]. rewrite syscalls_inband by done. done.
  - destruct (ans_self a <? 0); cbn [orb]; [done|]. unfold evl_clear_hmsig, evl_switch_inband.
    destruct (ans_clear a =? 0); cbn [negb]; [|done].
    destruct (ans_inband a =? 0); cbn [negb andb switched_ fst snd et_inband et_hmsig et_demoted].
    + rewrite syscalls_inband by done. unfold leave, evl_switch_oob, evl_set_hmsig. cbn.
      destruct (ans_oob a), hmsig, (ans_set a); done.
    + unfold leave, evl_set_hmsig. cbn. destruct hmsig, (ans_set a); done.
Qed.
End Inband.

(** ** The calls of libevl

    Each creating call answers a descriptor or a negative error, each closing
    call releases it; [public] is [EVL_CLONE_PUBLIC]. *)
Class EvlCalls := {
  evl_create_mutex : bool -> Z -> state Kernel Z;
  evl_create_event : bool -> Z -> state Kernel Z;
  evl_open_mutex : Z -> state Kernel Z;
  evl_open_event : Z -> state Kernel Z;
  evl_close_mutex : Z -> state Kernel unit;
  evl_close_event : Z -> state Kernel unit;
  evl_create_xbuf : Z -> Z -> state Kernel Z;
  evl_new_poll : state Kernel Z
}.

Class EvlCallsSpec `{EvlCalls} := {
  create_mutex_keeps public id : keeps [] (evl_create_mutex public id) held;
  create_event_keeps public id : keeps [] (evl_create_event public id) held;
  open_mutex_keeps id : keeps [] (evl_open_mutex id) held;
  open_event_keeps id : keeps [] (evl_open_event id) held;
  close_mutex_keeps fd : keeps (held fd) (evl_close_mutex fd) (fun _ => []);
  close_event_keeps fd : keeps (held fd) (evl_close_event fd) (fun _ => []);
  evl_create_xbuf_keeps size id : keeps [] (evl_create_xbuf size id) held;
  new_poll_keeps : keeps [] evl_new_poll held
}.

Section objects.
Context `{EvlCallsSpec}.

(** ** Remote handles *)

Record Handle := mkH {
  h_remote : RemoteHandle;
  h_shm_fd : Z;
  h_shm_base : Z;
  h_mutex : Z;
  h_event : Z
}.

Definition no_handle : Handle := mkH empty_handle (-1) (-1) (-1) (-1).

Definition h_holds (h : Handle) : list nat :=
  if rh_valid (h_remote h)
  then held (h_event h) ++ held (h_mutex h) ++ held (h_shm_base h) ++ held (h_shm_fd h) else [].

(** Four system calls, on the stage the caller is on. *)
Definition close_remote (h : Handle) (t : Inband.EvlThread) : state Kernel (Handle * Inband.EvlThread) :=
  if negb (rh_valid (h_remote h)) then mret (h, t)
  else
    _ ← evl_close_event (h_event h);
    _ ← evl_close_mutex (h_mutex h);
    _ ← sys_release (h_shm_base h);
    _ ← sys_release (h_shm_fd h);
    mret (no_handle, Inband.syscalls 4 t).

(** The body of [open_remote]; [pread] is the size the layout header has there. *)
Definition open_objects (pread : Z) (seg size : nat) (dest : Z) (h : Handle) : state Kernel (option Handle) :=
  fd ← sys_create;
  if fd <? 0 then mret None
  else if negb (pread =? 16) then _ ← sys_release fd; mret None
  else
    p ← sys_create;
    if p <? 0 then _ ← sys_release fd; mret None
    else
      mr ← evl_open_mutex dest;
      if mr <? 0 then _ ← sys_release p; _ ← sys_release fd; mret None
      else
        er ← evl_open_event dest;
        if er <? 0 then _ ← evl_close_mutex mr; _ ← sys_release p; _ ← sys_release fd; mret None
        else mret (Some (mkH (mkRH dest seg size true (rh_last_used (h_remote h))) fd p mr er)).

(** [open_remote]; once on the in-band stage the thread stays there until the
    scope ends. *)
Definition open_remote (a : Inband.answers) (pread : Z) (shm : Shm) (dest : Z) (h : Handle) (t : Inband.EvlThread)
    : state Kernel (option Handle * Inband.EvlThread) :=
  let '(s, t) := Inband.enter a (Inband.attach_this_thread t) in
  if negb (Inband.switched_ s) then mret (None, Inband.leave a s t)
  else
    let t := Inband.leave a s (Inband.inband_syscall t) in
    match shm_names shm !! dest with
    | None => mret (None, t)
    | Some seg => h ← open_objects pread seg (mapped_size shm seg) dest h; mret (h, t)
    end.

Record Handles := mkHandles { handles : list Handle; h_counter : Z }.

Definition set_remote (h : Handle) (r : RemoteHandle) : Handle :=
  mkH r (h_shm_fd h) (h_shm_base h) (h_mutex h) (h_event h).

(** [h.last_used = ++lru_counter_] *)
Definition use (i : nat) (c : Handles) : Handles :=
  let n := u64 (h_counter c + 1) in
  mkHandles
    (alter (fun h => set_remote h (mkRH (rh_dest_id (h_remote h)) (rh_shm_base (h_remote h)) (rh_shm_size (h_remote h)) (rh_valid (h_remote h)) n))
       i (handles c)) n.

Definition open_slot (a : Inband.answers) (pread : Z) (shm : Shm) (dest : Z) (i : nat) (c : Handles) (t : Inband.EvlThread)
    : state Kernel (option nat * Handles * Inband.EvlThread) :=
  match handles c !! i with
  | None => mret (None, c, t)
  | Some h =>
      r ← open_remote a pread shm dest h t;
      match r.1 with
      | None => mret (None, c, r.2)
      | Some h => mret (Some i, use i (mkHandles (<[i := h]> (handles c)) (h_counter c)), r.2)
      end
  end.

(** [get_or_open_remote]: the least recently used handle is closed before
    [open_remote] switches the thread to the in-band stage. *)
Definition get_or_open_remote (a : Inband.answers) (pread : Z) (shm : Shm) (dest : Z) (c : Handles) (t : Inband.EvlThread)
    : state Kernel (option nat * Handles * Inband.EvlThread) :=
  let hs := h_remote <$> handles c in
  match find_handle (fun h => rh_valid h && (rh_dest_id h =? dest)) 0 hs with
  | Some i => mret (Some i, use i c, t)
  | None =>
      match find_handle (fun h => negb (rh_valid h)) 0 hs with
      | Some i => open_slot a pread shm dest i c t
      | None =>
          let used := match hs with h :: _ => rh_last_used h | [] => 0 end in
          let lru := lru_loop 0 0 used hs in
          match handles c !! lru with
          | None => mret (None, c, t)
          | Some h =>
              r ← close_remote h t;
              open_slot a pread shm dest lru (mkHandles (<[lru := r.1]> (handles c)) (h_counter c)) r.2
          end
      end
  end.

Fixpoint close_handles (hs : list Handle) (t : Inband.EvlThread) : state Kernel (list Handle * Inband.EvlThread) :=
  match hs with
  | [] => mret ([], t)
  | h :: hs =>
      r ← close_remote h t;
      rs ← close_handles hs r.2;
      mret (r.1 :: rs.1, rs.2)
  end.

(** What the handles hold, and what the calls do to it. *)
Definition hs_holds (hs : list Handle) : list nat := concat (map h_holds hs).

Lemma hs_holds_insert i h old hs :
  hs !! i = Some old -> h_holds old = [] -> hs_holds (<[i := h]> hs) ≡ₚ h_holds h ++ hs_holds hs.
Proof.
  unfold hs_holds. revert i. induction hs as [|h' hs IH]; intros [|i] Hi Ho; simplify_eq/=; [by rewrite Ho|].
  rewrite (IH i Hi Ho). rewrite !(assoc_L (++)). by rewrite (Permutation_app_comm (h_holds h')).
Qed.

Lemma hs_holds_lookup i h hs :
  hs !! i = Some h -> hs_holds hs ≡ₚ h_holds h ++ hs_holds (<[i := no_handle]> hs).
Proof.
  unfold hs_holds. revert i. induction hs as [|h' hs IH]; intros [|i] Hi; simplify_eq/=; [done|].
  rewrite (IH i Hi). rewrite !(assoc_L (++)). by rewrite (Permutation_app_comm (h_holds h')).
Qed.

Lemma close_remote_keeps h t : keeps (h_holds h) (close_remote h t) (fun _ => []).
Proof.
  unfold close_remote, h_holds. destruct (rh_valid (h_remote h)); cbn [negb]; [|by apply keeps_ret].
  eapply keeps_bind; [apply keeps_frame, close_event_keeps|]. intros ?.
  eapply keeps_bind; [apply (keeps_frame (held (h_shm_base h) ++ held (h_shm_fd h))), close_mutex_keeps|]. intros ?.
  eapply keeps_bind; [apply (keeps_frame (held (h_shm_fd h))), keeps_release_held|]. intros ?.
  eapply keeps_bind; [apply keeps_release_held|]. intros ?. by apply keeps_ret.
Qed.

Lemma close_remote_holds h t k : h_holds (close_remote h t k).1.1 = [].
Proof.
  unfold close_remote, h_holds. destruct (rh_valid (h_remote h)) eqn:E; cbn [negb].
  - by rewrite !bind_eq.
  - cbn. by rewrite E.
Qed.

Ltac step_keeps lem := eapply keeps_bind; [apply lem|intros ?]; cbn [app].

Lemma open_objects_keeps pread seg size dest h :
  keeps [] (open_objects pread seg size dest h) (fun r => match r with Some h => h_holds h | None => [] end).
Proof.
  unfold open_objects. eapply keeps_bind; [apply keeps_create|]. intros fd.
  apply keeps_if; intros Hfd; [rewrite held_neg by lia; by apply keeps_ret|].
  apply keeps_if; intros _.
  { eapply keeps_bind; [apply keeps_release_held|]. intros ?. by apply keeps_ret. }
  eapply keeps_bind; [apply (keeps_frame (held fd) []), keeps_create|]. intros p.
  apply keeps_if; intros Hp.
  { rewrite (held_neg p) by lia. eapply keeps_bind; [apply keeps_release_held|]. intros ?. by apply keeps_ret. }
  eapply keeps_bind; [apply (keeps_frame (held p ++ held fd) []), open_mutex_keeps|]. intros mr.
  assert (forall A (a : A) post, post a = [] ->
    keeps (held p ++ held fd) (_ ← sys_release p; _ ← sys_release fd; mret a) post) as Hclose.
  { intros A a post Ha. eapply keeps_bind; [apply keeps_frame, keeps_release_held|]. intros ?.
    eapply keeps_bind; [apply keeps_release_held|]. intros ?. apply keeps_ret. by rewrite Ha. }
  apply keeps_if; intros Hmr; [rewrite (held_neg mr) by lia; by apply Hclose|].
  eapply keeps_bind; [apply (keeps_frame (held mr ++ held p ++ held fd) []), open_event_keeps|]. intros er.
  apply keeps_if; intros Her.
  - rewrite (held_neg er) by lia. cbn [app]. eapply keeps_bind; [apply keeps_frame, close_mutex_keeps|]. intros ?. by apply Hclose.
  - by apply keeps_ret.
Qed.

Lemma open_remote_keeps a pread shm dest h t :
  keeps [] (open_remote a pread shm dest h t) (fun r => match r.1 with Some h => h_holds h | None => [] end).
Proof.
  unfold open_remote. destruct (Inband.enter a _) as [s t1]. apply keeps_if; intros _; [by apply keeps_ret|].
  destruct (shm_names shm !! dest) as [seg|]; [|by apply keeps_ret].
  eapply keeps_bind; [apply open_objects_keeps|]. intros r. by apply keeps_ret.
Qed.

Lemma use_holds i c : hs_holds (handles (use i c)) = hs_holds (handles c).
Proof.
  unfold use, hs_holds. cbn. f_equal. revert i. induction (handles c) as [|h hs IH]; intros [|i]; [done..|].
  cbn. f_equal. apply IH.
Qed.

Lemma open_slot_keeps a pread shm dest i c t :
  (forall h, handles c !! i = Some h -> h_holds h = []) ->
  keeps (hs_holds (handles c)) (open_slot a pread shm dest i c t) (fun r => hs_holds (handles r.1.2)).
Proof.
  intros Hi. unfold open_slot. destruct (handles c !! i) as [old|] eqn:E; [|by apply keeps_ret].
  eapply keeps_bind; [apply (keeps_frame (hs_holds (handles c)) []), open_remote_keeps|]. intros [[h|] t'].
  - cbn [fst snd]. apply keeps_ret. cbn [fst snd]. rewrite use_holds. cbn [handles].
    by rewrite (hs_holds_insert i h old) by auto.
  - by apply keeps_ret.
Qed.

Lemma get_or_open_remote_keeps a pread shm dest c t :
  keeps (hs_holds (handles c)) (get_or_open_remote a pread shm dest c t) (fun r => hs_holds (handles r.1.2)).
Proof.
  unfold get_or_open_remote. destruct (find_handle _ 0 _) as [i|]; [apply keeps_ret; cbn [fst snd]; by rewrite use_holds|].
  destruct (find_handle _ 0 _) as [i|] eqn:Ef.
  - apply open_slot_keeps. intros h Hh. apply find_handle_some in Ef as (k&r&->&Hr&Hv).
    cbn in Hh. rewrite list_lookup_fmap, Hh in Hr. injection Hr as <-. unfold h_holds.
    by destruct (rh_valid (h_remote h)).
  - set (lru := lru_loop _ _ _ _). destruct (handles c !! lru) as [h|] eqn:E; [|by apply keeps_ret].
    intros R k Ho. rewrite (hs_holds_lookup lru h) in Ho by done. rewrite <- (assoc_L (++)) in Ho.
    rewrite bind_eq. pose proof (close_remote_holds h t k) as Hn.
    destruct (close_remote_keeps h t _ k Ho) as [Ho1 E1].
    destruct (close_remote h t k) as [[h' t'] k1]. cbn [fst snd] in *.
    assert (hs_holds (<[lru := h']> (handles c)) ≡ₚ hs_holds (<[lru := no_handle]> (handles c))) as Hp.
    { rewrite <- (list_insert_insert_eq (handles c) lru h' no_handle).
      rewrite (hs_holds_insert lru h' no_handle); [by rewrite Hn|by apply list_lookup_insert_eq, (lookup_lt_Some _ _ _ E)|done]. }
    cbn [app] in Ho1. rewrite <- Hp in Ho1.
    destruct (open_slot_keeps a pread shm dest lru (mkHandles (<[lru := h']> (handles c)) (h_counter c)) t') with (R := R) (k := k1)
      as [Ho2 E2]; [|done|split; [exact Ho2|congruence]].
    cbn. intros h2. rewrite list_lookup_insert_eq by (by eapply lookup_lt_Some). by intros [= <-].
Qed.

Lemma close_handles_keeps hs t : keeps (hs_holds hs) (close_handles hs t) (fun _ => []).
Proof.
  revert t. induction hs as [|h hs IH]; intros t; cbn [close_handles]; [by apply keeps_ret|].
  eapply keeps_bind; [apply keeps_frame, close_remote_keeps|]. intros r.
  eapply keeps_bind; [apply IH|]. intros rs. by apply keeps_ret.
Qed.

Lemma close_handles_holds hs t k : hs_holds (close_handles hs t k).1.1 = [].
Proof.
  revert t k. induction hs as [|h hs IH]; intros t k; [done|]. cbn [close_handles]. rewrite !bind_eq. cbn.
  unfold hs_holds in *. cbn. by rewrite close_remote_holds, IH.
Qed.

(** ** The object *)

Record Objects := mkObj {
  ob_config : IpcConfig;
  ob_mode : Mode;
  ob_created : bool;
  ob_shm_fd : Z;
  ob_shm_base : Z;
  ob_mutex : Z;
  ob_event : Z;
  ob_xbuf_fd : Z;
  ob_poll_fd : Z;
  ob_oob_sock : Z;
  ob_remotes : Handles
}.

Definition ob_id (o : Objects) : Z := cfg_mailbox_id (ob_config o).

(** The constructor. *)
Definition new_objects (config : IpcConfig) (mode : Mode) : Objects :=
  let n := if 0 <? cfg_max_remote_handles config then cfg_max_remote_handles config else 16 in
  mkObj config mode false (-1) (-1) (-1) (-1) (-1) (-1) (-1)
    (mkHandles (replicate (Z.to_nat n) no_handle) 0).

Definition set_shm (fd base : Z) (o : Objects) : Objects :=
  mkObj (ob_config o) (ob_mode o) (ob_created o) fd base (ob_mutex o) (ob_event o)
    (ob_xbuf_fd o) (ob_poll_fd o) (ob_oob_sock o) (ob_remotes o).
Definition set_evl (mutex event : Z) (o : Objects) : Objects :=
  mkObj (ob_config o) (ob_mode o) (ob_created o) (ob_shm_fd o) (ob_shm_base o) mutex event
    (ob_xbuf_fd o) (ob_poll_fd o) (ob_oob_sock o) (ob_remotes o).
Definition set_xbuf (xbuf poll : Z) (o : Objects) : Objects :=
  mkObj (ob_config o) (ob_mode o) (ob_created o) (ob_shm_fd o) (ob_shm_base o) (ob_mutex o) (ob_event o)
    xbuf poll (ob_oob_sock o) (ob_remotes o).
Definition set_sock (sock : Z) (o : Objects) : Objects :=
  mkObj (ob_config o) (ob_mode o) (ob_created o) (ob_shm_fd o) (ob_shm_base o) (ob_mutex o) (ob_event o)
    (ob_xbuf_fd o) (ob_poll_fd o) sock (ob_remotes o).
Definition set_created (c : bool) (o : Objects) : Objects :=
  mkObj (ob_config o) (ob_mode o) c (ob_shm_fd o) (ob_shm_base o) (ob_mutex o) (ob_event o)
    (ob_xbuf_fd o) (ob_poll_fd o) (ob_oob_sock o) (ob_remotes o).
Definition set_remotes (hs : Handles) (o : Objects) : Objects :=
  mkObj (ob_config o) (ob_mode o) (ob_created o) (ob_shm_fd o) (ob_shm_base o) (ob_mutex o) (ob_event o)
    (ob_xbuf_fd o) (ob_poll_fd o) (ob_oob_sock o) hs.

(** [allocate_ring]; in [Mode::Local] the ring is on the heap. *)
Definition allocate_ring (ftruncate : Z) (o : Objects) : state Kernel (bool * Objects) :=
  if decide (ob_mode o = Public) then
    fd ← sys_create;
    if fd <? 0 then mret (false, set_shm fd (ob_shm_base o) o)
    else if ftruncate <? 0 then _ ← sys_release fd; mret (false, set_shm (-1) (ob_shm_base o) o)
    else
      p ← sys_create;
      if p <? 0 then _ ← sys_release fd; mret (false, set_shm (-1) (ob_shm_base o) o)
      else mret (true, set_shm fd p o)
  else mret (true, o).

Definition free_ring (o : Objects) : state Kernel Objects :=
  base ← close_fd (ob_shm_base o);
  fd ← close_fd (ob_shm_fd o);
  mret (set_shm fd base o).

Definition create_evl_objects (o : Objects) : state Kernel (bool * Objects) :=
  let public := bool_decide (ob_mode o = Public) in
  mr ← evl_create_mutex public (ob_id o);
  if mr <? 0 then mret (false, o)
  else
    er ← evl_create_event public (ob_id o);
    if er <? 0 then _ ← evl_close_mutex mr; mret (false, set_evl (-1) (ob_event o) o)
    else mret (true, set_evl mr er o).

Definition destroy_evl_objects (o : Objects) : state Kernel Objects :=
  _ ← evl_close_event (ob_event o);
  _ ← evl_close_mutex (ob_mutex o);
  mret (set_evl (-1) (-1) o).

Definition create_xbuf (o : Objects) : state Kernel (bool * Objects) :=
  let buf_sz := cfg_max_msg_size (ob_config o) * Z.of_nat kSlots in
  xbuf ← evl_create_xbuf buf_sz (ob_id o);
  if xbuf <? 0 then mret (false, set_xbuf xbuf (ob_poll_fd o) o)
  else
    poll ← evl_new_poll;
    if poll <? 0 then _ ← sys_release xbuf; mret (false, set_xbuf (-1) poll o)
    else mret (true, set_xbuf xbuf poll o).

(** [create_oob_socket], up to the table of routes. *)
Definition create_oob_socket (bind : Z) (o : Objects) : state Kernel (bool * Objects) :=
  sock ← sys_create;
  if sock <? 0 then mret (false, set_sock sock o)
  else if bind <? 0 then _ ← sys_release sock; mret (false, set_sock (-1) o)
  else mret (true, set_sock sock o).

Definition initialize (ftruncate bind : Z) (o : Objects) : state Kernel (IpcResult * Objects) :=
  if ob_created o then mret (SUCCESS, o)
  else if decide (ob_mode o = Network) then
    r ← create_oob_socket bind o;
    if negb r.1 then mret (ERROR_INIT, r.2) else mret (SUCCESS, set_created true r.2)
  else
    r ← allocate_ring ftruncate o;
    if negb r.1 then mret (ERROR_INIT, r.2)
    else
      r ← create_evl_objects r.2;
      if negb r.1 then mret (ERROR_INIT, r.2)
      else if decide (ob_mode o = Public) then
        r ← create_xbuf r.2;
        if negb r.1 then mret (ERROR_INIT, r.2) else mret (SUCCESS, set_created true r.2)
      else mret (SUCCESS, set_created true r.2).

Definition shutdown (t : Inband.EvlThread) (o : Objects) : state Kernel Objects :=
  if negb (ob_created o) then mret o
  else if decide (ob_mode o = Network) then
    sock ← close_fd (ob_oob_sock o);
    mret (set_created false (set_sock sock o))
  else
    rs ← close_handles (handles (ob_remotes o)) t;
    let o := set_remotes (mkHandles rs.1 (h_counter (ob_remotes o))) o in
    xbuf ← close_fd (ob_xbuf_fd o);
    poll ← close_fd (ob_poll_fd o);
    let o := set_xbuf xbuf poll o in
    o ← destroy_evl_objects o;
    o ← free_ring o;
    mret (set_created false o).

(** The part of [send_raw] that goes out of the process: only in
    [Mode::Public]; whether the mailbox is initialised is not asked. *)
Definition send_remote (a : Inband.answers) (pread : Z) (shm : Shm) (dest : Z) (t : Inband.EvlThread) (o : Objects)
    : state Kernel (Objects * Inband.EvlThread) :=
  if decide (ob_mode o = Public) then
    r ← get_or_open_remote a pread shm dest (ob_remotes o) t;
    mret (set_remotes r.1.2 o, r.2)
  else mret (o, t).

(** ** The account of resources

    What an initialised mailbox holds, beside its remote handles; one that is not
    initialised holds nothing that [shutdown] would give back, whatever its
    fields contain. *)
Definition live (o : Objects) : list nat :=
  if ob_created o then
    match ob_mode o with
    | Local => held (ob_event o) ++ held (ob_mutex o)
    | Public => held (ob_xbuf_fd o) ++ held (ob_poll_fd o) ++ held (ob_event o) ++ held (ob_mutex o) ++
                held (ob_shm_base o) ++ held (ob_shm_fd o)
    | Network => held (ob_oob_sock o)
    end
  else [].

Definition remotes (o : Objects) : list nat := hs_holds (handles (ob_remotes o)).

(** The fields of the other modes are never set. *)
Definition fields_ok (o : Objects) : Prop :=
  match ob_mode o with
  | Network => remotes o = []
  | Local => held (ob_shm_base o) = [] /\ held (ob_shm_fd o) = [] /\
      held (ob_xbuf_fd o) = [] /\ held (ob_poll_fd o) = [] /\ remotes o = []
  | Public => True
  end.

(** What a call of [initialize] opens and leaves behind when it fails: nothing
    if [allocate_ring] failed; else the ring, and with it the mutex and the event
    if it was the xbuf that failed. *)
Definition abandoned (ftruncate : Z) (o : Objects) (k : Kernel) : list nat :=
  if ob_created o || negb (bool_decide (ob_mode o = Public)) then []
  else
    let '((ok, o), k) := allocate_ring ftruncate o k in
    if negb ok then []
    else
      let ring := held (ob_shm_base o) ++ held (ob_shm_fd o) in
      let '((ok, o), k) := create_evl_objects o k in
      if negb ok then ring
      else
        let '((ok, o'), _) := create_xbuf o k in
        if negb ok then held (ob_event o) ++ held (ob_mutex o) ++ ring else [].

(** *** Programs *)

Inductive event :=
| Initialize (ftruncate bind : Z)
| SendRemote (a : Inband.answers) (pread : Z) (shm : Shm) (dest : Z)
| Shutdown.

Definition act (e : event) (t : Inband.EvlThread) (o : Objects) : state Kernel (Objects * Inband.EvlThread) :=
  match e with
  | Initialize ftruncate bind => r ← initialize ftruncate bind o; mret (r.2, t)
  | SendRemote a pread shm dest => send_remote a pread shm dest t o
  | Shutdown => o ← shutdown t o; mret (o, t)
  end.

(** The events, then the destructor. *)
Fixpoint lifetime (es : list event) (t : Inband.EvlThread) (o : Objects) : state Kernel unit :=
  match es with
  | [] => _ ← shutdown t o; mret tt
  | e :: es => r ← act e t o; lifetime es r.2 r.1
  end.

(** What is never given back: what calls of [initialize] abandoned, and the
    remote handles of a mailbox that is not initialised when it is destroyed. *)
Fixpoint leaked (es : list event) (t : Inband.EvlThread) (o : Objects) (k : Kernel) : list nat :=
  match es with
  | [] => if ob_created o then [] else remotes o
  | e :: es =>
      let '((o', t'), k') := act e t o k in
      match e with Initialize ftruncate _ => abandoned ftruncate o k | _ => [] end ++ leaked es t' o' k'
  end.

(** [initialize] of a Public mailbox succeeds, or fails in [allocate_ring], and
    nothing is sent to other processes unless it has succeeded. *)
Fixpoint careful (es : list event) (t : Inband.EvlThread) (o : Objects) (k : Kernel) : Prop :=
  match es with
  | [] => True
  | e :: es =>
      match e with
      | Initialize ftruncate bind =>
          (initialize ftruncate bind o k).1.1 = SUCCESS \/ (allocate_ring ftruncate o k).1.1 = false
      | SendRemote _ _ _ _ => ob_created o = true
      | Shutdown => True
      end /\
      let '((o', t'), k') := act e t o k in careful es t' o' k'
  end.

#[export] Instance careful_dec es t o k : Decision (careful es t o k).
Proof.
  revert t o k. induction es as [|e es IH]; intros t o k; cbn [careful]; [apply _|].
  destruct (act e t o k) as [[o' t'] k']. destruct e; apply _.
Defined.

(** *** The parts of initialize

    What each opens, whatever the fields of the object contain before. *)
Lemma allocate_ring_fields ftruncate o k :
  exists fd base, (allocate_ring ftruncate o k).1.2 = set_shm fd base o /\
    (ob_mode o <> Public -> (allocate_ring ftruncate o k).1.1 = true /\ fd = ob_shm_fd o /\ base = ob_shm_base o) /\
    (ob_mode o = Public -> (allocate_ring ftruncate o k).1.1 = true -> 0 <= fd /\ 0 <= base).
Proof.
  unfold allocate_ring. destruct (decide _); [|exists (ob_shm_fd o), (ob_shm_base o); by destruct o].
  rewrite !bind_eq. destruct (Z.ltb_spec (sys_create k).1 0); [by eexists _, _|].
  destruct (ftruncate <? 0); [rewrite !bind_eq; by eexists _, _|]. rewrite !bind_eq.
  destruct (Z.ltb_spec (sys_create (sys_create k).2).1 0); [rewrite !bind_eq|]; eexists _, _; done.
Qed.

Lemma allocate_ring_keeps ftruncate o :
  keeps [] (allocate_ring ftruncate o)
    (fun r => if r.1 then if decide (ob_mode o = Public) then held (ob_shm_base r.2) ++ held (ob_shm_fd r.2) else [] else []).
Proof.
  unfold allocate_ring. destruct (decide _); [|by apply keeps_ret].
  eapply keeps_bind; [apply keeps_create|]. intros fd.
  apply keeps_if; intros Hfd; [rewrite (held_neg fd) by lia; by apply keeps_ret|].
  apply keeps_if; intros _.
  { eapply keeps_bind; [apply keeps_release_held|]. intros ?. by apply keeps_ret. }
  eapply keeps_bind; [apply (keeps_frame (held fd) []), keeps_create|]. intros p.
  apply keeps_if; intros Hp; [|by apply keeps_ret].
  rewrite (held_neg p) by lia. cbn [app].
  eapply keeps_bind; [apply keeps_release_held|]. intros ?. by apply keeps_ret.
Qed.

Lemma create_evl_objects_fields o k :
  exists mutex event, (create_evl_objects o k).1.2 = set_evl mutex event o.
Proof.
  unfold create_evl_objects. rewrite !bind_eq. destruct (_ <? 0).
  { exists (ob_mutex o), (ob_event o). by destruct o. }
  rewrite !bind_eq. destruct (_ <? 0); [rewrite !bind_eq|]; by eexists _, _.
Qed.

Lemma create_evl_objects_keeps o :
  keeps [] (create_evl_objects o) (fun r => if r.1 then held (ob_event r.2) ++ held (ob_mutex r.2) else []).
Proof.
  unfold create_evl_objects.
  eapply keeps_bind; [apply create_mutex_keeps|]. intros mr.
  apply keeps_if; intros Hmr; [rewrite (held_neg mr) by lia; by apply keeps_ret|].
  eapply keeps_bind; [apply (keeps_frame (held mr) []), create_event_keeps|]. intros er.
  apply keeps_if; intros Her; [|by apply keeps_ret].
  rewrite (held_neg er) by lia. cbn [app].
  eapply keeps_bind; [apply close_mutex_keeps|]. intros ?. by apply keeps_ret.
Qed.

Lemma create_xbuf_fields o k :
  exists xbuf poll, (create_xbuf o k).1.2 = set_xbuf xbuf poll o.
Proof.
  unfold create_xbuf. rewrite !bind_eq. destruct (_ <? 0); [by eexists _, _|].
  rewrite !bind_eq. destruct (_ <? 0); [rewrite !bind_eq|]; by eexists _, _.
Qed.

Lemma create_xbuf_keeps o :
  keeps [] (create_xbuf o) (fun r => if r.1 then held (ob_xbuf_fd r.2) ++ held (ob_poll_fd r.2) else []).
Proof.
  unfold create_xbuf.
  eapply keeps_bind; [apply evl_create_xbuf_keeps|]. intros xbuf.
  apply keeps_if; intros Hxbuf; [rewrite (held_neg xbuf) by lia; by apply keeps_ret|].
  eapply keeps_bind; [apply (keeps_frame (held xbuf) []), new_poll_keeps|]. intros poll.
  apply keeps_if; intros Hpoll; [|apply keeps_ret; apply Permutation_app_comm].
  rewrite (held_neg poll) by lia. cbn [app].
  eapply keeps_bind; [apply keeps_release_held|]. intros ?. by apply keeps_ret.
Qed.

Lemma create_oob_socket_fields bind o k :
  exists sock, (create_oob_socket bind o k).1.2 = set_sock sock o.
Proof.
  unfold create_oob_socket. rewrite !bind_eq. destruct (_ <? 0); [by eexists|].
  destruct (bind <? 0); [rewrite !bind_eq|]; by eexists.
Qed.

Lemma create_oob_socket_keeps bind o :
  keeps [] (create_oob_socket bind o) (fun r => if r.1 then held (ob_oob_sock r.2) else []).
Proof.
  unfold create_oob_socket.
  eapply keeps_bind; [apply keeps_create|]. intros sock.
  apply keeps_if; intros Hsock; [rewrite (held_neg sock) by lia; by apply keeps_ret|].
  apply keeps_if; intros _; [|by apply keeps_ret].
  eapply keeps_bind; [apply keeps_release_held|]. intros ?. by apply keeps_ret.
Qed.

Lemma keeps_run {A} (m : state Kernel A) post R k :
  keeps [] m post -> owns R k -> owns (post (m k).1 ++ R) (m k).2 /\ k_faults (m k).2 = k_faults k.
Proof. intros Hm Ho. by apply Hm. Qed.

Ltac run_part lem Ho :=
  let H := fresh "Ho" in let E := fresh "Ef" in destruct (keeps_run _ _ _ _ lem Ho) as [H E].

Definition unchanged (o o' : Objects) : Prop :=
  ob_mode o' = ob_mode o /\ ob_remotes o' = ob_remotes o /\ (fields_ok o -> fields_ok o').

(** [initialize] opens what the mailbox then holds, and what it abandons. *)
Lemma initialize_accounts ftruncate bind o R k :
  owns (live o ++ R) k ->
  let r := initialize ftruncate bind o k in
  owns (live r.1.2 ++ abandoned ftruncate o k ++ R) r.2 /\ k_faults r.2 = k_faults k /\ unchanged o r.1.2 /\
  (ob_created r.1.2 = true <-> r.1.1 = SUCCESS).
Proof.
  intros Ho. unfold initialize, abandoned. destruct (ob_created o) eqn:Hc; [by rewrite orb_true_l|]. cbn [orb].
  unfold live in Ho. rewrite Hc in Ho. cbn [app] in Ho. destruct (decide (ob_mode o = Network)) as [Hn|Hn].
  { rewrite bool_decide_false by (by rewrite Hn). cbn [negb app]. rewrite bind_eq.
    run_part (create_oob_socket_keeps bind o) Ho. destruct (create_oob_socket_fields bind o k) as [sock E].
    rewrite E in *. unfold unchanged, live, fields_ok.
    destruct (create_oob_socket bind o k).1.1; cbn -[held remotes] in *; rewrite Hn in *; by rewrite ?Hc. }
  rewrite bind_eq. run_part (allocate_ring_keeps ftruncate o) Ho.
  destruct (allocate_ring_fields ftruncate o k) as (fd&base&E&Hl&_).
  destruct (allocate_ring ftruncate o k) as [[ok o1] k1]. cbn [fst snd] in *. subst o1.
  set (o1 := set_shm fd base o) in *.
  assert (unchanged o o1) as Hu1.
  { unfold unchanged, fields_ok, o1, remotes. cbn -[held hs_holds]. destruct (ob_mode o) eqn:Em; [|done..].
    by destruct Hl as (_&->&->). }
  destruct ok; cbn [negb mret state_ret fst snd].
  2:{ unfold live. cbn -[held]. rewrite Hc. split; [by case_bool_decide|]. done. }
  rewrite bind_eq. run_part (create_evl_objects_keeps o1) Ho0.
  destruct (create_evl_objects_fields o1 k1) as (mutex&event&E2).
  destruct (create_evl_objects o1 k1) as [[ok2 o2] k2]. cbn [fst snd] in *. subst o2.
  set (o2 := set_evl mutex event o1) in *.
  assert (unchanged o o2) as Hu2 by (unfold unchanged, fields_ok, remotes, o2 in *; exact Hu1).
  destruct ok2; cbn [negb mret state_ret fst snd].
  2:{ unfold live. cbn -[held]. rewrite Hc. split; [|by rewrite Ef0, Ef].
      destruct (decide (ob_mode o = Public)); [rewrite bool_decide_true by done|rewrite bool_decide_false by done];
        cbn [negb]; done. }
  destruct (decide (ob_mode o = Public)) as [Hp|Hp].
  - rewrite bool_decide_true by done. cbn [negb]. rewrite bind_eq. run_part (create_xbuf_keeps o2) Ho1.
    destruct (create_xbuf_fields o2 k2) as (xbuf&poll&E3).
    destruct (create_xbuf o2 k2) as [[ok3 o3] k3]. cbn [fst snd] in *. subst o3.
    assert (forall b, unchanged o (set_created b (set_xbuf xbuf poll o2))) as Hu3.
    { intros b. unfold unchanged, fields_ok. cbn. by rewrite Hp. }
    destruct ok3; cbn [negb fst snd mret state_ret].
    + split; [|split_and!; [congruence|apply Hu3|done]]. unfold live. cbn -[held]. rewrite Hp, <- !(assoc_L (++)).
      cbn -[held] in Ho2. by rewrite <- !(assoc_L (++)) in Ho2.
    + split; [|split_and!; [congruence|unfold unchanged, fields_ok; cbn; by rewrite Hp|cbn; by rewrite Hc]].
      unfold live. cbn -[held]. rewrite Hc. cbn [app].
      cbn -[held] in Ho2. by rewrite <- !(assoc_L (++)) in *.
  - rewrite bool_decide_false by done. cbn [negb fst snd app mret state_ret].
    split; [|split_and!; [congruence|exact Hu2|done]]. unfold live. cbn -[held].
    destruct (ob_mode o); [exact Ho1|done..].
Qed.

Lemma unchanged_abandoned ftruncate o k : ob_mode o <> Public -> abandoned ftruncate o k = [].
Proof. intros Hp. unfold abandoned. rewrite bool_decide_false by done. by rewrite orb_true_r. Qed.

Lemma abandoned_early ftruncate bind o k :
  (initialize ftruncate bind o k).1.1 = SUCCESS \/ (allocate_ring ftruncate o k).1.1 = false ->
  abandoned ftruncate o k = [].
Proof.
  unfold initialize, abandoned. destruct (ob_created o); [by rewrite orb_true_l|]. cbn [orb].
  destruct (bool_decide (ob_mode o = Public)) eqn:Hp; [|done]. apply bool_decide_eq_true in Hp. cbn [negb].
  rewrite decide_False by (by rewrite Hp). rewrite bind_eq.
  destruct (allocate_ring ftruncate o k) as [[[|] o1] k1]; cbn [negb fst snd]; [|done].
  rewrite bind_eq. destruct (create_evl_objects o1 k1) as [[[|] o2] k2]; cbn [negb fst snd]; [|by intros [[=]|[=]]].
  rewrite decide_True by done. rewrite bind_eq.
  destruct (create_xbuf o2 k2) as [[[|] o3] k3]; cbn [negb fst snd]; [done|by intros [[=]|[=]]].
Qed.

(** A failure after [allocate_ring] leaves the segment open and mapped. *)
Lemma abandoned_late ftruncate bind o k :
  ob_mode o = Public -> ob_created o = false ->
  (allocate_ring ftruncate o k).1.1 = true -> (initialize ftruncate bind o k).1.1 = ERROR_INIT ->
  exists fd base, 0 <= fd /\ 0 <= base /\ forall x, x ∈ held base ++ held fd -> x ∈ abandoned ftruncate o k.
Proof.
  intros Hm Hc Ha. unfold initialize, abandoned. rewrite Hc. cbn [orb].
  rewrite bool_decide_true by done. cbn [negb]. rewrite decide_False by (by rewrite Hm). rewrite bind_eq.
  destruct (allocate_ring_fields ftruncate o k) as (fd&base&E&_&Hn). destruct (Hn Hm Ha) as [Hfd Hbase].
  destruct (allocate_ring ftruncate o k) as [[ok o1] k1]. cbn [fst snd] in *. subst ok o1. cbn [negb]. rewrite bind_eq.
  destruct (create_evl_objects_fields (set_shm fd base o) k1) as (mutex&event&E2).
  destruct (create_evl_objects _ k1) as [[ok2 o2] k2]. cbn [fst snd] in *. subst o2.
  intros Hi. exists fd, base. split_and!; [done..|]. destruct ok2; cbn [negb] in *; [|done].
  rewrite decide_True, bind_eq in Hi by done. set (o2 := set_evl mutex event (set_shm fd base o)) in *.
  destruct (create_xbuf o2 k2) as [[[|] o3] k3]; cbn [negb fst snd] in *; [done|]. intros x Hx.
  rewrite !elem_of_app. rewrite elem_of_app in Hx. cbn -[held]. tauto.
Qed.

Lemma send_remote_accounts a pread shm dest t o R k :
  owns (live o ++ remotes o ++ R) k ->
  let r := send_remote a pread shm dest t o k in
  owns (live r.1.1 ++ remotes r.1.1 ++ R) r.2 /\ k_faults r.2 = k_faults k /\
  ob_mode r.1.1 = ob_mode o /\ ob_created r.1.1 = ob_created o /\ (fields_ok o -> fields_ok r.1.1).
Proof.
  intros Ho. unfold send_remote. destruct (decide _) as [Hp|]; [|done]. cbv zeta. rewrite bind_eq. cbn [mret state_ret fst snd].
  rewrite (Permutation_app_comm (live o)), <- (assoc_L (++)) in Ho.
  destruct (get_or_open_remote_keeps a pread shm dest (ob_remotes o) t _ k Ho) as [Ho' Ef].
  split_and!; [|done|done|done|].
  - unfold remotes. cbn -[held hs_holds]. rewrite (Permutation_app_comm (live _)), <- (assoc_L (++)).
    rewrite <- (assoc_L (++)) in Ho' || idtac. exact Ho'.
  - unfold fields_ok. cbn. by rewrite Hp.
Qed.

Lemma held_close_fd fd k : held (close_fd fd k).1 = [].
Proof. apply held_neg, close_fd_neg. Qed.

Lemma shutdown_fields t o k :
  ob_mode (shutdown t o k).1 = ob_mode o /\ ob_created (shutdown t o k).1 = false /\
  (fields_ok o -> fields_ok (shutdown t o k).1 /\ (ob_created o = true -> remotes (shutdown t o k).1 = [])).
Proof.
  unfold shutdown. destruct (ob_created o) eqn:Hc; cbn [negb]; [|done].
  destruct (decide (ob_mode o = Network)) as [Hn|Hn].
  - rewrite bind_eq. unfold fields_ok. cbn -[hs_holds]. by rewrite Hn.
  - rewrite bind_eq. pose proof (close_handles_holds (handles (ob_remotes o)) t k) as Hhs.
    unfold destroy_evl_objects, free_ring. rewrite !bind_eq. unfold fields_ok, remotes.
    cbn -[held close_fd hs_holds close_handles]. split; [done|]. split; [done|]. intros Hf. rewrite Hhs, !held_close_fd.
    by destruct (ob_mode o).
Qed.

Lemma shutdown_keeps t o :
  fields_ok o -> ob_created o = true -> keeps (live o ++ remotes o) (shutdown t o) (fun _ => []).
Proof.
  intros Hf Hc. unfold shutdown, live. rewrite Hc. cbn [negb]. destruct (decide _) as [Hn|Hn].
  - unfold fields_ok in Hf. rewrite Hn in *. rewrite Hf, app_nil_r.
    eapply keeps_bind; [apply keeps_close_fd|]. intros ?. by apply keeps_ret.
  - assert (match ob_mode o with
      | Local => held (ob_event o) ++ held (ob_mutex o)
      | Public => held (ob_xbuf_fd o) ++ held (ob_poll_fd o) ++ held (ob_event o) ++ held (ob_mutex o) ++
          held (ob_shm_base o) ++ held (ob_shm_fd o)
      | Network => held (ob_oob_sock o) end =
      held (ob_xbuf_fd o) ++ held (ob_poll_fd o) ++ held (ob_event o) ++ held (ob_mutex o) ++
        held (ob_shm_base o) ++ held (ob_shm_fd o)) as ->.
    { unfold fields_ok in Hf. destruct (ob_mode o); [|done..]. destruct Hf as (->&->&->&->&_). by rewrite app_nil_r. }
    eapply keeps_perm with (post := fun _ => []); [|apply Permutation_app_comm|done].
    eapply keeps_bind; [apply keeps_frame, close_handles_keeps|]. intros rs. cbn [app].
    eapply keeps_bind; [apply keeps_frame, keeps_close_fd|]. intros xbuf. cbn [app].
    eapply keeps_bind; [apply keeps_frame, keeps_close_fd|]. intros poll. cbn [app].
    unfold destroy_evl_objects, free_ring. cbn -[held].
    eapply (keeps_bind_fact (fun o' => ob_shm_base o' = ob_shm_base o /\ ob_shm_fd o' = ob_shm_fd o)) with
      (mid := fun _ => held (ob_shm_base o) ++ held (ob_shm_fd o)).
    + eapply keeps_bind; [apply keeps_frame, close_event_keeps|]. intros ?. cbn [app].
      eapply keeps_bind; [apply keeps_frame, close_mutex_keeps|]. intros ?. by apply keeps_ret.
    + intros k. by rewrite !bind_eq.
    + intros o' [-> ->]. eapply (keeps_bind _ _ (fun _ => [])); [|intros ?; by apply keeps_ret].
      eapply keeps_bind; [apply keeps_frame, keeps_close_fd|]. intros ?. cbn [app].
      eapply keeps_bind; [apply keeps_close_fd|]. intros ?. by apply keeps_ret.
Qed.

Lemma shutdown_accounts t o R k :
  fields_ok o -> owns (live o ++ remotes o ++ R) k ->
  let r := shutdown t o k in
  owns (live r.1 ++ remotes r.1 ++ R) r.2 /\ k_faults r.2 = k_faults k.
Proof.
  intros Hf Ho. destruct (ob_created o) eqn:Hc; [|unfold shutdown; by rewrite Hc].
  destruct (shutdown_fields t o k) as (_&Hc'&Hr). destruct (Hr Hf) as [_ Hr']. cbv zeta. rewrite (Hr' Hc).
  unfold live at 1. rewrite Hc'. rewrite (assoc_L (++)) in Ho. by apply shutdown_keeps.
Qed.

(** A step of a program. *)
Lemma act_accounts e t o R k :
  fields_ok o -> owns (live o ++ remotes o ++ R) k ->
  let r := act e t o k in
  let left := match e with Initialize ftruncate _ => abandoned ftruncate o k | _ => [] end in
  fields_ok r.1.1 /\ ob_mode r.1.1 = ob_mode o /\
  owns (live r.1.1 ++ remotes r.1.1 ++ left ++ R) r.2 /\ k_faults r.2 = k_faults k.
Proof.
  intros Hf Ho. destruct e as [ftruncate bind|a pread shm dest|]; cbn [act]; cbv zeta.
  - rewrite bind_eq. cbn [mret state_ret fst snd].
    destruct (initialize_accounts ftruncate bind o _ k Ho) as (Ho'&Ef&(Hm&Hr&Hf')&_).
    split_and!; [auto|done| |done]. unfold remotes in *. rewrite Hr.
    eapply owns_proper; [apply Permutation_app_head, Permutation_app_swap_app|done|exact Ho'].
  - destruct (send_remote_accounts a pread shm dest t o R k Ho) as (?&?&?&?&?). auto.
  - rewrite bind_eq. cbn [mret state_ret fst snd app]. destruct (shutdown_fields t o k) as (?&_&Hf').
    destruct (shutdown_accounts t o R k Hf Ho). split_and!; auto. by apply Hf'.
Qed.

Lemma lifetime_accounts es t o R k :
  fields_ok o -> owns (live o ++ remotes o ++ R) k ->
  owns (leaked es t o k ++ R) (lifetime es t o k).2 /\ k_faults (lifetime es t o k).2 = k_faults k.
Proof.
  revert t o R k. induction es as [|e es IH]; intros t o R k Hf Ho; cbn [lifetime leaked].
  - rewrite bind_eq. cbn [snd]. destruct (shutdown_accounts t o R k Hf Ho) as [Ho' Ef]. split; [|done].
    destruct (shutdown_fields t o k) as (_&Hc&Hr). cbv zeta in Ho'. unfold live in Ho' at 1. rewrite Hc in Ho'.
    cbn [app mret state_ret snd] in *. destruct (ob_created o) eqn:Hco.
    + by rewrite (proj2 (Hr Hf) eq_refl) in Ho'.
    + assert ((shutdown t o k).1 = o) as E by (unfold shutdown; by rewrite Hco). by rewrite E in Ho'.
  - rewrite bind_eq. destruct (act_accounts e t o R k Hf Ho) as (Hf'&_&Ho'&Ef). cbv zeta in *.
    set (left := match e with Initialize ftruncate _ => abandoned ftruncate o k | _ => [] end) in *.
    destruct (act e t o k) as [[o' t'] k']. cbn [fst snd] in *.
    destruct (IH t' o' (left ++ R) k' Hf' Ho') as [Ho2 E2]. split; [|congruence].
    rewrite <- (assoc_L (++)). eapply owns_proper; [apply Permutation_app_swap_app|done|exact Ho2].
Qed.

Lemma leaked_elsewhere es t o R k :
  ob_mode o <> Public -> fields_ok o -> owns (live o ++ remotes o ++ R) k -> leaked es t o k = [].
Proof.
  revert t o R k. induction es as [|e es IH]; intros t o R k Hm Hf Ho; cbn [leaked].
  - destruct (ob_created o); [done|]. unfold fields_ok in Hf. destruct (ob_mode o); tauto.
  - destruct (act_accounts e t o R k Hf Ho) as (Hf'&Hm'&Ho'&_). cbv zeta in *.
    destruct (act e t o k) as [[o' t'] k']. cbn [fst snd] in *.
    rewrite (IH t' o' _ k' ltac:(by rewrite Hm') Hf' Ho'), app_nil_r.
    destruct e; [by apply unchanged_abandoned|done..].
Qed.

Lemma leaked_careful es t o R k :
  fields_ok o -> (ob_created o = false -> remotes o = []) -> owns (live o ++ remotes o ++ R) k ->
  careful es t o k -> leaked es t o k = [].
Proof.
  revert t o R k. induction es as [|e es IH]; intros t o R k Hf Hr Ho; cbn [leaked careful].
  { destruct (ob_created o); auto. }
  intros [He Hes]. destruct (act_accounts e t o R k Hf Ho) as (Hf'&_&Ho'&_). cbv zeta in *.
  assert (ob_created (act e t o k).1.1 = false -> remotes (act e t o k).1.1 = []) as Hr'.
  { destruct e as [ftruncate bind|a pread shm dest|]; cbn [act].
    - rewrite bind_eq. cbn [mret state_ret fst]. intros Hc.
      destruct (initialize_accounts ftruncate bind o _ k Ho) as (_&_&(_&E&_)&_). unfold remotes in *. rewrite E.
      apply Hr. destruct (ob_created o) eqn:Hco; [|done]. unfold initialize in Hc. rewrite Hco in Hc. cbn in Hc. congruence.
    - intros Hc. destruct (send_remote_accounts a pread shm dest t o R k Ho) as (_&_&_&E&_). congruence.
    - rewrite bind_eq. cbn [mret state_ret fst]. intros _. destruct (ob_created o) eqn:Hco.
      + by apply (shutdown_fields t o k).
      + assert ((shutdown t o k).1 = o) as -> by (unfold shutdown; by rewrite Hco). auto. }
  destruct (act e t o k) as [[o' t'] k']. cbn [fst snd] in *.
  rewrite (IH t' o' _ k' Hf' Hr' Ho' Hes), app_nil_r.
  destruct e; [by eapply abandoned_early|done..].
Qed.

Lemma new_objects_fields config mode :
  fields_ok (new_objects config mode) /\ remotes (new_objects config mode) = [].
Proof.
  assert (remotes (new_objects config mode) = []) as Hr.
  { unfold remotes, new_objects, hs_holds. cbn [ob_remotes handles].
    generalize (Z.to_nat (if 0 <? cfg_max_remote_handles config then cfg_max_remote_handles config else 16)) as n.
    induction n as [|n IH]; [done|]. exact IH. }
  split; [|done]. unfold fields_ok. by destruct mode.
Qed.

(** ** The cache of EvlRemote.v is this one without the resources *)

Definition cache_of (c : Handles) : Cache := mkCache (h_remote <$> handles c) (h_counter c).

Lemma cache_of_use i c : cache_of (use i c) = touch i (cache_of c).
Proof.
  unfold cache_of, use, touch. cbn. f_equal. revert i. induction (handles c) as [|h hs IH]; intros [|i]; [done..|].
  cbn. f_equal. apply IH.
Qed.

Lemma open_objects_remote pread seg size dest h k h' :
  (open_objects pread seg size dest h k).1 = Some h' -> h_remote h' = mkRH dest seg size true (rh_last_used (h_remote h)).
Proof.
  unfold open_objects. rewrite bind_eq. destruct (_ <? 0); [done|].
  destruct (negb _); [by rewrite bind_eq|]. rewrite bind_eq. destruct (_ <? 0); [by rewrite bind_eq|].
  rewrite bind_eq. destruct (_ <? 0); [by rewrite !bind_eq|]. rewrite bind_eq.
  destruct (_ <? 0); [by rewrite !bind_eq|]. by intros [= <-].
Qed.

Lemma open_remote_remote a pread shm dest h t k :
  exists ok, h_remote <$> (open_remote a pread shm dest h t k).1.1 =
    Remote.open_remote (fun _ => ok) shm dest (h_remote h).
Proof.
  unfold open_remote, Remote.open_remote. destruct (Inband.enter a _) as [s t1].
  destruct (negb _); [exists false; by destruct (shm_names shm !! dest)|].
  destruct (shm_names shm !! dest) as [seg|]; [|by exists true]. rewrite bind_eq. cbn.
  destruct (open_objects pread seg (mapped_size shm seg) dest h k).1 as [h'|] eqn:E; [exists true|by exists false].
  cbn. by rewrite (open_objects_remote _ _ _ _ _ _ _ E).
Qed.

Lemma open_slot_remote a pread shm dest i c t k :
  exists ok, let r := (open_slot a pread shm dest i c t k).1 in
    (r.1.1, cache_of r.1.2) = open_at (fun _ => ok) shm dest i (cache_of c).
Proof.
  unfold open_slot, open_at. cbn [remote_handles cache_of]. rewrite list_lookup_fmap.
  destruct (handles c !! i) as [h|] eqn:E; [|by exists true]. cbn [fmap option_fmap option_map mbind option_bind].
  destruct (open_remote_remote a pread shm dest h t k) as [ok Ho]. exists ok. rewrite <- Ho, bind_eq.
  destruct (open_remote a pread shm dest h t k) as [[[h'|] t'] k']; cbn [fst snd fmap option_fmap option_map]; [|done].
  cbn. f_equal. rewrite cache_of_use. unfold cache_of. cbn. by rewrite list_fmap_insert.
Qed.

Lemma get_or_open_remote_cache a pread shm dest c t k :
  exists ok, let r := (get_or_open_remote a pread shm dest c t k).1 in
    (r.1.1, cache_of r.1.2) = Remote.get_or_open_remote (fun _ => ok) shm dest (cache_of c).
Proof.
  unfold get_or_open_remote, Remote.get_or_open_remote. cbn [remote_handles cache_of].
  destruct (find_handle _ 0 _) as [i|]; [exists true; cbn; by rewrite cache_of_use|].
  destruct (find_handle _ 0 _) as [i|]; [apply open_slot_remote|].
  set (lru := lru_loop _ _ _ _). destruct (handles c !! lru) as [h|] eqn:E.
  - rewrite bind_eq. destruct (close_remote h t k) as [[h' t'] k'] eqn:Ec. cbn [fst snd].
    assert (h_remote h' = Remote.close_remote (h_remote h)) as Hh'.
    { apply (f_equal (fun r => h_remote r.1.1)) in Ec. cbn in Ec. rewrite <- Ec. unfold close_remote, Remote.close_remote.
      destruct (negb _); [done|]. by rewrite !bind_eq. }
    destruct (open_slot_remote a pread shm dest lru (mkHandles (<[lru := h']> (handles c)) (h_counter c)) t' k') as [ok Ho].
    exists ok. rewrite Ho. f_equal. unfold cache_of. cbn. rewrite list_fmap_insert, Hh'. f_equal.
    apply list_eq. intros j. destruct (decide (j = lru)) as [->|Hne].
    + rewrite list_lookup_alter_eq, list_lookup_fmap, E, list_lookup_insert_eq; [done|].
      rewrite length_fmap. by eapply lookup_lt_Some.
    + by rewrite list_lookup_alter_ne, list_lookup_insert_ne by done.
  - exists true. cbn. unfold open_at. cbn. rewrite list_lookup_alter_eq, list_lookup_fmap, E. cbn.
    unfold cache_of. f_equal. f_equal. apply list_eq. intros j. destruct (decide (j = lru)) as [->|Hne].
    + by rewrite list_lookup_alter_eq, list_lookup_fmap, E.
    + by rewrite list_lookup_alter_ne by done.
Qed.

(** ** The stage of the thread *)

Lemma attach_stage t : Inband.attach_this_thread t = t.
Proof. destruct t as [[] hmsig d]; done. Qed.

Lemma open_remote_stage a pread shm dest h t k :
  Inband.et_demoted (open_remote a pread shm dest h t k).1.2 = Inband.et_demoted t.
Proof.
  unfold open_remote. rewrite attach_stage.
  destruct (Inband.scoped_spec a 1 t) as (E&_&_). unfold Inband.scoped in E. cbn [Inband.syscalls] in E.
  destruct (Inband.enter a t) as [s t1]. destruct (Inband.switched_ s); cbn [negb]; [|done].
  destruct (shm_names shm !! dest); [by rewrite bind_eq|done].
Qed.

Lemma open_slot_stage a pread shm dest i c t k :
  Inband.et_demoted (open_slot a pread shm dest i c t k).1.2 = Inband.et_demoted t.
Proof.
  unfold open_slot. destruct (handles c !! i) as [h|]; [|done]. rewrite bind_eq.
  pose proof (open_remote_stage a pread shm dest h t k) as E.
  by destruct (open_remote a pread shm dest h t k).1 as [[h'|] t'].
Qed.

Lemma close_remote_stage h t k :
  rh_valid (h_remote h) = true -> Inband.et_inband t = false ->
  (close_remote h t k).1.2 = Inband.mkET true (Inband.et_hmsig t) (1 + Inband.et_demoted t).
Proof. intros Hv Ht. unfold close_remote. rewrite Hv. cbn. rewrite !bind_eq. destruct t as [i hm d]. cbn in *. by subst. Qed.

(** Neither a hit nor a miss with a free slot takes an out-of-band thread off
    its stage; a miss with a full cache does, because the evicted handle is
    closed outside of the scope. *)
Lemma get_or_open_remote_stage a pread shm dest c t k :
  Inband.et_inband t = false -> handles c <> [] ->
  Inband.et_demoted (get_or_open_remote a pread shm dest c t k).1.2 =
  (Inband.et_demoted t +
   if bool_decide (Forall (fun h => rh_valid (h_remote h) = true /\ rh_dest_id (h_remote h) <> dest) (handles c))
   then 1 else 0)%nat.
Proof.
  intros Ht Hne. unfold get_or_open_remote.
  destruct (find_handle _ 0 _) as [i|] eqn:E1.
  { rewrite bool_decide_false; [cbn; lia|]. intros Hall. apply find_handle_some in E1 as (j&r&_&Hr&Hp).
    apply list_lookup_fmap_Some in Hr as (h&->&Hh). rewrite Forall_lookup in Hall. destruct (Hall j h Hh) as [Hv Hd].
    rewrite Hv in Hp. cbn in Hp. lia. }
  apply find_handle_none in E1. destruct (find_handle _ 0 _) as [i|] eqn:E2.
  { rewrite bool_decide_false; [rewrite open_slot_stage; lia|].
    intros Hall. apply find_handle_some in E2 as (j&r&_&Hr&Hp).
    apply list_lookup_fmap_Some in Hr as (h&->&Hh). rewrite Forall_lookup in Hall. destruct (Hall j h Hh) as [Hv Hd].
    by rewrite Hv in Hp. }
  apply find_handle_none in E2.
  assert (Forall (fun h => rh_valid (h_remote h) = true /\ rh_dest_id (h_remote h) <> dest) (handles c)) as Hall.
  { rewrite Forall_fmap in E1, E2. rewrite Forall_lookup in *. intros j h Hj.
    specialize (E1 j h Hj). specialize (E2 j h Hj). cbn in E1, E2. destruct (rh_valid (h_remote h)); [|done].
    cbn in E1. split; [done|lia]. }
  rewrite bool_decide_true by done.
  destruct (handles c) as [|h0 hs] eqn:Ec; [done|].
  destruct (lru_loop_spec (h_remote <$> h0 :: hs) 0 0 (rh_last_used (h_remote h0)) (h_remote h0) (h_remote <$> h0 :: hs))
    as (r&Hr&_); [done..|].
  cbn [fmap list_fmap] in Hr |- *. apply (list_lookup_fmap_Some h_remote (h0 :: hs)) in Hr as (h&->&Hh). rewrite Hh. rewrite bind_eq, open_slot_stage.
  rewrite Forall_lookup in Hall. destruct (Hall _ h Hh) as [Hv _].
  rewrite close_remote_stage by done. cbn. lia.
Qed.

(** C24. The account of an [EvlMailbox], for every program of calls of
    [initialize], of [send_raw] to other processes and of [shutdown] that ends
    with the destructor, and whatever the kernel answers: nothing is released
    twice, and the resources open at the end are those open before and, beside
    them, exactly [leaked].  In [Mode::Local] and [Mode::Network] nothing is
    leaked.  In [Mode::Public] nothing is leaked by a program whose calls of
    [initialize] each succeed or fail in [allocate_ring], and that sends only
    while the mailbox is initialised.  Otherwise it is: an [initialize] that fails
    after the ring was allocated leaves the shared memory open and mapped after the
    destructor, since [shutdown] does nothing for a mailbox that is not
    initialised; and so does a [send_raw] before [initialize] with the handle it
    opens. *)
Theorem mailbox_objects_released config mode es t k :
  let o := new_objects config mode in
  let k' := (lifetime es t o k).2 in
  (k_faults k' = k_faults k /\ NoDup (leaked es t o k) /\
   (forall x, x ∈ leaked es t o k -> x ∉ k_open k) /\
   k_open k' = k_open k ∪ list_to_set (leaked es t o k)) /\
  (mode <> Public -> leaked es t o k = []) /\
  (careful es t o k -> leaked es t o k = []) /\
  (forall ftruncate bind, mode = Public ->
     (allocate_ring ftruncate o k).1.1 = true -> (initialize ftruncate bind o k).1.1 = ERROR_INIT ->
     exists fd base, 0 <= fd /\ 0 <= base /\
       forall x, x ∈ held base ++ held fd -> x ∈ leaked [Initialize ftruncate bind] t o k) /\
  (forall a pread shm dest, leaked [SendRemote a pread shm dest] t o k = remotes (send_remote a pread shm dest t o k).1.1).
Proof.
  intros o k'. destruct (new_objects_fields config mode) as [Hf Hr]. fold o in Hf, Hr.
  assert (live o = []) as Hl by done.
  assert (owns (live o ++ remotes o ++ elements (k_open k)) k) as Ho by (unfold owns; by rewrite Hl, Hr).
  split; [|split; [|split; [|split]]].
  - destruct (lifetime_accounts es t o _ k Hf Ho) as [Ho' Ef]. fold k' in Ho', Ef. unfold owns in Ho'. split; [done|].
    assert (NoDup (elements (k_open k'))) as Hnd by apply NoDup_elements. rewrite <- Ho' in Hnd.
    apply list.NoDup_app in Hnd as (Hnd&Hdis&_). split; [done|]. split.
    + intros x Hx Hin. by apply (Hdis x Hx), elem_of_elements.
    + apply set_eq. intros x. rewrite <- elem_of_elements, <- Ho', elem_of_app, elem_of_union, elem_of_list_to_set, elem_of_elements. tauto.
  - intros Hm. by eapply leaked_elsewhere.
  - by apply (leaked_careful es t o (elements (k_open k)) k).
  - intros ftruncate bind Hm Ha Hi.
    destruct (abandoned_late ftruncate bind o k Hm eq_refl Ha Hi) as (fd&base&?&?&Hin).
    exists fd, base. split_and!; [done..|]. intros x Hx. cbn [leaked]. destruct (act _ t o k) as [[??]?].
    apply elem_of_app. left. by apply Hin.
  - intros a pread shm dest. cbn [leaked act app].
    destruct (send_remote_accounts a pread shm dest t o _ k Ho) as (_&_&_&Hc&_).
    destruct (send_remote a pread shm dest t o k) as [[o' t'] k2]. cbn [fst snd] in *. by rewrite Hc.
Qed.
End objects.

(** The kernel as libevl. *)
#[local] Instance kernel_calls : EvlCalls := {
  evl_create_mutex _ _ := sys_create; evl_create_event _ _ := sys_create;
  evl_open_mutex _ := sys_create; evl_open_event _ := sys_create;
  evl_close_mutex := sys_release; evl_close_event := sys_release;
  evl_create_xbuf _ _ := sys_create; evl_new_poll := sys_create
}.

#[local] Instance kernel_calls_spec : EvlCallsSpec.
Proof. split; intros; (apply keeps_create || apply keeps_release_held). Qed.

(** A mailbox whose segment cannot be sized at first, that is then opened, sends
    to another process and goes; and one whose xbuf cannot be created for lack of
    memory. *)
Lemma mailbox_objects_released_witness :
  let config := mkConfig [] 7 4096 10 true 16 in
  let t := Inband.mkET false true 0 in
  let shm := mkShm {[9 := 0%nat]} ∅ in
  let es := [Initialize (-1) 0; Initialize 0 0; SendRemote (Inband.mkAnswers 5 0 0 true true) 16 shm 9; Shutdown; Initialize 0 0] in
  let k := mkKernel {[0%nat; 1%nat; 2%nat]} [] [] in
  let k2 := mkKernel {[0%nat; 1%nat; 2%nat]} [3; 4; 5; 6; -12] [] in
  let o := new_objects config Public in
  (k_open (lifetime es t o k).2 = k_open k ∪ list_to_set (leaked es t o k) /\ leaked es t o k = []) /\
  (exists fd base, 0 <= fd /\ 0 <= base /\
     forall x, x ∈ held base ++ held fd -> x ∈ leaked [Initialize 0 0] t o k2) /\
  k_open (lifetime [Initialize 0 0] t o k2).2 = list_to_set (seq 0 7).
Proof.
  intros config t shm es k k2 o. split; [|split; [|vm_compute; reflexivity]].
  - destruct (mailbox_objects_released config Public es t k) as ((_&_&_&H)&_&Hc&_). split; [exact H|].
    apply Hc. by_compute.
  - destruct (mailbox_objects_released config Public [] t k2) as (_&_&_&H&_).
    apply (H 0 0 eq_refl); vm_compute; reflexivity.
Defined.
