(* ===== verification/MessageId.v ===== *)
(** * Message identifiers and the wire header

    Models include/corerat/messaging/message_id.hpp and wire_message.hpp: the
    layout of a message id, [MessageDefinition] with its static assertions as
    decidable predicates, and the [WireHeader].  A payload type is an element of
    a type [P] with decidable equality ([std::is_same_v]). *)

From Stdlib Require Import ZArith Lia.
From stdpp Require Import base list numbers.
From S2P Require Import Prelude IpcTypes.

#[local] Open Scope Z_scope.

Module Msg.

(** ** Message ids *)

Inductive MessagePrefix := System | UserDefined.

#[export] Instance MessagePrefix_eq_dec : EqDecision MessagePrefix.
Proof. solve_decision. Defined.

Definition prefix_code (p : MessagePrefix) : Z := match p with System => 0 | UserDefined => 1 end.

Inductive SystemSubPrefix := Subscription | Control | Reserved.
Definition system_code (s : SystemSubPrefix) : Z :=
  match s with Subscription => 0 | Control => 1 | Reserved => 255 end.

Inductive UserSubPrefix := Data | Commands | Events | GetData | GetNextData | Custom.
Definition user_code (s : UserSubPrefix) : Z :=
  match s with Data => 0 | Commands => 1 | Events => 2 | GetData => 3 | GetNextData => 4 | Custom => 5 end.

Definition make_message_id (prefix subprefix id : Z) : Z :=
  Z.lor (Z.lor (u32 (Z.shiftl prefix 24)) (u32 (Z.shiftl subprefix 16))) id.

Definition system_message_id (s : SystemSubPrefix) (id : Z) : Z :=
  make_message_id (prefix_code System) (system_code s) id.

Definition user_message_id (s : UserSubPrefix) (id : Z) : Z :=
  make_message_id (prefix_code UserDefined) (user_code s) id.

Definition MAX_MESSAGE_ID : Z := 32767.

(** The parts of an id, as its layout says. *)
Lemma make_message_id_sum prefix subprefix id :
  in_u 8 prefix -> in_u 8 subprefix -> in_u 16 id ->
  make_message_id prefix subprefix id = prefix * 2 ^ 24 + subprefix * 2 ^ 16 + id.
Proof.
  unfold in_u, make_message_id. intros Hp Hs Hi.
  assert (forall a b n, 0 <= n -> 0 <= b < 2 ^ n -> Z.lor (a * 2 ^ n) b = a * 2 ^ n + b) as Hor.
  { intros a b n Hn Hb. rewrite <- Z.add_lor_land, (Z.bits_inj (Z.land _ _) 0); [lia|].
    intros k. rewrite Z.land_spec, Z.bits_0. destruct (Z.lt_ge_cases k n) as [Hk|Hk].
    - by rewrite Z.mul_pow2_bits_low.
    - apply andb_false_iff. right. destruct (decide (b = 0)) as [->|]; [apply Z.bits_0|].
      apply Z.bits_above_log2; [lia|]. assert (Z.log2 b < n) by (apply Z.log2_lt_pow2; lia). lia. }
  rewrite !Z.shiftl_mul_pow2, !wrapu_id by (unfold in_u; lia).
  rewrite (Hor prefix) by lia.
  replace (prefix * 2 ^ 24 + subprefix * 2 ^ 16) with ((prefix * 2 ^ 8 + subprefix) * 2 ^ 16) by lia.
  rewrite Hor; lia.
Qed.

Lemma make_message_id_inj p1 s1 i1 p2 s2 i2 :
  in_u 8 p1 -> in_u 8 s1 -> in_u 16 i1 -> in_u 8 p2 -> in_u 8 s2 -> in_u 16 i2 ->
  make_message_id p1 s1 i1 = make_message_id p2 s2 i2 -> p1 = p2 /\ s1 = s2 /\ i1 = i2.
Proof. intros. rewrite !make_message_id_sum in * by done. unfold in_u in *. lia. Qed.

(** ** MessageDefinition *)

Section definitions.
Context {P : Type} `{EqDecision P}.

Record MessageDefinition := mkDef {
  d_payload : P;
  d_prefix : MessagePrefix;
  d_subprefix : Z;              (* uint8_t *)
  d_local_id : Z;               (* uint16_t *)
  d_reply : option P            (* None: void *)
}.

(** The template argument [SubPrefix_]. *)
Inductive SubPrefixArg :=
  | SubSystem (s : SystemSubPrefix)
  | SubUser (s : UserSubPrefix)
  | SubByte (b : Z)
  | SubNull.

Definition subprefix_of (p : MessagePrefix) (arg : SubPrefixArg) : Z :=
  match arg with
  | SubByte b => b
  | _ =>
      match p with
      | System => match arg with SubSystem s => system_code s | _ => system_code Reserved end
      | UserDefined => match arg with SubUser s => user_code s | _ => user_code Data end
      end
  end.

Definition subprefix_matches (p : MessagePrefix) (arg : SubPrefixArg) : bool :=
  match p, arg with
  | System, SubSystem _ | UserDefined, SubUser _ | _, SubNull | _, SubByte _ => true
  | _, _ => false
  end.

(** The categories in which a reply is allowed. *)
Definition may_reply (p : MessagePrefix) (sub : Z) : bool :=
  match p with
  | System => (sub =? system_code Control) || (sub =? system_code Subscription)
  | UserDefined => (sub =? user_code Commands) || (sub =? user_code GetData) || (sub =? user_code GetNextData)
  end.

(** The last three static assertions. *)
Definition def_ok (d : MessageDefinition) : bool :=
  match d_reply d with
  | None => true
  | Some _ =>
      may_reply (d_prefix d) (d_subprefix d) &&
      ((d_local_id d =? 0) || (d_local_id d <=? MAX_MESSAGE_ID)) && (0 <=? s16 (d_local_id d))
  end.

(** [MessageDefinition<payload, prefix, arg, id, reply>]; [None] does not compile. *)
Definition message_definition (payload : P) (prefix : MessagePrefix) (arg : SubPrefixArg) (id : Z)
    (reply : option P) : option MessageDefinition :=
  let d := mkDef payload prefix (subprefix_of prefix arg) id reply in
  if subprefix_matches prefix arg && def_ok d then Some d else None.

Definition neg_id (id : Z) : Z := u16 (- s16 id).

Definition has_reply (d : MessageDefinition) : bool := match d_reply d with Some _ => true | None => false end.
Definition is_request (d : MessageDefinition) : bool := has_reply d.
Definition is_reply (d : MessageDefinition) : bool :=
  negb (has_reply d) && negb (d_local_id d =? 0) && (s16 (d_local_id d) <? 0).
Definition request_id (d : MessageDefinition) : Z := if is_reply d then neg_id (d_local_id d) else 0.
Definition needs_auto_id (d : MessageDefinition) : bool := d_local_id d =? 0.

Definition ReplyMessageDef (d : MessageDefinition) : option MessageDefinition :=
  (fun r => mkDef r (d_prefix d) (d_subprefix d) (neg_id (d_local_id d)) None) <$> d_reply d.

Definition def_id (d : MessageDefinition) : Z :=
  make_message_id (prefix_code (d_prefix d)) (d_subprefix d) (d_local_id d).

Definition category (d : MessageDefinition) : MessagePrefix * Z := (d_prefix d, d_subprefix d).

(** ** Facts *)

Definition in_range (d : MessageDefinition) : Prop := in_u 8 (d_subprefix d) /\ in_u 16 (d_local_id d).

Lemma prefix_code_range p : in_u 8 (prefix_code p).
Proof. by destruct p. Qed.

Lemma def_id_inj d1 d2 :
  in_range d1 -> in_range d2 -> def_id d1 = def_id d2 ->
  category d1 = category d2 /\ d_local_id d1 = d_local_id d2.
Proof.
  intros [Hs1 Hi1] [Hs2 Hi2] Heq. unfold def_id in Heq.
  pose proof (make_message_id_inj _ _ _ _ _ _ (prefix_code_range _) Hs1 Hi1 (prefix_code_range _) Hs2 Hi2 Heq) as (Hp&Hs&Hi).
  clear Heq.
  split; [|done]. unfold category. f_equal; [|done]. by destruct (d_prefix d1), (d_prefix d2).
Qed.

(** A positive id and its reply's: the reply id is above [MAX_MESSAGE_ID], and
    negating it gives the request's id back. *)
Lemma neg_id_small id : 1 <= id <= MAX_MESSAGE_ID -> neg_id id = 65536 - id.
Proof.
  unfold MAX_MESSAGE_ID, neg_id. intros H. rewrite wraps_id by (unfold in_s; lia).
  unfold wrapu. symmetry. apply (Z.mod_unique _ _ (-1)); lia.
Qed.

Lemma neg_id_neg id : 1 <= id <= MAX_MESSAGE_ID -> s16 (neg_id id) = - id /\ neg_id (neg_id id) = id.
Proof.
  intros H. rewrite (neg_id_small id H). unfold MAX_MESSAGE_ID in H.
  assert (s16 (65536 - id) = - id) as E.
  { unfold wraps. change (2 ^ (16 - 1)) with 32768. change (2 ^ 16) with 65536.
    replace (65536 - id + 32768) with ((32768 - id) + 1 * 65536) by lia.
    rewrite Z.mod_add, Z.mod_small by lia. lia. }
  split; [done|]. unfold neg_id. rewrite E. rewrite Z.opp_involutive. apply wrapu_id. unfold in_u. lia.
Qed.

Lemma reply_is_reply d r :
  1 <= d_local_id d <= MAX_MESSAGE_ID -> ReplyMessageDef d = Some r ->
  is_reply r = true /\ request_id r = d_local_id d /\ category r = category d /\ d_reply d = Some (d_payload r).
Proof.
  intros H. unfold ReplyMessageDef. destruct (d_reply d) as [p|]; [|done]. intros [= <-].
  destruct (neg_id_neg _ H) as [Hs Hn].
  assert (is_reply (mkDef p (d_prefix d) (d_subprefix d) (neg_id (d_local_id d)) None) = true) as Hr.
  { unfold is_reply. cbn. rewrite Hs. unfold MAX_MESSAGE_ID in H. rewrite neg_id_small by done.
    destruct (Z.eqb_spec (65536 - d_local_id d) 0); [lia|]. destruct (Z.ltb_spec (- d_local_id d) 0); [done|lia]. }
  split_and!; [done| |done|done]. unfold request_id. rewrite Hr. exact Hn.
Qed.

Lemma small_not_reply d : 1 <= d_local_id d <= MAX_MESSAGE_ID -> is_reply d = false.
Proof.
  intros H. unfold is_reply, MAX_MESSAGE_ID in *. rewrite wraps_id by (unfold in_s; lia).
  destruct (Z.ltb_spec (d_local_id d) 0); [lia|]. by rewrite andb_false_r.
Qed.
End definitions.

Arguments MessageDefinition : clear implicits.

(** ** WireHeader *)

Record WireHeader := mkHeader {
  msg_type : Z;
  msg_size : Z;
  timestamp : Z;
  seq_number : Z;
  dest : Z;
  src : Z;
  flags : Z
}.

Definition header_ok (h : WireHeader) : Prop :=
  in_u 32 (msg_type h) /\ in_u 32 (msg_size h) /\ in_u 64 (timestamp h) /\ in_u 32 (seq_number h) /\
  in_u 32 (dest h) /\ in_u 32 (src h) /\ in_u 32 (flags h).

(** The 32 bytes of the struct on a little-endian target. *)
Definition header_bytes (h : WireHeader) : bytes :=
  le_bytes 4 (msg_type h) ++ le_bytes 4 (msg_size h) ++ le_bytes 8 (timestamp h) ++
  le_bytes 4 (seq_number h) ++ le_bytes 4 (dest h) ++ le_bytes 4 (src h) ++ le_bytes 4 (flags h).

Definition read_header (bs : bytes) : WireHeader :=
  mkHeader (field 0 4 bs) (field 4 4 bs) (field 8 8 bs) (field 16 4 bs) (field 20 4 bs) (field 24 4 bs)
    (field 28 4 bs).

Lemma read_header_bytes h rest : header_ok h -> read_header (header_bytes h ++ rest) = h.
Proof.
  intros (?&?&?&?&?&?&?). destruct h as [ty sz ts sq de sr fl].
  cbn [msg_type msg_size timestamp seq_number dest src flags] in *.
  unfold read_header, header_bytes. cbn [msg_type msg_size timestamp seq_number dest src flags].
  f_equal; unfold field; cbn [le_bytes app take drop le_val].
  - by apply (le_val_4 ty).
  - by apply (le_val_4 sz).
  - by apply (le_val_8 ts).
  - by apply (le_val_4 sq).
  - by apply (le_val_4 de).
  - by apply (le_val_4 sr).
  - by apply (le_val_4 fl).
Qed.

Lemma length_header_bytes h : length (header_bytes h) = 32%nat.
Proof. unfold header_bytes. by rewrite !length_app, !length_le_bytes. Qed.
End Msg.
