(* ===== verification/MessageRegistry.v ===== *)
(** * MessageRegistry

    Models include/corerat/messaging/message_registry.hpp and the queries of
    registry_utils.hpp: the assignment of ids ([AutoAssignIDs]), the expansion of
    requests by their replies ([ExpandReplies]), the collision check, the lookups
    by type and by id, [serialize] and the dispatch of [visit].  Tuples of types
    are lists; template recursion is recursion on them. *)

From Stdlib Require Import ZArith Lia Sorting.Sorted.
From stdpp Require Import base list numbers sorting.
From S2P Require Import Prelude IpcTypes MessageId.

#[local] Open Scope Z_scope.

Import Msg.

Module MsgReg.

Section registry.
Context {P : Type} `{EqDecision P}.

Notation Def := (MessageDefinition P).
Implicit Types (d q : Def) (defs processed : list Def).

(** ** AutoAssignIDs *)

(** [HighestID]: over the definitions before, replies excluded. *)
Definition HighestID processed d : Z :=
  fold_left (fun max_id q =>
    if bool_decide (d_prefix q = d_prefix d) && (d_subprefix q =? d_subprefix d) && negb (is_reply q)
       && (max_id <? d_local_id q)
    then d_local_id q else max_id) processed 0.

Definition CurrentProcessed processed d : Def :=
  if needs_auto_id d
  then mkDef (d_payload d) (d_prefix d) (d_subprefix d) (u16 (HighestID processed d + 1)) (d_reply d)
  else d.

Fixpoint AutoAssignIDsProcess processed defs : list Def :=
  match defs with
  | [] => []
  | d :: defs =>
      let c := CurrentProcessed processed d in
      c :: AutoAssignIDsProcess (processed ++ [c]) defs
  end.

Definition AutoAssignIDs defs : list Def := AutoAssignIDsProcess [] defs.

(** The static assertion on an assigned id. *)
Definition assigned_ok (c : Def) : bool := negb (needs_auto_id c) || (d_local_id c <=? MAX_MESSAGE_ID).

(** ** ExpandReplies and the registry *)

Fixpoint ExpandReplies defs : list Def :=
  match defs with
  | [] => []
  | d :: defs =>
      match ReplyMessageDef d with
      | Some r => d :: r :: ExpandReplies defs
      | None => d :: ExpandReplies defs
      end
  end.

(** [MessageRegistry<defs...>]: [MessageDefsTuple], [PayloadTypes], [num_types],
    [size], [message_ids]. *)
Definition MessageDefsTuple defs : list Def := ExpandReplies (AutoAssignIDs defs).
Definition PayloadTypes defs : list P := map d_payload (MessageDefsTuple defs).
Definition num_types defs : nat := length defs.
Definition size defs : nat := length (MessageDefsTuple defs).
Definition message_ids defs : list Z := map def_id (MessageDefsTuple defs).

(** ** CheckCollisions *)

Fixpoint check_all_pairs d q defs : bool :=
  negb (def_id d =? def_id q) &&
  match defs with
  | [] => true
  | r :: defs => check_all_pairs d r defs && check_all_pairs q r defs
  end.

Definition CheckCollisions defs : bool :=
  match defs with
  | d :: q :: defs => check_all_pairs d q defs
  | _ => true
  end.

(** ** Lookups *)

Definition is_registered (t : P) defs : bool := existsb (fun u => bool_decide (t = u)) (PayloadTypes defs).

(** [FindMessageDef], and [FindMessageDefForPayload] of registry_utils.hpp. *)
Fixpoint FindMessageDef (t : P) defs : option Def :=
  match defs with
  | [] => None
  | d :: defs => if decide (d_payload d = t) then Some d else FindMessageDef t defs
  end.

Definition get_message_id (t : P) defs : option Z := def_id <$> FindMessageDef t (MessageDefsTuple defs).

(** [TypeIndex]: the fold of the comma expression. *)
Definition type_index (t : P) defs : nat :=
  fst (fold_left (fun '(idx, current) u => if decide (t = u) then (current, current) else (idx, S current))
         (PayloadTypes defs) (num_types defs, 0%nat)).

Fixpoint TypeByID (id : Z) defs : option P :=
  match defs with
  | [] => None
  | d :: defs => if def_id d =? id then Some (d_payload d) else TypeByID id defs
  end.

Definition has_message_id (id : Z) defs : bool := existsb (fun d => def_id d =? id) (MessageDefsTuple defs).

(** ** Buffer sizes

    [max_buffer_size] of a type is the serialisation library's.  [std::max] of
    no arguments does not compile, nor do the other uses that are [None]. *)
Section sizes.
Context (max_buffer_size : P -> Z).

Definition calc_max_size (types : list P) : option Z :=
  match types with
  | [] => None
  | t :: types => Some (fold_left Z.max (map max_buffer_size types) (max_buffer_size t))
  end.

Definition max_message_size defs : option Z := calc_max_size (PayloadTypes defs).

Definition max_size_for_types (specific : list P) defs : option Z :=
  if forallb (fun t => is_registered t defs) specific then calc_max_size specific else None.
End sizes.

(** ** registry_utils.hpp *)

Fixpoint FilterTuple (p : Def -> bool) defs : list Def :=
  match defs with
  | [] => []
  | d :: defs => if p d then d :: FilterTuple p defs else FilterTuple p defs
  end.

Definition MatchesPrefix (p : MessagePrefix) d : bool := bool_decide (d_prefix d = p).
Definition MatchesSubPrefix (p : MessagePrefix) (sub : Z) d : bool :=
  bool_decide (d_prefix d = p) && (d_subprefix d =? sub).

Definition filter_by_prefix (p : MessagePrefix) defs : list Def := FilterTuple (MatchesPrefix p) (MessageDefsTuple defs).
Definition filter_by_subprefix (p : MessagePrefix) (sub : Z) defs : list Def :=
  FilterTuple (MatchesSubPrefix p sub) (MessageDefsTuple defs).

Definition data_messages defs := filter_by_subprefix UserDefined (user_code Data) defs.
Definition command_messages defs := filter_by_subprefix UserDefined (user_code Commands) defs.
Definition event_messages defs := filter_by_subprefix UserDefined (user_code Events) defs.
Definition subscription_messages defs := filter_by_subprefix System (system_code Subscription) defs.
Definition system_control_messages defs := filter_by_subprefix System (system_code Control) defs.

Definition IsRequest d : bool := has_reply d && is_request d.
Definition IsReply d : bool := MAX_MESSAGE_ID <? d_local_id d.
Definition filter_requests defs : list Def := FilterTuple IsRequest (MessageDefsTuple defs).
Definition filter_replies defs : list Def := FilterTuple IsReply (MessageDefsTuple defs).

Definition find_message_def (t : P) defs : option Def := FindMessageDef t (MessageDefsTuple defs).
Definition has_message_def (t : P) defs : bool := match find_message_def t defs with Some _ => true | None => false end.

(** [GetReplyPayloadFor]: the reply payload, [None] for [void]. *)
Definition get_reply_payload (t : P) defs : option P :=
  match find_message_def t defs with
  | Some d => if has_reply d then d_payload <$> ReplyMessageDef d else None
  | None => None
  end.

Definition is_request_payload (t : P) defs : bool :=
  match find_message_def t defs with Some d => has_reply d && is_request d | None => false end.

(** Tuples as lists: [ContainsType], [is_empty_tuple_v], [ExtractPayloads]. *)
Definition contains_type (t : P) (types : list P) : bool := existsb (fun u => bool_decide (t = u)) types.
Definition is_empty_tuple {A} (l : list A) : bool := (length l =? 0)%nat.
Definition extract_payloads defs : list P := map d_payload defs.

Definition data_message_count defs : nat := length (data_messages defs).
Definition command_message_count defs : nat := length (command_messages defs).
Definition subscription_message_count defs : nat := length (subscription_messages defs).
Definition request_message_count defs : nat := length (filter_requests defs).
Definition reply_message_count defs : nat := length (filter_replies defs).

(** The static assertion of [RegistryStats]. *)
Definition stats_ok defs : bool :=
  (data_message_count defs + command_message_count defs + subscription_message_count defs <=? size defs)%nat.

(** ** serialize and visit *)

Section wire.
Context {V S : Type}.

Record WireMessage := mkWM { header : WireHeader; payload : V }.

Context (sertial_serialize : P -> WireMessage -> bytes).
Context (sertial_deserialize : P -> bytes -> option WireMessage).

(** Besides the bytes, the message as [serialize] leaves it; [None] does not compile. *)
Definition serialize (t : P) (m : WireMessage) defs : option (bytes * WireMessage) :=
  match get_message_id t defs with
  | None => None
  | Some id =>
      let h := header m in
      let m := mkWM (mkHeader id (msg_size h) (timestamp h) (seq_number h) (dest h) (src h) (flags h)) (payload m) in
      let result := sertial_serialize t m in
      let h := header m in
      Some (result, mkWM (mkHeader (msg_type h) (u32 (zlen result)) (timestamp h) (seq_number h) (dest h) (src h) (flags h))
                      (payload m))
  end.

(** [visit_impl_helper] from an index on; the visitor updates a state. *)
Fixpoint visit_impl (msg_id : Z) (data : bytes) (visitor : P -> WireMessage -> S -> S) defs (s : S) : bool * S :=
  match defs with
  | [] => (false, s)
  | d :: defs =>
      if msg_id =? def_id d
      then match sertial_deserialize (d_payload d) data with
           | Some m => (true, visitor (d_payload d) m s)
           | None => (false, s)
           end
      else visit_impl msg_id data visitor defs s
  end.

Definition visit (msg_id : Z) (data : bytes) (visitor : P -> WireMessage -> S -> S) defs (s : S) : bool * S :=
  visit_impl msg_id data visitor (MessageDefsTuple defs) s.
End wire.

(** ** Assigned ids are unique *)

Definition small d : Prop := 1 <= d_local_id d <= MAX_MESSAGE_ID /\ in_u 8 (d_subprefix d).

Definition before q d : Prop := category q = category d -> d_local_id q < d_local_id d.

(** Every explicit id is above the ids before it in its category, and no id
    exceeds [MAX_MESSAGE_ID]. *)
Fixpoint ascending processed defs : bool :=
  match defs with
  | [] => true
  | d :: defs =>
      let c := CurrentProcessed processed d in
      (HighestID processed d <? d_local_id c) && (d_local_id c <=? MAX_MESSAGE_ID)
      && (0 <=? d_subprefix c) && (d_subprefix c <? 256) && ascending (processed ++ [c]) defs
  end.

Lemma highest_step processed d m :
  m <= fold_left (fun max_id q =>
    if bool_decide (d_prefix q = d_prefix d) && (d_subprefix q =? d_subprefix d) && negb (is_reply q)
       && (max_id <? d_local_id q)
    then d_local_id q else max_id) processed m.
Proof.
  revert m. induction processed as [|q l IH]; cbn; intros m; [lia|].
  etrans; [|apply IH]. destruct (_ && (m <? _)) eqn:E; [|lia].
  apply andb_true_iff in E as [_ E%Z.ltb_lt]. lia.
Qed.

Lemma highest_bound processed d q :
  Forall small processed -> q ∈ processed -> category q = category d -> d_local_id q <= HighestID processed d.
Proof.
  unfold HighestID. intros Hs Hin Hcat. injection Hcat as Hp Hsub. revert Hin. generalize 0.
  induction Hs as [|x l Hx _ IH]; intros m Hin; [by apply not_elem_of_nil in Hin|]. cbn.
  apply elem_of_cons in Hin as [<-|Hin]; [|by apply IH]. etrans; [|apply highest_step].
  rewrite bool_decide_true, Hsub, Z.eqb_refl, (small_not_reply q) by (done || apply Hx). cbn.
  destruct (Z.ltb_spec m (d_local_id q)); lia.
Qed.

Lemma current_category processed d : category (CurrentProcessed processed d) = category d.
Proof. unfold CurrentProcessed. by destruct (needs_auto_id d). Qed.

Lemma assign_sorted processed defs :
  ascending processed defs = true -> Forall small processed -> StronglySorted before processed ->
  Forall small (processed ++ AutoAssignIDsProcess processed defs) /\
  StronglySorted before (processed ++ AutoAssignIDsProcess processed defs).
Proof.
  revert processed. induction defs as [|d defs IH]; intros processed; cbn; [by rewrite app_nil_r|].
  set (c := CurrentProcessed processed d).
  intros ((((H1%Z.ltb_lt&H2%Z.leb_le)%andb_true_iff&H3%Z.leb_le)%andb_true_iff&H4%Z.ltb_lt)%andb_true_iff&Hasc)%andb_true_iff Hs Hsort.
  rewrite cons_middle, app_assoc. apply (IH _ Hasc).
  - apply Forall_app. split; [done|]. constructor; [|constructor]. split; [|unfold in_u; lia].
    pose proof (highest_step processed d 0) as H0. unfold HighestID in H1. lia.
  - clear IH Hasc. assert (forall q, q ∈ processed -> before q c) as Hb.
    { intros q Hq Hcat. unfold c in Hcat. rewrite current_category in Hcat.
      pose proof (highest_bound processed d q Hs Hq Hcat). lia. }
    clear H1 H2 H3 H4. clearbody c. induction Hsort as [|q l Hsl IHl Hql]; cbn; [repeat constructor|].
    apply Forall_cons in Hs as [Hq Hs]. constructor.
    + apply IHl; [done|]. intros x Hx. apply Hb. by right.
    + apply Forall_app. split; [done|]. constructor; [|constructor]. apply Hb. by left.
Qed.

Lemma auto_sorted defs :
  ascending [] defs = true -> Forall small (AutoAssignIDs defs) /\ StronglySorted before (AutoAssignIDs defs).
Proof. intros H. apply (assign_sorted [] defs H); constructor. Qed.

Lemma expand_in defs x :
  x ∈ ExpandReplies defs <-> x ∈ defs \/ exists d, d ∈ defs /\ ReplyMessageDef d = Some x.
Proof.
  induction defs as [|d defs IH]; cbn.
  - setoid_rewrite elem_of_nil. naive_solver.
  - setoid_rewrite elem_of_cons. destruct (ReplyMessageDef d) as [r|] eqn:E; rewrite !elem_of_cons, IH; naive_solver.
Qed.

Lemma reply_facts d r :
  small d -> ReplyMessageDef d = Some r ->
  category r = category d /\ d_local_id r = 65536 - d_local_id d /\ in_range r.
Proof.
  intros [Hd Hsub]. unfold ReplyMessageDef. destruct (d_reply d); [|done]. intros [= <-].
  split; [done|]. cbn. rewrite neg_id_small by done. split; [done|]. split; [done|].
  cbn. unfold in_u, MAX_MESSAGE_ID in *. lia.
Qed.

Lemma small_range d : small d -> in_range d.
Proof. intros [Hd Hs]. split; [done|]. unfold in_u, MAX_MESSAGE_ID in *. lia. Qed.

(** Where the id of an expanded definition lies. *)
Lemma expand_id defs x :
  Forall small defs -> x ∈ ExpandReplies defs ->
  in_range x /\ exists d, d ∈ defs /\ category x = category d /\
    (x = d \/ ReplyMessageDef d = Some x /\ d_local_id x = 65536 - d_local_id d).
Proof.
  intros Hs Hx. apply expand_in in Hx as [Hx|(d&Hd&Hr)].
  - split; [apply small_range|eauto 10]. apply list_elem_of_In in Hx. rewrite List.Forall_forall in Hs. by apply Hs.
  - assert (small d) as Hsd by (apply list_elem_of_In in Hd; rewrite List.Forall_forall in Hs; by apply Hs).
    destruct (reply_facts d x Hsd Hr) as (?&?&?). eauto 10.
Qed.

Lemma expand_unique defs :
  Forall small defs -> StronglySorted before defs -> NoDup (map def_id (ExpandReplies defs)).
Proof.
  intros Hs Hsort. induction Hsort as [|d defs Hsort IH Hd]; [constructor|].
  apply Forall_cons in Hs as [Hsd Hs]. specialize (IH Hs).
  assert (forall (x : Def) id, x ∈ ExpandReplies defs -> id = d_local_id d \/ id = 65536 - d_local_id d ->
    category x = category d -> d_local_id x <> id) as Hne.
  { intros x id Hx Hid Hcat. destruct (expand_id defs x Hs Hx) as (_&q&Hq&Hcq&Hor).
    apply list_elem_of_In in Hq. rewrite List.Forall_forall in Hd, Hs.
    specialize (Hd q Hq ltac:(congruence)). destruct (Hs q Hq) as [Hq1 _]. destruct Hsd as [Hd1 _].
    unfold MAX_MESSAGE_ID in *. destruct Hor as [->|[_ ->]]; lia. }
  assert (forall c : Def, in_range c -> category c = category d ->
    (d_local_id c = d_local_id d \/ d_local_id c = 65536 - d_local_id d) ->
    def_id c ∉ map def_id (ExpandReplies defs)) as Hout.
  { intros c Hc Hcat Hid (x&Heq&Hx)%list_elem_of_fmap. destruct (expand_id defs x Hs Hx) as (Hrx&_).
    apply def_id_inj in Heq as [Hcx Hix]; [|done..]. by apply (Hne x (d_local_id c) Hx Hid); [congruence|]. }
  cbn. destruct (ReplyMessageDef d) as [r|] eqn:E; cbn.
  - destruct (reply_facts d r Hsd E) as (Hcr&Hir&Hrr). apply NoDup_cons. split.
    + rewrite elem_of_cons. intros [Heq|Hin]; [|revert Hin; apply Hout; auto using small_range].
      apply def_id_inj in Heq as [_ Hid]; [|by apply small_range|done]. destruct Hsd. unfold MAX_MESSAGE_ID in *. lia.
    + apply NoDup_cons. split; [by apply Hout; auto|done].
  - apply NoDup_cons. split; [apply Hout; auto using small_range|done].
Qed.

Lemma message_ids_unique defs : ascending [] defs = true -> NoDup (message_ids defs).
Proof. intros [Hs Hsort]%auto_sorted. by apply expand_unique. Qed.

(** Definitions that all ask for an id get 1, 2, ... in their category. *)
Lemma auto_ascending processed defs :
  Forall (fun d => in_u 8 (d_subprefix d) /\ needs_auto_id d = true) defs ->
  Forall (fun q => d_local_id q <= zlen processed) processed -> zlen processed + zlen defs <= MAX_MESSAGE_ID ->
  ascending processed defs = true.
Proof.
  intros Hd. revert processed. induction Hd as [|d defs [Hsub Hauto] _ IH]; intros processed Hp Hlen; [done|].
  unfold zlen in Hlen. cbn [length] in Hlen. unfold MAX_MESSAGE_ID in *. cbn [ascending].
  assert (forall m, m <= zlen processed -> fold_left (fun max_id q =>
    if bool_decide (d_prefix q = d_prefix d) && (d_subprefix q =? d_subprefix d) && negb (is_reply q)
       && (max_id <? d_local_id q)
    then d_local_id q else max_id) processed m <= zlen processed) as Hh.
  { generalize (zlen processed) as n, Hp. clear. intros n Hp. induction Hp as [|q l Hq _ IH]; intros m Hm; [done|].
    cbn. apply IH. by destruct (_ && _). }
  specialize (Hh 0 ltac:(unfold zlen; lia)). pose proof (highest_step processed d 0) as H0.
  fold (HighestID processed d) in Hh, H0. unfold CurrentProcessed. rewrite Hauto. cbn [d_local_id d_subprefix].
  unfold zlen in Hh. rewrite wrapu_id by (unfold in_u; lia). unfold in_u in Hsub.
  destruct (Z.ltb_spec (HighestID processed d) (HighestID processed d + 1)); [|lia].
  destruct (Z.leb_spec (HighestID processed d + 1) MAX_MESSAGE_ID) as [|H1]; [|unfold MAX_MESSAGE_ID in H1; lia].
  destruct (Z.leb_spec 0 (d_subprefix d)); [|lia].
  destruct (Z.ltb_spec (d_subprefix d) 256); [cbn [andb]|lia].
  apply IH.
  - unfold zlen. rewrite length_app. cbn. apply Forall_app. split; [|constructor; [cbn; lia|constructor]].
    revert Hp. apply List.Forall_impl. unfold zlen. lia.
  - unfold zlen. rewrite length_app. cbn. lia.
Qed.

Lemma find_message_def_in t defs d : FindMessageDef t defs = Some d -> d ∈ defs /\ d_payload d = t.
Proof.
  induction defs as [|q defs IH]; cbn; [done|]. rewrite elem_of_cons.
  destruct (decide (d_payload q = t)); [intros [= <-]; auto|]. intros ?%IH. naive_solver.
Qed.

(** The first definition of a payload type is the one its id dispatches to. *)
Lemma visit_found {V S} (des : P -> bytes -> option (@WireMessage V)) defs d m
    (visitor : P -> @WireMessage V -> S -> S) s bs :
  ascending [] defs = true -> FindMessageDef (d_payload d) (MessageDefsTuple defs) = Some d ->
  des (d_payload d) bs = Some m ->
  visit des (def_id d) bs visitor defs s = (true, visitor (d_payload d) m s).
Proof.
  intros Hasc Hd Hdes. pose proof (find_message_def_in _ _ _ Hd) as [Hin _].
  pose proof (message_ids_unique defs Hasc) as Huniq. unfold message_ids, visit in *. clear Hd.
  induction (MessageDefsTuple defs) as [|q l IH]; cbn in *; [by apply elem_of_nil in Hin|].
  apply NoDup_cons in Huniq as [Hq Hl]. destruct (Z.eqb_spec (def_id d) (def_id q)) as [E|E].
  - assert (q = d) as ->; [|by rewrite Hdes]. apply elem_of_cons in Hin as [->|Hin]; [done|].
    exfalso. apply Hq. rewrite <- E. by apply (list_elem_of_fmap_2 def_id).
  - apply IH; [|done]. apply elem_of_cons in Hin as [->|]; done.
Qed.

Lemma registered_found t defs :
  is_registered t defs = true -> exists d, FindMessageDef t (MessageDefsTuple defs) = Some d /\ d_payload d = t.
Proof.
  unfold is_registered, PayloadTypes. induction (MessageDefsTuple defs) as [|q l IH]; cbn; [done|].
  destruct (decide (d_payload q = t)); [eauto|]. intros Hr. apply IH. by rewrite bool_decide_false in Hr.
Qed.

Lemma fold_max l z : z <= fold_left Z.max l z /\ Forall (fun x => x <= fold_left Z.max l z) l /\
  (fold_left Z.max l z = z \/ fold_left Z.max l z ∈ l).
Proof.
  revert z. induction l as [|x l IH]; intros z; cbn; [repeat constructor; lia|].
  destruct (IH (Z.max z x)) as (H1&H2&H3). split_and!; [lia|constructor; [lia|done]|].
  destruct H3 as [->|H3]; [|right; by right]. destruct (Z.max_spec z x) as [[_ ->]|[_ ->]]; [right; left|by left].
Qed.

Lemma calc_max_size_spec (f : P -> Z) types n :
  calc_max_size f types = Some n -> (forall t, t ∈ types -> f t <= n) /\ exists t, t ∈ types /\ f t = n.
Proof.
  destruct types as [|t types]; [done|]. intros [= <-]. destruct (fold_max (map f types) (f t)) as (H1&H2&H3). split.
  - intros u Hu%elem_of_cons. destruct Hu as [->|Hu]; [done|]. rewrite Forall_map, List.Forall_forall in H2.
    by apply H2, list_elem_of_In.
  - destruct H3 as [->|H3%list_elem_of_fmap]; [exists t; split; [by left|done]|].
    destruct H3 as (u&->&Hu). exists u. split; [by right|done].
Qed.

(** The buffer of [receive_any] is as large as the largest of the registered
    types, that of a selection as the largest of the selection. *)
Lemma registered_fits (f : P -> Z) t defs :
  is_registered t defs = true ->
  (exists n, max_message_size f defs = Some n /\ f t <= n) /\
  (forall specific n m, max_size_for_types f specific defs = Some n -> max_message_size f defs = Some m -> n <= m).
Proof.
  intros Hr. assert (forall u, is_registered u defs = true -> u ∈ PayloadTypes defs) as Hin.
  { intros u Hu. unfold is_registered in Hu. apply existsb_exists in Hu as (v&Hv&Hu).
    apply bool_decide_eq_true in Hu as ->. by apply list_elem_of_In. }
  split.
  - destruct (max_message_size f defs) as [n|] eqn:E.
    + exists n. split; [done|]. by apply (calc_max_size_spec f _ n E), Hin.
    + unfold max_message_size in E. specialize (Hin t Hr). destruct (PayloadTypes defs); [by apply elem_of_nil in Hin|done].
  - unfold max_size_for_types. intros specific n m Hs Hm. destruct (forallb _ specific) eqn:Hall; [|done].
    apply calc_max_size_spec in Hs as (_&u&Hu&<-). apply (calc_max_size_spec f _ m Hm), Hin.
    rewrite forallb_forall in Hall. by apply Hall, list_elem_of_In.
Qed.

Lemma tuple_range defs d : ascending [] defs = true -> d ∈ MessageDefsTuple defs -> in_range d.
Proof. intros [Hs _]%auto_sorted Hd. by apply (expand_id _ _ Hs Hd). Qed.

Lemma def_id_range d : in_range d -> in_u 32 (def_id d).
Proof.
  intros [Hs Hi]. unfold def_id. rewrite make_message_id_sum by (done || apply prefix_code_range).
  unfold in_u in *. destruct (d_prefix d); cbn; lia.
Qed.

Lemma filter_tuple_length_disjoint (f g h : Def -> bool) defs :
  (forall d, f d = true -> g d = false /\ h d = false) -> (forall d, g d = true -> h d = false) ->
  (length (FilterTuple f defs) + length (FilterTuple g defs) + length (FilterTuple h defs) <= length defs)%nat.
Proof.
  intros Hf Hg. induction defs as [|d defs IH]; cbn; [lia|].
  specialize (Hf d). specialize (Hg d). destruct (f d), (g d), (h d); cbn; naive_solver lia.
Qed.

(** The categories are sublists of the registry; a payload type is in one of them
    only if it is registered. *)
Lemma filter_tuple_registered (f : Def -> bool) (t : P) defs :
  contains_type t (extract_payloads (FilterTuple f (MessageDefsTuple defs))) = true -> is_registered t defs = true.
Proof.
  unfold contains_type, extract_payloads, is_registered, PayloadTypes.
  induction (MessageDefsTuple defs) as [|d l IH]; [done|]. cbn. destruct (f d); cbn.
  - intros [->|H]%orb_true_iff; [done|]. by rewrite IH, orb_true_r.
  - intros H. by rewrite IH, orb_true_r.
Qed.

Lemma request_reply_count defs :
  Forall small defs ->
  length (FilterTuple IsRequest (ExpandReplies defs)) = length (FilterTuple IsReply (ExpandReplies defs)).
Proof.
  induction 1 as [|d defs Hd _ IH]; [done|]. cbn.
  assert (IsReply d = false) as Hnr.
  { unfold IsReply. destruct Hd. apply Z.ltb_ge. lia. }
  assert (IsRequest d = has_reply d) as Hrq by (unfold IsRequest, is_request; by destruct (has_reply d)).
  destruct (ReplyMessageDef d) as [r|] eqn:E; cbn; rewrite Hnr, Hrq.
  - destruct (reply_facts d r Hd E) as (_&Hid&_). unfold ReplyMessageDef in E. unfold has_reply.
    destruct (d_reply d) as [p|]; [|done]. injection E as <-. cbn.
    unfold IsReply at 1. cbn [d_local_id] in *. destruct Hd as [Hd _].
    rewrite (proj2 (Z.ltb_lt _ _)) by (unfold MAX_MESSAGE_ID in *; lia). cbn. by f_equal.
  - unfold ReplyMessageDef in E. unfold has_reply. by destruct (d_reply d).
Qed.
End registry.

(** C20. Message ids identify messages: if every definition asks for an id (up to
    32767 of them), or every explicit id is above the ids before it in its
    category, the ids of all messages of the registry, replies included, are
    pairwise distinct. *)
Theorem registry_ids_distinct {P} `{EqDecision P} (defs : list (MessageDefinition P)) :
  ascending [] defs = true \/
  (Forall (fun d => in_u 8 (d_subprefix d) /\ needs_auto_id d = true) defs /\ zlen defs <= MAX_MESSAGE_ID) ->
  NoDup (message_ids defs).
Proof.
  intros [Hasc|[Hauto Hlen]]; apply message_ids_unique; [done|]. apply auto_ascending; [done|constructor|done].
Qed.

(** C21. Dispatch finds what was serialised: [visit] on the type and bytes that
    [serialize] produced calls the visitor once, with the payload type and the
    message that was serialised, and nothing for an id that is not registered.
    The message received carries the [msg_size] the sender's header held before:
    [serialize] fills it in when the bytes are made. *)
Theorem visit_serialize {P} `{EqDecision P} {V S} (ser : P -> @WireMessage V -> bytes) (des : P -> bytes -> option WireMessage)
    (defs : list (MessageDefinition P)) (t : P) (m : @WireMessage V) (visitor : P -> WireMessage -> S -> S) (s : S) :
  (forall t m, header_ok (header m) -> des t (ser t m) = Some m) ->
  ascending [] defs = true -> is_registered t defs = true -> header_ok (header m) ->
  (exists bs m' m1, serialize ser t m defs = Some (bs, m') /\
    visit des (msg_type (header m')) bs visitor defs s = (true, visitor t m1 s) /\
    payload m1 = payload m /\ msg_size (header m1) = msg_size (header m) /\
    msg_size (header m') = u32 (zlen bs) /\ get_message_id t defs = Some (msg_type (header m1))) /\
  (forall id bs, ~ id ∈ message_ids defs -> visit des id bs visitor defs s = (false, s)).
Proof.
  intros Hlaw Hasc Hreg Hok. split.
  - destruct (registered_found t defs Hreg) as (d&Hd&Ht). pose proof (find_message_def_in _ _ _ Hd) as [Hin _].
    pose proof (def_id_range d (tuple_range defs d Hasc Hin)) as Hid.
    unfold serialize, get_message_id. rewrite Hd. cbn [fmap option_fmap option_map].
    set (m1 := mkWM (mkHeader _ _ _ _ _ _ _) (payload m)). eexists _, _, m1. split; [done|]. cbn [msg_type header].
    split_and!; [|done|done|done|done]. subst t. apply visit_found; [done|done|]. apply Hlaw.
    destruct Hok as (_&?). by split.
  - intros id bs Hn. unfold visit, message_ids in *. induction (MessageDefsTuple defs) as [|q l IH]; [done|]. cbn in *.
    rewrite elem_of_cons in Hn. destruct (Z.eqb_spec id (def_id q)); [naive_solver|]. apply IH. naive_solver.
Qed.

(** The registry completes requests: for distinct ids, every request has its
    reply next to it, with the declared payload, in the same category, under the
    negated id, from which [request_id] recovers the request; lookups by id and
    by type find each message; there are as many replies as requests, and the
    category counts of [RegistryStats] never exceed the total. *)
Theorem registry_complete {P} `{EqDecision P} (defs : list (MessageDefinition P)) :
  ascending [] defs = true ->
  (forall d p, d ∈ MessageDefsTuple defs -> d_reply d = Some p ->
     exists r, r ∈ MessageDefsTuple defs /\ d_payload r = p /\ category r = category d /\
       is_reply r = true /\ request_id r = d_local_id d /\ d_local_id r = 65536 - d_local_id d) /\
  (forall d, d ∈ MessageDefsTuple defs ->
     TypeByID (def_id d) (MessageDefsTuple defs) = Some (d_payload d) /\
     exists d', find_message_def (d_payload d) defs = Some d' /\ d_payload d' = d_payload d) /\
  request_message_count defs = reply_message_count defs /\
  stats_ok defs = true.
Proof.
  intros Hasc. pose proof (message_ids_unique defs Hasc) as Huniq.
  destruct (auto_sorted defs Hasc) as [Hs _]. split_and!.
  - intros d p Hd Hp. unfold MessageDefsTuple in *. apply expand_in in Hd as [Hd|(q&Hq&Hr)].
    2:{ unfold ReplyMessageDef in Hr. destruct (d_reply q); [|done]. by injection Hr as <-. }
    assert (small d) as Hsd by (rewrite List.Forall_forall in Hs; by apply Hs, list_elem_of_In).
    assert (exists r, ReplyMessageDef d = Some r) as [r Hr] by (unfold ReplyMessageDef; rewrite Hp; by eexists).
    destruct (reply_facts d r Hsd Hr) as (Hcat&Hid&_). destruct (reply_is_reply d r (proj1 Hsd) Hr) as (?&?&_&Hpay).
    exists r. split_and!; [apply expand_in; eauto|congruence|done..].
  - intros d Hd. unfold message_ids, find_message_def in *.
    induction (MessageDefsTuple defs) as [|q l IH]; cbn in *; [by apply elem_of_nil in Hd|].
    apply NoDup_cons in Huniq as [Hq Hl]. apply elem_of_cons in Hd as [<-|Hd].
    + rewrite Z.eqb_refl. split; [done|]. rewrite decide_True by done. eauto.
    + destruct (IH Hl Hd) as [IH1 IH2]. split.
      * destruct (Z.eqb_spec (def_id q) (def_id d)) as [E|]; [|done]. exfalso. apply Hq. rewrite E.
        by apply (list_elem_of_fmap_2 def_id).
      * destruct (decide (d_payload q = d_payload d)); eauto.
  - by apply request_reply_count.
  - apply Nat.leb_le. apply filter_tuple_length_disjoint; unfold MatchesSubPrefix, user_code, system_code; intros d;
      destruct (d_prefix d); cbn [bool_decide decide MessagePrefix_eq_dec andb];
      destruct (Z.eqb_spec (d_subprefix d) 0), (Z.eqb_spec (d_subprefix d) 1); done || lia.
Qed.

(** ** The collision check *)

Lemma check_all_pairs_spec {P} (d q : MessageDefinition P) defs :
  check_all_pairs d q defs = true <-> NoDup (map def_id (d :: q :: defs)).
Proof.
  revert d q. induction defs as [|r defs IH]; intros d q; cbn [check_all_pairs].
  - rewrite andb_true_r, negb_true_iff, Z.eqb_neq. cbn. rewrite !NoDup_cons, elem_of_cons, !elem_of_nil.
    pose proof (NoDup_nil_2 (A := Z)). naive_solver.
  - rewrite !andb_true_iff, negb_true_iff, Z.eqb_neq, !IH. cbn. rewrite !NoDup_cons, !elem_of_cons. naive_solver.
Qed.

Definition plain (id : Z) (t : nat) : MessageDefinition nat := mkDef t UserDefined (user_code Data) id None.

(** The recursion of [CheckCollisions] over pairs computes exactly whether
    the ids it is given are distinct.  But it is given the definitions before
    ids are assigned: it accepts an explicit id 1 after a definition that is
    assigned 1, whose messages then cannot be told apart, and rejects two
    definitions that ask for ids, which are assigned distinct ones. *)
Theorem collision_check {P} (defs : list (MessageDefinition P)) :
  (CheckCollisions defs = true <-> NoDup (map def_id defs)) /\
  (CheckCollisions [plain 0 7; plain 1 8] = true /\
   message_ids [plain 0 7; plain 1 8] = [16777217; 16777217] /\
   TypeByID 16777217 (MessageDefsTuple [plain 0 7; plain 1 8]) = Some 7%nat) /\
  (CheckCollisions [plain 0 7; plain 0 8] = false /\
   message_ids [plain 0 7; plain 0 8] = [16777217; 16777218]).
Proof.
  split.
  - destruct defs as [|d [|q defs]]; cbn [CheckCollisions].
    + split; [constructor|done].
    + split; [intros _; by apply NoDup_singleton|done].
    + apply check_all_pairs_spec.
  - split; vm_compute; done.
Qed.

(** More limits: the id after 32767 is 32768, twice, although the assertion on
    assigned ids holds; and the index of a type that is not registered is the
    number of definitions, which is the index of a message if there are replies. *)
Lemma assigned_id_limits :
  map d_local_id (AutoAssignIDs [plain 32767 7; plain 0 8; plain 0 9]) = [32767; 32768; 32768] /\
  forallb assigned_ok (AutoAssignIDs [plain 32767 7; plain 0 8; plain 0 9]) = true.
Proof. by_compute. Qed.

Lemma type_index_limit :
  let defs := [mkDef 7%nat UserDefined (user_code Commands) 0 (Some 8%nat); plain 0 9] in
  PayloadTypes defs = [7%nat; 8%nat; 9%nat] /\ type_index 9%nat defs = 2%nat /\ type_index 10%nat defs = 2%nat.
Proof. vm_compute. done. Qed.

(** ** Witnesses *)

Definition sample_defs : list (MessageDefinition nat) :=
  [plain 0 7; mkDef 8%nat UserDefined (user_code Commands) 0 (Some 9%nat); plain 5 10; plain 0 11].

Lemma registry_ids_distinct_witness : NoDup (message_ids sample_defs) /\ length (message_ids sample_defs) = 5%nat.
Proof.
  split; [|vm_compute; reflexivity]. apply registry_ids_distinct. left. vm_compute. reflexivity.
Defined.

Lemma registry_complete_witness :
  length (filter_requests sample_defs) = length (filter_replies sample_defs) /\ stats_ok sample_defs = true.
Proof.
  destruct (registry_complete sample_defs) as (_&_&H1&H2); [vm_compute; reflexivity|]. split; [exact H1|exact H2].
Defined.

(** A codec: the header, then the payload. *)
Definition sample_ser (t : nat) (m : @WireMessage bytes) : bytes := header_bytes (header m) ++ payload m.
Definition sample_des (t : nat) (bs : bytes) : option (@WireMessage bytes) :=
  if (length bs <? 32)%nat then None else Some (mkWM (read_header bs) (drop 32 bs)).

Lemma sample_codec t m : header_ok (header m) -> sample_des t (sample_ser t m) = Some m.
Proof.
  intros Hok. unfold sample_des, sample_ser.
  rewrite (proj2 (Nat.ltb_ge _ _)) by (rewrite length_app, length_header_bytes; lia).
  rewrite read_header_bytes, drop_length_app by (done || by rewrite length_header_bytes). by destruct m.
Qed.

Definition sample_message : @WireMessage bytes := mkWM (mkHeader 0 0 123456789 3 20 10 0) [1; 2; 3].

Lemma visit_serialize_witness :
  exists bs m' (m1 : @WireMessage bytes), serialize sample_ser 8%nat sample_message sample_defs = Some (bs, m') /\
    visit sample_des (msg_type (header m')) bs (fun t m s => (t, payload m) :: s) sample_defs []
    = (true, [(8%nat, [1; 2; 3])]) /\ msg_size (header m1) = 0.
Proof.
  destruct (visit_serialize sample_ser sample_des sample_defs 8%nat sample_message (fun t m s => (t, payload m) :: s) [])
    as [(bs&m'&m1&Es&Ev&Hp&Hsz&_) _].
  - exact sample_codec.
  - vm_compute. reflexivity.
  - vm_compute. reflexivity.
  - by_compute.
  - exists bs, m', m1. split; [exact Es|]. rewrite Ev, Hp. split; [reflexivity|exact Hsz].
Defined.

End MsgReg.
