(* ===== verification/Logging.v ===== *)
(** * The real-time logger

    Models include/corerat/logging: the levels, the log stream, the ring of
    [RtLogger] with its drain thread, and the two sinks.  The ring is a step
    machine: [commit] and the drain loop advance by one access to shared memory
    at a time, in any interleaving (sequentially consistent), so the unlocked
    hand-over between writer and drain thread is part of the model.

    [sertial::fixed_string] and [sertial::rt::append] are third-party: [append
    cap s added] is what a string of that capacity holds after the call. *)

From Stdlib Require Import ZArith Lia String.
From stdpp Require Import base list numbers.
From S2P Require Import Prelude Protocol MessageId.

#[local] Open Scope Z_scope.

Import Msg.

Module Logging.

(** ** Levels *)

Inductive LogLevel := Fatal | Error | Warn | Info | Debug | Trace.

#[export] Instance LogLevel_eq_dec : EqDecision LogLevel.
Proof. solve_decision. Defined.

Definition level_code (l : LogLevel) : Z :=
  match l with Fatal => 0 | Error => 1 | Warn => 2 | Info => 3 | Debug => 4 | Trace => 5 end.

Definition level_le (a b : LogLevel) : bool := level_code a <=? level_code b.

Definition to_gdos_type (l : LogLevel) : Z :=
  match l with Fatal => -124 | Error => -125 | Warn => -126 | Info => -127 | _ => -128 end.

Definition to_string (l : LogLevel) : string :=
  match l with
  | Fatal => "FATAL" | Error => "ERROR" | Warn => "WARN " | Info => "INFO " | Debug => "DEBUG" | Trace => "TRACE"
  end.

Record RtLogEntry := mkEntry {
  e_timestamp : Z;
  e_source_id : Z;
  e_level : LogLevel;
  e_message : bytes
}.

#[export] Instance RtLogEntry_eq_dec : EqDecision RtLogEntry.
Proof. solve_decision. Defined.

Definition empty_entry : RtLogEntry := mkEntry 0 0 Debug [].

Section logger.
Context (append : nat -> bytes -> bytes -> bytes).
Context (RingSize MaxMsgLen : nat).

(** ** RtLogStream *)

Record RtLogStream := mkStream { st_level : LogLevel; st_active : bool; st_buf : bytes }.

(** The constructor; [logger_level] is [logger.level()]. *)
Definition new_stream (logger_level lvl : LogLevel) : RtLogStream := mkStream lvl (level_le lvl logger_level) [].

(** [operator<<] of text; the overloads for numbers format and append text. *)
Definition stream_put (text : bytes) (st : RtLogStream) : RtLogStream :=
  if st_active st then mkStream (st_level st) true (append MaxMsgLen (st_buf st) text) else st.

(** The destructor: the arguments of [commit], if it is called. *)
Definition stream_end (st : RtLogStream) : option (LogLevel * bytes) :=
  if st_active st then Some (st_level st, st_buf st) else None.

(** ** RtLogger *)

Inductive commit_pc :=
  | CIdle
  | CWrite (e : RtLogEntry)       (* the ring was not full; the slot is written next *)
  | CPublish (e : RtLogEntry).    (* head_ is advanced next *)

Inductive drain_pc :=
  | DNone                                          (* no thread *)
  | DLoop                                          (* the test of the first loop *)
  | DFlush                                         (* the test of the second loop *)
  | DCopy (flush : bool)
  | DRelease (flush : bool) (copy : RtLogEntry)
  | DDispatch (flush : bool) (copy : RtLogEntry)
  | DDone.

#[export] Instance drain_pc_eq_dec : EqDecision drain_pc.
Proof. solve_decision. Defined.

(** [committed] is a history variable: the entries published so far.  [written]
    is what [dispatch] has handed to every sink. *)
Record RtLogger := mkLogger {
  ring : list RtLogEntry;
  head : Z;                        (* size_t *)
  tail : Z;
  source_id : Z;
  level : LogLevel;
  sink_count : nat;
  drain_running : bool;
  commit_at : commit_pc;           (* the holder of ring_mutex_ *)
  drain_at : drain_pc;             (* the drain thread *)
  committed : list RtLogEntry;
  written : list RtLogEntry
}.

Definition new_logger (source : Z) (min_level : LogLevel) : RtLogger :=
  mkLogger (replicate RingSize empty_entry) 0 0 source min_level 0 false CIdle DNone [] [].

Definition kMaxSinks : nat := 4.

(** [head_ & (RingSize - 1)] *)
Definition slot (n : Z) : nat := Z.to_nat (Z.land n (Z.of_nat RingSize - 1)).

Definition set_commit (c : commit_pc) (s : RtLogger) : RtLogger :=
  mkLogger (ring s) (head s) (tail s) (source_id s) (level s) (sink_count s) (drain_running s) c (drain_at s)
    (committed s) (written s).
Definition set_drain (d : drain_pc) (s : RtLogger) : RtLogger :=
  mkLogger (ring s) (head s) (tail s) (source_id s) (level s) (sink_count s) (drain_running s) (commit_at s) d
    (committed s) (written s).
Definition set_running (b : bool) (s : RtLogger) : RtLogger :=
  mkLogger (ring s) (head s) (tail s) (source_id s) (level s) (sink_count s) b (commit_at s) (drain_at s)
    (committed s) (written s).

(** [commit], three accesses; [now] is [Time::now()].  A full ring drops the entry. *)
Definition commit_begin (lvl : LogLevel) (msg : bytes) (now : Z) (s : RtLogger) : RtLogger :=
  if Z.of_nat RingSize <=? u64 (head s - tail s) then s
  else set_commit (CWrite (mkEntry now (source_id s) lvl (append MaxMsgLen [] msg))) s.

Definition commit_write (e : RtLogEntry) (s : RtLogger) : RtLogger :=
  set_commit (CPublish e)
    (mkLogger (<[slot (head s) := e]> (ring s)) (head s) (tail s) (source_id s) (level s) (sink_count s)
       (drain_running s) (commit_at s) (drain_at s) (committed s) (written s)).

Definition commit_publish (e : RtLogEntry) (s : RtLogger) : RtLogger :=
  set_commit CIdle
    (mkLogger (ring s) (u64 (head s + 1)) (tail s) (source_id s) (level s) (sink_count s)
       (drain_running s) (commit_at s) (drain_at s) (committed s ++ [e]) (written s)).

Definition add_sink (valid : bool) (s : RtLogger) : RtLogger :=
  if (sink_count s <? kMaxSinks)%nat && valid
  then mkLogger (ring s) (head s) (tail s) (source_id s) (level s) (S (sink_count s)) (drain_running s)
         (commit_at s) (drain_at s) (committed s) (written s)
  else s.

Definition set_level (l : LogLevel) (s : RtLogger) : RtLogger :=
  mkLogger (ring s) (head s) (tail s) (source_id s) l (sink_count s) (drain_running s) (commit_at s) (drain_at s)
    (committed s) (written s).

Definition start_drain (s : RtLogger) : RtLogger :=
  if drain_running s then s else set_drain DLoop (set_running true s).

(** [dispatch]: the copy with the capacity of the sinks. *)
Definition dispatch_entry (e : RtLogEntry) : RtLogEntry :=
  mkEntry (e_timestamp e) (e_source_id e) (e_level e) (append 256 [] (e_message e)).

(** One step of [drain_loop]. *)
Definition drain_step (s : RtLogger) : option RtLogger :=
  match drain_at s with
  | DNone | DDone => None
  | DLoop =>
      Some (if negb (drain_running s) then set_drain DFlush s
            else if head s =? tail s then s               (* sleeps and tests again *)
            else set_drain (DCopy false) s)
  | DFlush => Some (if head s =? tail s then set_drain DDone s else set_drain (DCopy true) s)
  | DCopy f =>
      match ring s !! slot (tail s) with
      | Some e => Some (set_drain (DRelease f e) s)
      | None => None
      end
  | DRelease f e =>
      Some (set_drain (DDispatch f e)
        (mkLogger (ring s) (head s) (u64 (tail s + 1)) (source_id s) (level s) (sink_count s)
           (drain_running s) (commit_at s) (drain_at s) (committed s) (written s)))
  | DDispatch f e =>
      Some (set_drain (if f then DFlush else DLoop)
        (mkLogger (ring s) (head s) (tail s) (source_id s) (level s) (sink_count s)
           (drain_running s) (commit_at s) (drain_at s) (committed s) (written s ++ [dispatch_entry e])))
  end.

(** The interleaving.  [None]: the action is not enabled.  [stop_drain] asks the
    thread to stop, then joins it. *)
Inductive action :=
  | ACommit (lvl : LogLevel) (msg : bytes) (now : Z)   (* takes ring_mutex_ *)
  | AWriter                                            (* its next access *)
  | ADrain
  | AStart
  | AStopRequest
  | AJoin
  | AAddSink (valid : bool)
  | ASetLevel (l : LogLevel).

Definition exec (a : action) (s : RtLogger) : option RtLogger :=
  match a with
  | ACommit lvl msg now =>
      match commit_at s with CIdle => Some (commit_begin lvl msg now s) | _ => None end
  | AWriter =>
      match commit_at s with
      | CIdle => None
      | CWrite e => Some (commit_write e s)
      | CPublish e => Some (commit_publish e s)
      end
  | ADrain => drain_step s
  | AStart =>
      match drain_at s, drain_running s with
      | DNone, _ | _, true => Some (start_drain s)
      | _, false => None
      end
  | AStopRequest => Some (set_running false s)
  | AJoin => match drain_at s with DDone => Some (set_drain DNone s) | _ => None end
  | AAddSink valid => Some (add_sink valid s)
  | ASetLevel l => Some (set_level l s)
  end.

Fixpoint run (acts : list action) (s : RtLogger) : option RtLogger :=
  match acts with
  | [] => Some s
  | a :: acts => match exec a s with Some s => run acts s | None => None end
  end.

(** ** The ring is a bounded queue *)

Section queue.
Context (k : Z) (Hk : 0 <= k < 64) (HN : Z.of_nat RingSize = 2 ^ k).

Definition in_flight (s : RtLogger) : list RtLogEntry :=
  match drain_at s with DDispatch _ e => [e] | _ => [] end.

Definition place (n : nat) : nat := (n mod RingSize)%nat.

(** [q] is what waits in the ring, [t] the number of entries taken out. *)
Record queue_inv (s : RtLogger) (t : nat) (q : list RtLogEntry) : Prop := mkQI {
  qi_committed : length (committed s) = (t + length q)%nat;
  qi_head : head s = u64 (Z.of_nat (t + length q));
  qi_tail : tail s = u64 (Z.of_nat t);
  qi_ring : length (ring s) = RingSize;
  qi_room : (length q <= RingSize)%nat;
  qi_slots i e : q !! i = Some e -> ring s !! place (t + i) = Some e;
  qi_commit : match commit_at s with
              | CIdle => True
              | CWrite _ => (length q < RingSize)%nat
              | CPublish e => (length q < RingSize)%nat /\ ring s !! place (t + length q) = Some e
              end;
  qi_drain : match drain_at s with
             | DCopy _ => q <> []
             | DRelease _ e => exists q', q = e :: q'
             | _ => True
             end;
  qi_order : exists delivered, committed s = delivered ++ in_flight s ++ q /\
             written s = map dispatch_entry delivered
}.

Lemma RingSize_pos : (0 < RingSize)%nat.
Proof. assert (0 < 2 ^ k) by (apply Z.pow_pos_nonneg; lia). lia. Qed.


Lemma slot_place n : slot (u64 (Z.of_nat n)) = place n.
Proof.
  pose proof RingSize_pos. unfold slot, place, wrapu.
  replace (Z.of_nat RingSize - 1) with (Z.ones k) by (rewrite Z.ones_equiv, HN; lia).
  rewrite Z.land_ones by lia. apply Nat2Z.inj. rewrite Z2Nat.id by (apply Z.mod_pos_bound; lia).
  rewrite Nat2Z.inj_mod, HN. replace 64 with (k + (64 - k)) by lia. rewrite Z.pow_add_r by lia.
  rewrite Z.rem_mul_r by (apply Z.pow_pos_nonneg || apply Z.pow_nonzero; lia).
  rewrite Z.mul_comm, Z.mod_add by (apply Z.pow_nonzero; lia). apply Z.mod_mod. apply Z.pow_nonzero; lia.
Qed.

Lemma place_inj t i j : (i < j)%nat -> (j - i < RingSize)%nat -> place (t + i) <> place (t + j).
Proof.
  pose proof RingSize_pos. unfold place. intros Hij Hlt Heq.
  pose proof (Nat.div_mod (t + i) RingSize ltac:(lia)). pose proof (Nat.div_mod (t + j) RingSize ltac:(lia)).
  assert (RingSize * ((t + j) / RingSize - (t + i) / RingSize) = j - i)%nat by nia.
  destruct ((t + j) / RingSize - (t + i) / RingSize)%nat; nia.
Qed.

Lemma place_lt n : (place n < RingSize)%nat.
Proof. apply Nat.mod_upper_bound. pose proof RingSize_pos. lia. Qed.

Lemma waiting_count t (q : list RtLogEntry) :
  (length q <= RingSize)%nat -> u64 (u64 (Z.of_nat (t + length q)) - u64 (Z.of_nat t)) = Z.of_nat (length q).
Proof.
  intros Hq. assert (2 ^ k < 2 ^ 64) by (apply Z.pow_lt_mono_r; lia).
  unfold wrapu. rewrite <- Zminus_mod, Nat2Z.inj_add.
  replace (Z.of_nat t + Z.of_nat (length q) - Z.of_nat t) with (Z.of_nat (length q)) by lia.
  apply Z.mod_small. lia.
Qed.

Lemma head_is_tail s t q : queue_inv s t q -> (head s =? tail s) = bool_decide (q = []).
Proof.
  intros Hi. rewrite (qi_head _ _ _ Hi), (qi_tail _ _ _ Hi).
  pose proof (waiting_count t q (qi_room _ _ _ Hi)) as Hw.
  destruct (Z.eqb_spec (u64 (Z.of_nat (t + length q))) (u64 (Z.of_nat t))) as [E|E].
  - rewrite E, Z.sub_diag in Hw. change (u64 0) with 0 in Hw. symmetry. apply bool_decide_true.
    destruct q; [done|cbn [length] in Hw; lia].
  - symmetry. apply bool_decide_false. intros ->. apply E. f_equal. cbn. lia.
Qed.

Lemma u64_succ n : u64 (u64 (Z.of_nat n) + 1) = u64 (Z.of_nat (S n)).
Proof. unfold wrapu. rewrite Z.add_mod_idemp_l by done. f_equal. lia. Qed.

Ltac qi_same Hi := split; first [exact (qi_committed _ _ _ Hi) | exact (qi_head _ _ _ Hi) | exact (qi_tail _ _ _ Hi)
  | exact (qi_ring _ _ _ Hi) | exact (qi_room _ _ _ Hi) | exact (qi_slots _ _ _ Hi) | exact (qi_commit _ _ _ Hi)
  | exact (qi_drain _ _ _ Hi) | exact (qi_order _ _ _ Hi) | idtac].

Lemma new_logger_inv src lvl : queue_inv (new_logger src lvl) 0 [].
Proof. split; cbn; try done; [apply length_replicate|lia|by exists []]. Qed.

Lemma commit_inv lvl msg now s t q :
  queue_inv s t q -> commit_at s = CIdle -> queue_inv (commit_begin lvl msg now s) t q.
Proof.
  intros Hi Hc. unfold commit_begin. rewrite (qi_head _ _ _ Hi), (qi_tail _ _ _ Hi), waiting_count by apply Hi.
  destruct (Z.leb_spec (Z.of_nat RingSize) (Z.of_nat (length q))); [done|]. qi_same Hi. cbn. lia.
Qed.

Lemma writer_inv s s' t q :
  queue_inv s t q -> exec AWriter s = Some s' -> exists q', queue_inv s' t q'.
Proof.
  intros Hi. cbn. pose proof (qi_commit _ _ _ Hi) as Hc. destruct (commit_at s) as [|e|e] eqn:E; [done|intros [= <-]..].
  - exists q. unfold commit_write. qi_same Hi; cbn [ring set_commit commit_at].
    + rewrite length_insert. apply Hi.
    + intros i x Hx. pose proof (lookup_lt_Some _ _ _ Hx). rewrite (qi_head _ _ _ Hi), slot_place.
      rewrite list_lookup_insert_ne; [by apply (qi_slots _ _ _ Hi)|]. intros Heq. symmetry in Heq. revert Heq.
      apply place_inj; lia.
    + split; [done|]. rewrite (qi_head _ _ _ Hi), slot_place, list_lookup_insert_eq; [done|].
      rewrite (qi_ring _ _ _ Hi). apply place_lt.
  - destruct Hc as [Hroom He]. exists (q ++ [e]).
    assert (length (q ++ [e]) = S (length q)) as Hlen by (rewrite length_app; cbn; lia).
    unfold commit_publish. split; cbn [ring head tail committed written commit_at drain_at set_commit].
    + rewrite length_app, (qi_committed _ _ _ Hi), Hlen. cbn. lia.
    + rewrite (qi_head _ _ _ Hi), u64_succ, Hlen. do 2 f_equal. lia.
    + apply Hi.
    + apply Hi.
    + lia.
    + intros i x [Hx|[Hl Hx]]%lookup_app_Some; [by apply (qi_slots _ _ _ Hi)|].
      apply list_lookup_singleton_Some in Hx as [Hx <-]. by replace i with (length q) by lia.
    + done.
    + pose proof (qi_drain _ _ _ Hi) as Hd. destruct (drain_at s); try done.
      * by destruct q.
      * destruct Hd as [q' ->]. by eexists.
    + destruct (qi_order _ _ _ Hi) as (dl&Hco&Hw). exists dl. split; [|done]. rewrite Hco, <- !app_assoc. done.
Qed.

(** Drain steps left once the thread has been asked to stop. *)
Definition steps_left (d : drain_pc) (waiting : nat) : nat :=
  match d with
  | DNone | DDone => 0
  | DRelease _ _ => 5 * waiting
  | DCopy _ => 5 * waiting + 1
  | DFlush => 5 * waiting + 2
  | DLoop => 5 * waiting + 3
  | DDispatch _ _ => 5 * waiting + 4
  end.

Lemma drain_step_inv s s' t q :
  queue_inv s t q -> drain_step s = Some s' ->
  exists t' q', queue_inv s' t' q' /\ committed s' = committed s /\ commit_at s' = commit_at s /\
    drain_running s' = drain_running s /\ (drain_at s' = DDone -> q' = []) /\
    (drain_running s = false -> (steps_left (drain_at s') (length q') < steps_left (drain_at s) (length q))%nat).
Proof.
  intros Hi. unfold drain_step. pose proof (qi_drain _ _ _ Hi) as Hd. pose proof (qi_order _ _ _ Hi) as Ho.
  unfold in_flight in Ho. pose proof (head_is_tail s t q Hi) as Hht.
  destruct (drain_at s) as [| | |f|f e|f e|] eqn:E; try done.
  - intros [= <-]. exists t, q. destruct (drain_running s) eqn:Er; cbn [negb].
    + rewrite Hht. case_bool_decide; (split; [|rewrite ?E; split_and?; done]); [done|]. qi_same Hi; [done|exact Ho].
    + split; [qi_same Hi; [done|exact Ho]|]. split_and!; try done. cbn. lia.
  - intros [= <-]. exists t, q. rewrite Hht. case_bool_decide as Hq; (split; [qi_same Hi; done || exact Ho|]);
      split_and!; try done; cbn; lia.
  - destruct q as [|e q]; [done|]. rewrite (qi_tail _ _ _ Hi), slot_place.
    pose proof (qi_slots _ _ _ Hi 0 e eq_refl) as He. rewrite Nat.add_0_r in He. rewrite He. intros [= <-].
    exists t, (e :: q). split; [qi_same Hi; [by eexists|exact Ho]|]. split_and!; try done. cbn. lia.
  - intros [= <-]. destruct Hd as [q' ->]. exists (S t), q'. split; [|split_and!; try done; cbn; lia].
    split; cbn [ring head tail committed written commit_at drain_at set_drain].
    + rewrite (qi_committed _ _ _ Hi). cbn. lia.
    + rewrite (qi_head _ _ _ Hi). do 2 f_equal. cbn. lia.
    + by rewrite (qi_tail _ _ _ Hi), u64_succ.
    + apply Hi.
    + pose proof (qi_room _ _ _ Hi) as Hr. cbn in Hr. lia.
    + intros i x Hx. replace (S t + i)%nat with (t + S i)%nat by lia. by apply (qi_slots _ _ _ Hi).
    + pose proof (qi_commit _ _ _ Hi) as Hc. cbn in Hc. destruct (commit_at s); [done|lia|].
      replace (S t + length q')%nat with (t + S (length q'))%nat by lia. split; [lia|apply Hc].
    + done.
    + exact Ho.
  - intros [= <-]. exists t, q. split; [|split_and!; try done; destruct f; cbn; done || lia].
    qi_same Hi; [by destruct f|].
    cbn [committed written set_drain]. unfold in_flight. cbn [drain_at set_drain].
    destruct Ho as (dl&Hco&->). exists (dl ++ [e]). rewrite map_app, <- app_assoc. split; [|done].
    rewrite Hco. by destruct f.
Qed.

Lemma drain_inv s s' t q :
  queue_inv s t q -> drain_step s = Some s' -> exists t' q', queue_inv s' t' q'.
Proof. intros Hi Hs. destruct (drain_step_inv s s' t q Hi Hs) as (t'&q'&?&_). eauto. Qed.

Lemma drain_enabled s t q :
  queue_inv s t q -> drain_at s <> DNone -> drain_at s <> DDone -> exists s', drain_step s = Some s'.
Proof.
  intros Hi H1 H2. unfold drain_step. pose proof (qi_drain _ _ _ Hi) as Hd.
  destruct (drain_at s); try done; try by eexists.
  destruct q as [|e q]; [done|]. pose proof (qi_slots _ _ _ Hi 0 e eq_refl) as He. rewrite Nat.add_0_r in He.
  rewrite (qi_tail _ _ _ Hi), slot_place, He. by eexists.
Qed.

(** With no commit in between, the stopped drain thread empties the ring. *)
Lemma drain_to_end n s t q :
  queue_inv s t q -> drain_running s = false -> drain_at s <> DNone -> drain_at s <> DDone ->
  (steps_left (drain_at s) (length q) <= n)%nat ->
  exists m s', (m <= n)%nat /\ run (replicate m ADrain) s = Some s' /\ drain_at s' = DDone /\
    committed s' = committed s /\ written s' = map dispatch_entry (committed s).
Proof.
  revert s t q. induction n as [|n IH]; intros s t q Hi Hrun H1 H2 Hn.
  { exfalso. pose proof (qi_drain _ _ _ Hi) as Hd. destruct (drain_at s); cbn in Hn; try done; try lia.
    destruct Hd as [q' ->]. cbn in Hn. lia. }
  destruct (drain_enabled s t q Hi H1 H2) as [s1 Hs1].
  destruct (drain_step_inv s s1 t q Hi Hs1) as (t1&q1&Hi1&Hco&_&Hrun1&Hdone&Hless). specialize (Hless Hrun).
  assert (drain_at s1 <> DNone) as H3.
  { clear -Hs1. unfold drain_step in Hs1. destruct (drain_at s) as [| | |f|f e|f e|] eqn:E; try done.
    - injection Hs1 as <-. destruct (negb _); [done|]. destruct (_ =? _); [congruence|done].
    - injection Hs1 as <-. by destruct (_ =? _).
    - destruct (ring s !! _); [|done]. by injection Hs1 as <-.
    - by injection Hs1 as <-.
    - injection Hs1 as <-. by destruct f. }
  destruct (decide (drain_at s1 = DDone)) as [Hd|Hd].
  - exists 1%nat, s1. cbn. rewrite Hs1. split_and!; [lia|done|done|done|].
    destruct (qi_order _ _ _ Hi1) as (dl&Hc&->). rewrite <- Hco, Hc. unfold in_flight. rewrite Hd, (Hdone Hd). cbn.
    by rewrite app_nil_r.
  - destruct (IH s1 t1 q1 Hi1) as (m&s'&Hm&Hr&?&?&?); [congruence|done|done|lia|].
    exists (S m), s'. cbn. rewrite Hs1. split_and!; [lia|done|done|congruence|congruence].
Qed.

Lemma exec_inv a s s' t q : queue_inv s t q -> exec a s = Some s' -> exists t' q', queue_inv s' t' q'.
Proof.
  intros Hi. destruct a; cbn [exec].
  - destruct (commit_at s) eqn:E; [|done..]. intros [= <-]. exists t, q. by apply commit_inv.
  - intros Hw. destruct (writer_inv _ _ _ _ Hi Hw) as [q' ?]. eauto.
  - apply (drain_inv s s' t q Hi).
  - intros Hs. assert (s' = start_drain s /\ (drain_running s = true \/ drain_at s = DNone)) as [-> Hd].
    { destruct (drain_at s), (drain_running s); try discriminate Hs; injection Hs as <-; auto. }
    exists t, q. unfold start_drain. destruct (drain_running s); [done|]. destruct Hd as [?|Hd]; [done|].
    pose proof (qi_order _ _ _ Hi) as Ho. unfold in_flight in Ho. rewrite Hd in Ho. qi_same Hi; [done|exact Ho].
  - intros [= <-]. exists t, q. by qi_same Hi.
  - destruct (drain_at s) eqn:E; try done. intros [= <-]. exists t, q.
    pose proof (qi_order _ _ _ Hi) as Ho. unfold in_flight in Ho. rewrite E in Ho. qi_same Hi; [done|exact Ho].
  - intros [= <-]. exists t, q. unfold add_sink. destruct (_ && _); [|done]. by qi_same Hi.
  - intros [= <-]. exists t, q. by qi_same Hi.
Qed.

Lemma run_inv acts s s' t q : queue_inv s t q -> run acts s = Some s' -> exists t' q', queue_inv s' t' q'.
Proof.
  revert s t q. induction acts as [|a acts IH]; cbn; intros s t q Hi; [intros [= <-]; eauto|].
  destruct (exec a s) as [s1|] eqn:E; [|done]. destruct (exec_inv _ _ _ _ _ Hi E) as (t1&q1&Hi1). by apply (IH s1 t1 q1).
Qed.
End queue.
End logger.

(** C13. The logger is a bounded FIFO queue: for every interleaving of writers,
    drain thread and control calls, what the sinks have been given is, in order
    and unchanged up to the capacity of their strings, what was committed, short
    of one entry in flight and at most [RingSize] in the ring; and an entry is
    dropped exactly when that many wait.  So nothing is lost, doubled or torn,
    although the drain thread takes no lock. *)
Theorem logger_fifo append RingSize MaxMsgLen k src lvl acts s :
  0 <= k < 64 -> Z.of_nat RingSize = 2 ^ k ->
  run append RingSize MaxMsgLen acts (new_logger RingSize src lvl) = Some s ->
  exists delivered waiting,
    committed s = delivered ++ in_flight s ++ waiting /\
    written s = map (dispatch_entry append) delivered /\ (length waiting <= RingSize)%nat /\
    (forall lvl msg now, commit_at s = CIdle ->
       commit_begin append RingSize MaxMsgLen lvl msg now s
       = if (length waiting <? RingSize)%nat
         then set_commit (CWrite (mkEntry now (source_id s) lvl (append MaxMsgLen [] msg))) s else s).
Proof.
  intros Hk HN Hrun.
  destruct (run_inv append RingSize MaxMsgLen k Hk HN _ _ _ _ _ (new_logger_inv append RingSize k src lvl) Hrun)
    as (t&q&Hi).
  destruct (qi_order _ _ _ _ _ Hi) as (dl&Hco&Hw). exists dl, q. split_and!; [done|done|apply Hi|].
  intros lvl' msg now _. unfold commit_begin.
  rewrite (qi_head _ _ _ _ _ Hi), (qi_tail _ _ _ _ _ Hi), (waiting_count RingSize k Hk HN) by apply Hi.
  destruct (Z.leb_spec (Z.of_nat RingSize) (Z.of_nat (length q))), (Nat.ltb_spec (length q) RingSize); done || lia.
Qed.

(** C33. [stop_drain] loses nothing and returns: once it has asked the thread to
    stop, and if no writer commits meanwhile, the thread ends after a bounded
    number of its own steps, and then everything that was ever committed has been
    written. *)
Theorem stop_drain_flushes append RingSize MaxMsgLen k src lvl acts s :
  0 <= k < 64 -> Z.of_nat RingSize = 2 ^ k ->
  run append RingSize MaxMsgLen acts (new_logger RingSize src lvl) = Some s ->
  drain_running s = false -> drain_at s <> DNone -> drain_at s <> DDone ->
  exists m s', (m <= 5 * RingSize + 4)%nat /\
    run append RingSize MaxMsgLen (replicate m ADrain) s = Some s' /\ drain_at s' = DDone /\
    written s' = map (dispatch_entry append) (committed s).
Proof.
  intros Hk HN Hrun Hstop H1 H2.
  destruct (run_inv append RingSize MaxMsgLen k Hk HN _ _ _ _ _ (new_logger_inv append RingSize k src lvl) Hrun)
    as (t&q&Hi).
  destruct (drain_to_end append RingSize MaxMsgLen k Hk HN (5 * RingSize + 4) s t q Hi Hstop H1 H2)
    as (m&s'&Hm&Hr&Hd&_&Hw); [|by exists m, s'].
  pose proof (qi_room _ _ _ _ _ Hi). destruct (drain_at s); cbn; lia.
Qed.

(** ** Sinks *)

(** The decomposition of a timestamp that [TerminalSink] prints. *)
Definition terminal_time (timestamp : Z) : Z * Z * Z * Z :=
  let ts_ms := timestamp / 1000000 in
  let ts_s := ts_ms / 1000 in
  ((ts_s / 3600) mod 24, (ts_s / 60) mod 60, ts_s mod 60, ts_ms mod 1000).

(** Text as bytes. *)
Definition bytes_of (s : string) : bytes := map (fun c => Z.of_N (Ascii.N_of_ascii c)) (list_ascii_of_string s).

(** ["\033[...m"]. *)
Definition escape (s : string) : bytes := 27 :: bytes_of s.

Definition color_for (l : LogLevel) : bytes :=
  escape match l with
         | Fatal => "[1;31m" | Error => "[0;31m" | Warn => "[0;33m" | Info => "[0;32m" | Debug => "[0;36m" | Trace => "[0;37m"
         end.

(** [printf]'s [%0<width>] of a number with at most [width] digits. *)
Fixpoint padded (width : nat) (base n : Z) : bytes :=
  match width with
  | O => []
  | S width => padded width base (n / base) ++ [let d := n mod base in if d <? 10 then 48 + d else 55 + d]
  end.

(** A C string ends before its first NUL. *)
Fixpoint until_nul (s : bytes) : bytes :=
  match s with
  | [] => []
  | c :: s => if c =? 0 then [] else c :: until_nul s
  end.

(** [TerminalSink::write]: what it prints, if anything. *)
Definition terminal_write (min_level : LogLevel) (e : RtLogEntry) : option bytes :=
  if negb (level_le (e_level e) min_level) then None
  else
    let '(hour, min, sec, ms) := terminal_time (e_timestamp e) in
    Some (color_for (e_level e) ++ bytes_of "[" ++ padded 2 10 hour ++ bytes_of ":" ++ padded 2 10 min ++ bytes_of ":" ++
      padded 2 10 sec ++ bytes_of "." ++ padded 3 10 ms ++ bytes_of "] [" ++ bytes_of (to_string (e_level e)) ++
      bytes_of "] [src=" ++ padded 8 16 (e_source_id e) ++ bytes_of "] " ++ until_nul (e_message e) ++ escape "[0m" ++ [10]).

Definition kGdosMailbox : Z := 201326592.
Definition kHeadLen : Z := 32.

Definition write_u32 (off : nat) (v : Z) (p : bytes) : bytes :=
  <[off := u8 v]> (<[(off + 1)%nat := u8 (Z.shiftr v 8)]> (<[(off + 2)%nat := u8 (Z.shiftr v 16)]>
    (<[(off + 3)%nat := u8 (Z.shiftr v 24)]> p))).

Definition write_u64 (off : nat) (v : Z) (p : bytes) : bytes :=
  write_u32 (off + 4) (u32 (Z.shiftr v 32)) (write_u32 off (u32 v) p).

Definition tims_head (src_id : Z) (e : RtLogEntry) : bytes :=
  let msglen := u32 (u32 (zlen (e_message e)) + 1) in
  let total := u32 (kHeadLen + msglen) in
  write_u32 28 0 (write_u32 24 src_id (write_u32 20 kGdosMailbox (write_u32 16 0
    (write_u64 8 (e_timestamp e) (write_u32 4 total (write_u32 0 (u32 (to_gdos_type (e_level e))) (replicate 32 0))))))).

(** [TimsSink::write]: the buffers given to [send]; [sent] is what the first
    [send] returned. *)
Definition tims_write (fd src_id : Z) (min_level : LogLevel) (sent : Z) (e : RtLogEntry) : list bytes :=
  if negb (level_le (e_level e) min_level) || (fd <? 0) then []
  else if negb (sent =? kHeadLen) then [tims_head src_id e]
  else [tims_head src_id e; e_message e ++ [0]].

Lemma u32_bytes v : [u8 v; u8 (Z.shiftr v 8); u8 (Z.shiftr v 16); u8 (Z.shiftr v 24)] = le_bytes 4 v.
Proof.
  cbn [le_bytes]. unfold wrapu. rewrite !Z.shiftr_div_pow2, !Z.div_div by lia. done.
Qed.

Lemma le_bytes_mod n z : le_bytes n (z mod 256 ^ Z.of_nat n) = le_bytes n z.
Proof.
  rewrite <- (le_val_le_bytes n z). rewrite <- (length_le_bytes n z) at 1. apply le_bytes_le_val, le_bytes_bytes.
Qed.

Lemma le_bytes_8 z : le_bytes 8 z = le_bytes 4 z ++ le_bytes 4 (z / 2 ^ 32).
Proof. cbn [le_bytes app]. by rewrite !Z.div_div by lia. Qed.

(** The head is a [WireHeader]. *)
Lemma tims_head_bytes id e :
  let total := u32 (kHeadLen + u32 (u32 (zlen (e_message e)) + 1)) in
  tims_head id e
  = header_bytes (mkHeader (u32 (to_gdos_type (e_level e))) total (e_timestamp e) 0 kGdosMailbox id 0).
Proof.
  intros total. unfold tims_head. fold total. unfold write_u64, write_u32, header_bytes.
  cbn [Nat.add replicate list_insert insert app msg_type msg_size timestamp seq_number dest src flags].
  rewrite le_bytes_8, <- (le_bytes_mod 4 (e_timestamp e)), <- (le_bytes_mod 4 (e_timestamp e / 2 ^ 32)).
  rewrite <- !u32_bytes. change (256 ^ Z.of_nat 4) with (2 ^ 32).
  rewrite (Z.shiftr_div_pow2 _ 32) by lia. done.
Qed.

(** What [TimsSink] sends is a [WireHeader] with the level, time, source and
    the GDOS mailbox.  But a TiMS router reads 16-byte frame headers: it takes
    every log entry for a frame of type [MSG_ERROR] to the mailbox whose number
    is the size of the entry, and for its length the upper half of the
    timestamp, whatever was sent. *)
Theorem tims_sink_misread e id :
  in_u 64 (e_timestamp e) -> in_u 32 id -> zlen (e_message e) <= 256 ->
  let head := tims_head id e in
  let h := decode_frame (take 16 head) in
  read_header head
  = mkHeader (2 ^ 32 + to_gdos_type (e_level e)) (33 + zlen (e_message e)) (e_timestamp e) 0 kGdosMailbox id 0 /\
  f_type h = MSG_ERROR /\ f_dest h = 33 + zlen (e_message e) /\ f_src h = e_timestamp e mod 2 ^ 32 /\
  f_msglen h = e_timestamp e / 2 ^ 32 /\
  forall n, f_msglen h = 16 + n -> 0 <= n -> frame_body_len h = n.
Proof.
  intros Ht Hs Hm head h. pose proof (zlen_nonneg (e_message e)) as H0.
  pose proof (tims_head_bytes id e) as Hb. fold head in Hb.
  assert (u32 (kHeadLen + u32 (u32 (zlen (e_message e)) + 1)) = 33 + zlen (e_message e)) as Htotal.
  { unfold kHeadLen. rewrite (wrapu_id 32 (zlen _)), (wrapu_id 32 (_ + 1)), wrapu_id; unfold in_u; lia. }
  assert (u32 (to_gdos_type (e_level e)) = 2 ^ 32 + to_gdos_type (e_level e)) as Hty by (by destruct (e_level e)).
  cbn zeta in Hb. rewrite Htotal, Hty in Hb.
  assert (read_header head = mkHeader (2 ^ 32 + to_gdos_type (e_level e)) (33 + zlen (e_message e)) (e_timestamp e) 0 kGdosMailbox id 0) as Hr.
  { rewrite Hb, <- (app_nil_r (header_bytes _)). apply read_header_bytes.
    split_and!; cbn; try done; try (by unfold in_u; destruct (e_level e); cbn; lia). }
  split; [exact Hr|].
  assert (decode_frame (take 16 head)
    = mkFrame (256 + to_gdos_type (e_level e)) (-1) 255 255 (33 + zlen (e_message e)) (e_timestamp e mod 2 ^ 32)
        (e_timestamp e / 2 ^ 32)) as Hh.
  { rewrite Hb. unfold header_bytes. cbn [msg_type msg_size timestamp].
    rewrite le_bytes_8, <- (le_bytes_mod 4 (e_timestamp e)). change (256 ^ Z.of_nat 4) with (2 ^ 32).
    unfold in_u in *. unfold decode_frame, field. cbn [le_bytes app take drop]. f_equal.
    - by destruct (e_level e).
    - by destruct (e_level e).
    - by destruct (e_level e).
    - by destruct (e_level e).
    - apply (le_val_4 (33 + zlen (e_message e))). unfold in_u. lia.
    - apply (le_val_4 (e_timestamp e mod 2 ^ 32)). unfold in_u. apply Z.mod_pos_bound. lia.
    - apply (le_val_4 (e_timestamp e / 2 ^ 32)). unfold in_u. split; [apply Z.div_pos; lia|].
      apply Z.div_lt_upper_bound; lia. }
  unfold h. rewrite Hh. cbn [f_type f_dest f_src f_msglen]. split_and!; try done.
  intros n Hn Hn0. unfold frame_body_len, sizeof_FrameHeader. cbn [f_msglen]. rewrite Hn.
  destruct (Z.ltb_spec 16 (16 + n)); lia.
Qed.

(** The printed time of day is in range and is the timestamp to the millisecond. *)
Lemma terminal_time_spec ts : 0 <= ts ->
  let '(hour, min, sec, ms) := terminal_time ts in
  0 <= hour < 24 /\ 0 <= min < 60 /\ 0 <= sec < 60 /\ 0 <= ms < 1000 /\
  ((hour * 60 + min) * 60 + sec) * 1000 + ms = (ts / 1000000) mod 86400000.
Proof. intros H. unfold terminal_time. Z.to_euclidean_division_equations. lia. Qed.

(** The number that digits stand for. *)
Definition number_value (base : Z) (s : bytes) : Z :=
  fold_left (fun v c => v * base + (if c <? 58 then c - 48 else c - 55)) s 0.

Lemma length_padded w base n : length (padded w base n) = w.
Proof. revert n. induction w as [|w IH]; intros n; [done|]. cbn. rewrite length_app, IH. cbn. lia. Qed.

Lemma padded_value w base n : 2 <= base <= 36 -> number_value base (padded w base n) = n mod base ^ Z.of_nat w.
Proof.
  intros Hb. revert n. induction w as [|w IH]; intros n; [cbn; by rewrite Z.mod_1_r|].
  cbn [padded]. unfold number_value in *. rewrite fold_left_app, IH. cbn [fold_left].
  rewrite Nat2Z.inj_succ, Z.pow_succ_r, (Z.rem_mul_r n base) by lia.
  pose proof (Z.mod_pos_bound n base). destruct (Z.ltb_spec (n mod base) 10).
  - destruct (Z.ltb_spec (48 + n mod base) 58); lia.
  - destruct (Z.ltb_spec (55 + n mod base) 58); lia.
Qed.

Lemma padded_read w base n :
  2 <= base <= 36 -> 0 <= n < base ^ Z.of_nat w ->
  exists s, padded w base n = s /\ length s = w /\ number_value base s = n.
Proof. intros. eexists. split; [done|]. split; [apply length_padded|]. rewrite padded_value, Z.mod_small by done. done. Qed.

(** Time, source and message can be read off a line at fixed places. *)
Theorem terminal_line_read min_level e line :
  0 <= e_timestamp e -> in_u 32 (e_source_id e) -> Forall (fun c => c <> 0) (e_message e) ->
  terminal_write min_level e = Some line ->
  let number base at_ n := number_value base (take n (drop at_ line)) in
  ((number 10 8%nat 2%nat * 60 + number 10 11%nat 2%nat) * 60 + number 10 14%nat 2%nat) * 1000 + number 10 17%nat 3%nat
    = (e_timestamp e / 1000000) mod 86400000 /\
  number 16 35%nat 8%nat = e_source_id e /\
  drop 45 line = e_message e ++ [27; 91; 48; 109; 10].
Proof.
  intros Ht Hid Hmsg Hline number. unfold number. clear number. revert Hline. unfold terminal_write.
  destruct (negb _); [done|]. pose proof (terminal_time_spec (e_timestamp e) Ht) as Htime.
  destruct (terminal_time (e_timestamp e)) as [[[hour min] sec] ms]. destruct Htime as (Hh&Hm&Hs&Hms&Hall).
  assert (until_nul (e_message e) = e_message e) as ->.
  { induction Hmsg as [|c l Hc _ IH]; [done|]. cbn. destruct (Z.eqb_spec c 0); [done|]. by rewrite IH. }
  destruct (padded_read 2 10 hour) as (h&->&Hlh&Hvh); [done|cbn; lia|].
  destruct (padded_read 2 10 min) as (m&->&Hlm&Hvm); [done|cbn; lia|].
  destruct (padded_read 2 10 sec) as (sc&->&Hls&Hvs); [done|cbn; lia|].
  destruct (padded_read 3 10 ms) as (mm&->&Hlmm&Hvmm); [done|cbn; lia|].
  destruct (padded_read 8 16 (e_source_id e)) as (id&->&Hli&Hvi); [done|exact Hid|].
  do 3 (destruct h as [|? h]; [try done|]); try done. do 3 (destruct m as [|? m]; [try done|]); try done.
  do 3 (destruct sc as [|? sc]; [try done|]); try done. do 4 (destruct mm as [|? mm]; [try done|]); try done.
  do 9 (destruct id as [|? id]; [try done|]); try done.
  destruct (e_level e); intros [= <-]; cbn [take drop app bytes_of escape color_for to_string map list_ascii_of_string];
    rewrite Hvh, Hvm, Hvs, Hvmm, Hvi; done.
Qed.

(** A stream below the level of the logger commits its text once, any other nothing. *)
Lemma stream_commits append MaxMsgLen logger_level lvl texts :
  stream_end (fold_left (fun st text => stream_put append MaxMsgLen text st) texts (new_stream logger_level lvl))
  = if level_le lvl logger_level then Some (lvl, fold_left (append MaxMsgLen) texts []) else None.
Proof.
  unfold new_stream. destruct (level_le lvl logger_level).
  - generalize (@nil Z) as buf. induction texts as [|text texts IH]; intros buf; [done|apply IH].
  - generalize (@nil Z) as buf. induction texts as [|text texts IH]; intros buf; [done|apply IH].
Qed.

(** ** Witnesses *)

Definition sample_append (cap : nat) (s added : bytes) : bytes := take cap (s ++ added).

(** Two slots: three commits, the last one dropped, interleaved with the drain thread. *)
Definition sample_run : list action :=
  [AStart; ACommit Info [65] 100; AWriter; ADrain; AWriter; ADrain; ACommit Warn [66] 200; ADrain; AWriter; AWriter;
   ACommit Error [67] 300; AStopRequest; ADrain].

Definition sample_logger : RtLogger :=
  default (new_logger 2 7 Debug) (run sample_append 2 8 sample_run (new_logger 2 7 Debug)).

Lemma logger_fifo_witness :
  exists delivered waiting,
    committed sample_logger = delivered ++ in_flight sample_logger ++ waiting /\
    in_flight sample_logger = [mkEntry 100 7 Info [65]] /\ (length waiting <= 2)%nat.
Proof.
  destruct (logger_fifo sample_append 2 8 1 7 Debug sample_run sample_logger) as (dl&q&Hc&_&Hl&_).
  - by_compute.
  - reflexivity.
  - vm_compute. reflexivity.
  - exists dl, q. split; [exact Hc|]. split; [vm_compute; reflexivity|exact Hl].
Defined.

Lemma stop_drain_flushes_witness :
  exists m s', run sample_append 2 8 (replicate m ADrain) sample_logger = Some s' /\
    map e_message (written s') = [[65]; [66]].
Proof.
  destruct (stop_drain_flushes sample_append 2 8 1 7 Debug sample_run sample_logger) as (m&s'&_&Hr&_&Hw).
  - by_compute.
  - reflexivity.
  - vm_compute. reflexivity.
  - vm_compute. reflexivity.
  - vm_compute. discriminate.
  - vm_compute. discriminate.
  - exists m, s'. split; [exact Hr|]. rewrite Hw. vm_compute. reflexivity.
Defined.

Lemma tims_sink_misread_witness :
  f_msglen (decode_frame (take 16 (tims_head 10 (mkEntry 3600000000000 10 Warn [104; 105])))) = 838 /\
  f_dest (decode_frame (take 16 (tims_head 10 (mkEntry 3600000000000 10 Warn [104; 105])))) = 35.
Proof.
  destruct (tims_sink_misread (mkEntry 3600000000000 10 Warn [104; 105]) 10) as (_&_&Hd&_&Hl&_).
  - by_compute.
  - by_compute.
  - by_compute.
  - split; [rewrite Hl; vm_compute; reflexivity|rewrite Hd; vm_compute; reflexivity].
Defined.

End Logging.
