(* ===== verification/LogStream.v ===== *)
(** * Log statements

    The operators of [RtLogStream] (include/corerat/logging/rt_log_stream.hpp)
    and what a statement [RTLOG_x(logger) << a << b;] does to the logger of
    Logging.v.  The formatting functions are overloads of [sertial::rt::append]
    and [append_hex], a third-party library, and a parameter: what a string of a
    capacity holds after the call. *)

From Stdlib Require Import ZArith Lia.
From stdpp Require Import base list numbers.
From S2P Require Import Prelude Logging.

#[local] Open Scope Z_scope.

Import Logging.

Module LogStream.

(** The overloads.  A floating-point number is its bits. *)
Class Format := {
  append_text : nat -> bytes -> bytes -> bytes;
  append_int64 : nat -> bytes -> Z -> bytes;
  append_uint64 : nat -> bytes -> Z -> bytes;
  append_float : nat -> bytes -> Z -> bytes;
  append_double : nat -> bytes -> Z -> bytes;
  append_bool : nat -> bytes -> bool -> bytes;
  append_hex : nat -> bytes -> Z -> bool -> bytes
}.

Record RtHex := mkHex { hex_value : Z; hex_prefix : bool }.

(** What stands after [<<]. *)
Inductive log_arg :=
  | CString (s : bytes)
  | Int32 (v : Z) | UInt32 (v : Z) | Int64 (v : Z) | UInt64 (v : Z)
  | Float (bits : Z) | Double (bits : Z)
  | Bool (b : bool)
  | Hex (h : RtHex) | Hex32 (h : RtHex)
  | FixedString (s : bytes).

Section stream.
Context `{Format} (MaxMsgLen : nat).

(** The [append] of each overload, with its cast. *)
Definition append_arg (a : log_arg) (buf : bytes) : bytes :=
  match a with
  | CString s => append_text MaxMsgLen buf s
  | Int32 v => append_int64 MaxMsgLen buf (s64 v)
  | UInt32 v => append_uint64 MaxMsgLen buf (u64 v)
  | Int64 v => append_int64 MaxMsgLen buf v
  | UInt64 v => append_uint64 MaxMsgLen buf v
  | Float bits => append_float MaxMsgLen buf bits
  | Double bits => append_double MaxMsgLen buf bits
  | Bool b => append_bool MaxMsgLen buf b
  | Hex h => append_hex MaxMsgLen buf (hex_value h) (hex_prefix h)
  | Hex32 h => append_hex MaxMsgLen buf (u64 (hex_value h)) (hex_prefix h)
  | FixedString s => append_text MaxMsgLen buf s
  end.

(** [operator<<] *)
Definition put (st : RtLogStream) (a : log_arg) : RtLogStream :=
  if st_active st then mkStream (st_level st) (st_active st) (append_arg a (st_buf st)) else st.

(** The text of a statement. *)
Definition text_of (args : list log_arg) : bytes := fold_left (fun buf a => append_arg a buf) args [].

Lemma fold_put lvl active buf args :
  fold_left put args (mkStream lvl active buf)
  = mkStream lvl active (if active then fold_left (fun buf a => append_arg a buf) args buf else buf).
Proof.
  revert buf. induction args as [|a args IH]; intros buf; cbn [fold_left]; [by destruct active|].
  unfold put at 2. cbn [st_active st_level st_buf]. destruct active; [apply IH|]. apply IH.
Qed.

(** The whole statement in the thread that executes it: the stream is made,
    which reads the level, the operators run, the destructor commits; [None] if
    it cannot run to its end here. *)
Definition statement (RingSize : nat) (lvl : LogLevel) (args : list log_arg) (now : Z) (s : RtLogger) : option RtLogger :=
  match stream_end (fold_left put args (new_stream (level s) lvl)) with
  | None => Some s
  | Some (l, text) =>
      match exec append_text RingSize MaxMsgLen (ACommit l text now) s with
      | None => None
      | Some s =>
          match commit_at s with
          | CIdle => Some s                          (* the ring was full *)
          | _ => run append_text RingSize MaxMsgLen [AWriter; AWriter] s
          end
      end
  end.

(** A statement in a program that has done anything with its logger before, and
    whose other threads are not in [commit]: it returns; above the level of the
    logger it changes nothing; otherwise, if fewer than [RingSize] entries wait,
    exactly one entry is committed, with the level of the statement, the id of
    the logger and the text of all arguments in order, and if not the entry is
    dropped. *)
Theorem statement_commits RingSize k src min_level acts (s : RtLogger) lvl args now :
  0 <= k < 64 -> Z.of_nat RingSize = 2 ^ k ->
  run append_text RingSize MaxMsgLen acts (new_logger RingSize src min_level) = Some s -> commit_at s = CIdle ->
  exists s' delivered waiting, statement RingSize lvl args now s = Some s' /\
    committed s = delivered ++ in_flight s ++ waiting /\ commit_at s' = CIdle /\
    committed s' = committed s ++
      (if level_le lvl (level s) && (length waiting <? RingSize)%nat
       then [mkEntry now (source_id s) lvl (append_text MaxMsgLen [] (text_of args))] else []) /\
    (level_le lvl (level s) = false -> s' = s).
Proof.
  intros Hk HN Hrun Hidle.
  destruct (run_inv append_text RingSize MaxMsgLen k Hk HN _ _ _ _ _ (new_logger_inv append_text RingSize k src min_level) Hrun)
    as (t&q&Hi).
  destruct (qi_order _ _ _ _ _ Hi) as (dl&Hco&_).
  assert (statement RingSize lvl args now s
    = if level_le lvl (level s) then
        let s1 := commit_begin append_text RingSize MaxMsgLen lvl (text_of args) now s in
        match commit_at s1 with CIdle => Some s1 | _ => run append_text RingSize MaxMsgLen [AWriter; AWriter] s1 end
      else Some s) as ->.
  { unfold statement, new_stream. rewrite fold_put. unfold stream_end. cbn [st_active st_level st_buf].
    destruct (level_le lvl (level s)); [|done]. cbn [exec]. by rewrite Hidle. }
  destruct (level_le lvl (level s)); cbn [andb].
  2:{ exists s, dl, q. split_and!; [done|done|done|by rewrite app_nil_r|done]. }
  unfold commit_begin.
  rewrite (qi_head _ _ _ _ _ Hi), (qi_tail _ _ _ _ _ Hi), (waiting_count RingSize k Hk HN) by apply Hi.
  destruct (Z.leb_spec (Z.of_nat RingSize) (Z.of_nat (length q))).
  - rewrite Hidle. exists s, dl, q. rewrite (proj2 (Nat.ltb_ge _ _)) by lia.
    split_and!; [done|done|done|by rewrite app_nil_r|done].
  - cbn [commit_at set_commit run exec]. eexists _, dl, q. rewrite (proj2 (Nat.ltb_lt _ _)) by lia.
    split_and!; [reflexivity|done..].
Qed.
End stream.

(** The casts of the 32-bit overloads change no number. *)
Lemma narrow_args `{Format} MaxMsgLen v h buf :
  (in_s 32 v -> append_arg MaxMsgLen (Int32 v) buf = append_arg MaxMsgLen (Int64 v) buf) /\
  (in_u 32 v -> append_arg MaxMsgLen (UInt32 v) buf = append_arg MaxMsgLen (UInt64 v) buf) /\
  (in_u 32 (hex_value h) -> append_arg MaxMsgLen (Hex32 h) buf = append_arg MaxMsgLen (Hex h) buf).
Proof.
  assert (forall z, in_u 32 z -> u64 z = z) as Hu by (intros z Hz; apply wrapu_id; unfold in_u in *; lia).
  cbn. split_and!; intros Hv; [|by rewrite Hu..]. by rewrite wraps_id by (unfold in_s in *; lia).
Qed.

(** ** Witness *)

#[local] Instance sample_format : Format := {
  append_text cap buf s := take cap (buf ++ s);
  append_int64 cap buf v := take cap (buf ++ [48 + v mod 10]);
  append_uint64 cap buf v := take cap (buf ++ [48 + v mod 10]);
  append_float cap buf _ := buf;
  append_double cap buf _ := buf;
  append_bool cap buf b := take cap (buf ++ [if b then 49 else 48]);
  append_hex cap buf v _ := take cap (buf ++ [48 + v mod 16])
}.

Lemma statement_commits_witness :
  exists s', statement 8 2 Info [CString [118; 61]; Int32 7] 100 (new_logger 2 9 Info) = Some s' /\
    committed s' = [mkEntry 100 9 Info [118; 61; 55]].
Proof.
  destruct (statement_commits (H := sample_format) 8 2 1 9 Info [] (new_logger 2 9 Info) Info [CString [118; 61]; Int32 7] 100)
    as (s'&dl&q&Hs&Hc&_&Hc'&_).
  - by_compute.
  - reflexivity.
  - reflexivity.
  - reflexivity.
  - exists s'. split; [exact Hs|]. rewrite Hc'. destruct dl, q; [vm_compute; reflexivity|discriminate Hc..].
Defined.

End LogStream.
