(* ===== verification/LogToRouter.v ===== *)
(** * A log sink at its router

    [TimsSink] (Logging.v) writes to the socket of a TiMS connection; here the
    router at the other end reads it. *)

From Stdlib Require Import ZArith Lia.
From stdpp Require Import base list gmap sets numbers.
From S2P Require Import Prelude Protocol TcpSocket RouterCore TcpRouter TcpDelivery MessageId Logging.

#[local] Open Scope Z_scope.

Import Tcp Msg Logging.

(** All that the sink sends for an entry. *)
Definition sink_bytes (fd id : Z) (level : LogLevel) (e : RtLogEntry) : bytes := concat (tims_write fd id level kHeadLen e).

(** The frame header that the router takes from it. *)
Definition misread (id : Z) (e : RtLogEntry) : FrameHeader := decode_frame (take 16 (tims_head id e)).

Lemma length_tims_head id e : length (tims_head id e) = 32%nat.
Proof. rewrite tims_head_bytes. apply length_header_bytes. Qed.

Lemma sink_bytes_head fd id level e :
  0 <= fd -> level_le (e_level e) level = true ->
  sink_bytes fd id level e = take 16 (tims_head id e) ++ drop 16 (tims_head id e) ++ e_message e ++ [0].
Proof.
  intros Hfd Hl. unfold sink_bytes, tims_write. rewrite Hl. destruct (Z.ltb_spec fd 0); [lia|].
  cbn [negb orb]. rewrite Z.eqb_refl. cbn [negb concat]. by rewrite app_nil_r, (assoc_L (++) (take 16 _)), take_drop.
Qed.

Lemma tims_head_bytes_ok id e : Forall is_byte (tims_head id e).
Proof. rewrite tims_head_bytes. unfold header_bytes. repeat apply Forall_app_2; apply le_bytes_bytes. Qed.

Lemma misread_frame id e : wf_frame (misread id e) /\ encode_frame (misread id e) = take 16 (tims_head id e).
Proof.
  assert (length (take 16 (tims_head id e)) = 16%nat) as Hl by (rewrite length_take, length_tims_head; lia).
  assert (Forall is_byte (take 16 (tims_head id e))) as Hb by apply Forall_take, tims_head_bytes_ok.
  split; [by apply decode_frame_wf|by apply encode_decode_frame].
Qed.

(** C40. A log entry on a router's connection.  The router takes the first half of
    the entry's header for the header of a frame; the length of its body is the
    upper half of the timestamp, minus 16.  If this is more than [max_msg_size], as
    for every entry after some hours of uptime with the default size, the router
    closes its end without ending the connection: nothing happens on it any more,
    its mailboxes stay registered, and frames for them are dropped.  If it is
    less, as many bytes of the entry and of the frames after it are dispatched as
    the body of an error frame for the mailbox whose number is the size of the
    entry. *)
Theorem log_entry_at_router e id fd level c (st : TcpRouter) con rest poll :
  in_u 64 (e_timestamp e) -> in_u 32 id -> zlen (e_message e) <= 256 -> 0 <= fd -> level_le (e_level e) level = true ->
  receiving st c con -> 0 < poll -> sk_rx (con_socket con) = sink_bytes fd id level e ++ rest ->
  let n := e_timestamp e / 2 ^ 32 - 16 in
  let st' := (con_run_iter handle_frame c false poll st).2 in
  (0 <= r_max_msg_size st < n ->
     r_registry st' = r_registry st /\ (forall polls, (iterations c polls st').2 = st') /\
     forall m sender data body, r_registry st !! m = Some c -> f_dest data = m -> (route_data sender data body st').2 = st') /\
  (forall body rest', drop 16 (sink_bytes fd id level e) ++ rest = body ++ rest' -> zlen body = n -> n <= r_max_msg_size st ->
     exists s, sk_rx s = rest' /\
       st' = (route_data c (misread id e) body (set_cons (<[c := con_set_socket s con]> (r_cons st)) st)).2 /\
       f_type (misread id e) = MSG_ERROR /\ f_dest (misread id e) = 33 + zlen (e_message e)).
Proof.
  intros Ht Hid Hm Hfd Hl Hrecv Hpoll Hrx n st'.
  destruct (tims_sink_misread e id Ht Hid Hm) as (_&Hty&Hdest&_&Hlen&Hbody). fold (misread id e) in *.
  destruct (misread_frame id e) as [Hwf Henc]. pose proof (sink_bytes_head fd id level e Hfd Hl) as Hsink. split.
  - intros Hbig. rewrite Hsink, <- !(assoc_L (++)), <- Henc in Hrx.
    destruct (iterate_header handle_frame c st con (misread id e) _ poll Hrecv Hpoll Hrx Hwf) as (s&E&_).
    destruct Hrecv as (Hc&Hph&_). unfold st'. rewrite E. set (st1 := set_cons _ st).
    assert (forall polls, let st2 := (handle_frame c (misread id e) st1).2 in
      r_registry st2 = r_registry st1 /\ (iterations c polls st2).2 = st2 /\
      forall m sender data body, r_registry st1 !! m = Some c -> f_dest data = m -> (route_data sender data body st2).2 = st2) as Hstrand.
    { intros polls. apply (oversized_frame_strands_routes c (misread id e) st1 (con_set_socket s con));
        [apply lookup_insert_eq|done|]. unfold st1. cbn [r_max_msg_size set_cons]. rewrite (Hbody n); lia. }
    split; [apply (Hstrand [])|]. split; [intros polls; apply (Hstrand polls)|apply (Hstrand [])].
  - intros body rest' Hsplit Hlb Hmax. pose proof (zlen_nonneg body). rewrite Hsink in Hsplit, Hrx.
    rewrite drop_app_length' in Hsplit by (rewrite length_take, length_tims_head; lia).
    rewrite <- (assoc_L (++)), Hsplit, <- Henc in Hrx.
    destruct (iterate_frame tcp_handler c st con (misread id e) body rest' poll Hrecv Hpoll Hrx Hwf) as (s&E&Hs&_); [|lia|].
    { unfold sizeof_FrameHeader. lia. }
    exists s. split; [done|]. split; [|done]. unfold st'. rewrite E, dispatch_data; [done|]. by rewrite Hty.
Qed.

(** ** Witness: a warning after six hours, on the connection of mailbox 66. *)

Definition late_entry : RtLogEntry := mkEntry 21600000000000 66 Warn [104; 105].

Lemma log_entry_at_router_witness :
  let st := with_input 0 (sink_bytes 5 66 Warn late_entry) sample in
  let st' := (con_run_iter handle_frame 0 false 1 st).2 in
  r_registry st' !! 66 = Some 0%nat /\ (iterations 0 [1; 1] st').2 = st' /\
  (route_data 1 sample_frame [1; 2] st').2 = st'.
Proof.
  intros st st'. destruct (r_cons st !! 0%nat) as [con|] eqn:Hc; [|exfalso; vm_compute in Hc; discriminate Hc].
  destruct (log_entry_at_router late_entry 66 5 Warn 0 st con [] 1) as [Hbig _]; try by_compute.
  - split; [exact Hc|]. vm_compute in Hc. injection Hc as <-. by_compute.
  - vm_compute in Hc. injection Hc as <-. vm_compute. reflexivity.
  - destruct Hbig as (Hreg&Hit&Hroute); [by_compute|]. split; [|split; [apply Hit|]].
    + unfold st'. rewrite Hreg. vm_compute. reflexivity.
    + apply (Hroute 66); vm_compute; reflexivity.
Defined.
