(* ===== verification/PlatformTime.v ===== *)
(** * Duration and Time

    Models include/corerat/platform: [Duration] (duration.hpp) and the [Time]
    classes of both backends (std/timestamp_impl.hpp, evl/timestamp_impl.hpp),
    with the deadline of the EVL [ConditionVariable].  A [Duration] is its
    [int64_t] count; arithmetic on it that overflows is undefined, [None].
    [Timestamp] is a [uint64_t] and wraps. *)

From Stdlib Require Import ZArith Lia.
From stdpp Require Import base list numbers.
From S2P Require Import Prelude.

#[local] Open Scope Z_scope.

Module Time.

(** ** Duration *)

Definition s64_ok (z : Z) : bool := (- 2 ^ 63 <=? z) && (z <? 2 ^ 63).

(** A signed 64-bit result. *)
Definition ck (z : Z) : option Z := if s64_ok z then Some z else None.

Record Duration := mkDuration { ns_ : Z }.

#[export] Instance Duration_eq_dec : EqDecision Duration.
Proof. solve_decision. Defined.

Definition dur (z : Z) : option Duration := mkDuration <$> ck z.

Definition nanoseconds (v : Z) : option Duration := dur v.
Definition microseconds (v : Z) : option Duration := dur (v * 1000).
Definition milliseconds (v : Z) : option Duration := dur (v * 1000000).
Definition seconds (v : Z) : option Duration := dur (v * 1000000000).
Definition minutes (v : Z) : option Duration := dur (v * 60000000000).
Definition hours (v : Z) : option Duration := dur (v * 3600000000000).

Definition count_ns (d : Duration) : Z := ns_ d.
Definition count_us (d : Duration) : Z := Z.quot (ns_ d) 1000.
Definition count_ms (d : Duration) : Z := Z.quot (ns_ d) 1000000.
Definition count_s (d : Duration) : Z := Z.quot (ns_ d) 1000000000.

Definition is_zero (d : Duration) : bool := ns_ d =? 0.
Definition is_negative (d : Duration) : bool := ns_ d <? 0.
Definition is_positive (d : Duration) : bool := 0 <? ns_ d.

Definition dur_add (a b : Duration) : option Duration := dur (ns_ a + ns_ b).
Definition dur_sub (a b : Duration) : option Duration := dur (ns_ a - ns_ b).
Definition dur_neg (a : Duration) : option Duration := dur (- ns_ a).
Definition dur_mul (a : Duration) (factor : Z) : option Duration := dur (ns_ a * factor).
Definition dur_div (a : Duration) (divisor : Z) : option Duration :=
  if divisor =? 0 then None else dur (Z.quot (ns_ a) divisor).
Definition dur_ratio (a b : Duration) : option Z := if ns_ b =? 0 then None else ck (Z.quot (ns_ a) (ns_ b)).
Definition dur_mod (a b : Duration) : option Duration :=
  if ns_ b =? 0 then None else if s64_ok (Z.quot (ns_ a) (ns_ b)) then dur (Z.rem (ns_ a) (ns_ b)) else None.

Definition dur_zero : Duration := mkDuration 0.

(** [operator<=>]. *)
Definition dur_compare (a b : Duration) : comparison := Z.compare (ns_ a) (ns_ b).
Definition dur_le (a b : Duration) : Prop := dur_compare a b <> Gt.

#[export] Instance dur_le_dec a b : Decision (dur_le a b).
Proof. unfold dur_le. solve_decision. Defined.

(** The literals [_ns], [_us], [_ms], [_s]: an [unsigned long long], converted. *)
Definition literal_ns (v : Z) : option Duration := nanoseconds (s64 v).
Definition literal_us (v : Z) : option Duration := microseconds (s64 v).
Definition literal_ms (v : Z) : option Duration := milliseconds (s64 v).
Definition literal_s (v : Z) : option Duration := seconds (s64 v).

(** A [std::chrono::duration]: [ch_count] periods of [ch_num] / [ch_den] seconds. *)
Record chrono := mkChrono { ch_count : Z; ch_num : Z; ch_den : Z }.

Definition to_chrono_ns (d : Duration) : chrono := mkChrono (ns_ d) 1 1000000000.
Definition to_chrono_us (d : Duration) : chrono := mkChrono (Z.quot (ns_ d) 1000) 1 1000000.
Definition to_chrono_ms (d : Duration) : chrono := mkChrono (Z.quot (ns_ d) 1000000) 1 1000.

(** [std::chrono::duration_cast<nanoseconds>] of a duration with a 64-bit count:
    a product and a quotient by the reduced ratio of the periods. *)
Definition duration_cast_ns (c : chrono) : option Z :=
  let num := ch_num c * 1000000000 in
  let g := Z.gcd num (ch_den c) in
  (fun z => Z.quot z (ch_den c / g)) <$> ck (ch_count c * (num / g)).

Definition from_chrono (c : chrono) : option Duration := duration_cast_ns c ≫= dur.

Record timespec := mkTs { tv_sec : Z; tv_nsec : Z }.

Definition to_timespec (d : Duration) : timespec :=
  mkTs (Z.quot (ns_ d) 1000000000) (Z.rem (ns_ d) 1000000000).

Definition from_timespec (ts : timespec) : option Duration :=
  match ck (tv_sec ts * 1000000000) with
  | None => None
  | Some z => dur (z + tv_nsec ts)
  end.

(** ** Time, the parts both backends share *)

Definition to_nanoseconds (d : Duration) : Z := u64 (count_ns d).
Definition from_nanoseconds (ns : Z) : option Duration := nanoseconds (s64 ns).
Definition milliseconds_to_ns (ms : Z) : Z := u64 (ms * 1000000).
Definition microseconds_to_ns (us : Z) : Z := u64 (us * 1000).
Definition ns_to_milliseconds (ns : Z) : Z := ns / 1000000.
Definition ns_to_microseconds (ns : Z) : Z := ns / 1000.

Definition diff (t1 t2 : Z) : Z := if t2 <? t1 then u64 (t1 - t2) else u64 (t2 - t1).
Definition is_within_tolerance (timestamp target tolerance_ns : Z) : bool := diff timestamp target <=? tolerance_ns.

(** [now()] of the EVL backend, [posix_clock_now] of the other. *)
Definition timestamp_of (ts : timespec) : Z := u64 (u64 (u64 (tv_sec ts) * 1000000000) + u64 (tv_nsec ts)).

Inductive ClockSource := SYSTEM_CLOCK | STEADY_CLOCK | HIGH_RES_CLOCK | REALTIME_CLOCK | MONOTONIC_CLOCK.

(** The clocks: [system] and [steady] are nanosecond counts, [posix] the answers
    of [clock_gettime], [None] for a failure. *)
Record Clocks := mkClocks { system : Z; steady : Z; posix_realtime : option timespec; posix_monotonic : option timespec }.

Definition posix_clock_now (steady : Z) (answer : option timespec) : Z :=
  match answer with Some ts => timestamp_of ts | None => u64 steady end.

Definition get_timestamp (c : Clocks) (source : ClockSource) : Z :=
  match source with
  | SYSTEM_CLOCK => u64 (system c)
  | STEADY_CLOCK | HIGH_RES_CLOCK => u64 (steady c)
  | REALTIME_CLOCK => posix_clock_now (steady c) (posix_realtime c)
  | MONOTONIC_CLOCK => posix_clock_now (steady c) (posix_monotonic c)
  end.

(** [current_clock_source_] of the std backend, one for the process. *)
Definition initial_clock_source : ClockSource := STEADY_CLOCK.
Definition set_clock_source (source : ClockSource) : state ClockSource unit := modify (fun _ => source).
Definition now (c : Clocks) : state ClockSource Z := source ← get_state; mret (get_timestamp c source).

(** ** Sleeping *)

(** What a call sleeps on, the standard backend: the count given to [sleep_for]. *)
Definition std_sleep (d : Duration) : Z := ns_ d.
Definition std_sleep_ns (ns : Z) : Z := s64 ns.
Definition std_sleep_until (target now : Z) : option Z :=
  if now <? target then Some (s64 (u64 (target - now))) else None.

Inductive evl_sleep :=
  | NoSleep
  | Usleep (us : Z)
  | UsleepThenNanosleep (us : Z) (ts : timespec)
  | SleepUntil (ts : timespec).

Definition EPERM : Z := 1.

Definition evl_sleep_until (target : Z) : evl_sleep := SleepUntil (mkTs (target / 1000000000) (target mod 1000000000)).

(** [r] is the answer of [evl_usleep]. *)
Definition evl_sleep_ns (now r ns : Z) : evl_sleep :=
  if ns =? 0 then NoSleep
  else if ns <=? 1000000000 then
    if (negb (r =? 0)) && (r =? - EPERM)
    then UsleepThenNanosleep (u32 (ns / 1000)) (mkTs (ns / 1000000000) (ns mod 1000000000))
    else Usleep (u32 (ns / 1000))
  else evl_sleep_until (u64 (now + ns)).

Definition evl_sleep_dur (now r : Z) (d : Duration) : evl_sleep :=
  if is_zero d || is_negative d then NoSleep else evl_sleep_ns now r (u64 (count_ns d)).

(** The deadline of [ConditionVariable::wait_for] of the EVL backend. *)
Definition cv_deadline (now : timespec) (timeout : Duration) : option timespec :=
  match ck (tv_sec now * 1000000000) with
  | None => None
  | Some a =>
      match ck (a + tv_nsec now) with
      | None => None
      | Some b =>
          match ck (b + count_ns timeout) with
          | None => None
          | Some deadline => Some (mkTs (Z.quot deadline 1000000000) (Z.rem deadline 1000000000))
          end
      end
  end.

(** ** Facts *)

Definition dur_ok (d : Duration) : Prop := in_s 64 (ns_ d).

(** What the kernel takes for a valid time. *)
Definition ts_valid (ts : timespec) : Prop := 0 <= tv_sec ts /\ 0 <= tv_nsec ts < 1000000000.

Definition ts_ns (ts : timespec) : Z := tv_sec ts * 1000000000 + tv_nsec ts.

Lemma ck_ok z : in_s 64 z -> ck z = Some z.
Proof.
  unfold in_s, ck, s64_ok. intros H. rewrite (proj2 (Z.leb_le _ _)), (proj2 (Z.ltb_lt _ _)) by lia. done.
Qed.

Lemma ck_some z z' : ck z = Some z' -> z' = z /\ in_s 64 z.
Proof.
  unfold ck, s64_ok, in_s. destruct (Z.leb_spec (- 2 ^ 63) z), (Z.ltb_spec z (2 ^ 63)); cbn; try done.
  intros [= <-]. lia.
Qed.

Lemma quot_rem_bounds z : in_s 64 z ->
  z = Z.quot z 1000000000 * 1000000000 + Z.rem z 1000000000 /\
  in_s 64 (Z.quot z 1000000000 * 1000000000) /\
  - 1000000000 < Z.rem z 1000000000 < 1000000000 /\
  (0 <= z -> 0 <= Z.quot z 1000000000 /\ 0 <= Z.rem z 1000000000) /\ (z <= 0 -> Z.rem z 1000000000 <= 0).
Proof. unfold in_s. intros H. Z.to_euclidean_division_equations. lia. Qed.

(** Durations are ordered as their counts. *)
#[export] Instance dur_le_total : TotalOrder dur_le.
Proof.
  split; [split; [split|]|].
  - intros a. unfold dur_le, dur_compare. by rewrite Z.compare_refl.
  - intros a b c. unfold dur_le, dur_compare. rewrite !Z.compare_ngt_iff. lia.
  - intros [a] [b]. unfold dur_le, dur_compare. cbn. rewrite !Z.compare_ngt_iff. intros ? ?. f_equal. lia.
  - intros a b. unfold strict, dur_le, dur_compare. rewrite !Z.compare_ngt_iff.
    destruct (Z.lt_trichotomy (ns_ a) (ns_ b)) as [|[|]]; [left; lia|right; left; destruct a, b; cbn in *; congruence|right; right; lia].
Qed.

(** A count of [unit] nanoseconds, as a [std::chrono::duration], cast back. *)
Lemma chrono_unit q unit den :
  0 < unit -> unit * den = 1000000000 -> in_s 64 (q * unit) ->
  from_chrono (mkChrono q 1 den) = Some (mkDuration (q * unit)).
Proof.
  intros Hu Hd Hq. assert (0 < den) by nia. unfold from_chrono, duration_cast_ns. cbn [ch_count ch_num ch_den].
  rewrite Z.mul_1_l, <- Hd, Z.gcd_comm, (Z.mul_comm unit den), Z.gcd_mul_diag_l, (Z.mul_comm den unit), Z.div_mul, Z.div_same by lia.
  rewrite ck_ok by done. cbn. rewrite Z.quot_1_r. unfold dur. by rewrite ck_ok.
Qed.

Lemma quot_unit z unit : 0 < unit -> in_s 64 z ->
  in_s 64 (Z.quot z unit * unit) /\ Z.abs (z - Z.quot z unit * unit) < unit /\ Z.abs (Z.quot z unit * unit) <= Z.abs z.
Proof.
  unfold in_s. intros Hu Hz. pose proof (Z.quot_rem' z unit). rewrite (Z.mul_comm (Z.quot z unit)).
  destruct (Z.le_gt_cases 0 z).
  - pose proof (Z.rem_bound_pos z unit). pose proof (Z.mul_quot_le z unit). lia.
  - pose proof (Z.rem_bound_pos_neg z unit). pose proof (Z.mul_quot_ge z unit). lia.
Qed.

(** C38. Durations, the kernel's times and those of the standard library.
    [to_timespec] and [from_timespec] are inverse without overflow for every
    duration; the result is a valid kernel time exactly for durations that are not
    negative.  The deadline of a timed wait is undefined exactly if now plus timeout
    exceeds 2^63 - 1 nanoseconds, and otherwise the valid time that is the timeout
    after now.  And [from_chrono] gives back what [to_chrono_ns] took, and less
    than a unit towards zero what [to_chrono_us] and [to_chrono_ms] took, without
    overflow.  *)
Theorem timespec_conversions :
  (forall d, dur_ok d -> from_timespec (to_timespec d) = Some d /\
     (ts_valid (to_timespec d) <-> is_negative d = false)) /\
  (forall now timeout, ts_valid now -> dur_ok timeout -> 0 <= ns_ timeout -> in_s 64 (ts_ns now) ->
     match cv_deadline now timeout with
     | Some ts => ts_valid ts /\ ts_ns ts = ts_ns now + ns_ timeout
     | None => 2 ^ 63 <= ts_ns now + ns_ timeout
     end) /\
  (forall d, dur_ok d -> from_chrono (to_chrono_ns d) = Some d /\
     (exists d', from_chrono (to_chrono_us d) = Some d' /\ dur_ok d' /\
        Z.abs (ns_ d - ns_ d') < 1000 /\ Z.abs (ns_ d') <= Z.abs (ns_ d)) /\
     (exists d', from_chrono (to_chrono_ms d) = Some d' /\ dur_ok d' /\
        Z.abs (ns_ d - ns_ d') < 1000000 /\ Z.abs (ns_ d') <= Z.abs (ns_ d))).
Proof.
  split; [|split].
  - intros d Hd. destruct (quot_rem_bounds (ns_ d) Hd) as (Heq&Hq&Hr&Hpos&Hneg). split.
    + unfold from_timespec, to_timespec. cbn [tv_sec tv_nsec]. rewrite ck_ok by done. rewrite <- Heq.
      unfold dur. rewrite ck_ok by done. by destruct d.
    + unfold ts_valid, is_negative, to_timespec. cbn [tv_sec tv_nsec]. rewrite Z.ltb_ge. split; [|lia].
      intros [? ?]. lia.
  - intros now timeout [Hs Hn] Hd H0 Hnow. unfold cv_deadline, ts_ns, count_ns, dur_ok in *.
    rewrite ck_ok by (unfold in_s in *; lia). rewrite ck_ok by done.
    destruct (ck (tv_sec now * 1000000000 + tv_nsec now + ns_ timeout)) as [z|] eqn:E.
    + apply ck_some in E as [-> Hz]. destruct (quot_rem_bounds _ Hz) as (Heq&_&Hr&Hpos&_).
      unfold ts_valid. cbn [tv_sec tv_nsec]. lia.
    + unfold in_s in *. destruct (Z.lt_ge_cases (tv_sec now * 1000000000 + tv_nsec now + ns_ timeout) (2 ^ 63)); [|done].
      rewrite ck_ok in E by (unfold in_s; lia). done.
  - intros d Hd. unfold dur_ok in Hd. split_and!.
    + unfold to_chrono_ns. rewrite (chrono_unit _ 1) by (rewrite ?Z.mul_1_r; done). rewrite Z.mul_1_r. by destruct d.
    + destruct (quot_unit (ns_ d) 1000 ltac:(done) Hd) as (?&?&?). unfold to_chrono_us. rewrite (chrono_unit _ 1000) by done. by eexists.
    + destruct (quot_unit (ns_ d) 1000000 ltac:(done) Hd) as (?&?&?). unfold to_chrono_ms. rewrite (chrono_unit _ 1000000) by done. by eexists.
Qed.

(** ** More facts *)

Lemma diff_abs t1 t2 : in_u 64 t1 -> in_u 64 t2 -> diff t1 t2 = Z.abs (t1 - t2).
Proof.
  unfold in_u, diff. intros. destruct (Z.ltb_spec t2 t1); rewrite wrapu_id by (unfold in_u; lia); lia.
Qed.

Lemma timestamp_of_valid ts : ts_valid ts -> ts_ns ts < 2 ^ 64 -> timestamp_of ts = ts_ns ts.
Proof.
  unfold ts_valid, ts_ns, timestamp_of. intros [? ?] ?.
  rewrite (wrapu_id 64 (tv_sec ts)), (wrapu_id 64 (tv_nsec ts)), (wrapu_id 64 (tv_sec ts * 1000000000)), wrapu_id;
    unfold in_u; lia.
Qed.

(** A literal is the duration of its unit up to 2^63 - 1; past it, the conversion to
    [int64_t] makes it negative. *)
Lemma literal_units v : 0 <= v < 2 ^ 63 ->
  literal_ns v = nanoseconds v /\ literal_us v = microseconds v /\ literal_ms v = milliseconds v /\ literal_s v = seconds v.
Proof.
  intros Hv. unfold literal_ns, literal_us, literal_ms, literal_s. by rewrite wraps_id by (unfold in_s; cbn; lia).
Qed.

(** Making a duration of a count and counting it again. *)
Lemma count_units v d :
  (microseconds v = Some d -> count_us d = v) /\ (milliseconds v = Some d -> count_ms d = v) /\
  (seconds v = Some d -> count_s d = v).
Proof.
  unfold microseconds, milliseconds, seconds, dur, count_us, count_ms, count_s.
  split_and!; intros H; apply fmap_Some in H as (z&[-> _]%ck_some&->); cbn; by rewrite Z.quot_mul.
Qed.

(** A sleep on the EVL backend never lasts longer than asked, and short ones are
    cut to whole microseconds. *)
Lemma evl_sleep_ns_cut now r ns :
  in_u 64 ns -> 0 < ns <= 1000000000 ->
  exists us, us * 1000 <= ns < us * 1000 + 1000 /\
    (evl_sleep_ns now r ns = Usleep us \/
     evl_sleep_ns now r ns = UsleepThenNanosleep us (mkTs (ns / 1000000000) (ns mod 1000000000))).
Proof.
  intros Hu Hn. exists (ns / 1000). split; [Z.to_euclidean_division_equations; lia|]. unfold evl_sleep_ns.
  destruct (Z.eqb_spec ns 0); [lia|]. destruct (Z.leb_spec ns 1000000000); [|lia].
  rewrite wrapu_id by (unfold in_u; Z.to_euclidean_division_equations; lia). destruct (_ && _); auto.
Qed.

End Time.
