(* ===== verification/Mailbox.v ===== *)
(** * Mailbox

    Models include/corerat/ipc/mailbox.hpp and mailbox_config.hpp: the typed
    mailbox on top of a backend.  What [Mailbox] uses of a backend is the class
    [IpcBackend], what it may rely on [IpcBackendSpec]; TimsMailbox.v implements
    it below, with the kernel's answers in the state. *)

From Stdlib Require Import ZArith Lia.
From stdpp Require Import base list numbers sorting strings.
From S2P Require Import Prelude Protocol TcpSocket IpcTypes TimsMailbox EvlMailbox MessageId MessageRegistry.

#[local] Open Scope Z_scope.

Import Msg MsgReg.

(** ** The interface of a backend *)

Class IpcBackend (B : Type) := {
  be_ready : B -> bool;                                   (* is_initialized *)
  be_initialize : state B IpcResult;
  be_shutdown : state B unit;
  be_send_raw : bytes -> Z -> state B IpcResult;
  be_receive : Z -> Z -> state B (Z * bytes * option TimsMetadata)
}.

(** A positive answer is the number of bytes received; they fit the buffer, and
    if they are a message they come with metadata. *)
Class IpcBackendSpec (B : Type) `{IpcBackend B} := {
  be_receive_fits size timeout b n bs meta b' :
    0 <= size -> be_receive size timeout b = ((n, bs, meta), b') -> 0 < n ->
    n = zlen bs /\ n <= size /\ (sizeof_WireHeader <= n -> is_Some meta)
}.

Module Mbx.

(** ** mailbox_config.hpp *)

Inductive MailboxError :=
  | NotInitialized | InvalidMessage | Timeout | QueueFull | QueueEmpty | SerializationError
  | NetworkError | InvalidDestination | AlreadyRunning | NotRunning.

(** [to_string]. *)
Definition error_string (e : MailboxError) : string :=
  match e with
  | NotInitialized => "Mailbox not initialized"
  | InvalidMessage => "Invalid message"
  | Timeout => "Operation timed out"
  | QueueFull => "Message queue is full"
  | QueueEmpty => "Message queue is empty"
  | SerializationError => "Serialization failed"
  | NetworkError => "Network error"
  | InvalidDestination => "Invalid destination mailbox"
  | AlreadyRunning => "Mailbox is already running"
  | NotRunning => "Mailbox is not running"
  end.

(** [MailboxResult<void>]: [None] is success. *)
Definition MailboxResult : Type := option MailboxError.

(** [MailboxResult<T>]; dereferencing an empty optional is undefined. *)
Record ValueResult (T : Type) := mkResult { value_ : option T; error_ : option MailboxError }.
#[global] Arguments mkResult {T}.
#[global] Arguments value_ {T}.
#[global] Arguments error_ {T}.

Definition of_value {T} (value : T) : ValueResult T := mkResult (Some value) None.
Definition of_error {T} (error : MailboxError) : ValueResult T := mkResult None (Some error).
Definition has_value {T} (r : ValueResult T) : bool := bool_decide (is_Some (value_ r)).
Definition result_value {T} (r : ValueResult T) : option T := value_ r.
Definition result_error {T} (r : ValueResult T) : option MailboxError := error_ r.

Record MailboxConfig := mkMC {
  mc_mailbox_id : Z;
  message_slots : Z;
  max_message_size : Z;
  send_priority : Z;
  mc_realtime : bool;
  cross_process : bool;
  network : bool;
  mc_local_system_id : Z;
  network_routes : list EvlBox.Route;       (* std::array<NetworkRoute, 8> *)
  network_route_count : Z;
  mc_max_remote_handles : Z
}.

(** ** Configuration of the backend *)

(** The digits of [v], the last one first, as [digits[pos++]] gets them. *)
Fixpoint digits_loop (fuel : nat) (v : Z) : bytes :=
  match fuel with
  | O => []
  | S fuel => if v <=? 0 then [] else (48 + v mod 10) :: digits_loop fuel (v / 10)
  end.

Definition digits (v : Z) : bytes := if v =? 0 then [48] else digits_loop 32 v.

Definition mailbox_prefix : bytes := [109; 97; 105; 108; 98; 111; 120; 95].   (* "mailbox_" *)

Definition create_backend_config (config : MailboxConfig) : IpcConfig :=
  mkConfig (mailbox_prefix ++ rev (digits (mc_mailbox_id config))) (mc_mailbox_id config)
    (max_message_size config) (send_priority config) (mc_realtime config) (mc_max_remote_handles config).

Definition backend_mode (config : MailboxConfig) : EvlBox.Mode :=
  if network config then EvlBox.Network else if cross_process config then EvlBox.Public else EvlBox.Local.

(** [strncpy] into [ip[16]] of a C string. *)
Definition copy_route (r : EvlBox.Route) : EvlBox.Route := EvlBox.mkRoute (EvlBox.rt_system_id r) (take 15 (EvlBox.rt_ip r)).

Definition create_network_config (config : MailboxConfig) : EvlBox.EvlNetworkConfig :=
  let count := Z.min (network_route_count config) EvlBox.kMaxRoutes in
  EvlBox.mkNet (mc_local_system_id config)
    (map copy_route (take (Z.to_nat count) (network_routes config))
     ++ replicate (Z.to_nat (EvlBox.kMaxRoutes - count)) (EvlBox.mkRoute 0 [])) count.

(** ** The mailbox *)

Section mailbox.
Context {B : Type} `{IpcBackend B}.

Record Mailbox := mkMailbox { config_ : MailboxConfig; tims_ : B; running_ : bool }.

Definition new_mailbox (config : MailboxConfig) (backend : IpcConfig -> B) : Mailbox :=
  mkMailbox config (backend (create_backend_config config)) false.

(** A call on [tims_]. *)
Definition on_tims {A} (f : state B A) : state Mailbox A :=
  fun m => let '(a, b) := f (tims_ m) in (a, mkMailbox (config_ m) b (running_ m)).

Definition set_running (r : bool) : state Mailbox unit := modify (fun m => mkMailbox (config_ m) (tims_ m) r).

Definition start : state Mailbox MailboxResult :=
  m ← get_state;
  if running_ m then mret (Some AlreadyRunning)
  else
    r ← on_tims be_initialize;
    if decide (r = SUCCESS) then _ ← set_running true; mret None
    else mret (Some NotInitialized).

Definition stop : state Mailbox unit :=
  m ← get_state;
  if running_ m then _ ← set_running false; on_tims be_shutdown else mret tt.

(** The move constructor, as far as it goes beyond moving the backend. *)
Definition moved_from (m : Mailbox) : Mailbox := mkMailbox (config_ m) (tims_ m) false.

Section typed.
Context {P : Type} `{EqDecision P} {V : Type}.
Context (defs : list (MessageDefinition P)).
Context (ser : P -> @WireMessage V -> bytes) (des : P -> bytes -> option (@WireMessage V)).
Context (max_buffer_size : P -> Z) (max_message_size : Z).

(** [corerat::serialize] of wire_message.hpp for a type without [message_type]. *)
Definition serialize_wire (t : P) (m : @WireMessage V) : bytes * @WireMessage V :=
  let result := ser t m in
  let h := header m in
  (result, mkWM (mkHeader (msg_type h) (u32 (zlen result)) (timestamp h) (seq_number h) (dest h) (src h) (flags h))
             (payload m)).

(** [send<T>] of the backends. *)
Definition backend_send (t : P) (m : @WireMessage V) (to : Z) : state B (IpcResult * @WireMessage V) :=
  b ← get_state;
  if negb (be_ready b) then mret (ERROR_NOT_INIT, m)
  else
    let '(bs, m) := serialize_wire t m in
    r ← be_send_raw bs to;
    mret (r, m).

(** [send]: the result and the message as it is left; [None] does not compile. *)
Definition send (t : P) (m : @WireMessage V) (to : Z) : option (state Mailbox (MailboxResult * @WireMessage V)) :=
  match serialize ser t m defs with
  | None => None
  | Some (_, m1) => Some (
      mb ← get_state;
      if negb (running_ mb) then mret (Some NotRunning, m)
      else if to =? 0 then mret (Some InvalidDestination, m)
      else
        res ← on_tims (backend_send t m1 to);
        let '(r, m2) := res in
        if decide (r = SUCCESS) then mret (None, m2) else mret (Some NetworkError, m2))
  end.

(** [send_reply]: [garbage] is the header of the message that is not
    initialised, [now] is [Time::now()]. *)
Definition send_reply (request : P) (h : WireHeader) (reply : V) (garbage : WireHeader) (now : Z)
    : option (state Mailbox MailboxResult) :=
  match get_reply_payload request defs with
  | None => None
  | Some t =>
      if negb (is_request_payload request defs) || negb (is_registered t defs) then None
      else Some (
        mb ← get_state;
        let message := mkWM (mkHeader (msg_type garbage) (msg_size garbage) now (seq_number garbage) (src h)
                               (mc_mailbox_id (config_ mb)) (flags garbage)) reply in
        match send t message (src h) with
        | Some s => res ← s; mret (fst res)
        | None => mret (Some InvalidMessage)        (* not reached: the type is registered *)
        end)
  end.

(** The header fields that [receive] takes from the backend's metadata. *)
Definition with_metadata (meta : option TimsMetadata) (m : @WireMessage V) : @WireMessage V :=
  let md := default (mkMeta 0 0 0 0 0) meta in
  let h := header m in
  mkWM (mkHeader (msg_type h) (msg_size h) (timestamp h) (seq_number h) (m_dest md) (m_src md) (flags h)) (payload m).

(** [receive]: the message, if one was received. *)
Definition receive (t : P) (timeout_ns : Z) : state Mailbox (option (@WireMessage V)) :=
  mb ← get_state;
  if negb (running_ mb) then mret None
  else
    res ← on_tims (be_receive (max_buffer_size t) timeout_ns);
    let '(n, bs, meta) := res in
    if n <=? 0 then mret None
    else mret (with_metadata meta <$> des t bs).

Definition try_receive (t : P) : state Mailbox (option (@WireMessage V)) := receive t 0.

Section visitor.
Context {S : Type} (visitor : P -> @WireMessage V -> S -> S).

(** [receive_any_for]; the visitor updates a state of its own. *)
Definition receive_any_for (timeout_ns : Z) (s : S) : state Mailbox (MailboxResult * S) :=
  mb ← get_state;
  if negb (running_ mb) then mret (Some NotRunning, s)
  else
    res ← on_tims (be_receive max_message_size timeout_ns);
    let '(n, bs, meta) := res in
    if n <=? 0 then
      if negb (0 <? timeout_ns) || (n =? -1) then mret (Some Timeout, s) else mret (Some NetworkError, s)
    else if n <? sizeof_WireHeader then mret (Some InvalidMessage, s)
    else
      let '(ok, s) := visit des (msg_type (read_header bs)) bs (fun t m => visitor t (with_metadata meta m)) defs s in
      mret (if (ok : bool) then None else Some InvalidMessage, s).

Definition receive_any (s : S) : state Mailbox (MailboxResult * S) := receive_any_for 1000000000 s.
End visitor.

(** [clean]; [None]: out of fuel. *)
Fixpoint drain_loop (fuel : nat) (b : B) : option B :=
  match fuel with
  | O => None
  | Datatypes.S fuel =>
      let '((n, _, _), b) := be_receive max_message_size 10000000 b in
      if 0 <? n then drain_loop fuel b else Some b
  end.

Definition clean (fuel : nat) (mb : Mailbox) : option (MailboxResult * Mailbox) :=
  if negb (running_ mb) then Some (Some NotRunning, mb)
  else match drain_loop fuel (tims_ mb) with
  | Some b => Some (None, mkMailbox (config_ mb) b (running_ mb))
  | None => None
  end.
End typed.
End mailbox.

(** ** Facts *)

(** Whatever a result was made from, exactly one access is defined, the one that
    [has_value] tells. *)
Lemma result_access {T} (r : ValueResult T) :
  (exists v, r = of_value v) \/ (exists e, r = of_error e) ->
  if has_value r then is_Some (result_value r) /\ result_error r = None
  else result_value r = None /\ is_Some (result_error r).
Proof. intros [[v ->]|[e ->]]; cbn; eauto. Qed.

Lemma error_string_inj e e' : error_string e = error_string e' -> e = e'.
Proof. by destruct e, e'. Qed.

Section facts.
Context {P : Type} `{EqDecision P} {V S : Type}.
Context (defs : list (MessageDefinition P)).
Context (ser : P -> @WireMessage V -> bytes) (des : P -> bytes -> option (@WireMessage V)).

(** What the code relies on from the serialisation library: a message comes back,
    its bytes start with the header, and the header does not change their number. *)
Record codec_laws : Prop := {
  codec_back t m : header_ok (header m) -> des t (ser t m) = Some m;
  codec_header t m : header_ok (header m) -> read_header (ser t m) = header m;
  codec_length t m m' : payload m = payload m' -> zlen (ser t m) = zlen (ser t m');
  codec_size t m : 32 <= zlen (ser t m) < 2 ^ 32
}.

End facts.

(** The digits are those of the number, and there is room for them. *)
Lemma digits_loop_spec fuel v :
  0 <= v < 10 ^ Z.of_nat fuel ->
  fold_right (fun d acc => d - 48 + 10 * acc) 0 (digits_loop fuel v) = v /\
  Forall (fun d => 48 <= d <= 57) (digits_loop fuel v) /\
  (forall n, v < 10 ^ Z.of_nat n -> (length (digits_loop fuel v) <= n)%nat).
Proof.
  revert v. induction fuel as [|fuel IH]; cbn [digits_loop]; intros v Hv.
  - change (10 ^ Z.of_nat 0) with 1 in Hv. split_and!; [cbn; lia|constructor|cbn; lia].
  - destruct (Z.leb_spec v 0).
    + split_and!; [cbn; lia|constructor|cbn; lia].
    + assert (10 ^ Z.of_nat (S fuel) = 10 * 10 ^ Z.of_nat fuel) as Hp by (rewrite Nat2Z.inj_succ, Z.pow_succ_r; lia).
      destruct (IH (v / 10)) as (H1&H2&H3); [Z.to_euclidean_division_equations; lia|]. split_and!.
      * cbn. rewrite H1. Z.to_euclidean_division_equations. lia.
      * constructor; [|done]. Z.to_euclidean_division_equations. lia.
      * intros [|n] Hn; [change (10 ^ Z.of_nat 0) with 1 in Hn; lia|]. cbn. apply le_n_S, H3.
        rewrite Nat2Z.inj_succ, Z.pow_succ_r in Hn by lia. Z.to_euclidean_division_equations. lia.
Qed.

Lemma digits_value v : in_u 32 v ->
  fold_right (fun d acc => d - 48 + 10 * acc) 0 (digits v) = v /\
  Forall (fun d => 48 <= d <= 57) (digits v) /\ (1 <= length (digits v) <= 10)%nat.
Proof.
  intros [H0 H32]. unfold digits. destruct (Z.eqb_spec v 0) as [->|].
  - split_and!; [done|by_compute|cbn; lia|cbn; lia].
  - destruct (digits_loop_spec 32 v) as (H1&H2&H3); [lia|]. split_and!; [done|done| |apply H3; lia].
    destruct (digits_loop 32 v); [cbn in H1; lia|cbn; lia].
Qed.

(** A typed message arrives: what [send] hands to the backend, received
    whole by a running mailbox with the same registry, makes [receive_any_for]
    call the visitor once with the payload that was sent, under its type, with
    the size of the message in the header and source and destination from the
    backend.  (The size is right because [send] serialises twice.) *)
Lemma mailbox_roundtrip {B B'} `{IpcBackend B, IpcBackendSpec B'} {P} `{EqDecision P} {V S}
    (defs : list (MessageDefinition P)) ser des (t : P) (m : @WireMessage V) to (a : @Mailbox B) :
  codec_laws ser des -> ascending [] defs = true -> is_registered t defs = true -> header_ok (header m) ->
  running_ a = true -> be_ready (tims_ a) = true -> to <> 0 ->
  exists f bs h, send defs ser t m to = Some f /\
    ((be_send_raw bs to (tims_ a)).1 = SUCCESS ->
       (f a).1 = (None, mkWM h (payload m)) /\ tims_ (f a).2 = (be_send_raw bs to (tims_ a)).2) /\
    msg_size h = zlen bs /\ get_message_id t defs = Some (msg_type h) /\ zlen bs = zlen (ser t m) /\
    timestamp h = timestamp (header m) /\ seq_number h = seq_number (header m) /\ flags h = flags (header m) /\
    dest h = dest (header m) /\ src h = src (header m) /\ read_header bs = h /\
    forall (r : @Mailbox B') (visitor : P -> @WireMessage V -> S -> S) max timeout s n meta b',
      running_ r = true -> 0 <= max -> 0 < n ->
      be_receive max timeout (tims_ r) = ((n, bs, meta), b') ->
      n = zlen bs /\ exists md, meta = Some md /\
      receive_any_for defs des max visitor timeout s r
      = ((None, visitor t (mkWM (mkHeader (msg_type h) (msg_size h) (timestamp h) (seq_number h) (m_dest md) (m_src md)
                                   (flags h)) (payload m)) s), mkMailbox (config_ r) b' true).
Proof.
  intros [Hback Hhead Hlen Hsize] Hasc Hreg Hok Ha Hready Hto.
  destruct (registered_found t defs Hreg) as (d&Hd&<-). pose proof (find_message_def_in _ _ _ Hd) as [Hin _].
  pose proof (def_id_range d (tuple_range defs d Hasc Hin)) as Hid.
  unfold send, serialize, get_message_id. rewrite Hd. cbn [fmap option_fmap option_map].
  set (m1 := mkWM (mkHeader _ (u32 _) _ _ _ _ _) _).
  set (t := d_payload d) in *. set (bs := ser t m1). assert (zlen bs = zlen (ser t m)) as Hbs by by apply Hlen.
  assert (u32 (zlen bs) = zlen bs) as Hu by (apply wrapu_id; specialize (Hsize t m1); unfold in_u; fold bs in Hsize; lia).
  assert (msg_size (header m1) = zlen bs) as Hms.
  { unfold m1. cbn [header msg_size]. rewrite <- Hu. f_equal. by apply Hlen. }
  assert (header_ok (header m1)) as Hok1.
  { destruct Hok as (_&_&?). split_and!; try done; try (by destruct_and!). rewrite Hms, <- Hu. by apply (wrapu_range 32). }
  eexists _, bs, (header m1). split; [done|]. split; [|do 8 (split; [done|])].
  - intros Hsend. unfold mbind, state_bind, get_state, mret, state_ret, on_tims, backend_send, serialize_wire.
    rewrite Ha. cbn [negb]. destruct (Z.eqb_spec to 0); [done|].
    unfold mbind, state_bind, get_state, mret, state_ret. rewrite Hready. cbn [negb]. fold bs.
    destruct (be_send_raw bs to (tims_ a)) as [res b1] eqn:E. cbn in Hsend. subst res. cbn.
    destruct (decide (SUCCESS = SUCCESS)); [|done]. cbn. split; [|done]. do 3 f_equal. by rewrite Hu, <- Hms.
  - split; [by apply Hhead|]. intros r visitor max timeout s n meta b' Hr Hmax Hn Hrecv.
    destruct (be_receive_fits _ _ _ _ _ _ _ Hmax Hrecv Hn) as (->&_&Hmd).
    destruct Hmd as [md ->]; [specialize (Hsize t m1); unfold sizeof_WireHeader; fold bs in Hsize; lia|]. split; [done|]. exists md. split; [done|].
    unfold receive_any_for, mbind, state_bind, get_state, mret, state_ret, on_tims. rewrite Hr. cbn [negb]. rewrite Hrecv.
    destruct (Z.leb_spec (zlen bs) 0); [lia|].
    destruct (Z.ltb_spec (zlen bs) sizeof_WireHeader) as [Hlt|]; [specialize (Hsize t m1); unfold sizeof_WireHeader in Hlt; fold bs in Hsize; lia|].
    unfold bs. rewrite Hhead by done. unfold m1 at 1. cbn [header msg_type].
    erewrite (visit_found des defs d m1); [by rewrite Hr|done|exact Hd|by apply Hback].
Qed.

(** ** TimsMailbox as a backend *)

Section tims.
Context (swap : bytes -> bytes).

(** The object with what the kernel will answer: the stream of the next
    [connect], and the polls. *)
Record TimsBackend := mkTB {
  tb_mailbox : TimsMailbox;
  tb_connect : option TcpSocket;
  tb_poll : nat -> Z -> Z
}.

Definition on_mailbox {A} (f : TimsBackend -> state TimsMailbox A) : state TimsBackend A :=
  fun tb => let '(a, t) := f tb (tb_mailbox tb) in (a, mkTB t (tb_connect tb) (tb_poll tb)).

#[local] Instance tims_backend : IpcBackend TimsBackend := {
  be_ready tb := TimsMailbox.is_initialized_ (tb_mailbox tb);
  be_initialize := on_mailbox (fun tb => TimsMailbox.initialize (tb_connect tb));
  be_shutdown := on_mailbox (fun _ => TimsMailbox.shutdown);
  be_send_raw bs to := on_mailbox (fun _ => TimsMailbox.send_raw (Some bs) to);
  be_receive size timeout := on_mailbox (fun tb => TimsMailbox.receive_raw swap (tb_poll tb) size timeout)
}.

Lemma sock_recv_length (len : Z) t body t' :
  0 <= len -> sock_recv len t = (Some body, t') -> zlen body = len.
Proof.
  intros Hlen. unfold sock_recv. destruct (recv_all_spec (socket_ t) (Z.to_nat len)) as (k&(_&_&Hk&_)&Hle&Hbs&Hok&_).
  rewrite Z2Nat.id in * by done. destruct (recv_all (socket_ t) len) as [[ok bs] s]. cbn in *. subst bs.
  destruct ok; [|done]. symmetry in Hok. apply bool_decide_eq_true in Hok. intros [= <- _].
  unfold zlen. rewrite length_take. lia.
Qed.

Lemma convert_header_length fl body :
  (forall bs, length (swap bs) = length bs) -> zlen (convert_header swap fl body) = zlen body.
Proof.
  intros Hswap. unfold convert_header, zlen. destruct (sizeof_WireHeader <=? Z.of_nat (length body)); [|done].
  destruct (_ =? 0); [|done]. rewrite length_app, Hswap, <- length_app. by rewrite take_drop.
Qed.

Lemma receive_loop_fits fuel poll size ms t n bs meta t' :
  (forall bs, length (swap bs) = length bs) ->
  receive_loop swap fuel poll size ms t = Some ((n, bs, meta), t') -> 0 < n ->
  n = zlen bs /\ n <= size /\ is_Some meta.
Proof.
  intros Hswap. revert t. induction fuel as [|fuel IH]; intros t; [done|]. cbn [receive_loop].
  destruct (_ <=? 0); [intros [= <- _ _ _]; unfold ETIMEDOUT; lia|].
  destruct (sock_recv sizeof_FrameHeader t) as [[hdr|] t1]; [|intros [= <- _ _ _]; lia].
  destruct (_ =? _); [destruct (sock_send _ t1); apply IH|].
  destruct (Z.leb_spec (f_msglen (decode_frame hdr)) sizeof_FrameHeader); [apply IH|].
  destruct (Z.ltb_spec size (f_msglen (decode_frame hdr) - sizeof_FrameHeader));
    [intros [= <- _ _ _]; unfold EMSGSIZE; lia|].
  destruct (sock_recv _ t1) as [[body|] t2] eqn:E; [|intros [= <- _ _ _]; lia].
  apply sock_recv_length in E; [|lia]. intros [= <- <- <- _] _. rewrite convert_header_length by done.
  split_and!; [done|done|by eexists].
Qed.

(** [TimsMailbox] keeps what the interface promises, if the byte swap keeps the length. *)
#[local] Instance tims_backend_spec (Hswap : forall bs, length (swap bs) = length bs) : IpcBackendSpec TimsBackend.
Proof.
  split. intros size timeout tb n bs meta tb' _. cbn [be_receive tims_backend]. unfold on_mailbox, TimsMailbox.receive_raw.
  destruct (negb _ || negb _); [intros [= <- _ _ _]; lia|].
  destruct (receive_loop _ _ _ _ _ _) as [[[[n1 bs1] meta1] t1]|] eqn:E; cbn [default];
    [|intros [= <- _ _ _]; lia].
  intros [= <- <- <- _] Hn. by destruct (receive_loop_fits _ _ _ _ _ _ _ _ _ Hswap E Hn) as (?&?&?).
Qed.

(** How [receive_any] of a TiMS mailbox reports errors: that nothing arrived
    within a positive timeout is [NetworkError], and [Timeout] only for a call
    that does not wait; and that the router closed the connection, or the mailbox
    was never connected, is [Timeout], whatever the timeout. *)
Theorem timeout_and_error_swapped {P} `{EqDecision P} {V S} (defs : list (MessageDefinition P)) des max
    (visitor : P -> @WireMessage V -> S -> S) timeout s (mb : @Mailbox TimsBackend) :
  let t := tb_mailbox (tims_ mb) in
  running_ mb = true ->
  (TimsMailbox.is_initialized_ t = true -> 0 <= sk_fd (socket_ t) ->
     ((forall n ms, tb_poll (tims_ mb) n ms = 0) ->
      (receive_any_for defs des max visitor timeout s mb).1
      = (if 0 <? timeout then Some NetworkError else Some Timeout, s)) /\
     (sk_rx (socket_ t) = [] -> (forall n ms, tb_poll (tims_ mb) n ms = 1) ->
      (receive_any_for defs des max visitor timeout s mb).1 = (Some Timeout, s))) /\
  (TimsMailbox.is_initialized_ t = false ->
     (receive_any_for defs des max visitor timeout s mb).1 = (Some Timeout, s)).
Proof.
  intros t Hrun.
  assert (forall n bs meta b', be_receive max timeout (tims_ mb) = ((n, bs, meta), b') -> n <= 0 ->
    (receive_any_for defs des max visitor timeout s mb).1
    = (if negb (0 <? timeout) || (n =? -1) then Some Timeout else Some NetworkError, s)) as Hany.
  { intros n bs meta b' Hr Hn. unfold receive_any_for, mbind, state_bind, get_state, mret, state_ret, on_tims.
    rewrite Hrun. cbn [negb]. rewrite Hr. destruct (Z.leb_spec n 0); [|lia]. by destruct (_ || _). }
  assert (forall r, TimsMailbox.receive_raw swap (tb_poll (tims_ mb)) max timeout t = r ->
    be_receive max timeout (tims_ mb) = (r.1, mkTB r.2 (tb_connect (tims_ mb)) (tb_poll (tims_ mb)))) as Hbe.
  { intros r <-. cbn [be_receive tims_backend]. unfold on_mailbox. fold t. by destruct (TimsMailbox.receive_raw _ _ _ _ _). }
  unfold TimsMailbox.receive_raw in Hbe. split.
  - intros Hinit Hfd. assert (sock_is_open (socket_ t) = true) as Hopen by (by apply Z.leb_le).
    rewrite Hinit, Hopen in Hbe. cbn [negb orb] in Hbe. unfold receive_fuel in Hbe. cbn [receive_loop] in Hbe.
    assert (forall answer, poll_in (socket_ t) answer = answer) as Hpi.
    { intros answer. unfold poll_in. destruct (Z.ltb_spec (sk_fd (socket_ t)) 0); [lia|done]. }
    setoid_rewrite Hpi in Hbe. split.
    + intros Hpoll. rewrite Hpoll in Hbe. cbn [Z.leb Z.compare default] in Hbe.
      erewrite Hany; [|exact (Hbe _ eq_refl)|unfold ETIMEDOUT; cbn; lia]. unfold ETIMEDOUT. cbn [Z.eqb Pos.eqb Z.opp].
      rewrite orb_false_r. by destruct (0 <? timeout).
    + intros Hrx Hpoll. rewrite Hpoll in Hbe. cbn [Z.leb Z.compare default] in Hbe.
      destruct (sock_recv sizeof_FrameHeader t) as [hdr t1] eqn:E.
      assert (hdr = None) as ->.
      { destruct (sock_recv_rx 16 t) as (k&_&Hk&Hok). change (Z.of_nat 16) with sizeof_FrameHeader in Hok.
        rewrite E in Hok. cbn in Hok. destruct hdr; [|done]. specialize (Hok ltac:(by eexists)).
        rewrite Hrx in Hk. cbn in Hk. lia. }
      erewrite Hany; [|exact (Hbe _ eq_refl)|cbn; lia]. by rewrite orb_true_r.
  - intros Hinit. rewrite Hinit in Hbe. cbn [negb orb] in Hbe.
    erewrite Hany; [|exact (Hbe _ eq_refl)|cbn; lia]. by rewrite orb_true_r.
Qed.
End tims.

(** ** Witnesses *)

Definition bool_ser (t : nat) (m : @WireMessage bool) : bytes :=
  header_bytes (header m) ++ [if payload m then 1 else 0].
Definition bool_des (t : nat) (bs : bytes) : option (@WireMessage bool) :=
  match drop 32 bs with
  | [b] => Some (mkWM (read_header bs) (b =? 1))
  | _ => None
  end.

Lemma bool_codec : codec_laws bool_ser bool_des.
Proof.
  split; intros t m.
  - intros Hok. unfold bool_des, bool_ser. rewrite drop_length_app by by rewrite length_header_bytes.
    rewrite read_header_bytes by done. by destruct m as [h []].
  - intros Hok. unfold bool_ser. by apply read_header_bytes.
  - intros m' _. unfold bool_ser, zlen. by rewrite !length_app, !length_header_bytes.
  - unfold bool_ser, zlen. rewrite length_app, length_header_bytes. cbn. lia.
Qed.

Lemma id_length (bs : bytes) : length (id bs) = length bs.
Proof. done. Qed.

Definition sample_config : MailboxConfig := mkMC 10 10 4096 10 false false false 0 [] 0 16.

Definition sample_mailbox (answer : Z) : @Mailbox TimsBackend :=
  mkMailbox sample_config
    (mkTB (mkTims (create_backend_config sample_config) (sock_of_fd 3 [] [] []) true 0 0 0) None (fun _ _ => answer)) true.

Lemma mailbox_roundtrip_witness :
  exists f bs h, send (B := TimsBackend) (H := tims_backend id) sample_defs bool_ser 8%nat (mkWM (mkHeader 0 0 5 0 20 10 0) true) 20 = Some f /\
    msg_size h = zlen bs /\
    forall n meta b', 0 < n ->
      be_receive (IpcBackend := tims_backend id) 4096 0 (tims_ (sample_mailbox 1)) = ((n, bs, meta), b') ->
      exists md, meta = Some md /\
      (receive_any_for (H := tims_backend id) sample_defs bool_des 4096 (fun t m _ => Some (t, payload m)) 0 None (sample_mailbox 1)).1
      = (None, Some (8%nat, true)).
Proof.
  destruct (mailbox_roundtrip (H := tims_backend id) (H0 := tims_backend id) (H1 := tims_backend_spec id id_length)
    sample_defs bool_ser bool_des 8%nat (mkWM (mkHeader 0 0 5 0 20 10 0) true) 20 (sample_mailbox 1)
    (S := option (nat * bool)))
    as (f&bs&h&Hf&_&Hsz&_&_&_&_&_&_&_&_&Hrecv).
  - exact bool_codec.
  - vm_compute. reflexivity.
  - vm_compute. reflexivity.
  - by_compute.
  - reflexivity.
  - reflexivity.
  - by_compute.
  - exists f, bs, h. split; [exact Hf|]. split; [exact Hsz|]. intros n meta b' Hn Hr.
    destruct (Hrecv (sample_mailbox 1) (fun t m _ => Some (t, payload m)) 4096 0 None n meta b' eq_refl
      ltac:(lia) Hn Hr) as (_&md&Hmd&->). exists md. split; [exact Hmd|reflexivity].
Defined.

Lemma timeout_and_error_swapped_witness :
  (receive_any_for (H := tims_backend id) sample_defs bool_des 4096 (fun t m _ => Some (t, payload m)) 1000000000 None (sample_mailbox 0)).1
  = (Some NetworkError, None) /\
  (receive_any_for (H := tims_backend id) sample_defs bool_des 4096 (fun t m _ => Some (t, payload m)) 1000000000 None (sample_mailbox 1)).1
  = (Some Timeout, None).
Proof.
  split.
  - destruct (timeout_and_error_swapped id sample_defs bool_des 4096 (fun t m _ => Some (t, payload m)) 1000000000 None (sample_mailbox 0) eq_refl)
      as [H _]. destruct (H eq_refl ltac:(vm_compute; discriminate)) as [H1 _]. apply H1. intros n ms. reflexivity.
  - destruct (timeout_and_error_swapped id sample_defs bool_des 4096 (fun t m _ => Some (t, payload m)) 1000000000 None (sample_mailbox 1) eq_refl)
      as [H _]. destruct (H eq_refl ltac:(vm_compute; discriminate)) as [_ H1]. apply H1; [reflexivity|]. intros n ms. reflexivity.
Defined.

End Mbx.
