(* ===== verification/Ownership.v ===== *)
(** * What mailboxes own

    The moves and destructors of [TimsMailbox] (src/tims_backend.cpp) and of
    [Mailbox] (include/corerat/ipc/mailbox.hpp) over the ownership logic of
    Resources.v: a mailbox owns the descriptor of its socket, from [initialize] to
    [shutdown], a move or the destructor; and the theorem about all owners. *)

From Stdlib Require Import ZArith Lia.
From stdpp Require Import base list gmap sets numbers.
From S2P Require Import Prelude Protocol TcpSocket IpcTypes Resources PlatformFile PlatformThread TimsMailbox MessageId MessageRegistry Mailbox.

#[local] Open Scope Z_scope.

(** ** TimsMailbox *)

Module TimsOwner.
Implicit Types (t o : TimsMailbox).

(** A member of TimsMailbox.v on the kernel: if it closes the socket, the
    descriptor is closed. *)
Definition on_kernel {A} (f : state TimsMailbox A) (t : TimsMailbox) : state Kernel (A * TimsMailbox) :=
  if sock_is_open (socket_ t) && negb (sock_is_open (socket_ (f t).2))
  then _ ← sys_release (sk_fd (socket_ t)); mret (f t)
  else mret (f t).

(** [socket_.connect] on the kernel, then the handshake. *)
Definition initialize (a : SockFd.ConnectArgs) (t : TimsMailbox) : state Kernel (IpcResult * TimsMailbox) :=
  if TimsMailbox.is_initialized_ t then mret (SUCCESS, t)
  else
    conn ← SockFd.connect a (socket_ t);
    let t := set_socket conn.2 t in
    if (conn.1 : bool) then on_kernel (TimsMailbox.initialize (Some conn.2)) t else mret (ERROR_INIT, t).

Definition shutdown (t : TimsMailbox) : state Kernel TimsMailbox :=
  r ← on_kernel TimsMailbox.shutdown t; mret r.2.

(** The destructor, with that of [socket_]. *)
Definition destroy (t : TimsMailbox) : state Kernel TimsMailbox :=
  t ← shutdown t;
  s ← SockFd.close (socket_ t);
  mret (set_socket s t).

Definition move_construct (o : TimsMailbox) : TimsMailbox * TimsMailbox :=
  let '(s, s') := SockFd.move_construct (socket_ o) in
  (set_socket s o, set_initialized false (set_socket s' o)).

(** [operator=] where the objects differ. *)
Definition move_assign (t o : TimsMailbox) : state Kernel (TimsMailbox * TimsMailbox) :=
  t ← shutdown t;
  ss ← SockFd.move_assign (socket_ t) (socket_ o);
  mret (set_socket ss.1 o, set_initialized false (set_socket ss.2 o)).

Inductive call := Initialize (a : SockFd.ConnectArgs) | Shutdown.

Definition run_call (c : call) (t : TimsMailbox) : state Kernel (bool * TimsMailbox) :=
  match c with
  | Initialize a => r ← initialize a t; mret (bool_decide (r.1 = SUCCESS), r.2)
  | Shutdown => t ← shutdown t; mret (true, t)
  end.

(** What the object owns. *)
Definition socket_held (t : TimsMailbox) : list nat := held (sk_fd (socket_ t)).

(** The members keep the descriptor or close it. *)
Definition keeps_or_closes {A} (f : state TimsMailbox A) (t : TimsMailbox) : Prop :=
  sk_fd (socket_ (f t).2) = sk_fd (socket_ t) \/ sk_fd (socket_ (f t).2) < 0.

Lemma on_kernel_keeps {A} (f : state TimsMailbox A) t :
  keeps_or_closes f t -> keeps (socket_held t) (on_kernel f t) (fun r => socket_held r.2).
Proof.
  unfold on_kernel, keeps_or_closes, socket_held, sock_is_open. intros Hf. apply keeps_if; intros E.
  - apply andb_true_iff in E as [_ Hn%negb_true_iff%Z.leb_gt].
    eapply keeps_bind; [apply keeps_release_held|]. intros ?. apply keeps_ret. by rewrite held_neg.
  - apply keeps_ret. destruct Hf as [->|Hneg]; [done|].
    apply andb_false_iff in E as [Hc%Z.leb_gt|Ho%negb_false_iff%Z.leb_le]; [|lia].
    by rewrite !held_neg by lia.
Qed.

Lemma sock_close_neg s : sk_fd (sock_close s) < 0.
Proof. unfold sock_close. destruct (Z.leb_spec 0 (sk_fd s)); cbn; lia. Qed.

Lemma shutdown_keeps_or_closes t : keeps_or_closes TimsMailbox.shutdown t.
Proof.
  unfold keeps_or_closes, TimsMailbox.shutdown, modify. cbn.
  destruct (TimsMailbox.is_initialized_ t); [right; apply sock_close_neg|by left].
Qed.

Lemma initialize_keeps_or_closes s t :
  socket_ t = s -> TimsMailbox.is_initialized_ t = false -> keeps_or_closes (TimsMailbox.initialize (Some s)) t.
Proof.
  intros Hs Hi. unfold keeps_or_closes, TimsMailbox.initialize. rewrite bind_eq. cbn [get_state fst snd].
  rewrite Hi, bind_eq. cbn [modify fst snd].
  assert (forall bs t, sk_fd (socket_ (sock_send bs t).2) = sk_fd (socket_ t)) as Hsend.
  { intros bs t0. unfold sock_send. pose proof (send_all_fd (socket_ t0) bs). by destruct (send_all _ _). }
  assert (forall t, sk_fd (socket_ (fail_init t).2) < 0) as Hfail.
  { intros t0. unfold fail_init. rewrite bind_eq. apply sock_close_neg. }
  rewrite bind_eq. destruct (negb _); [by right|]. rewrite bind_eq. destruct (negb _); [by right|].
  rewrite bind_eq. set (t1 := (sock_send _ (sock_send _ _).2).2).
  assert (sk_fd (socket_ (sock_recv sizeof_FrameHeader t1).2) = sk_fd (socket_ t1)) as Hrecv.
  { unfold sock_recv. destruct (recv_all_spec (socket_ t1) 16) as (k&Hr&_). change (Z.of_nat 16) with sizeof_FrameHeader in Hr.
    destruct (recv_all _ _) as [[ok bs] s1]. apply Hr. }
  destruct (sock_recv _ _).1; [|by right]. destruct (_ =? _); [|by right]. left. rewrite bind_eq. cbn.
  rewrite Hrecv. unfold t1. rewrite !Hsend. cbn. by rewrite Hs.
Qed.

Lemma tims_shutdown_keeps t : keeps (socket_held t) (shutdown t) socket_held.
Proof.
  eapply keeps_bind; [apply on_kernel_keeps, shutdown_keeps_or_closes|]. intros r. by apply keeps_ret.
Qed.

Lemma tims_initialize_keeps a t : keeps (socket_held t) (initialize a t) (fun r => socket_held r.2).
Proof.
  unfold initialize. apply keeps_if; intros Ei; [by apply keeps_ret|].
  eapply keeps_bind; [apply SockFd.connect_keeps|]. intros [ok s]. cbn [fst snd].
  apply keeps_if; intros _; [|by apply keeps_ret].
  apply (on_kernel_keeps _ (set_socket s t)). by apply initialize_keeps_or_closes.
Qed.

Lemma tims_destroy_keeps t : keeps (socket_held t) (destroy t) (fun _ => []).
Proof.
  eapply keeps_bind; [apply tims_shutdown_keeps|]. intros t1.
  eapply keeps_bind; [apply SockFd.close_keeps_nil|]. intros s. by apply keeps_ret.
Qed.

Lemma destroy_holds t k : socket_held (destroy t k).1 = [].
Proof. unfold destroy. rewrite !bind_eq. cbn. apply SockFd.close_releases. Qed.

Lemma move_assign_keeps t o :
  keeps (socket_held t ++ socket_held o) (move_assign t o) (fun r => socket_held r.1 ++ socket_held r.2).
Proof.
  eapply keeps_bind; [apply keeps_frame, tims_shutdown_keeps|]. intros t1.
  eapply keeps_bind; [apply (SockFd.socket_owner_spec.(move_to_keeps) (socket_ t1) (socket_ o))|].
  intros ss. by apply keeps_ret.
Qed.

#[global] Instance tims_owner (config : IpcConfig) : Owner TimsMailbox call := {
  holds := socket_held;
  new_object := TimsMailbox.new_mailbox config;
  acquire := run_call;
  release := destroy;
  move_from := move_construct;
  move_to := move_assign
}.

#[global] Instance tims_owner_spec config : @OwnerSpec TimsMailbox call (tims_owner config).
Proof.
  split; cbn -[held socket_held].
  - done.
  - intros [a|] t.
    + eapply keeps_bind; [apply tims_initialize_keeps|]. intros r. by apply keeps_ret.
    + eapply keeps_bind; [apply tims_shutdown_keeps|]. intros r. by apply keeps_ret.
  - apply tims_destroy_keeps.
  - apply destroy_holds.
  - done.
  - apply move_assign_keeps.
  - intros t o k. unfold move_assign. rewrite !bind_eq. unfold SockFd.move_assign. by rewrite bind_eq.
Qed.
End TimsOwner.

(** ** Mailbox *)

Module MailboxOwner.
Import Mbx.

Abbreviation TypedMailbox := (Mbx.Mailbox (B := TimsMailbox)).

Implicit Types (m o : TypedMailbox).

Definition box_held (m : TypedMailbox) : list nat := TimsOwner.socket_held (tims_ m).

Definition start (a : SockFd.ConnectArgs) (m : TypedMailbox) : state Kernel (MailboxResult * TypedMailbox) :=
  if running_ m then mret (Some AlreadyRunning, m)
  else
    r ← TimsOwner.initialize a (tims_ m);
    if decide (r.1 = SUCCESS) then mret (None, mkMailbox (config_ m) r.2 true)
    else mret (Some NotInitialized, mkMailbox (config_ m) r.2 false).

Definition stop (m : TypedMailbox) : state Kernel TypedMailbox :=
  if running_ m then t ← TimsOwner.shutdown (tims_ m); mret (mkMailbox (config_ m) t false) else mret m.

(** The destructor, with that of [tims_]. *)
Definition destroy (m : TypedMailbox) : state Kernel TypedMailbox :=
  m ← stop m;
  t ← TimsOwner.destroy (tims_ m);
  mret (mkMailbox (config_ m) t (running_ m)).

Definition move_construct (o : TypedMailbox) : TypedMailbox * TypedMailbox :=
  let '(t, t') := TimsOwner.move_construct (tims_ o) in
  (mkMailbox (config_ o) t (running_ o), moved_from (mkMailbox (config_ o) t' (running_ o))).

(** [operator=] where the objects differ. *)
Definition move_assign (m o : TypedMailbox) : state Kernel (TypedMailbox * TypedMailbox) :=
  m ← stop m;
  ts ← TimsOwner.move_assign (tims_ m) (tims_ o);
  mret (mkMailbox (config_ o) ts.1 (running_ o), moved_from (mkMailbox (config_ o) ts.2 (running_ o))).

Inductive call := Start (a : SockFd.ConnectArgs) | Stop.

Definition run_call (c : call) (m : TypedMailbox) : state Kernel (bool * TypedMailbox) :=
  match c with
  | Start a => r ← start a m; mret (bool_decide (r.1 = None), r.2)
  | Stop => m ← stop m; mret (true, m)
  end.

Lemma stop_keeps m : keeps (box_held m) (stop m) box_held.
Proof.
  unfold stop. apply keeps_if; intros _; [|by apply keeps_ret].
  eapply keeps_bind; [apply TimsOwner.tims_shutdown_keeps|]. intros t. by apply keeps_ret.
Qed.

Lemma start_keeps a m : keeps (box_held m) (start a m) (fun r => box_held r.2).
Proof.
  unfold start. apply keeps_if; intros _; [by apply keeps_ret|].
  eapply keeps_bind; [apply TimsOwner.tims_initialize_keeps|]. intros r. destruct (decide _); by apply keeps_ret.
Qed.

#[global] Instance mailbox_owner (config : MailboxConfig) : Owner TypedMailbox call := {
  holds := box_held;
  new_object := new_mailbox config TimsMailbox.new_mailbox;
  acquire := run_call;
  release := destroy;
  move_from := move_construct;
  move_to := move_assign
}.

#[global] Instance mailbox_owner_spec config : @OwnerSpec TypedMailbox call (mailbox_owner config).
Proof.
  split; cbn -[held box_held].
  - done.
  - intros [a|] m.
    + eapply keeps_bind; [apply start_keeps|]. intros r. by apply keeps_ret.
    + eapply keeps_bind; [apply stop_keeps|]. intros r. by apply keeps_ret.
  - intros m. eapply keeps_bind; [apply stop_keeps|]. intros m1.
    eapply keeps_bind; [apply TimsOwner.tims_destroy_keeps|]. intros t. by apply keeps_ret.
  - intros m k. unfold destroy. rewrite !bind_eq. apply TimsOwner.destroy_holds.
  - done.
  - intros m o. eapply keeps_bind; [apply keeps_frame, stop_keeps|]. intros m1.
    eapply keeps_bind; [apply TimsOwner.move_assign_keeps|]. intros ts. by apply keeps_ret.
  - intros m o k. unfold move_assign. rewrite !bind_eq.
    apply ((TimsOwner.tims_owner_spec (create_backend_config (config_ m))).(move_to_source)).
Qed.
End MailboxOwner.

(** ** The theorem *)

(** C23. Files of both platforms, sockets, threads of both platforms and mailboxes
    on TiMS release what they acquired, once, in every program that creates,
    opens, starts, moves, assigns (to themselves too), closes, stops, detaches and
    destroys them, whatever the kernel and the router answer; an EVL file has its
    descriptor and its proxy or neither. *)
Theorem resources_released_once
    (EVL_CLONE_PRIVATE EVL_CLONE_INPUT EVL_CLONE_OUTPUT : Z) (evl_create_proxy : Z -> Z -> Z -> Z -> state Kernel Z) :
  (forall fd size granularity flags, keeps [] (evl_create_proxy fd size granularity flags) held) ->
  let evl_files := EvlFile.file_owner EVL_CLONE_PRIVATE EVL_CLONE_INPUT EVL_CLONE_OUTPUT evl_create_proxy in
  sound StdFile.File OpenArgs /\
  @sound EvlFile.File OpenArgs evl_files /\
  sound TcpSocket.TcpSocket SockFd.ConnectArgs /\
  sound StdThread.Thread Threading.thread_call /\
  sound EvlThread.Thread Threading.thread_call /\
  (forall config, @sound TimsMailbox TimsOwner.call (TimsOwner.tims_owner config)) /\
  (forall config, @sound (Mbx.Mailbox (B := TimsMailbox)) MailboxOwner.call (MailboxOwner.mailbox_owner config)) /\
  (forall a f k, EvlFile.file_wf (acquire (Owner := evl_files) a f k).1.2).
Proof.
  intros Hproxy evl_files.
  split; [apply owner_sound, _|]. split; [|split; [apply owner_sound, _|split; [apply owner_sound, _|split_and!]]].
  - eapply owner_sound. by apply EvlFile.file_owner_spec.
  - apply owner_sound, _.
  - intros config. eapply owner_sound, TimsOwner.tims_owner_spec.
  - intros config. eapply owner_sound, MailboxOwner.mailbox_owner_spec.
  - intros a f k. apply EvlFile.open_wf.
Qed.

(** On an EVL kernel: a file is opened, moved to a second object, which then
    fails to open another because there is no proxy for it. *)
Lemma resources_released_once_witness :
  let proxy (_ _ _ _ : Z) := sys_create in
  let files := EvlFile.file_owner 0 1 2 proxy in
  @sound EvlFile.File OpenArgs files /\
  let run es := @pool_run _ _ files es (mkPool (mkKernel ∅ [3; 4; 5; -12] []) ∅) in
  let es := [Construct 1; Construct 2; Acquire 1 (mkOpen 2 0 4096); MoveAssign 2 1] in
  k_open (p_kernel (run es)) = {[3%nat; 4%nat]} /\
  k_open (p_kernel (run (es ++ [Acquire 2 (mkOpen 0 0 4096)]))) = ∅.
Proof.
  intros proxy files. split; [|split; vm_compute; reflexivity].
  apply (resources_released_once 0 1 2 proxy). intros fd size granularity flags. apply keeps_create.
Defined.

