(* ===== verification/EndToEnd.v ===== *)
(** * From mailbox to mailbox

    The composition of the components a message passes: a typed Mailbox
    (Mailbox.v) on a TimsMailbox (TimsMailbox.v), the router daemon
    (TcpRouter.v, TcpDelivery.v), and the typed Mailbox that receives. *)

From Stdlib Require Import ZArith Lia.
From stdpp Require Import base list gmap sets numbers.
From S2P Require Import Prelude Protocol TcpSocket RouterCore TcpRouter TcpDelivery IpcTypes TimsMailbox EvlMailbox MessageId MessageRegistry Mailbox.

#[local] Open Scope Z_scope.

Import Tcp Msg MsgReg Mbx.

Section end_to_end.
Context (swap : bytes -> bytes) (Hswap : forall bs, length (swap bs) = length bs).
Context {P : Type} `{EqDecision P} {V S : Type}.
Context (defs : list (MessageDefinition P)).
Context (ser : P -> @WireMessage V -> bytes) (des : P -> bytes -> option (@WireMessage V)).

#[local] Instance backend : IpcBackend TimsBackend := tims_backend swap.

#[local] Instance backend_spec : IpcBackendSpec TimsBackend := tims_backend_spec swap Hswap.

Implicit Types (a b : @Mailbox TimsBackend) (st : Tcp.TcpRouter) (m : @WireMessage V).

(** The TimsMailbox below a Mailbox, and its socket. *)
Definition below a : TimsMailbox := tb_mailbox (tims_ a).
Definition socket_of a : TcpSocket := socket_ (below a).

(** A started Mailbox whose connection to its router works. *)
Definition connected a : Prop :=
  running_ a = true /\ TimsMailbox.is_initialized_ (below a) = true /\ working (socket_of a).

(** What the receiver's visitor is given for [m]. *)
Definition arrived (t : P) m (src to : Z) (received : @WireMessage V) : Prop :=
  payload received = payload m /\
  get_message_id t defs = Some (msg_type (header received)) /\
  msg_size (header received) = zlen (ser t m) /\
  timestamp (header received) = timestamp (header m) /\
  dest (header received) = to /\ Msg.src (header received) = src.

(** What a message [m] of type [t] is on the wire: the bytes [bs], which start
    with the header [h]. *)
Definition encodes (t : P) m (bs : bytes) (h : WireHeader) : Prop :=
  zlen bs = zlen (ser t m) /\ 0 < zlen bs /\ read_header bs = h /\ msg_size h = zlen bs /\
  get_message_id t defs = Some (msg_type h) /\ timestamp h = timestamp (header m) /\
  dest h = dest (header m) /\ Msg.src h = Msg.src (header m).

(** What [receive_any_for] does with these bytes, from any backend. *)
Definition accepted `{IpcBackend B'} (t : P) m (bs : bytes) : Prop :=
  forall (r : @Mailbox B') (visitor : P -> @WireMessage V -> S -> S) max timeout s n meta tims',
    running_ r = true -> 0 <= max -> 0 < n -> be_receive max timeout (tims_ r) = ((n, bs, meta), tims') ->
    exists md received, meta = Some md /\ arrived t m (m_src md) (m_dest md) received /\
      receive_any_for defs des max visitor timeout s r
      = ((None, visitor t received s), mkMailbox (config_ r) tims' true).

(** [send] on any backend hands these bytes to the backend. *)
Lemma typed_sent `{IpcBackend B, IpcBackendSpec B'} (t : P) m to (a : @Mailbox B) :
  codec_laws ser des -> ascending [] defs = true -> is_registered t defs = true -> header_ok (header m) ->
  running_ a = true -> be_ready (tims_ a) = true -> to <> 0 ->
  exists f bs h, send defs ser t m to = Some f /\ encodes t m bs h /\ accepted (B' := B') t m bs /\
    ((be_send_raw bs to (tims_ a)).1 = SUCCESS ->
       (f a).1.1 = None /\ tims_ (f a).2 = (be_send_raw bs to (tims_ a)).2).
Proof.
  intros Hcodec Hasc Hreg Hok Hrun Hready Hto.
  destruct (mailbox_roundtrip defs ser des t m to a (B' := B') (S := S))
    as (f&bs&h&Hf&Hsent&Hsz&Hty&Hbs&Hts&_&_&Hd&Hs&Hh&Hrecv); auto.
  exists f, bs, h. split; [done|]. split.
  { unfold encodes. rewrite Hbs. pose proof (codec_size _ _ Hcodec t m). split_and!; try done; [lia|congruence]. }
  split.
  - intros r visitor max timeout s n meta tims' Hr Hmax Hn Er.
    destruct (Hrecv r visitor max timeout s n meta tims' Hr Hmax Hn Er) as (_&md&->&Hany).
    eexists md, _. split; [done|]. split; [|exact Hany]. unfold arrived. cbn. split_and!; congruence.
  - intros E. destruct (Hsent E) as [-> ->]. done.
Qed.

(** On a connected TiMS mailbox the bytes leave in one frame. *)
Lemma typed_frame `{IpcBackendSpec B'} (t : P) m to a :
  codec_laws ser des -> ascending [] defs = true -> is_registered t defs = true -> header_ok (header m) ->
  connected a -> zlen (ser t m) <= cfg_max_msg_size (TimsMailbox.config_ (below a)) -> zlen (ser t m) < 2 ^ 32 - 16 ->
  in_u 32 (cfg_mailbox_id (TimsMailbox.config_ (below a))) -> in_u 32 to -> to <> 0 ->
  exists f bs h hdr, send defs ser t m to = Some f /\ (f a).1.1 = None /\
    sk_tx (socket_of (f a).2) = sk_tx (socket_of a) ++ encode_frame hdr ++ bs /\
    encodes t m bs h /\ accepted (B' := B') t m bs /\
    hdr = data_frame (below a) to (zlen bs) /\ wf_frame hdr /\ f_msglen hdr = sizeof_FrameHeader + zlen bs.
Proof.
  intros Hcodec Hasc Hreg Hok (Hrun&Hinit&Hrx&Htx) Hfit Hlen Hid Hto Hto0.
  destruct (typed_sent (B' := B') t m to a) as (f&bs&h&Hf&Henc&Hacc&Hsent); auto.
  pose proof Henc as (Hbs&Hpos&_).
  assert (sendable (below a) bs) as Hsendable.
  { split; [done|]. split; [apply Htx|]. lia. }
  destruct (send_raw_wire (below a) bs to Hsendable Htx) as (a'&Ea&Ha').
  destruct (data_frame_ok (below a) to (zlen bs)) as [Hwf Hml]; [done|done|lia|].
  set (hdr := data_frame (below a) to (zlen bs)) in *.
  assert (be_send_raw bs to (tims_ a) = (SUCCESS, mkTB a' (tb_connect (tims_ a)) (tb_poll (tims_ a)))) as Ebe.
  { cbn [be_send_raw backend tims_backend]. unfold on_mailbox. fold (below a). by rewrite Ea. }
  rewrite Ebe in Hsent. destruct (Hsent eq_refl) as [Ef Ef']. cbn [fst snd] in Ef'.
  exists f, bs, h, hdr. split_and!; try done. unfold socket_of, below. rewrite Ef'. exact Ha'.
Qed.

(** A connected mailbox takes the bytes out of a frame from its router. *)
Lemma typed_received (t : P) m bs hdr (b : @Mailbox TimsBackend) (visitor : P -> @WireMessage V -> S -> S)
    max timeout hdrs rest s :
  accepted (B' := TimsBackend) t m bs -> 0 < zlen bs <= max ->
  wf_frame hdr -> f_msglen hdr = sizeof_FrameHeader + zlen bs -> f_type hdr = 0 -> f_flags hdr = FRAME_LE_FLAG ->
  connected b -> (forall n ms, 0 < tb_poll (tims_ b) n ms) -> Forall skipped hdrs ->
  sk_rx (socket_of b) = concat (map encode_frame hdrs) ++ (encode_frame hdr ++ bs) ++ rest ->
  exists received b',
    arrived t m (f_src hdr) (f_dest hdr) received /\
    receive_any_for defs des max visitor timeout s b = ((None, visitor t received s), b') /\
    sk_rx (socket_of b') = rest /\ connected b'.
Proof.
  intros Hacc Hpos Hwf Hml Hty Hfl (Hrb&Hib&Hwb) Hpolls Hskip Hrxb. rewrite <- app_assoc in Hrxb.
  destruct (receive_raw_first_frame swap (tb_poll (tims_ b)) max timeout (below b) hdrs hdr bs rest)
    as (s'&E&Hw'&Hrest&_); auto; [by rewrite Hty|].
  assert (convert_header swap (f_flags hdr) bs = bs) as Ec.
  { unfold convert_header. rewrite Hfl. by destruct (_ <=? _). }
  rewrite Ec in E.
  destruct (Hacc b visitor max timeout s (zlen bs) (Some (metadata_of hdr))
    (mkTB (count_received (set_socket s' (below b))) (tb_connect (tims_ b)) (tb_poll (tims_ b)))) as (md&received&[= <-]&Harr&Hany); auto; [lia..| |].
  { cbn [be_receive backend tims_backend]. unfold on_mailbox. fold (below b). by rewrite E. }
  exists received. eexists. split; [exact Harr|]. split; [exact Hany|].
  unfold connected, socket_of, below. cbn. done.
Qed.

(** The path of a message, for the theorems here and in Network.v. *)
Lemma typed_path (t : P) m to a :
  codec_laws ser des -> ascending [] defs = true -> is_registered t defs = true -> header_ok (header m) ->
  connected a -> zlen (ser t m) <= cfg_max_msg_size (TimsMailbox.config_ (below a)) -> zlen (ser t m) < 2 ^ 32 - 16 ->
  in_u 32 (cfg_mailbox_id (TimsMailbox.config_ (below a))) -> in_u 32 to -> to <> 0 ->
  exists f wire, send defs ser t m to = Some f /\ (f a).1.1 = None /\
    sk_tx (socket_of (f a).2) = sk_tx (socket_of a) ++ wire /\
    (forall st c con d poll rest,
       receiving st c con -> 0 < poll -> sk_rx (con_socket con) = wire ++ rest ->
       zlen (ser t m) <= r_max_msg_size st -> r_registry st !! to = Some d -> send_ok st d ->
       con_tx (con_run_iter Tcp.handle_frame c false poll st).2 d = con_tx st d ++ wire) /\
    (forall b (visitor : P -> @WireMessage V -> S -> S) max timeout hdrs rest s,
       connected b -> (forall n ms, 0 < tb_poll (tims_ b) n ms) -> Forall skipped hdrs ->
       sk_rx (socket_of b) = concat (map encode_frame hdrs) ++ wire ++ rest -> zlen (ser t m) <= max ->
       exists received b',
         arrived t m (cfg_mailbox_id (TimsMailbox.config_ (below a))) to received /\
         receive_any_for defs des max visitor timeout s b = ((None, visitor t received s), b') /\
         sk_rx (socket_of b') = rest /\ connected b').
Proof.
  intros. destruct (typed_frame (B' := TimsBackend) t m to a)
    as (f&bs&h&hdr&Hf&Hs&Htx&(Hbs&Hpos&_)&Hacc&Ehdr&Hwf&Hml); auto.
  exists f, (encode_frame hdr ++ bs). split; [done|]. split; [done|]. split; [done|]. split.
  - intros st c con d poll rest Hc Hpoll Hrx' Hmax Hd Hsd. rewrite <- app_assoc in Hrx'.
    rewrite (data_frame_tx c d st con hdr bs rest poll) by (subst hdr; done || lia). by rewrite decide_True.
  - intros b visitor max timeout hdrs rest s Hb Hpolls Hskip Hrxb Hmax.
    destruct (typed_received t m bs hdr b visitor max timeout hdrs rest s)
      as (received&b'&Harr&Hrest); auto; [lia|by subst hdr..|].
    exists received, b'. subst hdr. done.
Qed.

(** C1. A typed message from mailbox to mailbox.  [send] of a registered type
    succeeds and puts one frame on the connection to the router; the router's
    iteration that reads this frame, in whatever pieces, writes it to the owner of
    the destination; and [receive_any_for] of the destination, whatever status
    requests come first, calls the visitor once, under the type that was sent,
    with the payload, the timestamp and the size of the message, and the ids of
    sender and receiver. *)
Theorem typed_message_delivered (t : P) m to a :
  codec_laws ser des -> ascending [] defs = true -> is_registered t defs = true -> header_ok (header m) ->
  connected a -> zlen (ser t m) <= cfg_max_msg_size (TimsMailbox.config_ (below a)) -> zlen (ser t m) < 2 ^ 32 - 16 ->
  in_u 32 (cfg_mailbox_id (TimsMailbox.config_ (below a))) -> in_u 32 to -> to <> 0 ->
  exists f wire, send defs ser t m to = Some f /\ (f a).1.1 = None /\
    sk_tx (socket_of (f a).2) = sk_tx (socket_of a) ++ wire /\
    (forall st c con d poll rest,
       receiving st c con -> 0 < poll -> sk_rx (con_socket con) = wire ++ rest ->
       zlen (ser t m) <= r_max_msg_size st -> r_registry st !! to = Some d -> send_ok st d ->
       con_tx (con_run_iter Tcp.handle_frame c false poll st).2 d = con_tx st d ++ wire) /\
    (forall b (visitor : P -> @WireMessage V -> S -> S) max timeout hdrs rest s,
       connected b -> (forall n ms, 0 < tb_poll (tims_ b) n ms) -> Forall skipped hdrs ->
       sk_rx (socket_of b) = concat (map encode_frame hdrs) ++ wire ++ rest -> zlen (ser t m) <= max ->
       exists received b',
         arrived t m (cfg_mailbox_id (TimsMailbox.config_ (below a))) to received /\
         receive_any_for defs des max visitor timeout s b = ((None, visitor t received s), b') /\
         sk_rx (socket_of b') = rest /\ connected b').
Proof. intros. by apply typed_path. Qed.
End end_to_end.

(** ** Witness *)

(** Mailbox [id] of the sample programs, with [rx] to come from its router. *)
Definition sample_node (id : Z) (rx : bytes) : @Mailbox TimsBackend :=
  mkMailbox (mkMC id 10 4096 10 false false false 0 [] 0 16)
    (mkTB (mkTims (create_backend_config (mkMC id 10 4096 10 false false false 0 [] 0 16))
             (sock_of_fd 3 rx [] []) true 0 0 0) None (fun _ _ => 1)) true.

Definition sample_message : @WireMessage bool := mkWM (mkHeader 0 0 5 0 20 10 0) true.

(** Mailbox 10 sends to mailbox 20. *)
Lemma typed_message_delivered_witness :
  exists f wire, send (H := tims_backend id) sample_defs bool_ser 8%nat sample_message 20 = Some f /\
    (f (sample_node 10 [])).1.1 = None /\
    exists b', receive_any_for (H := tims_backend id) sample_defs bool_des 4096
      (fun t m _ => Some (t, payload m, Msg.src (header m))) 0 None (sample_node 20 wire)
    = ((None, Some (8%nat, true, 10)), b').
Proof.
  destruct (typed_message_delivered id id_length sample_defs bool_ser bool_des (S := option (nat * bool * Z))
    8%nat sample_message 20 (sample_node 10 [])) as (f&wire&Hf&Hs&_&_&Hr).
  - exact bool_codec.
  - vm_compute. reflexivity.
  - vm_compute. reflexivity.
  - by_compute.
  - by_compute.
  - vm_compute. discriminate.
  - vm_compute. reflexivity.
  - by_compute.
  - by_compute.
  - discriminate.
  - exists f, wire. split; [exact Hf|]. split; [exact Hs|].
    destruct (Hr (sample_node 20 wire) (fun t m _ => Some (t, payload m, Msg.src (header m))) 4096 0 [] [] None)
      as (m&b'&(Hp&_&_&_&_&Hsrc)&Hany&_).
    + split; [reflexivity|]. split; [reflexivity|].
      repeat split; try (vm_compute; discriminate); constructor.
    + intros n ms. reflexivity.
    + constructor.
    + cbn. by rewrite app_nil_r.
    + vm_compute. discriminate.
    + exists b'. etrans; [exact Hany|]. cbn beta. rewrite Hp, Hsrc. reflexivity.
Defined.
