(* ===== verification/Network.v ===== *)
(** * Two routers

    Two corerat-router-tcp daemons that are peers over one TCP link, as one
    system: events of either daemon, and the transport of the bytes one has
    written to the link to the other.  [scenario_delivers] follows a
    mailbox from its registration at one router to a message that a client
    of the other router sends to it. *)

From Stdlib Require Import ZArith Lia.
From stdpp Require Import base list gmap sets numbers.
From S2P Require Import Prelude Protocol TcpSocket RouterCore TcpRouter TcpDelivery IpcTypes TimsMailbox MessageId MessageRegistry Mailbox EndToEnd.

#[local] Open Scope Z_scope.

Import Tcp.

(** ** The system

    [n_left] has the link as connection [n_p], [n_right] as connection [n_q];
    [n_lr] and [n_rl] count the bytes that have been transported. *)
Record Net := mkNet {
  n_left : TcpRouter; n_p : nat; n_lr : nat;
  n_right : TcpRouter; n_q : nat; n_rl : nat
}.

(** More bytes come from the remote side of connection [c]. *)
Definition more_input (bs : bytes) (con : Connection) : Connection :=
  let s := con_socket con in
  con_set_socket (mkSock (sk_fd s) (sk_tx s) (sk_send_plan s) (sk_rx s ++ bs) (sk_recv_plan s)) con.

Definition feed (c : nat) (bs : bytes) (st : TcpRouter) : TcpRouter :=
  set_cons (alter (more_input bs) c (r_cons st)) st.

Inductive net_event :=
| AtLeft (e : event)
| AtRight (e : event)
| ToRight
| ToLeft.

Definition net_step (e : net_event) (n : Net) : Net :=
  match e with
  | AtLeft e =>
      mkNet (handle_event handle_frame e (n_left n)).2 (n_p n) (n_lr n) (n_right n) (n_q n) (n_rl n)
  | AtRight e =>
      mkNet (n_left n) (n_p n) (n_lr n) (handle_event handle_frame e (n_right n)).2 (n_q n) (n_rl n)
  | ToRight =>
      let tx := con_tx (n_left n) (n_p n) in
      mkNet (n_left n) (n_p n) (length tx) (feed (n_q n) (drop (n_lr n) tx) (n_right n)) (n_q n) (n_rl n)
  | ToLeft =>
      let tx := con_tx (n_right n) (n_q n) in
      mkNet (feed (n_p n) (drop (n_rl n) tx) (n_left n)) (n_p n) (n_lr n) (n_right n) (n_q n) (length tx)
  end.

Definition net_run (es : list net_event) (n : Net) : Net := fold_left (fun n e => net_step e n) es n.

(** ** Inputs that a daemon leaves alone *)

Definition inputs_kept {A} (m : state TcpRouter A) : Prop :=
  forall st d con, r_cons st !! d = Some con ->
    exists con', r_cons (m st).2 !! d = Some con' /\ same_input con con'.

Lemma same_input_refl con : same_input con con.
Proof. by unfold same_input. Qed.

Lemma inputs_ret {A} (a : A) : inputs_kept (mret a).
Proof. intros st d con Hc. exists con. split; [done|apply same_input_refl]. Qed.

Lemma inputs_bind {A B} (m : state TcpRouter A) (f : A -> state TcpRouter B) :
  inputs_kept m -> (forall a, inputs_kept (f a)) -> inputs_kept (m ≫= f).
Proof.
  intros Hm Hf st d con Hc. rewrite bind_eq. destruct (Hm st d con Hc) as (con1&Hc1&H1).
  destruct (Hf (m st).1 _ _ _ Hc1) as (con2&Hc2&H2). exists con2. split; [done|]. by eapply same_input_trans.
Qed.

Lemma inputs_con_send c bs : inputs_kept (con_send c bs).
Proof. intros st d con. apply con_send_input. Qed.

Lemma inputs_for_each {A} (l : list A) (f : A -> state TcpRouter unit) :
  (forall x, inputs_kept (f x)) -> inputs_kept (for_each l f).
Proof. intros Hf. induction l as [|x l IH]; [apply inputs_ret|]. by apply inputs_bind. Qed.

Lemma inputs_same_cons {A} (m : state TcpRouter A) :
  (forall st, r_cons (m st).2 = r_cons st) -> inputs_kept m.
Proof. intros Hm st d con Hc. rewrite Hm. exists con. split; [done|apply same_input_refl]. Qed.

Create HintDb inputs.
#[export] Hint Resolve inputs_ret inputs_bind inputs_con_send inputs_for_each : inputs.

Lemma inputs_send_reply c hdr : inputs_kept (send_reply c hdr).
Proof. unfold send_reply. auto with inputs. Qed.

Lemma inputs_on_local_registered m : inputs_kept (on_local_registered m).
Proof.
  apply inputs_bind; [by apply inputs_same_cons|]. intros _. unfold broadcast_to_peers.
  apply inputs_bind; [by apply inputs_same_cons|]. intros st. apply inputs_for_each. intros c.
  unfold send_peer_register. auto 6 with inputs.
Qed.

(** ** One iteration on each kind of frame *)

Section frames.
Implicit Types (st : TcpRouter) (c d : nat) (con : Connection) (m : Z) (hdr : FrameHeader).

(** The connections of [st] go on in [st'] with the input they had. *)
Definition others_kept c st st' : Prop :=
  forall d con, d <> c -> r_cons st !! d = Some con ->
    exists con', r_cons st' !! d = Some con' /\ same_input con con'.

Lemma others_kept_handler {A} c s st con (m : state TcpRouter A) :
  inputs_kept m -> others_kept c st (m (set_cons (<[c := con_set_socket s con]> (r_cons st)) st)).2.
Proof. intros Hm d con' Hne Hd. apply Hm. cbn. by rewrite lookup_insert_ne. Qed.

Lemma others_kept_receiving c d st st' con :
  others_kept c st st' -> d <> c -> receiving st d con ->
  exists con', receiving st' d con' /\ sk_rx (con_socket con') = sk_rx (con_socket con).
Proof.
  intros Ho Hne Hr. pose proof Hr as (Hd&_). destruct (Ho d con Hne Hd) as (con'&Hd'&Hs).
  exists con'. split; [by eapply same_input_receiving|]. by destruct Hs as (_&?&_).
Qed.

(** A client registers a free mailbox. *)
Lemma iterate_registration c st con hdr m rest poll :
  receiving st c con -> con_is_peer con = false -> 0 < poll -> in_u 32 m ->
  wf_frame hdr -> f_type hdr = MSG_ROUTER_MBX_INIT_WITH_REPLY ->
  f_msglen hdr = sizeof_FrameHeader + sizeof_MbxInitPayload ->
  sk_rx (con_socket con) = encode_frame hdr ++ encode_mbx m ++ rest ->
  sizeof_MbxInitPayload <= r_max_msg_size st -> NoDup (r_connections st) -> r_registry st !! m = None ->
  let st' := (con_run_iter handle_frame c false poll st).2 in
  r_registry st' = <[m := c]> (r_registry st) /\ r_max_msg_size st' = r_max_msg_size st /\
  others_kept c st st' /\
  (forall d, is_peer_con st' d = is_peer_con st d) /\
  forall d, send_ok st d -> send_ok st' d /\
    con_tx st' d = con_tx st d ++
      only_to c (reply_bytes MSG_OK (f_src hdr) (f_seq_nr hdr)) d ++
      if decide (d ∈ peers_of st) then register_bytes m else [].
Proof.
  intros Hrec Hp Hpoll Hm Hwf Hty Hlen Hrx Hmax Hnd Hfree st'.
  destruct (iterate_frame tcp_handler c st con hdr (encode_mbx m) rest poll Hrec Hpoll Hrx Hwf Hlen Hmax)
    as (s&E&_&_&Htx&Hfd&Hsp).
  destruct Hrec as (Hc&_&_). unfold st'. rewrite E. set (st1 := set_cons _ st).
  assert ((dispatch c hdr (encode_mbx m) st1).2 = (handle_mbx_init c hdr m st1).2) as ->.
  { unfold dispatch. rewrite bind_eq. cbn [get_is_peer fst snd]. rewrite Hty. cbn -[handle_mbx_init sizeof_MbxInitPayload encode_mbx decode_mbx frame_body_len].
    assert (frame_body_len hdr = sizeof_MbxInitPayload) as ->.
    { unfold frame_body_len. rewrite Hlen. unfold sizeof_FrameHeader, sizeof_MbxInitPayload. done. }
    rewrite Z.ltb_irrefl. by rewrite <- (app_nil_r (encode_mbx m)), decode_encode_mbx. }
  pose proof (handle_mbx_init_fresh c hdr m st1 Hfree) as Hq.
  split; [by rewrite (quiet_registry _ _ Hq)|]. split; [by rewrite (quiet_max _ _ Hq)|].
  split; [apply others_kept_handler|split].
  - unfold handle_mbx_init. apply inputs_bind.
    + apply inputs_same_cons. intros x. unfold registry_add. by destruct (r_registry x !! m).
    + intros ok. apply inputs_bind; [apply inputs_send_reply|]. intros _.
      destruct ok; [apply inputs_on_local_registered|apply inputs_ret].
  - intros d. rewrite <- Hq. unfold is_peer_con. cbn.
    destruct (decide (d = c)) as [->|]; [by rewrite lookup_insert_eq, Hc|by rewrite lookup_insert_ne].
  - intros d Hd. assert (send_ok st1 d) as Hd1 by by apply (set_socket_send_ok st c con).
    unfold handle_mbx_init, registry_add. rewrite bind_eq. cbn [r_registry set_cons st1]. rewrite Hfree. cbn [fst snd].
    set (st2 := set_registry _ st1). rewrite bind_eq.
    destruct (send_reply_sends c (make_frame MSG_OK (f_src hdr) 0 0 (f_seq_nr hdr) 0) st2 d Hd1) as [Hd2 E2].
    pose proof (send_reply_quietly (E := nat) (X := unit) c (make_frame MSG_OK (f_src hdr) 0 0 (f_seq_nr hdr) 0) st2) as Hq2.
    destruct (on_local_registered_sends m (send_reply c (make_frame MSG_OK (f_src hdr) 0 0 (f_seq_nr hdr) 0) st2).2 d)
      as [Hd3 E3]; [by rewrite (quiet_connections _ _ Hq2)|done|].
    split; [done|]. rewrite E3, E2.
    assert (con_tx st2 d = con_tx st d) as -> by (by apply (set_socket_tx st c con)).
    rewrite <- app_assoc. f_equal. f_equal.
    assert (peers_of (send_reply c (make_frame MSG_OK (f_src hdr) 0 0 (f_seq_nr hdr) 0) st2).2 = peers_of st) as ->; [|done].
    rewrite <- Hq2. apply List.filter_ext. intros x. unfold is_peer_con. cbn.
    destruct (decide (x = c)) as [->|]; [by rewrite lookup_insert_eq, Hc|by rewrite lookup_insert_ne].
Qed.

(** A peer advertises a mailbox: what iterate_register leaves of the rest. *)
Lemma iterate_learn c st con m rest poll :
  receiving st c con -> con_is_peer con = true -> 0 < poll -> in_u 32 m ->
  sk_rx (con_socket con) = register_bytes m ++ rest -> sizeof_MbxInitPayload <= r_max_msg_size st ->
  r_registry st !! m = None ->
  let st' := (con_run_iter handle_frame c false poll st).2 in
  r_registry st' !! m = Some c /\ r_max_msg_size st' = r_max_msg_size st /\ others_kept c st st' /\
  forall d, send_ok st d -> send_ok st' d /\ con_tx st' d = con_tx st d.
Proof.
  intros Hrec Hp Hpoll Hm Hrx Hmax Hfree st'. unfold register_bytes in Hrx. rewrite <- app_assoc in Hrx.
  destruct (iterate_frame tcp_handler c st con _ _ _ poll Hrec Hpoll Hrx register_frame_wf)
    as (s&E&_&_&Htx&Hfd&Hsp); [done|done|].
  destruct Hrec as (Hc&_&_). unfold st'. rewrite E.
  rewrite dispatch_register; [|unfold is_peer_con; cbn [r_cons set_cons]; by rewrite lookup_insert_eq].
  rewrite <- (app_nil_r (encode_mbx m)), decode_encode_mbx by done. cbn [snd].
  assert (inputs_kept (registry_add m c)) as Hk.
  { apply inputs_same_cons. intros x. unfold registry_add. by destruct (r_registry x !! m). }
  pose proof (others_kept_handler c s st con _ Hk) as Ho. revert Ho.
  unfold registry_add. cbn [r_registry set_cons]. rewrite Hfree. cbn [snd]. intros Ho.
  split; [apply lookup_insert_eq|]. split; [done|]. split; [exact Ho|].
  intros d Hd. split; [by apply (set_socket_send_ok st c con)|by apply (set_socket_tx st c con)].
Qed.

(** The transport. *)
Lemma feed_receiving c bs st con :
  receiving st c con ->
  exists con', receiving (feed c bs st) c con' /\ sk_rx (con_socket con') = sk_rx (con_socket con) ++ bs /\
    con_is_peer con' = con_is_peer con.
Proof.
  intros (Hc&Hph&Hs). exists (more_input bs con). split; [|done].
  split; [|done]. cbn. by rewrite lookup_alter_eq, Hc.
Qed.

Lemma feed_other c bs st d con : d <> c -> receiving st d con -> receiving (feed c bs st) d con.
Proof. intros Hne (Hd&?&?). split; [|done]. cbn. by rewrite lookup_alter_ne. Qed.

Lemma feed_tx c bs st d : con_tx (feed c bs st) d = con_tx st d.
Proof.
  unfold con_tx, feed. cbn. destruct (decide (d = c)) as [->|]; [|by rewrite lookup_alter_ne].
  rewrite lookup_alter_eq. by destruct (r_cons st !! c).
Qed.

Lemma feed_send_ok c bs st d : send_ok st d -> send_ok (feed c bs st) d.
Proof.
  unfold send_ok, feed. cbn. destruct (decide (d = c)) as [->|]; [|by rewrite lookup_alter_ne].
  rewrite lookup_alter_eq. by destruct (r_cons st !! c).
Qed.
End frames.

(** One side of the link: connection [p], to a peer that is listed, works in
    both directions, and has nothing on the way. *)
Definition link_idle (st : TcpRouter) (p carried : nat) : Prop :=
  exists con, receiving st p con /\ con_is_peer con = true /\ sk_rx (con_socket con) = [] /\
    p ∈ r_connections st /\ send_ok st p /\ length (con_tx st p) = carried.

(** Frames [wire] for mailbox [m] go to the owner of [m]. *)
Definition relayed (wire : bytes) (m size : Z) : Prop :=
  forall (st : TcpRouter) c con d poll rest,
    receiving st c con -> 0 < poll -> sk_rx (con_socket con) = wire ++ rest ->
    size <= r_max_msg_size st -> r_registry st !! m = Some d -> send_ok st d ->
    con_tx (con_run_iter handle_frame c false poll st).2 d = con_tx st d ++ wire.

(** Registration on the left, transport, the peer on the right learns; then a
    client on the right sends, transport, delivery on the left. *)
Definition scenario (n : Net) (c e : nat) : list net_event :=
  [AtLeft (EvIterate c false 1); ToRight; AtRight (EvIterate (n_q n) false 1);
   AtRight (EvIterate e false 1); ToLeft; AtLeft (EvIterate (n_p n) false 1)].

Lemma scenario_delivers n c con hdr m rest e con_e rest_e wire size :
  link_idle (n_left n) (n_p n) (n_lr n) -> link_idle (n_right n) (n_q n) (n_rl n) ->
  NoDup (r_connections (n_left n)) -> in_u 32 m ->
  receiving (n_left n) c con -> con_is_peer con = false -> send_ok (n_left n) c ->
  wf_frame hdr -> f_type hdr = MSG_ROUTER_MBX_INIT_WITH_REPLY ->
  f_msglen hdr = sizeof_FrameHeader + sizeof_MbxInitPayload ->
  sk_rx (con_socket con) = encode_frame hdr ++ encode_mbx m ++ rest ->
  r_registry (n_left n) !! m = None -> r_registry (n_right n) !! m = None ->
  sizeof_MbxInitPayload <= r_max_msg_size (n_left n) -> sizeof_MbxInitPayload <= r_max_msg_size (n_right n) ->
  receiving (n_right n) e con_e -> e <> n_q n -> sk_rx (con_socket con_e) = wire ++ rest_e ->
  relayed wire m size -> size <= r_max_msg_size (n_left n) -> size <= r_max_msg_size (n_right n) ->
  con_tx (n_left (net_run (scenario n c e) n)) c =
  con_tx (n_left n) c ++ reply_bytes MSG_OK (f_src hdr) (f_seq_nr hdr) ++ wire.
Proof.
  destruct n as [L0 p lr R0 q rl]. cbn [n_left n_right n_p n_q n_lr n_rl].
  intros (cp&Hp&Hpp&Hprx&Hpl&Hpok&Hlr) (cq&Hq&Hqp&Hqrx&Hql&Hqok&Hrl) Hnd Hm Hc Hcp Hcok Hwf Hty Hlen Hrx
    HfL HfR HmL HmR He Hneq Herx Hrelay HsL HsR.
  assert (p <> c) as Hpc.
  { intros ->. destruct Hp as (Hp&_), Hc as (Hc&_). congruence. }
  unfold net_run, scenario. cbn [fold_left net_step n_left n_right n_p n_q n_lr n_rl handle_event].
  destruct (iterate_registration c L0 con hdr m rest 1) as (Hreg&HmaxL&HoL&_&HtxL); auto; [lia|].
  set (L1 := (con_run_iter handle_frame c false 1 L0).2) in *.
  destruct (HtxL p Hpok) as [Hpok1 Htxp]. destruct (HtxL c Hcok) as [Hcok1 Htxc].
  assert (p ∈ peers_of L0) as Hpeer.
  { apply elem_of_peers_of. split; [done|]. unfold is_peer_con. by destruct Hp as (->&_). }
  assert (c ∉ peers_of L0) as Hnpeer.
  { intros Hin. apply elem_of_peers_of in Hin as [_ Hin]. unfold is_peer_con in Hin. destruct Hc as (Hc&_).
    rewrite Hc in Hin. congruence. }
  unfold only_to in Htxp, Htxc. rewrite decide_False, decide_True in Htxp by done.
  rewrite decide_True, decide_False in Htxc by done. cbn [app] in Htxp. rewrite app_nil_r in Htxc.
  rewrite Htxp, <- Hlr, drop_app_length.
  destruct (feed_receiving q (register_bytes m) R0 cq Hq) as (cq1&Hq1&Hq1rx&Hq1p). rewrite Hqrx in Hq1rx.
  set (R1 := feed q (register_bytes m) R0) in *.
  destruct (iterate_learn q R1 cq1 m [] 1 Hq1) as (HregR&HmaxR&HoR&HtxR); auto; try congruence; try lia; try (by rewrite app_nil_r).
  set (R2 := (con_run_iter handle_frame q false 1 R1).2) in *.
  destruct (HtxR q (feed_send_ok q _ R0 q Hqok)) as [Hqok2 Htxq]. unfold R1 in Htxq. rewrite feed_tx in Htxq.
  destruct (others_kept_receiving q e R1 R2 con_e HoR Hneq) as (ce2&He2&He2rx); [by apply feed_other|].
  assert (con_tx (con_run_iter handle_frame e false 1 R2).2 q = con_tx R2 q ++ wire) as Htxq3.
  { apply (Hrelay R2 e ce2 q 1 rest_e); auto; [lia|congruence|by rewrite HmaxR]. }
  rewrite Htxq3, Htxq, <- Hrl, drop_app_length.
  destruct (others_kept_receiving c p L0 L1 cp HoL Hpc Hp) as (cp1&Hp1&Hp1rx).
  destruct (feed_receiving p wire L1 cp1 Hp1) as (cp2&Hp2&Hp2rx&_). rewrite Hp1rx, Hprx in Hp2rx. cbn [app] in Hp2rx.
  rewrite (Hrelay (feed p wire L1) p cp2 c 1 []); auto.
  - by rewrite feed_tx, Htxc, <- app_assoc.
  - lia.
  - by rewrite app_nil_r.
  - cbn. by rewrite HmaxL.
  - cbn. rewrite Hreg. apply lookup_insert_eq.
  - by apply feed_send_ok.
Qed.

Import Msg MsgReg Mbx.

Section typed.
Context (swap : bytes -> bytes) (Hswap : forall bs, length (swap bs) = length bs).
Context {P : Type} `{EqDecision P} {V S : Type}.
Context (defs : list (MessageDefinition P)).
Context (ser : P -> @WireMessage V -> bytes) (des : P -> bytes -> option (@WireMessage V)).

#[local] Instance tims : IpcBackend TimsBackend := tims_backend swap.

(** C2. A mailbox is reachable from the clients of a neighbouring router.  When a
    client of one router registers a mailbox, the router advertises it on the
    link to its peer, and the peer routes it to that link; a typed message that a
    client of the peer sends then crosses both routers and the link in both
    directions: the client that registered is sent the confirmation and the
    message, nothing else, and its [receive_any_for] gives the visitor the payload
    and the sender. *)
Theorem message_crosses_routers (t : P) (msg : @WireMessage V) m (a : @Mailbox TimsBackend) :
  codec_laws ser des -> ascending [] defs = true -> is_registered t defs = true ->
  header_ok (header msg) -> connected a ->
  zlen (ser t msg) <= cfg_max_msg_size (TimsMailbox.config_ (below a)) -> zlen (ser t msg) < 2 ^ 32 - 16 ->
  in_u 32 (cfg_mailbox_id (TimsMailbox.config_ (below a))) -> in_u 32 m -> m <> 0 ->
  exists f wire, send defs ser t msg m = Some f /\ (f a).1.1 = None /\
    sk_tx (socket_of (f a).2) = sk_tx (socket_of a) ++ wire /\
    (forall n c con hdr rest e con_e rest_e,
       link_idle (n_left n) (n_p n) (n_lr n) -> link_idle (n_right n) (n_q n) (n_rl n) ->
       NoDup (r_connections (n_left n)) ->
       receiving (n_left n) c con -> con_is_peer con = false -> send_ok (n_left n) c ->
       wf_frame hdr -> f_type hdr = MSG_ROUTER_MBX_INIT_WITH_REPLY ->
       f_msglen hdr = sizeof_FrameHeader + sizeof_MbxInitPayload ->
       sk_rx (con_socket con) = encode_frame hdr ++ encode_mbx m ++ rest ->
       r_registry (n_left n) !! m = None -> r_registry (n_right n) !! m = None ->
       receiving (n_right n) e con_e -> e <> n_q n -> sk_rx (con_socket con_e) = wire ++ rest_e ->
       Z.max sizeof_MbxInitPayload (zlen (ser t msg)) <= r_max_msg_size (n_left n) ->
       Z.max sizeof_MbxInitPayload (zlen (ser t msg)) <= r_max_msg_size (n_right n) ->
       con_tx (n_left (net_run (scenario n c e) n)) c =
       con_tx (n_left n) c ++ reply_bytes MSG_OK (f_src hdr) (f_seq_nr hdr) ++ wire) /\
    (forall b (visitor : P -> @WireMessage V -> S -> S) max timeout s,
       connected b -> (forall k ms, 0 < tb_poll (tims_ b) k ms) ->
       sk_rx (socket_of b) = wire -> zlen (ser t msg) <= max ->
       exists received b',
         arrived defs ser t msg (cfg_mailbox_id (TimsMailbox.config_ (below a))) m received /\
         receive_any_for defs des max visitor timeout s b = ((None, visitor t received s), b')).
Proof.
  intros Hcodec Hasc Hreg Hok Ha Hfit Hlen Hid Hm Hm0.
  destruct (typed_path swap Hswap defs ser des (S := S) t msg m a) as (f&wire&Hf&Hs&Htx&Hrelay&Hrecv); auto.
  exists f, wire. split; [done|]. split; [done|]. split; [done|]. split.
  - intros n c con hdr rest e con_e rest_e Hl Hr Hnd Hc Hcp Hcok Hwf Hty Hml Hrx HfL HfR He Hne Herx HmL HmR.
    apply (scenario_delivers n c con hdr m rest e con_e rest_e wire (zlen (ser t msg))); auto; try lia.
  - intros b visitor max timeout s Hb Hpoll Hrx Hmax.
    destruct (Hrecv b visitor max timeout [] [] s Hb Hpoll) as (received&b'&?&?&_); auto.
    { cbn. by rewrite app_nil_r. }
    eauto.
Qed.
End typed.

(** ** Witness *)

(** Two routers with a link each (connection 0) and a client each
    (connection 1); the client on the left registers mailbox 20. *)
Definition sample_side (fd : Z) (rx : bytes) : TcpRouter :=
  mkRouter 4096 ∅
    {[0%nat := mkCon (sock_of_fd fd [] [] []) 0 true true Looping;
      1%nat := mkCon (sock_of_fd (fd + 1) rx [] [3; 1]) 1 false true Looping]}
    [0; 1]%nat 2 sock_closed true [] ∅ tt.

Definition sample_init : FrameHeader :=
  make_frame MSG_ROUTER_MBX_INIT_WITH_REPLY 0 20 0 1 sizeof_MbxInitPayload.

(** Mailbox 10, on the right, sends to mailbox 20. *)
Lemma message_crosses_routers_witness :
  exists f wire, send (H := tims_backend id) sample_defs bool_ser 8%nat EndToEnd.sample_message 20 = Some f /\
    (f (sample_node 10 [])).1.1 = None /\
    let n := mkNet (sample_side 4 (encode_frame sample_init ++ encode_mbx 20)) 0 0 (sample_side 6 wire) 0 0 in
    con_tx (n_left (net_run (scenario n 1 1) n)) 1 = reply_bytes MSG_OK 20 1 ++ wire.
Proof.
  destruct (message_crosses_routers id id_length sample_defs bool_ser bool_des (S := option (nat * bool * Z))
    8%nat EndToEnd.sample_message 20 (sample_node 10 [])) as (f&wire&Hf&Hs&_&Hn&_).
  - exact bool_codec.
  - vm_compute. reflexivity.
  - vm_compute. reflexivity.
  - by_compute.
  - by_compute.
  - vm_compute. discriminate.
  - vm_compute. reflexivity.
  - by_compute.
  - by_compute.
  - discriminate.
  - exists f, wire. split; [exact Hf|]. split; [exact Hs|]. intros n.
    refine (Hn n 1%nat _ sample_init [] 1%nat _ [] _ _ _ (conj eq_refl (conj eq_refl _)) eq_refl _ _ eq_refl eq_refl _
      eq_refl eq_refl (conj eq_refl (conj eq_refl _)) _ _ _ _).
    + exists (mkCon (sock_of_fd 4 [] [] []) 0 true true Looping).
      split; [split; [reflexivity|split; [reflexivity|by_compute]]|].
      split; [reflexivity|]. split; [reflexivity|]. split; [by_compute|]. split; [by_compute|reflexivity].
    + exists (mkCon (sock_of_fd 6 [] [] []) 0 true true Looping).
      split; [split; [reflexivity|split; [reflexivity|by_compute]]|].
      split; [reflexivity|]. split; [reflexivity|]. split; [by_compute|]. split; [by_compute|reflexivity].
    + by_compute.
    + by_compute.
    + by_compute.
    + by_compute.
    + reflexivity.
    + by_compute.
    + discriminate.
    + symmetry. apply app_nil_r.
    + vm_compute. discriminate.
    + vm_compute. discriminate.
Defined.
