(* ===== verification/EvlTyped.v ===== *)
(** * Typed messages in one process

    [EvlMailbox] in [Mode::Local] (EvlMailbox.v) as a backend of [Mailbox]
    (Mailbox.v), and the way of a typed message between two mailboxes of a
    process. *)

From Stdlib Require Import ZArith Lia.
From stdpp Require Import base list gmap sets numbers.
From S2P Require Import Prelude Protocol TcpSocket IpcTypes TimsMailbox EvlRegistry EvlRing EvlMailbox EvlProcess MessageId MessageRegistry Mailbox EndToEnd.

#[local] Open Scope Z_scope.

Import Registry Ring EvlBox Msg MsgReg Mbx.

(** What the kernel answers: whether EVL objects can be created, and the
    negative result of a wait that ends an empty-handed receive. *)
Record EvlKernel := mkEK {
  ek_objects_ok : bool;
  ek_wait : Z;
  ek_wait_negative : ek_wait < 0
}.

(** An object of a process; [None] after undefined behaviour. *)
Record EvlObject := mkEO { eo_process : Process; eo_self : nat; eo_kernel : EvlKernel }.

Abbreviation EvlBackend := (option EvlObject).

Section backend.
Context (inet_pton : bytes -> option Z).

Definition in_process (o : EvlObject) (w : Process) : EvlBackend := Some (mkEO w (eo_self o) (eo_kernel o)).

#[local] Instance evl_backend : IpcBackend EvlBackend := {
  be_ready o :=
    match o with
    | Some o => match p_boxes (eo_process o) !! eo_self o with Some b => b_created b | None => false end
    | None => false
    end;
  be_initialize o :=
    match o with
    | Some o =>
        let '(res, w) := EvlBox.initialize inet_pton (eo_self o) (ek_objects_ok (eo_kernel o)) true None (eo_process o) in
        (res, in_process o w)
    | None => (ERROR_INIT, None)
    end;
  be_shutdown o :=
    match o with
    | Some o => (tt, in_process o (EvlBox.shutdown (eo_self o) (eo_process o)))
    | None => (tt, None)
    end;
  be_send_raw bs to o :=
    match o with
    | Some o =>
        match EvlBox.send (eo_self o) bs to (-1) false (eo_process o) with
        | Some (res, w) => (res, in_process o w)
        | None => (ERROR_SEND, None)
        end
    | None => (ERROR_SEND, None)
    end;
  be_receive size timeout o :=
    match o with
    | Some o =>
        match receive_local (eo_self o) size timeout (ek_wait (eo_kernel o)) (eo_process o) with
        | Some (n, bs, meta, w) => ((n, bs, meta), in_process o w)
        | None => ((-1, [], None), None)
        end
    | None => ((-1, [], None), None)
    end
}.

Lemma mem_read_length i n mem data : mem_read i n mem = Some data -> length data = n.
Proof. unfold mem_read. destruct (decide _); [|done]. intros [= <-]. rewrite length_take, length_drop. lia. Qed.

Lemma ring_read_fits size r sm data r' :
  ring_read size r = Some (RingMessage sm data, r') -> 0 < sm_size sm -> sm_size sm = zlen data /\ sm_size sm <= size.
Proof.
  unfold ring_read. destruct (negb _); [done|]. destruct (find_highest_priority_slot r) as [i|]; [|done].
  destruct (slot_meta r !! i) as [m|]; [|done]. destruct (Z.ltb_spec size (sm_size m)); [done|].
  destruct (mem_read _ _ _) as [d|] eqn:E; [|done]. intros [= <- <- _] Hpos.
  apply mem_read_length in E. unfold zlen. lia.
Qed.

(** A received message fits its buffer and comes with metadata. *)
#[local] Instance evl_backend_spec : IpcBackendSpec EvlBackend.
Proof.
  split. intros size timeout [o|] n bs meta o' _; cbn; [|intros [= <- _ _ _]; lia].
  unfold receive_local. destruct (p_boxes _ !! _) as [b|]; [|intros [= <- _ _ _]; lia].
  destruct (b_created b); cbn [negb]; [|intros [= <- _ _ _]; lia].
  destruct (b_ring b) as [r|]; [|intros [= <- _ _ _]; lia].
  destruct (ring_read size r) as [[[| |sm data] r']|] eqn:E; cbn [received]; [| | |intros [= <- _ _ _]; lia].
  - intros [= <- _ _ _]. pose proof (ek_wait_negative (eo_kernel o)).
    destruct (_ <? _); [lia|]. destruct (_ =? _); unfold ETIMEDOUT in *; lia.
  - intros [= <- _ _ _]. unfold EMSGSIZE. lia.
  - intros [= <- <- <- _] Hn. destruct (ring_read_fits _ _ _ _ _ E Hn) as [??]. split_and!; [done|done|]. intros _. by eexists.
Qed.
End backend.

(** C9. A typed message between two mailboxes of a process.  [send] to a
    registered mailbox whose ring is empty succeeds, and the next
    [receive_any_for] of that mailbox calls the visitor once, under the type that
    was sent, with the payload, the timestamp and the size of the message and the
    ids of both mailboxes - if the message fits the sender's limit, the receiver's
    slots and the buffer, and the priority is above -128. *)
Theorem typed_message_in_process inet_pton {P} `{EqDecision P} {V S : Type} (defs : list (MessageDefinition P))
    ser des (t : P) (m : @WireMessage V) to (a : @Mailbox EvlBackend) w p q b x r k :
  codec_laws ser des -> ascending [] defs = true -> is_registered t defs = true -> header_ok (header m) ->
  running_ a = true -> tims_ a = Some (mkEO w p k) -> to <> 0 ->
  local_pair w p q b x r to -> messages r = [] -> (0 < capacity r)%nat ->
  zlen (ser t m) <= cfg_max_msg_size (b_config b) -> zlen (ser t m) <= slot_size r ->
  INT8_MIN < s8 (cfg_priority (b_config b)) ->
  exists f w1, Mbx.send (H := evl_backend inet_pton) defs ser t m to = Some f /\ (f a).1.1 = None /\
    tims_ (f a).2 = Some (mkEO w1 p k) /\
    forall (c : @Mailbox EvlBackend) kc (visitor : P -> @WireMessage V -> S -> S) max timeout s,
      running_ c = true -> tims_ c = Some (mkEO w1 q kc) -> zlen (ser t m) <= max ->
      exists received c', arrived defs ser t m (box_id b) to received /\
        receive_any_for (H := evl_backend inet_pton) defs des max visitor timeout s c = ((None, visitor t received s), c').
Proof.
  intros Hcodec Hasc Hreg Hok Hrun Ha Hto Hpair Hempty Hcap Hfit Hslot Hprio.
  pose proof Hpair as (Hb&Hbc&_).
  destruct (mailbox_roundtrip (H := evl_backend inet_pton) (H1 := evl_backend_spec inet_pton) defs ser des t m to a (S := S))
    as (f&bs&h&Hf&Hsent&Hsz&Hty&Hbs&Hts&_&_&_&_&_&Hrecv); auto.
  { rewrite Ha. cbn. by rewrite Hb. }
  assert (0 < zlen bs) as Hpos by (rewrite Hbs; pose proof (codec_size _ _ Hcodec t m); lia).
  assert (forall max timeout wait, zlen bs <= max -> exists w1 w2 meta,
    EvlBox.send p bs to (-1) false w = Some (SUCCESS, w1) /\
    receive_local q max timeout wait w1 = Some (zlen bs, bs, Some meta, w2) /\
    m_src meta = box_id b /\ m_dest meta = to) as Hlocal.
  { intros max timeout wait Hmax.
    destruct (local_send_receive w p q b x r to bs max timeout wait) as (w1&w2&meta&?&?&?&?&_); auto; [lia..|].
    by exists w1, w2, meta. }
  destruct (Hlocal (zlen bs) 0 0 ltac:(lia)) as (w1&_&_&Es&_).
  assert (be_send_raw (IpcBackend := evl_backend inet_pton) bs to (tims_ a) = (SUCCESS, Some (mkEO w1 p k))) as Ebe.
  { rewrite Ha. cbn. by rewrite Es. }
  rewrite Ebe in Hsent. destruct (Hsent eq_refl) as [Ef Ef'].
  exists f, w1. split; [done|]. split; [by rewrite Ef|]. split; [exact Ef'|].
  intros c kc visitor max timeout s Hc Htc Hmax.
  destruct (Hlocal max timeout (ek_wait kc) ltac:(lia)) as (w1'&w2&meta&Es'&Er&Hsrc&Hdest).
  assert (w1' = w1) as -> by congruence.
  destruct (Hrecv c visitor max timeout s (zlen bs) (Some meta) (Some (mkEO w2 q kc))) as (_&md&[= <-]&Hany); auto.
  { lia. }
  { rewrite Htc. cbn. by rewrite Er. }
  eexists _, _. split; [|exact Hany]. unfold arrived. cbn. by rewrite Hsz, Hbs, Hts.
Qed.

(** ** Witness *)

Definition sample_kernel : EvlKernel := mkEK true (-110) eq_refl.

(** A mailbox of [sample_process]: object 2 has id 20, object 1 id 30. *)
Definition sample_object (w : Process) (self : nat) : @Mailbox EvlBackend :=
  mkMailbox Mbx.sample_config (Some (mkEO w self sample_kernel)) true.

Lemma typed_message_in_process_witness :
  exists f w1, Mbx.send (H := evl_backend no_pton) sample_defs bool_ser 8%nat EndToEnd.sample_message 30 = Some f /\
    (f (sample_object sample_process 2)).1.1 = None /\
    exists c', receive_any_for (H := evl_backend no_pton) sample_defs bool_des 64
      (fun t m _ => Some (t, payload m, Msg.src (header m))) 0 None (sample_object w1 1)
    = ((None, Some (8%nat, true, 20)), c').
Proof.
  destruct (typed_message_in_process no_pton (S := option (nat * bool * Z)) sample_defs bool_ser bool_des 8%nat EndToEnd.sample_message 30
    (sample_object sample_process 2) sample_process 2 1
    (set_created true (set_ring (Some (allocate_ring kSlots 64)) (new_box (config_of 20) Local (mkNet 0 [] 0))))
    (set_created true (set_ring (Some (allocate_ring kSlots 64)) (new_box (config_of 30) Local (mkNet 0 [] 0))))
    (allocate_ring kSlots 64) sample_kernel) as (f&w1&Hf&Hs&_&Hr).
  - exact bool_codec.
  - vm_compute. reflexivity.
  - vm_compute. reflexivity.
  - by_compute.
  - reflexivity.
  - reflexivity.
  - discriminate.
  - split_and!; [vm_compute; reflexivity..|]. split; [by_compute..].
  - vm_compute. reflexivity.
  - by_compute.
  - by_compute.
  - by_compute.
  - by_compute.
  - exists f, w1. split; [exact Hf|]. split; [exact Hs|].
    destruct (Hr (sample_object w1 1) sample_kernel (fun t m _ => Some (t, payload m, Msg.src (header m))) 64 0 None)
      as (m&c'&(Hp&_&_&_&_&Hsrc)&Hany).
    + reflexivity.
    + reflexivity.
    + vm_compute. discriminate.
    + exists c'. etrans; [exact Hany|]. cbn beta. rewrite Hp, Hsrc. reflexivity.
Defined.
