(* ===== verification/NetTyped.v ===== *)
(** * Typed messages between hosts

    [EvlMailbox] in [Mode::Network] (EvlMailbox.v) as a backend of [Mailbox]
    (Mailbox.v), and the way of a typed message over the network of
    EvlNetwork.v. *)

From Stdlib Require Import ZArith Lia.
From stdpp Require Import base list gmap sets numbers.
From S2P Require Import Prelude Protocol TcpSocket IpcTypes TimsMailbox EvlRegistry EvlRing EvlMailbox EvlProcess EvlNetwork MessageId MessageRegistry Mailbox EndToEnd.

#[local] Open Scope Z_scope.

Import Registry Ring EvlBox OobNet Msg MsgReg Mbx.

(** What the kernel answers: the bound socket, the result of [oob_sendmsg], the
    datagram that [oob_recvmsg] finds, and its result without one. *)
Record NetKernel := mkNK {
  nk_socket : option Z;
  nk_sendmsg : Z;
  nk_arrival : option bytes;
  nk_nothing : Z;
  nk_nothing_neg : nk_nothing <= 0
}.

(** An object of a process; [None] after undefined behaviour. *)
Record NetObject := mkNO { nb_process : Process; nb_self : nat; nb_kernel : NetKernel }.

Abbreviation NetBackend := (option NetObject).

(** [oob_recvmsg] into [size] bytes: its result, and what it puts there. *)
Definition recvmsg (size : Z) (k : NetKernel) : Z * bytes :=
  match nk_arrival k with
  | Some d => let got := take (Z.to_nat size) d in (zlen got, got)
  | None => (nk_nothing k, [])
  end.

Section backend.
Context (inet_pton : bytes -> option Z).

Definition with_process (o : NetObject) (w : Process) : NetBackend := Some (mkNO w (nb_self o) (nb_kernel o)).

#[local] Instance net_backend : IpcBackend NetBackend := {
  be_ready o :=
    match o with
    | Some o => match p_boxes (nb_process o) !! nb_self o with Some b => b_created b | None => false end
    | None => false
    end;
  be_initialize o :=
    match o with
    | Some o =>
        let '(res, w) := EvlBox.initialize inet_pton (nb_self o) true true (nk_socket (nb_kernel o)) (nb_process o) in
        (res, with_process o w)
    | None => (ERROR_INIT, None)
    end;
  be_shutdown o :=
    match o with
    | Some o => (tt, with_process o (EvlBox.shutdown (nb_self o) (nb_process o)))
    | None => (tt, None)
    end;
  be_send_raw bs to o :=
    match o with
    | Some o =>
        match EvlBox.send (nb_self o) bs to (nk_sendmsg (nb_kernel o)) false (nb_process o) with
        | Some (res, w) => (res, with_process o w)
        | None => (ERROR_SEND, None)
        end
    | None => (ERROR_SEND, None)
    end;
  be_receive size timeout o :=
    match o with
    | Some o =>
        let '(ret, data) := recvmsg size (nb_kernel o) in
        match receive_network (nb_self o) ret data (nb_process o) with
        | Some (n, bs, meta, w) => ((n, bs, meta), with_process o w)
        | None => ((-1, [], None), None)
        end
    | None => ((-1, [], None), None)
    end
}.

(** A received message fits its buffer and comes with metadata. *)
#[local] Instance net_backend_spec : IpcBackendSpec NetBackend.
Proof.
  split. intros size timeout [o|] n bs meta o' Hsize; cbn; [|intros [= <- _ _ _]; lia].
  destruct (recvmsg size (nb_kernel o)) as [ret data] eqn:E.
  assert (0 < ret -> ret = zlen data /\ ret <= size) as Hret.
  { revert E. unfold recvmsg. destruct (nk_arrival _) as [d|]; intros [= <- <-].
    - intros _. split; [done|]. unfold zlen. rewrite length_take. lia.
    - pose proof (nk_nothing_neg (nb_kernel o)). lia. }
  unfold receive_network. destruct (p_boxes _ !! _) as [b|]; [|intros [= <- _ _ _]; lia].
  destruct (b_created b); cbn [negb]; [|intros [= <- _ _ _]; lia].
  unfold receive_oob_udp. destruct (Z.leb_spec ret 0); [intros [= <- _ _ _]; lia|].
  intros [= <- <- <- _] Hn. destruct (Hret Hn) as [-> ?]. split_and!; [done|done|]. by eexists.
Qed.
End backend.

(** The routes of a [MailboxConfig] are those that its backend uses, if their
    addresses are C strings of at most 15 characters. *)
Lemma configured_routes inet_pton config k r ip :
  Z.of_nat k < Z.min (network_route_count config) kMaxRoutes -> network_routes config !! k = Some r ->
  (length (rt_ip r) <= 15)%nat ->
  route_used inet_pton (create_network_config config) k r ip <-> inet_pton (rt_ip r) = Some ip.
Proof.
  intros Hk Hr Hl. unfold route_used, create_network_config. cbn [route_count routes].
  set (count := Z.min _ _) in *.
  assert ((map copy_route (take (Z.to_nat count) (network_routes config)) ++
    replicate (Z.to_nat (kMaxRoutes - count)) (mkRoute 0 [])) !! k = Some r) as ->; [|naive_solver lia].
  apply lookup_app_l_Some. rewrite list_lookup_fmap, lookup_take_lt by lia. rewrite Hr. cbn. f_equal.
  unfold copy_route. rewrite take_ge by lia. by destruct r.
Qed.

(** C27. A typed message from a mailbox of one host to a mailbox of another, from
    every state of a network with a plan.  [send] succeeds and puts one datagram
    into the network; when it arrives, one receive of the destination calls the
    visitor once, under the type that was sent, with the payload, the timestamp and
    the size of the message, if it fits the buffer.  The source and the destination
    are those that the sender's program left in the header: neither [send] nor the
    socket fills them in. *)
Theorem typed_message_over_network inet_pton address host ids l n {P} `{EqDecision P} {V S : Type}
    (defs : list (MessageDefinition P)) ser des (t : P) (m : @WireMessage V) (a : @Mailbox NetBackend) i p w b j q wt c k :
  plan host ids -> Forall (planned inet_pton address host ids) l -> net_run inet_pton address l no_net n ->
  codec_laws ser des -> ascending [] defs = true -> is_registered t defs = true -> header_ok (header m) ->
  processes n !! i = Some w -> p_boxes w !! p = Some b -> b_created b = true ->
  processes n !! j = Some wt -> p_boxes wt !! q = Some c -> b_created c = true -> box_id c <> 0 ->
  has_route inet_pton (b_net_config b) (box_id c) -> running_ a = true -> tims_ a = Some (mkNO w p k) -> 0 <= nk_sendmsg k ->
  zlen (ser t m) <= cfg_max_msg_size (b_config b) -> zlen (ser t m) <= udp_max ->
  exists f bs w1 n1, Mbx.send (H := net_backend inet_pton) defs ser t m (box_id c) = Some f /\ (f a).1.1 = None /\
    tims_ (f a).2 = Some (mkNO w1 p k) /\ processes n1 !! i = Some w1 /\
    net_step inet_pton address (Send i p bs (box_id c)) n n1 /\ (dg_data <$> soup n1) = bs :: (dg_data <$> soup n) /\
    is_Some (processes n1 !! j) /\
    forall w2 (r : @Mailbox NetBackend) kr (visitor : P -> @WireMessage V -> S -> S) max timeout s,
      processes n1 !! j = Some w2 -> running_ r = true -> tims_ r = Some (mkNO w2 q kr) -> nk_arrival kr = Some bs ->
      zlen (ser t m) <= max ->
      exists received w3 r' n2, arrived defs ser t m (Msg.src (header m)) (dest (header m)) received /\
        receive_any_for (H := net_backend inet_pton) defs des max visitor timeout s r = ((None, visitor t received s), r') /\
        tims_ r' = Some (mkNO w3 q kr) /\ processes n2 !! j = Some w3 /\
        net_step inet_pton address (Receive j q max) n1 n2 /\
        exists meta, receipts n2 = mkReceipt (box_id c) bs meta :: receipts n.
Proof.
  intros Hplan Hl Hrun Hcodec Hasc Hreg Hok Hw Hp Hc Hwt Hq Htc Hto Hroute Hrunning Ha Hsm Hfit Hudp.
  pose proof (net_run_ok inet_pton address host ids l no_net n Hplan Hl (no_net_ok _ _ _ _) Hrun) as Hn.
  destruct (typed_sent (H := net_backend inet_pton) (H1 := net_backend_spec inet_pton) defs ser des (S := S) t m (box_id c) a)
    as (f&bs&h&Hf&(Hbs&Hpos&Hh&_&_&_&Hdest&Hsrc)&Hacc&Hsent); auto.
  { rewrite Ha. cbn. by rewrite Hp. }
  destruct (message_sent inet_pton address host ids n i p w b bs (box_id c) (nk_sendmsg k)) as (w1&b'&Hsend&Hw1&Hsame&Hstep);
    [done..|lia|lia|done|].
  assert (be_send_raw (IpcBackend := net_backend inet_pton) bs (box_id c) (tims_ a) = (SUCCESS, Some (mkNO w1 p k))) as Ebe.
  { rewrite Ha. cbn. by rewrite Hsend. }
  rewrite Ebe in Hsent. destruct (Hsent eq_refl) as [Ef Ef'].
  exists f, bs, w1, (after_send host i w1 b bs (box_id c) n). do 3 (split; [done|]).
  split; [apply lookup_insert_eq|]. split; [exact Hstep|]. split; [done|].
  destruct (after_send_box host n i p w w1 b b' j q wt c bs (box_id c)) as (w2'&c'&Hw2'&Hq'&Hsame'); [done..|].
  split; [by exists w2'|]. intros w2 r kr visitor max timeout s Hw2 Hr Htr Harrival Hmax.
  rewrite Hw2 in Hw2'. injection Hw2' as <-.
  destruct (message_received inet_pton address host ids n i w1 b j q wt c w2 c' bs max) as (w3&Hrecv&Hstep'); [done..|lia|].
  cbn zeta in *. rewrite take_ge in Hrecv, Hstep' by (unfold zlen in *; lia).
  destruct (Hacc r visitor max timeout s (zlen bs) (receive_oob_udp (zlen bs) bs c').1.2 (Some (mkNO w3 q kr)))
    as (md&received&Hmd&Harr&Hany); [done|lia|done| |].
  { rewrite Htr. cbn. unfold recvmsg. rewrite Harrival, take_ge by (unfold zlen in *; lia). by rewrite Hrecv. }
  eexists received, w3, _, _. split; [|split; [exact Hany|split; [done|split; [|split; [exact Hstep'|by eexists]]]]];
    [|apply lookup_insert_eq].
  revert Hmd. unfold receive_oob_udp. destruct (Z.leb_spec (zlen bs) 0); [lia|]. cbn [fst snd].
  intros [= <-]. cbn [m_src m_dest] in Harr. destruct (Z.leb_spec sizeof_WireHeader (zlen bs)) as [_|Hlt].
  - change (wire_src bs) with (Msg.src (read_header bs)) in Harr.
    change (wire_dest bs) with (dest (read_header bs)) in Harr. by rewrite Hh, Hsrc, Hdest in Harr.
  - pose proof (codec_size _ _ Hcodec t m). unfold sizeof_WireHeader in Hlt. lia.
Qed.

(** ** Witness: a message of type 8 from host 0 to [0x01010034] on host 1. *)

Definition started : NetState := default no_net (net_exec_run sample_pton sample_address (two_hosts first_class) no_net).

Definition kernel (arrival : option bytes) : NetKernel := mkNK (Some 3) 0 arrival (-110) ltac:(done).

Definition object (i : nat) (arrival : option bytes) (n : NetState) : @Mailbox NetBackend :=
  mkMailbox Mbx.sample_config (Some (mkNO (default proc_initial (processes n !! i)) 0 (kernel arrival))) true.

Lemma typed_message_over_network_witness :
  exists f n1 bs, Mbx.send (H := net_backend sample_pton) sample_defs bool_ser 8%nat EndToEnd.sample_message first_class = Some f /\
    (f (object 0 None started)).1.1 = None /\ dg_data <$> soup n1 = [bs] /\
    exists c', receive_any_for (H := net_backend sample_pton) sample_defs bool_des 64
      (fun t m _ => Some (t, payload m, Msg.src (header m))) 0 None (object 1 (Some bs) n1)
    = ((None, Some (8%nat, true, Msg.src (header EndToEnd.sample_message))), c').
Proof.
  set (w0 := default proc_initial (processes started !! 0%nat)). set (w1 := default proc_initial (processes started !! 1%nat)).
  set (b0 := default (new_box (OobNet.config_of 0) Local to_one) (p_boxes w0 !! 0%nat)).
  set (b1 := default (new_box (OobNet.config_of 0) Local to_one) (p_boxes w1 !! 0%nat)).
  destruct (typed_message_over_network sample_pton sample_address sample_host sample_ids
    ((two_hosts first_class).*1 ++ []) started (S := option (nat * bool * Z)) sample_defs bool_ser bool_des 8%nat EndToEnd.sample_message
    (object 0 None started) 0 0 w0 b0 1 0 w1 b1 (kernel None)) as (f&bs&w0'&n1&Hf&Hs&_&_&_&Hsoup&[w2 Hw2]&Hr).
  - exact sample_plan.
  - apply sample_planned. constructor.
  - rewrite app_nil_r. apply net_exec_run_sound. vm_compute. reflexivity.
  - exact bool_codec.
  - vm_compute. reflexivity.
  - vm_compute. reflexivity.
  - by_compute.
  - vm_compute. reflexivity.
  - vm_compute. reflexivity.
  - vm_compute. reflexivity.
  - vm_compute. reflexivity.
  - vm_compute. reflexivity.
  - vm_compute. reflexivity.
  - vm_compute. discriminate.
  - exact sample_route.
  - reflexivity.
  - reflexivity.
  - by_compute.
  - by_compute.
  - by_compute.
  - exists f, n1, bs. split; [exact Hf|]. split; [exact Hs|]. split; [exact Hsoup|].
    destruct (Hr w2 (object 1 (Some bs) n1) (kernel (Some bs)) (fun t m _ => Some (t, payload m, Msg.src (header m))) 64 0 None)
      as (received&w3&c'&n2&(Hp&_&_&_&_&Hsrc)&Hany&_).
    + exact Hw2.
    + reflexivity.
    + unfold object. rewrite Hw2. reflexivity.
    + reflexivity.
    + vm_compute. discriminate.
    + exists c'. etrans; [exact Hany|]. cbn beta. rewrite Hp, Hsrc. reflexivity.
Defined.
