(* ===== verification/BridgeTyped.v ===== *)
(** * Typed messages across the bridge

    [EvlMailbox] in [Mode::Public] (EvlRemote.v) as a backend of [Mailbox]
    (Mailbox.v), and the way of a typed message between a TiMS mailbox and a
    public EVL mailbox through corerat-router-evl (EvlRouter.v, EvlBridge.v).
    The two ends of an xbuf are the [TcpSocket] values of the mailbox and of the
    router; that a read of one end gives a message that was written to the other
    is a hypothesis, an xbuf is a device of the EVL core. *)

From Stdlib Require Import ZArith Lia.
From stdpp Require Import base list gmap sets numbers.
From S2P Require Import Prelude Protocol TcpSocket RouterCore EvlRouter EvlBridge IpcTypes TimsMailbox EvlRegistry EvlRing EvlMailbox EvlRemote MessageId MessageRegistry Mailbox EndToEnd EvlTyped.

#[local] Open Scope Z_scope.

Import Ring Msg MsgReg Mbx Remote.

#[local] Existing Instance Evl.evl_entry.

(** What the kernel answers: the ring and the objects of [initialize], the opening of
    remote objects, the poll and its events, the wait on the ring. *)
Record PublicKernel := mkPK {
  pk_ring : ring_answer;
  pk_objects : bool;
  pk_xbuf : option TcpSocket;
  pk_open : Z -> bool;
  pk_poll : Z;
  pk_events : list poll_source;
  pk_wait : Z;
  pk_wait_negative : pk_wait < 0
}.

(** An object and the shared memory; [None] after undefined behaviour. *)
Record PublicObject := mkPO { po_box : PublicMailbox; po_shm : Shm; po_kernel : PublicKernel }.

Abbreviation PublicBackend := (option PublicObject).

Section backend.
Definition with_public (o : PublicObject) (b : PublicMailbox) (shm : Shm) : PublicBackend :=
  Some (mkPO b shm (po_kernel o)).

#[local] Instance public_backend : IpcBackend PublicBackend := {
  be_ready o := match o with Some o => pm_created (po_box o) | None => false end;
  be_initialize o :=
    match o with
    | Some o =>
        let '(res, b, shm) := initialize_public (pk_ring (po_kernel o)) (pk_objects (po_kernel o)) (pk_xbuf (po_kernel o))
          (po_box o) (po_shm o) in
        (res, with_public o b shm)
    | None => (ERROR_INIT, None)
    end;
  be_shutdown o :=
    match o with
    | Some o => let '(b, shm) := shutdown_public (po_box o) (po_shm o) in (tt, with_public o b shm)
    | None => (tt, None)
    end;
  be_send_raw bs to o :=
    match o with
    | Some o =>
        match send_public (pk_open (po_kernel o)) bs to (s8 (cfg_priority (pm_config (po_box o)))) (po_box o) (po_shm o) with
        | Some (res, b, shm) => (res, with_public o b shm)
        | None => (ERROR_SEND, None)
        end
    | None => (ERROR_SEND, None)
    end;
  be_receive size timeout o :=
    match o with
    | Some o =>
        match receive_public (pk_poll (po_kernel o)) (pk_events (po_kernel o)) size timeout (pk_wait (po_kernel o))
                (po_box o) (po_shm o) with
        | Some (n, bs, meta, b, shm) => ((n, bs, meta), with_public o b shm)
        | None => ((-1, [], None), None)
        end
    | None => ((-1, [], None), None)
    end
}.

Lemma sys_recv_fits s size n data s' :
  0 <= size -> sys_recv s size = (n, data, s') -> 0 < n -> n = zlen data /\ n <= size.
Proof.
  intros Hsize. unfold sys_recv. assert (0 <= zlen (sk_rx s)) by apply zlen_nonneg.
  assert (forall k, k <= Z.min size (zlen (sk_rx s)) -> 0 < k -> k = zlen (take (Z.to_nat k) (sk_rx s)) /\ k <= size) as Hk.
  { intros k Hk Hpos. unfold zlen in *. rewrite length_take. lia. }
  destruct (sk_fd s <? 0); [intros [= <- _ _]; lia|].
  destruct (sk_recv_plan s) as [|r plan]; [intros [= <- <- _]; apply Hk; lia|].
  destruct (Z.leb_spec r 0); [intros [= <- _ _]; lia|]. intros [= <- <- _]. apply Hk. lia.
Qed.

Lemma serve_events_fits events size s n data s' :
  0 <= size -> serve_events events size s = (Some (n, data), s') -> n = zlen data /\ n <= size.
Proof.
  intros Hsize. revert s. induction events as [|[|] events IH]; intros s; [done| |done]. cbn [serve_events].
  destruct (sys_recv s size) as [[r bs] s1] eqn:E. destruct (Z.leb_spec r 0); [apply IH|].
  intros [= <- <- _]. by eapply sys_recv_fits.
Qed.

(** A received message fits its buffer; one with a header comes with metadata. *)
#[local] Instance public_backend_spec : IpcBackendSpec PublicBackend.
Proof.
  split. intros size timeout [o|] n bs meta o' Hsize; cbn; [|intros [= <- _ _ _]; lia].
  unfold receive_public. set (b := po_box o). destruct (pm_created b); cbn [negb]; [|intros [= <- _ _ _]; lia].
  set (polled := sock_is_open _ && pm_poll_setup_done _). clearbody polled. destruct (polled && (pk_poll (po_kernel o) <=? 0)) eqn:Ep.
  { apply andb_true_iff in Ep as [_ Hn%Z.leb_le]. intros [= <- _ _ _].
    destruct (_ || _); unfold ETIMEDOUT; lia. }
  destruct (if polled then _ else _) as [from_xbuf xbuf] eqn:Ev.
  destruct from_xbuf as [[ret data]|].
  - intros [= <- <- <- _] _. destruct polled; [|done].
    destruct (serve_events_fits _ _ _ _ _ _ Hsize Ev) as [Hr Hfit]. split_and!; [done|done|].
    intros Hw. unfold xbuf_metadata. cbn [fst]. destruct (Z.leb_spec sizeof_WireHeader ret); [by eexists|lia].
  - cbn [pm_shm_base set_xbuf set_poll_setup]. destruct (pm_shm_base b) as [seg|]; [|intros [= <- _ _ _]; lia].
    destruct (shm_segs (po_shm o) !! seg) as [r0|]; [|intros [= <- _ _ _]; lia].
    destruct (ring_read size (own_view _ r0)) as [[res r]|] eqn:E; [|intros [= <- _ _ _]; lia].
    pose proof (pk_wait_negative (po_kernel o)). destruct res as [| |sm data]; cbn [received].
    + intros [= <- _ _ _]. destruct (_ <? _); [lia|]. destruct (_ =? _); unfold ETIMEDOUT in *; lia.
    + intros [= <- _ _ _]. unfold EMSGSIZE. lia.
    + intros [= <- <- <- _] Hn. destruct (ring_read_fits _ _ _ _ _ E Hn) as [??].
      split_and!; [done|done|]. intros _. by eexists.
Qed.
End backend.

Section bridge.
Context (swap : bytes -> bytes) (Hswap : forall bs, length (swap bs) = length bs).
Context {P : Type} `{EqDecision P} {V S : Type}.
Context (defs : list (MessageDefinition P)).
Context (ser : P -> @WireMessage V -> bytes) (des : P -> bytes -> option (@WireMessage V)).

#[local] Existing Instance public_backend.
#[local] Existing Instance public_backend_spec.
#[local] Instance std_backend : IpcBackend TimsBackend := tims_backend swap.
#[local] Instance std_backend_spec : IpcBackendSpec TimsBackend := tims_backend_spec swap Hswap.

Implicit Types (st : Evl.EvlRouter) (m : @WireMessage V) (xe : Evl.XbufEntry).

(** The poll of a public mailbox reports its xbuf, and a read of it gives these
    bytes. *)
Definition xbuf_ready (o : PublicObject) (size : Z) (bs : bytes) : Prop :=
  let b := po_box o in
  pm_created b = true /\ 0 <= sk_fd (pm_xbuf b) /\ 0 < pk_poll (po_kernel o) /\
  (exists events, pk_events (po_kernel o) = FromXbuf :: events) /\
  exists s, sys_recv (pm_xbuf b) size = (zlen bs, bs, s).

Lemma receive_from_xbuf o size timeout bs :
  xbuf_ready o size bs -> 0 < zlen bs ->
  exists o', be_receive size timeout (Some o) = ((zlen bs, bs, xbuf_metadata (zlen bs, bs)), Some o').
Proof.
  intros (Hc&Hfd&Hpoll&[events Hev]&[s Hs]) Hpos. cbn. unfold receive_public.
  rewrite Hc. cbn [negb pm_xbuf set_poll_setup pm_poll_setup_done].
  assert (sock_is_open (pm_xbuf (po_box o)) = true) as -> by by apply Z.leb_le.
  rewrite orb_true_r. cbn [andb]. destruct (Z.leb_spec (pk_poll (po_kernel o)) 0); [lia|].
  rewrite Hev. cbn [serve_events]. rewrite Hs. destruct (Z.leb_spec (zlen bs) 0); [lia|]. by eexists.
Qed.

(** C3. STD to EVL.  [send] of a TiMS mailbox to the id of a public EVL mailbox
    puts one frame on its connection; the iteration of corerat-router-evl that
    reads the frame writes the message, without the frame, to the xbuf of that
    mailbox and nothing to any connection; and [receive_any_for] of the mailbox,
    whose poll reports its xbuf, calls the visitor once with the payload, under
    the type that was sent - but with source and destination as the sender's
    program had put them into the header of the message, not the ids of the
    mailboxes, which were in the frame. *)
Theorem typed_message_to_evl (t : P) m to (a : @Mailbox TimsBackend) :
  codec_laws ser des -> ascending [] defs = true -> is_registered t defs = true -> header_ok (header m) ->
  connected a -> zlen (ser t m) <= cfg_max_msg_size (TimsMailbox.config_ (below a)) -> zlen (ser t m) < 2 ^ 32 - 16 ->
  in_u 32 (cfg_mailbox_id (TimsMailbox.config_ (below a))) -> in_u 32 to -> to <> 0 ->
  exists f bs wire, send defs ser t m to = Some f /\ (f a).1.1 = None /\ zlen bs = zlen (ser t m) /\
    sk_tx (socket_of (f a).2) = sk_tx (socket_of a) ++ wire /\
    (forall st c con poll rest e x xe,
       receiving st c con -> 0 < poll -> sk_rx (con_socket con) = wire ++ rest ->
       zlen (ser t m) <= r_max_msg_size st ->
       r_registry st !! to = Some e -> Evl.xbuf_of e = Some x ->
       Evl.xs_heap (r_ext st) !! x = Some xe -> no_send_error (Evl.xb_dev xe) ->
       let st' := (con_run_iter Evl.handle_frame c false poll st).2 in
       exists dev, sent_on (Evl.xb_dev xe) dev bs /\
         Evl.xs_heap (r_ext st') = <[x := Evl.mkXbuf dev (Evl.xb_mailbox_id xe) (Evl.xb_reader xe)]> (Evl.xs_heap (r_ext st)) /\
         forall d, send_ok st d -> con_tx st' d = con_tx st d) /\
    (forall (b : @Mailbox PublicBackend) o (visitor : P -> @WireMessage V -> S -> S) max timeout s,
       running_ b = true -> tims_ b = Some o -> xbuf_ready o max bs -> 0 <= max ->
       exists received b',
         arrived defs ser t m (Msg.src (header m)) (dest (header m)) received /\
         receive_any_for defs des max visitor timeout s b = ((None, visitor t received s), b')).
Proof.
  intros Hcodec ? ? Hok **. destruct (typed_frame swap defs ser des (S := S) (B' := PublicBackend) t m to a)
    as (f&bs&h&hdr&Hf&Hs&Htx&(Hbs&Hpos&Hh&_&_&_&Hdest&Hsrc)&Hacc&Ehdr&Hwf&Hml); auto.
  exists f, bs, (encode_frame hdr ++ bs). do 4 (split; [done|]). split.
  - intros st c con poll rest e x xe Hc Hpoll Hrx Hmax He Hxb Hx Hdev st'. rewrite <- app_assoc in Hrx.
    destruct (tcp_to_xbuf_iteration c st con hdr bs rest poll e x xe) as (k&dev&Hk&Hsent&Hall&Hheap&Hcons);
      try (subst hdr; done); [lia|apply Hdev|by intros ->|].
    specialize (Hall Hdev). subst k. rewrite take_ge in Hsent by done.
    exists dev. split_and!; [done|exact Hheap|]. intros d Hd. unfold st'. rewrite (Hcons d Hd), decide_False by tauto.
    apply app_nil_r.
  - intros b o visitor max timeout s Hrun Ho Hready Hmax.
    destruct (receive_from_xbuf o max timeout bs Hready Hpos) as [o' Er]. rewrite <- Ho in Er.
    destruct (Hacc b visitor max timeout s _ _ _ Hrun Hmax Hpos Er) as (md&received&Hmd&Harr&Hany).
    eexists received, _. split; [|exact Hany]. revert Hmd. unfold xbuf_metadata. cbn [fst snd].
    destruct (_ <=? _); [|done]. intros [= <-]. cbn [m_src m_dest] in Harr.
    change (wire_src bs) with (Msg.src (read_header bs)) in Harr.
    change (wire_dest bs) with (dest (read_header bs)) in Harr. by rewrite Hh, Hsrc, Hdest in Harr.
Qed.
(** A public mailbox that reaches no ring for [to] and whose xbuf takes what it
    is given. *)
Definition only_bridge (o : PublicObject) (to : Z) : Prop :=
  let b := po_box o in
  pm_created b = true /\ 0 <= sk_fd (pm_xbuf b) /\ sk_send_plan (pm_xbuf b) = [] /\
  (get_or_open_remote (pk_open (po_kernel o)) (po_shm o) to (pm_cache b)).1 = None.

Lemma send_to_xbuf o to bs :
  only_bridge o to -> 0 < zlen bs <= cfg_max_msg_size (pm_config (po_box o)) ->
  exists o', be_send_raw bs to (Some o) = (SUCCESS, Some o') /\
    sk_tx (pm_xbuf (po_box o')) = sk_tx (pm_xbuf (po_box o)) ++ bs.
Proof.
  intros (_&Hfd&Hplan&Hget) [Hpos Hfit]. cbn. unfold send_public.
  destruct (Z.eqb_spec (zlen bs) 0); [lia|]. destruct (Z.ltb_spec (cfg_max_msg_size (pm_config (po_box o))) (zlen bs)); [lia|].
  cbn [orb]. destruct (get_or_open_remote _ _ _ _) as [rh c]. cbn in Hget. subst rh. cbn [mbind option_bind pm_xbuf set_cache].
  assert (sock_is_open (pm_xbuf (po_box o)) = true) as -> by by apply Z.leb_le.
  unfold sys_send. destruct (Z.ltb_spec (sk_fd (pm_xbuf (po_box o))) 0); [lia|]. rewrite Hplan, Z.eqb_refl.
  by eexists.
Qed.

(** C4. EVL to STD.  [send] of a public EVL mailbox to an id it reaches no ring
    for succeeds and writes the message to its xbuf.  The reader of
    corerat-router-evl that reads it sends one frame, from which a TiMS mailbox
    takes the message out and calls its visitor once, with the payload, under the
    type that was sent.  But the argument of [send] is nowhere in the frame: it
    goes to the owner of the [dest] in the header of the message, which the
    sender's program must have put there, and is dropped if there is none. *)
Theorem typed_message_from_evl (t : P) m to (b : @Mailbox PublicBackend) o :
  codec_laws ser des -> ascending [] defs = true -> is_registered t defs = true -> header_ok (header m) ->
  running_ b = true -> tims_ b = Some o -> only_bridge o to -> to <> 0 ->
  zlen (ser t m) <= cfg_max_msg_size (pm_config (po_box o)) -> zlen (ser t m) < 2 ^ 32 - 16 ->
  exists f bs wire o', send defs ser t m to = Some f /\ (f b).1.1 = None /\ tims_ (f b).2 = Some o' /\
    zlen bs = zlen (ser t m) /\
    sk_tx (pm_xbuf (po_box o')) = sk_tx (pm_xbuf (po_box o)) ++ bs /\
    (forall st x xe poll dev d,
       Evl.xs_heap (r_ext st) !! x = Some xe -> Evl.xb_reader xe = true -> 0 <= sk_fd (Evl.xb_dev xe) -> 0 < poll ->
       sys_recv (Evl.xb_dev xe) (r_max_msg_size st) = (zlen bs, bs, dev) -> send_ok st d ->
       con_tx (Evl.reader_iter x false poll st).2 d
       = con_tx st d ++ if decide (r_registry st !! dest (header m) ≫= route_con = Some d) then wire else []) /\
    (forall (a : @Mailbox TimsBackend) (visitor : P -> @WireMessage V -> S -> S) max timeout hdrs rest s,
       connected a -> (forall n ms, 0 < tb_poll (tims_ a) n ms) -> Forall skipped hdrs ->
       sk_rx (socket_of a) = concat (map encode_frame hdrs) ++ wire ++ rest -> zlen (ser t m) <= max ->
       exists received a',
         arrived defs ser t m (Msg.src (header m)) (dest (header m)) received /\
         receive_any_for defs des max visitor timeout s a = ((None, visitor t received s), a') /\
         sk_rx (socket_of a') = rest /\ connected a').
Proof.
  intros Hcodec Hasc Hreg Hok Hrun Ho Honly Hto Hfit Hlen.
  destruct (typed_sent defs ser des (S := S) (B' := TimsBackend) t m to b)
    as (f&bs&h&Hf&(Hbs&Hpos&Hh&_&_&_&Hdest&Hsrc)&Hacc&Hsent); auto.
  { rewrite Ho. apply Honly. }
  destruct (send_to_xbuf o to bs Honly) as (o'&Es&Ho'); [lia|]. rewrite Ho, Es in Hsent.
  destruct (Hsent eq_refl) as [E1 E2]. cbn [snd] in E2.
  set (hdr := make_frame 0 (dest (header m)) (Msg.src (header m)) 0 0 (zlen bs)).
  exists f, bs, (encode_frame hdr ++ bs), o'. split_and!; try done.
  - intros st x xe poll dev d Hx Hrd Hfd Hpoll Hrecv Hd.
    destruct (xbuf_to_tcp x xe poll st (zlen bs) bs dev) as [_ Hcons]; [done..|lia|].
    rewrite (Hcons d Hd).
    change (Evl.wire_src bs) with (Msg.src (read_header bs)).
    change (Evl.wire_dest bs) with (dest (read_header bs)). rewrite Hh, Hsrc, Hdest. fold hdr.
    f_equal. apply decide_ext. pose proof (codec_size _ _ Hcodec t m). unfold Evl.sizeof_WireHeader. intuition lia.
  - intros a visitor max timeout hdrs rest s Ha Hpolls Hskip Hrx Hmax.
    destruct Hok as (_&_&_&_&Hd&Hs&_).
    assert (u32 (zlen bs) = zlen bs) as Hu by (apply wrapu_id; unfold in_u; lia).
    destruct (typed_received swap defs ser des t m bs hdr a visitor max timeout hdrs rest s)
      as (received&a'&Hall); auto; [lia| | |by exists received, a'].
    + apply make_frame_wf; auto; try (by apply (wrapu_range 8)); by_compute.
    + cbn [hdr f_msglen make_frame]. unfold sizeof_FrameHeader. apply wrapu_id. unfold in_u. lia.
Qed.
End bridge.

(** ** Witnesses *)

(** Public mailbox 70, with [rx] to be read from its xbuf. *)
Definition sample_public (rx : bytes) : PublicObject :=
  mkPO (mkPM (public_config 70) true None (sock_of_fd 9 rx [] []) false 0 0 (new_cache 2)) no_shm
    (mkPK Mapped true None yes 1 [FromXbuf] (-110) eq_refl).

Definition public_node (rx : bytes) : @Mailbox PublicBackend :=
  mkMailbox (mkMC 70 10 4096 10 false true false 0 [] 0 16) (Some (sample_public rx)) true.

Lemma sample_public_ready bs max : zlen bs <= max -> xbuf_ready (sample_public bs) max bs.
Proof.
  intros Hmax. split_and!; [done|done|done|by eexists|]. unfold sys_recv. cbn.
  rewrite Z.min_r by done. unfold zlen. rewrite Nat2Z.id, take_ge by done. by eexists.
Qed.

(** Mailbox 10 sends a message with 10 and 20 in its header to mailbox 70. *)
Lemma typed_message_to_evl_witness :
  exists f bs, send (H := tims_backend id) sample_defs bool_ser 8%nat EndToEnd.sample_message 70 = Some f /\
    (f (sample_node 10 [])).1.1 = None /\
    exists b', receive_any_for (H := public_backend) sample_defs bool_des 4096
      (fun t m _ => Some (t, payload m, Msg.src (header m), dest (header m))) 0 None (public_node bs)
    = ((None, Some (8%nat, true, 10, 20)), b').
Proof.
  destruct (typed_message_to_evl id sample_defs bool_ser bool_des (S := option (nat * bool * Z * Z))
    8%nat EndToEnd.sample_message 70 (sample_node 10 [])) as (f&bs&wire&Hf&Hs&Hl&_&_&Hr).
  - exact bool_codec.
  - vm_compute. reflexivity.
  - vm_compute. reflexivity.
  - by_compute.
  - by_compute.
  - vm_compute. discriminate.
  - vm_compute. reflexivity.
  - by_compute.
  - by_compute.
  - discriminate.
  - exists f, bs. split; [exact Hf|]. split; [exact Hs|].
    destruct (Hr (public_node bs) (sample_public bs)
      (fun t m _ => Some (t, payload m, Msg.src (header m), dest (header m))) 4096 0 None)
      as (m&b'&(Hp&_&_&_&Hd&Hsrc)&Hany).
    + reflexivity.
    + reflexivity.
    + apply sample_public_ready. rewrite Hl. vm_compute. discriminate.
    + discriminate.
    + exists b'. etrans; [exact Hany|]. cbn beta. rewrite Hp, Hsrc, Hd. reflexivity.
Defined.

(** Mailbox 70 sends the same message to mailbox 21: it goes to 20. *)
Lemma typed_message_from_evl_witness :
  exists f wire, send (H := public_backend) sample_defs bool_ser 8%nat EndToEnd.sample_message 21 = Some f /\
    (f (public_node [])).1.1 = None /\
    exists a', receive_any_for (H := tims_backend id) sample_defs bool_des 4096
      (fun t m _ => Some (t, payload m, dest (header m))) 0 None (sample_node 20 wire)
    = ((None, Some (8%nat, true, 20)), a').
Proof.
  destruct (typed_message_from_evl id id_length sample_defs bool_ser bool_des (S := option (nat * bool * Z))
    8%nat EndToEnd.sample_message 21 (public_node []) (sample_public [])) as (f&bs&wire&o'&Hf&Hs&_&_&_&_&Hr).
  - exact bool_codec.
  - vm_compute. reflexivity.
  - vm_compute. reflexivity.
  - by_compute.
  - reflexivity.
  - reflexivity.
  - split; [reflexivity|]. split; [discriminate|]. split; [reflexivity|].
    vm_compute. reflexivity.
  - discriminate.
  - vm_compute. discriminate.
  - vm_compute. reflexivity.
  - exists f, wire. split; [exact Hf|]. split; [exact Hs|].
    destruct (Hr (sample_node 20 wire) (fun t m _ => Some (t, payload m, dest (header m))) 4096 0 [] [] None)
      as (m&a'&(Hp&_&_&_&Hd&_)&Hany&_).
    + split; [reflexivity|]. split; [reflexivity|].
      repeat split; try (vm_compute; discriminate); constructor.
    + intros n ms. reflexivity.
    + constructor.
    + cbn. by rewrite app_nil_r.
    + vm_compute. discriminate.
    + exists a'. etrans; [exact Hany|]. cbn beta. rewrite Hp, Hd. reflexivity.
Defined.
