(* ===== verification/MachineTyped.v ===== *)
(** * Typed messages between processes

    The way of a typed message between two public EVL mailboxes of a machine,
    through the shared memory of EvlMachine.v; the backend is that of
    BridgeTyped.v. *)

From Stdlib Require Import ZArith Lia.
From stdpp Require Import base list gmap sets numbers.
From S2P Require Import Prelude Protocol TcpSocket IpcTypes TimsMailbox EvlRegistry EvlRing EvlMailbox EvlRemote EvlMachine MessageId MessageRegistry Mailbox EndToEnd BridgeTyped.

#[local] Open Scope Z_scope.

Import Ring Remote Machine Msg MsgReg Mbx.

#[local] Existing Instance public_backend.
#[local] Existing Instance public_backend_spec.

(** C26. A typed message between two processes of a machine.  In every state that
    the mailboxes reach by runs as those of EvlMachine.v (one size per id, priorities
    above -128, no failed mapping), [send] succeeds if the receiver is idle, the
    sender can open its ring and keeps no handle to a former ring of that id, the
    priority configured at the sender is above -128, and the message fits the
    sender's limit and the receiver's slots; and the next receive of that mailbox,
    if the message fits its buffer, calls the visitor once, under the type that was
    sent, with the payload, the timestamp and the size of the message and the ids of
    both mailboxes.  (With a handle to a former ring only, the message misses the
    receiver: EvlMachine.v.) *)
Theorem typed_message_across_processes size es m0 {P} `{EqDecision P} {V S : Type} (defs : list (MessageDefinition P))
    ser des (t : P) (m : @WireMessage V) (a : @Mailbox PublicBackend) k b kt tb ker :
  sizes_ok size -> Forall (consistent size) es -> run es no_machine = Some m0 ->
  codec_laws ser des -> ascending [] defs = true -> is_registered t defs = true -> header_ok (header m) ->
  m_boxes m0 !! k = Some b -> m_boxes m0 !! kt = Some tb -> k <> kt ->
  can_reach m0 (pk_open ker) tb -> no_stale_handle b tb ->
  pm_created b = true -> running_ a = true -> tims_ a = Some (mkPO b (m_shm m0) ker) -> pm_id tb <> 0 ->
  INT8_MIN < s8 (cfg_priority (pm_config b)) ->
  zlen (ser t m) <= cfg_max_msg_size (pm_config b) -> zlen (ser t m) <= size (pm_id tb) ->
  exists f bs m1 b1, Mbx.send defs ser t m (pm_id tb) = Some f /\ (f a).1.1 = None /\
    step (Send k (pk_open ker) bs (pm_id tb) (s8 (cfg_priority (pm_config b)))) m0 = Some m1 /\
    tims_ (f a).2 = Some (mkPO b1 (m_shm m1) ker) /\ m_boxes m1 !! k = Some b1 /\ m_boxes m1 !! kt = Some tb /\
    forall (r : @Mailbox PublicBackend) kr (visitor : P -> @WireMessage V -> S -> S) max timeout s,
      running_ r = true -> tims_ r = Some (mkPO tb (m_shm m1) kr) -> pk_poll kr = 1 -> pk_events kr = [FromRing] ->
      zlen (ser t m) <= max ->
      exists received r' m2 b2, arrived defs ser t m (pm_id b) (pm_id tb) received /\
        receive_any_for defs des max visitor timeout s r = ((None, visitor t received s), r') /\
        step (Receive kt 1 [FromRing] max timeout (pk_wait kr)) m1 = Some m2 /\
        tims_ r' = Some (mkPO b2 (m_shm m2) kr) /\ m_boxes m2 !! kt = Some b2.
Proof.
  intros Hsz Hes Hrun Hcodec Hasc Hreg Hok Hk Hkt Hne Hreach Hstale Hc Hrunning Ha Hid Hprio Hfit Hslot.
  destruct (run_ok size ∅ no_machine es Hsz Hes (no_machine_ok size)) as (ids&m0'&Hrun'&Hm).
  rewrite Hrun in Hrun'. injection Hrun' as <-. pose proof (mo_boxes _ _ _ Hm kt tb Hkt) as Ht.
  destruct (typed_sent (B' := PublicBackend) defs ser des (S := S) t m (pm_id tb) a)
    as (f&bs&h&Hf&(Hbs&Hpos&_)&Hacc&Hsent); auto.
  { by rewrite Ha. }
  destruct (send_arrives size ids m0 k b tb (pk_open ker) bs (s8 (cfg_priority (pm_config b))))
    as (b1&seg&r1&Hbase&Hwf&Hcap&Hsize&Hms&Es&Hstep); [done..|lia|by apply (wraps_range 8)|].
  assert (be_send_raw bs (pm_id tb) (tims_ a) = (SUCCESS, Some (mkPO b1
    (mkShm (shm_names (m_shm m0)) (<[seg := r1]> (shm_segs (m_shm m0)))) ker))) as Ebe.
  { rewrite Ha. cbn. by rewrite Es. }
  rewrite Ebe in Hsent. destruct (Hsent eq_refl) as [Ef Ef'].
  match type of Hstep with _ = Some ?m1 => exists f, bs, m1, b1 end. do 2 (split; [done|]). split; [exact Hstep|]. split; [done|].
  split; [apply lookup_insert_eq|]. split; [cbn; by rewrite lookup_insert_ne|].
  intros r kr visitor max timeout s Hr Htr Hpoll Hev Hmax.
  assert (take (Z.to_nat (size (pm_id tb))) bs = bs) as Etake by (apply take_ge; unfold zlen in *; lia).
  rewrite Etake in Hms.
  destruct (idle_receive_public size (mkShm (shm_names (m_shm m0)) (<[seg := r1]> (shm_segs (m_shm m0)))) tb seg r1
    (mkMsg (s8 (cfg_priority (pm_config b))) (pm_id b) bs) max timeout (pk_wait kr)) as (meta&b2&shm2&Er&Hsrc&Hdest);
    [done|apply (bo_size _ _ _ Ht)|apply Hreach|done|apply lookup_insert_eq|done..|cbn; lia|].
  cbn [msg_data msg_src] in *.
  destruct (Hacc r visitor max timeout s (zlen bs) (Some meta) (Some (mkPO b2 shm2 kr))) as (md&received&[= <-]&Harr&Hany);
    [done|lia|done| |].
  { rewrite Htr. cbn. by rewrite Hpoll, Hev, Er. }
  rewrite Hsrc, Hdest in Harr. eexists received, _, _, b2. split; [exact Harr|]. split; [exact Hany|].
  split; [|split].
  - cbn. rewrite lookup_insert_ne, Hkt by done. rewrite Er. reflexivity.
  - reflexivity.
  - apply lookup_insert_eq.
Qed.

(** ** Witness: mailbox 10 sends a message of type 8 to mailbox 20. *)

Definition two_boxes : list event :=
  [Create 0 (Machine.config_of 10 64); Create 1 (Machine.config_of 20 64); Initialize 0 Mapped true (Some sample_xbuf);
   Initialize 1 Mapped true (Some sample_xbuf)].

Definition two_machine : Machine := default no_machine (run two_boxes no_machine).
Definition two_box (k : nat) : PublicMailbox := default (new_public (Machine.config_of 0 0)) (m_boxes two_machine !! k).
Definition ring_kernel : PublicKernel := mkPK Mapped true None yes 1 [FromRing] (-110) eq_refl.

Definition public_object (k : nat) (shm : Shm) : @Mailbox PublicBackend :=
  mkMailbox Mbx.sample_config (Some (mkPO (two_box k) shm ring_kernel)) true.

Lemma typed_message_across_processes_witness :
  exists f m1, Mbx.send sample_defs bool_ser 8%nat EndToEnd.sample_message 20 = Some f /\
    (f (public_object 0 (m_shm two_machine))).1.1 = None /\
    exists r', receive_any_for sample_defs bool_des 64 (fun t m _ => Some (t, payload m, Msg.src (header m))) 0 None
      (public_object 1 (m_shm m1)) = ((None, Some (8%nat, true, 10)), r').
Proof.
  destruct (typed_message_across_processes (fun _ => 64) two_boxes two_machine (S := option (nat * bool * Z)) sample_defs
    bool_ser bool_des 8%nat EndToEnd.sample_message (public_object 0 (m_shm two_machine)) 0 (two_box 0) 1 (two_box 1) ring_kernel)
    as (f&bs&m1&b1&Hf&Hs&_&_&_&_&Hr).
  - intros id. by_compute.
  - repeat constructor; (done || discriminate).
  - vm_compute. reflexivity.
  - exact bool_codec.
  - vm_compute. reflexivity.
  - vm_compute. reflexivity.
  - by_compute.
  - vm_compute. reflexivity.
  - vm_compute. reflexivity.
  - done.
  - split; [vm_compute; reflexivity| |reflexivity].
    exists (default 0%nat (pm_shm_base (two_box 1))),
      (default (allocate_ring 0 0) (shm_segs (m_shm two_machine) !! default 0%nat (pm_shm_base (two_box 1)))).
    split_and!; vm_compute; reflexivity.
  - repeat constructor.
  - vm_compute. reflexivity.
  - reflexivity.
  - reflexivity.
  - vm_compute. discriminate.
  - by_compute.
  - by_compute.
  - by_compute.
  - exists f, m1. split; [exact Hf|]. split; [exact Hs|].
    destruct (Hr (public_object 1 (m_shm m1)) ring_kernel (fun t m _ => Some (t, payload m, Msg.src (header m))) 64 0 None)
      as (received&r'&m2&b2&(Hp&_&_&_&_&Hsrc)&Hany&_); try reflexivity.
    + vm_compute. discriminate.
    + exists r'. etrans; [exact Hany|]. cbn beta. rewrite Hp, Hsrc. reflexivity.
Defined.
